(** * TinyGolf: scanline rasterizer, chunk data and ball physics

    A shallow embedding of the parts of [rasterizer.py], [scene.py] and
    [bake_chunk_data.py] that the specification talks about, followed by the
    theorems that relate the specification to the code.

    Conventions of the embedding:
    - a Viper [int] is a signed 32-bit machine word (the target is a 32-bit
      microcontroller); it is a [Z] and every [+], [-], [*] and [<<] the
      source performs on such a word is wrapped by [i32];
    - Python's [//] and [%] are [Z.div] and [Z.modulo] (both floor), [>>] is
      [Z.shiftr] (arithmetic), [&], [|], [^] are [Z.land], [Z.lor], [Z.lxor];
    - an [array] or a raw pointer is a [list Z] read with [!!] and written
      with [<[ _ := _ ]>];
    - a method that can raise returns an [outcome], which keeps the state
      reached when the exception left the method. *)

From Stdlib Require Import ZArith Lia Bool String DecimalString.
From stdpp Require Import base list.

Local Open Scope Z_scope.

(** ** Machine words *)

(** Wrap-around of a signed 32-bit Viper integer. *)
Definition i32 (z : Z) : Z := (z + 0x80000000) mod 0x100000000 - 0x80000000.

Declare Scope i32_scope.
Delimit Scope i32_scope with i32.
Notation "a +! b" := (i32 (a + b)) (at level 50, left associativity) : Z_scope.
Notation "a -! b" := (i32 (a - b)) (at level 50, left associativity) : Z_scope.
Notation "a *! b" := (i32 (a * b)) (at level 40, left associativity) : Z_scope.
Notation "a <<! n" := (i32 (Z.shiftl a n)) (at level 35, no associativity) : Z_scope.

(** Python's [bool(x)] and [str(x)] of an integer. *)
Definition truthy (z : Z) : bool := negb (z =? 0).
Definition str_of_int (z : Z) : string := NilZero.string_of_int (Z.to_int z).

(** ** Rasterized lines ([rasterizer.py]) *)

Definition RL_FLAG_BIT_SCANLINE_HAS_ENDPOINT : Z := 0x1.
Definition RL_FLAG_BIT_DELTA_P_IS_POSITIVE : Z := 0x2.
Definition RL_FLAG_BIT_IS_PAST_EXIT : Z := 0x4.
Definition RL_FLAG_BIT_A_M_IS_A_P : Z := 0x8.
Definition RL_FLAG_BIT_CORRECT_ENDPOINTS : Z := 0x10.
Definition RL_FLAG_SHIFT_MASK_LAYER : Z := 5.
Definition RL_FLAG_ALL_BITS : Z := 0x1ff.

Definition RL_SP_BIAS : Z := 0x4000.
Definition RL_P_E_DONT_CORRECT : Z := 0x00007fff.
Definition RL_NUM_REGIONS : Z := 8.
Definition RL_REGION_UNUSED : Z := RL_NUM_REGIONS.

(** The eight 32-bit fields of one rasterized line, named after the index
    constants [I_RL_*] of the source. *)
Record RL : Type := mkRL {
  I_RL_SP : Z;          (* high 16: s; low 16: p *)
  I_RL_SP_B : Z;        (* high 16: s_b; low 16: p_b *)
  I_RL_SP_E : Z;        (* high 16: s_e; low 16: p_e *)
  I_RL_A : Z;
  I_RL_FLAGS : Z;
  I_RL_A_S_A_P : Z;     (* high 16: a_s; low 16: a_p *)
  I_RL_REGION_0_1 : Z;  (* high 16: r0; low 16: r1 *)
  I_RL_PAYLOAD_0_1 : Z  (* high 16: p0; low 16: p1 *)
}.

Definition set_SP (rl : RL) (v : Z) : RL :=
  mkRL v (I_RL_SP_B rl) (I_RL_SP_E rl) (I_RL_A rl) (I_RL_FLAGS rl)
       (I_RL_A_S_A_P rl) (I_RL_REGION_0_1 rl) (I_RL_PAYLOAD_0_1 rl).
Definition set_A (rl : RL) (v : Z) : RL :=
  mkRL (I_RL_SP rl) (I_RL_SP_B rl) (I_RL_SP_E rl) v (I_RL_FLAGS rl)
       (I_RL_A_S_A_P rl) (I_RL_REGION_0_1 rl) (I_RL_PAYLOAD_0_1 rl).
Definition set_FLAGS (rl : RL) (v : Z) : RL :=
  mkRL (I_RL_SP rl) (I_RL_SP_B rl) (I_RL_SP_E rl) (I_RL_A rl) v
       (I_RL_A_S_A_P rl) (I_RL_REGION_0_1 rl) (I_RL_PAYLOAD_0_1 rl).

(** [bool(rl[I_RL_FLAGS] & bit)] *)
Definition rl_flag (rl : RL) (bit : Z) : bool :=
  truthy (Z.land (I_RL_FLAGS rl) bit).

(** The working values [rl_init] computes by cases before it packs them. *)
Record rl_case : Type := mkCase {
  c_p : Z; c_a : Z; c_a_s : Z; c_a_p : Z;
  c_a_m_is_a_p : bool; c_correct_endpoints : bool; c_p_e : Z
}.

Definition rl_init_case (s_b p_b s_e p_e : Z) (is_past_exit : bool)
  : bool * rl_case :=
  let d_s := s_e -! s_b in
  let d_p0 := p_e -! p_b in
  let delta_p_is_positive := negb (d_p0 <? 0) in
  let d_p := if d_p0 <? 0 then 0 -! d_p0 else d_p0 in
  let is_steep := d_s <? d_p in
  (delta_p_is_positive,
   if d_s =? 0 then
     (* parallel to the scanline *)
     let p :=
       if is_past_exit
       then (if p_b <? p_e then p_e else p_b) +! 1
       else (if p_e <? p_b then p_e else p_b) in
     mkCase p 0 0 0 true false p_e
   else if is_steep then
     let p := if delta_p_is_positive then p_b else p_b +! 1 in
     let a := d_p in
     let a_s := 2 *! d_p in
     let a_p := 2 *! d_s in
     if (delta_p_is_positive && is_past_exit)
        || (negb delta_p_is_positive && negb is_past_exit)
     then
       let num_steps_p := (a / a_p) +! 1 in
       let a := a +! (a_s -! num_steps_p *! a_p) in
       if delta_p_is_positive
       then mkCase (p +! num_steps_p) a a_s a_p false true (p_e +! 1)
       else mkCase (p -! num_steps_p) a a_s a_p false true p_e
     else mkCase p a a_s a_p false false RL_P_E_DONT_CORRECT
   else
     let p := if is_past_exit then p_b +! 1 else p_b in
     mkCase p d_s (2 *! d_p) (2 *! d_s) true false RL_P_E_DONT_CORRECT).

(** The block of [rl_init] under the comment "Pack flags". *)
Definition rl_pack_flags (delta_p_is_positive is_past_exit a_m_is_a_p
                          correct_endpoints : bool) (mask_layer : Z) : Z :=
  let flags := RL_FLAG_BIT_SCANLINE_HAS_ENDPOINT in  (* always true upon init *)
  let flags := if delta_p_is_positive
               then Z.lor flags RL_FLAG_BIT_DELTA_P_IS_POSITIVE else flags in
  let flags := if is_past_exit
               then Z.lor flags RL_FLAG_BIT_IS_PAST_EXIT else flags in
  let flags := if a_m_is_a_p
               then Z.lor flags RL_FLAG_BIT_A_M_IS_A_P else flags in
  let flags := if correct_endpoints
               then Z.lor flags RL_FLAG_BIT_CORRECT_ENDPOINTS else flags in
  Z.lor flags (mask_layer <<! RL_FLAG_SHIFT_MASK_LAYER).

Definition rl_init (s_b p_b s_e p_e region0 region1 payload0 payload1
                    mask_layer : Z) (is_past_exit : bool) : RL :=
  let '(delta_p_is_positive, c) := rl_init_case s_b p_b s_e p_e is_past_exit in
  let flags := rl_pack_flags delta_p_is_positive is_past_exit (c_a_m_is_a_p c)
                 (c_correct_endpoints c) mask_layer in
  (* write the calculated values *)
  let sp := Z.lor (s_b <<! 16) (c_p c) in
  mkRL sp sp
       (Z.lor (s_e <<! 16) (c_p_e c))
       (c_a c)
       flags
       (Z.lor (c_a_s c <<! 16) (c_a_p c))
       (Z.lor (region0 <<! 16) region1)
       (Z.lor (payload0 <<! 16) payload1).

(** [(rl[I_RL_SP] ^ rl[I_RL_SP_E]) < 0x10000], the source's test for
    [s == s_e]. *)
Definition rl_at_s_e (rl : RL) : bool :=
  Z.lxor (I_RL_SP rl) (I_RL_SP_E rl) <? 0x10000.

(** The part [rl_seek_s_to] and [rl_increment_s] share word for word: step
    [p] as often as the accumulated [a] asks for. *)
Definition rl_step_p (rl : RL) (a_m a_p : Z) : RL :=
  if a_m <=? I_RL_A rl then
    let num_steps_p := ((I_RL_A rl -! a_m) / a_p) +! 1 in
    let rl := set_A rl (I_RL_A rl -! num_steps_p *! a_p) in
    if rl_flag rl RL_FLAG_BIT_DELTA_P_IS_POSITIVE
    then set_SP rl (I_RL_SP rl +! num_steps_p)
    else set_SP rl (I_RL_SP rl -! num_steps_p)
  else rl.

(** Likewise shared: the updates that depend on being at [s_e] or not. *)
Definition rl_mark_endpoint (rl : RL) (at_s_e : bool) : RL :=
  if at_s_e then
    let rl := set_FLAGS rl
                (Z.lor (I_RL_FLAGS rl) RL_FLAG_BIT_SCANLINE_HAS_ENDPOINT) in
    if rl_flag rl RL_FLAG_BIT_CORRECT_ENDPOINTS
    then set_SP rl (I_RL_SP_E rl) else rl
  else
    set_FLAGS rl
      (Z.land (I_RL_FLAGS rl)
         (Z.lxor RL_FLAG_ALL_BITS RL_FLAG_BIT_SCANLINE_HAS_ENDPOINT)).

Definition rl_increment_s (rl : RL) : RL :=
  if rl_at_s_e rl then rl else
  let a_s := Z.shiftr (I_RL_A_S_A_P rl) 16 in
  let a_p := Z.land (I_RL_A_S_A_P rl) 0xffff in
  let a_m := if rl_flag rl RL_FLAG_BIT_A_M_IS_A_P then a_p else a_s in
  let rl := set_A rl (I_RL_A rl +! a_s) in
  let rl := set_SP rl (I_RL_SP rl +! 0x10000) in
  let rl := rl_step_p rl a_m a_p in
  rl_mark_endpoint rl (rl_at_s_e rl).

(** The block of [rl_seek_s_to] under "Reset rl to state it had after
    rl_init if seeking backwards". *)
Definition rl_reset (rl : RL) (a_m a_s a_p : Z) : RL :=
  let rl := set_SP rl (I_RL_SP_B rl) in
  let rl := set_FLAGS rl (Z.lor (I_RL_FLAGS rl)
                            RL_FLAG_BIT_SCANLINE_HAS_ENDPOINT) in
  (* the initial a, corrected if needed *)
  let rl := set_A rl (Z.shiftr a_m 1) in
  if rl_flag rl RL_FLAG_BIT_CORRECT_ENDPOINTS then
    let n_p := (I_RL_A rl / a_p) +! 1 in
    set_A rl (I_RL_A rl +! (a_s -! n_p *! a_p))
  else rl.

(** The block of [rl_seek_s_to] under "Now rl is consistent for some
    s <= s_after <= s_e. Advance rl if needed." *)
Definition rl_advance (rl : RL) (s_after s_e a_m a_s a_p : Z) : RL :=
  let s_before := Z.shiftr (I_RL_SP rl) 16 in
  if s_before <? s_after then
    let num_steps_s := s_after -! s_before in
    let rl := set_A rl (I_RL_A rl +! num_steps_s *! a_s) in
    let rl := set_SP rl (I_RL_SP rl +! (num_steps_s <<! 16)) in
    let rl := rl_step_p rl a_m a_p in
    rl_mark_endpoint rl (s_after =? s_e)
  else rl.

Definition rl_seek_s_to (rl : RL) (s_after : Z) : RL :=
  let s_e := Z.shiftr (I_RL_SP_E rl) 16 in
  (* do nothing if trying to seek past scanline s_e *)
  if s_e <? s_after then rl else
  (* don't seek to before s_b *)
  let s_b := Z.shiftr (I_RL_SP_B rl) 16 in
  let s_after := if s_after <? s_b then s_b else s_after in
  let a_s := Z.shiftr (I_RL_A_S_A_P rl) 16 in
  let a_p := Z.land (I_RL_A_S_A_P rl) 0xffff in
  let a_m := if rl_flag rl RL_FLAG_BIT_A_M_IS_A_P then a_p else a_s in
  let rl :=
    if s_after <? Z.shiftr (I_RL_SP rl) 16
    then rl_reset rl a_m a_s a_p else rl in
  rl_advance rl s_after s_e a_m a_s a_p.

(** ** Outcomes of stateful code

    A method of one of the classes runs on the state of its object and on
    the console; it returns a value or raises, and in both cases leaves a
    state and a console behind. *)

Inductive exn : Type :=
| RuntimeError (msg : string)
| IndexError
| ZeroDivisionError
| OverflowError.

Inductive outcome (S A : Type) : Type :=
| Returns (a : A) (s : S) (console : list string)
| Raises (e : exn) (s : S) (console : list string).
Arguments Returns {S A} a s console.
Arguments Raises {S A} e s console.

Definition M (S A : Type) : Type := S -> list string -> outcome S A.

Definition ret {S A : Type} (a : A) : M S A := fun s c => Returns a s c.
Definition bind {S A B : Type} (m : M S A) (k : A -> M S B) : M S B :=
  fun s c =>
    match m s c with
    | Returns a s' c' => k a s' c'
    | Raises e s' c' => Raises e s' c'
    end.
Definition raise {S A : Type} (e : exn) : M S A := fun s c => Raises e s c.
Definition get {S : Type} : M S S := fun s c => Returns s s c.
Definition put {S : Type} (s : S) : M S unit := fun _ c => Returns tt s c.
Definition modify {S : Type} (f : S -> S) : M S unit :=
  fun s c => Returns tt (f s) c.
Definition print {S : Type} (line : string) : M S unit :=
  fun s c => Returns tt s (c ++ [line]).

Notation "x <- m ;; k" := (bind m (fun x => k))
  (at level 100, m at level 99, right associativity).
Notation "m ;;; k" := (bind m (fun _ => k))
  (at level 100, right associativity).

(** Run a method of a part of the state on that part. *)
Definition focus {S T A : Type} (proj : S -> T) (upd : S -> T -> S)
    (m : M T A) : M S A :=
  fun s c =>
    match m (proj s) c with
    | Returns a t c' => Returns a (upd s t) c'
    | Raises e t c' => Raises e (upd s t) c'
    end.

(** ** Arrays and raw pointers *)

(** An unchecked read or write through a Viper pointer. Inside the buffer
    it is the list cell; outside it touches memory the model does not
    hold: a read gives 0 and a write is dropped. *)
Definition peek (a : list Z) (i : Z) : Z :=
  if i <? 0 then 0 else default 0 (a !! Z.to_nat i).
Definition poke (a : list Z) (i : Z) (v : Z) : list Z :=
  if i <? 0 then a else <[Z.to_nat i := v]> a.

(** The index a Python subscript [a[i]] reads, if any: negative indices
    count from the end, anything else out of range is an [IndexError]. *)
Definition py_index (len i : Z) : option nat :=
  if (0 <=? i) && (i <? len) then Some (Z.to_nat i)
  else if (- len <=? i) && (i <? 0) then Some (Z.to_nat (len + i))
  else None.

(** ** The scanline rasterizer ([rasterizer.py]) *)

Definition PB_MAX_PIXELS : Z := 1024.
Definition SR_MAX_NUM_RL : Z := 512.
Definition SR_BUFFER_TYPE_DISPLAY : Z := 0.
Definition SR_BUFFER_TYPE_PAYLOAD : Z := 1.

(** [arr_ptr_rl_sorted] is kept as the RL each of its pointers leads to:
    the pointers are distinct, so swapping two pointers swaps two entries
    and a write through pointer [i] changes entry [i]. The two fill
    arrays are the module-level byte arrays the rasterizer was built
    over. *)
Record ScanlineRasterizer : Type := mkSR {
  num_rl : Z;
  arr_ptr_rl_sorted : list RL;
  arr_region_insideness : list Z;
  arr_region_payload : list Z;
  arr_region_fill0 : list Z;
  arr_region_fill1 : list Z
}.

Definition sr_set_num_rl (sr : ScanlineRasterizer) (n : Z) :=
  mkSR n (arr_ptr_rl_sorted sr) (arr_region_insideness sr)
       (arr_region_payload sr) (arr_region_fill0 sr) (arr_region_fill1 sr).
Definition sr_set_rl (sr : ScanlineRasterizer) (rls : list RL) :=
  mkSR (num_rl sr) rls (arr_region_insideness sr)
       (arr_region_payload sr) (arr_region_fill0 sr) (arr_region_fill1 sr).
Definition sr_set_regions (sr : ScanlineRasterizer) (ins pay : list Z) :=
  mkSR (num_rl sr) (arr_ptr_rl_sorted sr) ins pay
       (arr_region_fill0 sr) (arr_region_fill1 sr).

(** [__init__]: the shards are [array('l', range(256))], 32 RL each. *)
Definition sr_init (arr_region_fill0 arr_region_fill1 : list Z)
  : ScanlineRasterizer :=
  mkSR 0
    (map (fun i : nat =>
            let b := Z.of_nat (8 * (i mod 32)) in
            mkRL b (b + 1) (b + 2) (b + 3) (b + 4) (b + 5) (b + 6) (b + 7))
         (seq 0 512))
    (replicate 9 0) (replicate 9 0)
    arr_region_fill0 arr_region_fill1.

Definition clear_edges : M ScanlineRasterizer unit :=
  sr <- get ;; put (sr_set_num_rl sr 0).

Definition set_num_rl (n : Z) : M ScanlineRasterizer unit :=
  sr <- get ;; put (sr_set_num_rl sr n).

(** Returns the slot of [arr_ptr_rl_sorted] whose pointer the source
    returns. *)
Definition _allocate_rl : M ScanlineRasterizer nat :=
  sr <- get ;;
  let n := num_rl sr in
  n <- (if n =? SR_MAX_NUM_RL
        then print "allocating too many rl" ;;; ret (n -! 1)
        else ret n) ;;
  set_num_rl (n +! 1) ;;;
  match py_index (Z.of_nat (length (arr_ptr_rl_sorted sr))) n with
  | Some slot => ret slot
  | None => raise IndexError
  end.

(** A write of all eight fields through the pointer of a slot. *)
Definition store_rl (slot : nat) (rl : RL) : M ScanlineRasterizer unit :=
  sr <- get ;; put (sr_set_rl sr (<[slot := rl]> (arr_ptr_rl_sorted sr))).

Definition add_edge_line_fill (x_b y_b x_e y_e region_line region_fill
    payload_line payload_fill mask_layer : Z) : M ScanlineRasterizer unit :=
  let s_b := x_b +! RL_SP_BIAS in
  let p_b := y_b +! RL_SP_BIAS in
  let s_e := x_e +! RL_SP_BIAS in
  let p_e := y_e +! RL_SP_BIAS in
  let region_unused := RL_REGION_UNUSED in
  let has_line := negb (region_line =? region_unused) in
  (* line orientation; endpoint order normalized for rl_init *)
  let is_single_scanline := s_e =? s_b in
  let winding_is_past_exit := s_b <? s_e in
  let '(s_b, s_e, p_b, p_e) :=
    if winding_is_past_exit then (s_b, s_e, p_b, p_e)
    else (s_e, s_b, p_e, p_b) in
  (* the enter rl *)
  let '(need_enter, region_fill_enter) :=
    if is_single_scanline || negb winding_is_past_exit
    then (true, region_fill) else (has_line, region_unused) in
  (if need_enter then
     rl_enter <- _allocate_rl ;;
     store_rl rl_enter
       (rl_init s_b p_b s_e p_e region_line region_fill_enter payload_line
          payload_fill mask_layer false)
   else ret tt) ;;;
  (* the past-exit rl *)
  let '(need_past_exit, region_fill_past_exit) :=
    if is_single_scanline || winding_is_past_exit
    then (true, region_fill) else (has_line, region_unused) in
  if need_past_exit then
    rl_past_exit <- _allocate_rl ;;
    store_rl rl_past_exit
      (rl_init s_b p_b s_e p_e region_line region_fill_past_exit payload_line
         payload_fill mask_layer true)
  else ret tt.
(** *** Filling a column of the display *)

(** A store through a [ptr8] or a [ptr16] keeps the low bits. *)
Definition store8 (v : Z) : Z := Z.land v 0xff.
Definition store16 (v : Z) : Z := Z.land v 0xffff.

(** [buf[i] |= m] on a byte buffer. *)
Definition or8 (buf : list Z) (i m : Z) : list Z :=
  poke buf i (store8 (Z.lor (peek buf i) m)).

Fixpoint fill_middle (fuel : nat) (buf0 buf1 : list Z)
    (i i_last width fill_mask0 fill_mask1 : Z) : list Z * list Z * Z :=
  match fuel with
  | O => (buf0, buf1, i)
  | S fuel' =>
      if i <? i_last then
        fill_middle fuel' (poke buf0 i (store8 fill_mask0))
          (poke buf1 i (store8 fill_mask1)) (i +! width) i_last width
          fill_mask0 fill_mask1
      else (buf0, buf1, i)
  end.

Definition fill_or_column_mask_unchecked (buf0 buf1 : list Z)
    (x y0 y1 width fill_mask0 fill_mask1 : Z) : list Z * list Z :=
  let yb0 := Z.shiftr y0 3 in
  let yb1 := Z.shiftr y1 3 in
  let ym0 := Z.land y0 7 in
  let ym1 := Z.land y1 7 in
  let i := x +! width *! yb0 in
  if yb0 =? yb1 then
    (* the fill falls within one byte *)
    let mask := ((1 <<! (ym1 -! ym0 +! 1)) -! 1) <<! ym0 in
    (or8 buf0 i (Z.land mask fill_mask0), or8 buf1 i (Z.land mask fill_mask1))
  else
    (* first byte, fully covered middle bytes, final byte *)
    let mask := (Z.shiftr 0xff ym0) <<! ym0 in
    let buf0 := or8 buf0 i (Z.land mask fill_mask0) in
    let buf1 := or8 buf1 i (Z.land mask fill_mask1) in
    let i_last := x +! width *! yb1 in
    let i := i +! width in
    let '(buf0, buf1, i) :=
      fill_middle (Z.to_nat (yb1 - yb0)) buf0 buf1 i i_last width
        fill_mask0 fill_mask1 in
    let mask := (2 <<! ym1) -! 1 in
    (or8 buf0 i (Z.land mask fill_mask0), or8 buf1 i (Z.land mask fill_mask1)).

(** *** Sorting the pointers by (s, p) *)

Definition rl_null : RL := mkRL 0 0 0 0 0 0 0 0.

(** The RL behind pointer [i] of [arr_ptr_rl_sorted]. *)
Definition rl_get (arr : list RL) (i : nat) : RL := default rl_null (arr !! i).

Definition rl_swap (arr : list RL) (i j : nat) : list RL :=
  <[i := rl_get arr j]> (<[j := rl_get arr i]> arr).

(** The inner [while i_dest > i_begin] of the insertion sort. *)
Fixpoint sort_sift (arr : list RL) (i_dest i_begin : nat) (sp_to_insert : Z)
  : list RL :=
  match i_dest with
  | O => arr
  | S i_prev =>
      if (i_begin <? i_dest)%nat then
        if sp_to_insert <? I_RL_SP (rl_get arr i_prev)
        then sort_sift (rl_swap arr i_prev i_dest) i_prev i_begin sp_to_insert
        else arr
      else arr
  end.

(** The outer [while i_to_insert < i_end]; [n] is [i_end - i_to_insert]. *)
Fixpoint sort_insert (n : nat) (arr : list RL) (i_begin i_to_insert : nat)
    (sp_sorted_max : Z) : list RL :=
  match n with
  | O => arr
  | S n' =>
      let sp_to_insert := I_RL_SP (rl_get arr i_to_insert) in
      if sp_to_insert <? sp_sorted_max then
        let i_dest := (i_to_insert - 1)%nat in
        let arr := rl_swap arr i_dest i_to_insert in
        let arr := sort_sift arr i_dest i_begin sp_to_insert in
        sort_insert n' arr i_begin (S i_to_insert) sp_sorted_max
      else
        sort_insert n' arr i_begin (S i_to_insert) sp_to_insert
  end.

Definition _sort_range_ptr_rl_insertion (arr : list RL) (i_begin i_end : nat)
  : list RL :=
  if (i_end <=? i_begin)%nat then arr else
  sort_insert (i_end - (i_begin + 1)) arr i_begin (i_begin + 1)
    (I_RL_SP (rl_get arr i_begin)).

(** *** The composite scan *)

(** [for i_reg in range(RL_NUM_REGIONS): if arr_region_insideness[i_reg] > 0:
    ...; break]: the region a flushed span is drawn as. *)
Fixpoint first_inside (n : nat) (i_reg : Z) (insideness : list Z) : option Z :=
  match n with
  | O => None
  | S n' =>
      if 0 <? peek insideness i_reg then Some i_reg
      else first_inside n' (i_reg + 1) insideness
  end.

Definition visible_region (insideness : list Z) : option Z :=
  first_inside (Z.to_nat RL_NUM_REGIONS) 0 insideness.

(** [while i_pay < i_pay_end: buf_payload[i_pay] = payload; i_pay += x_dim] *)
Fixpoint fill_payload (fuel : nat) (buf : list Z) (i_pay i_pay_end x_dim
    payload : Z) : list Z :=
  match fuel with
  | O => buf
  | S fuel' =>
      if i_pay <? i_pay_end then
        fill_payload fuel' (poke buf i_pay (store16 payload))
          (i_pay +! x_dim) i_pay_end x_dim payload
      else buf
  end.

(** The working state of one scanline. *)
Record scan : Type := mkScan {
  sc_insideness : list Z;
  sc_payload : list Z;
  sc_buf0 : list Z;
  sc_buf1 : list Z;
  sc_p_span_begin : Z
}.

(** The fixed arguments of one [rasterize_to_buffer] call. *)
Record window : Type := mkWindow {
  w_buffer_is_payload : bool;
  w_mask_layer : Z;
  w_s_first : Z; w_s_last : Z;
  w_p_first : Z; w_p_past_last : Z;
  w_x_dim : Z;
  w_fill0 : list Z; w_fill1 : list Z
}.

(** Flush the span from [p_span_begin] up to [p] on scanline [s]. *)
Definition flush_span (w : window) (sc : scan) (s p : Z) : scan :=
  match visible_region (sc_insideness sc) with
  | None => sc
  | Some i_reg =>
      let x := s -! w_s_first w in
      if w_buffer_is_payload w then
        let y_begin := sc_p_span_begin sc -! w_p_first w in
        let i_pay := x +! y_begin *! w_x_dim w in
        let i_pay_end := i_pay +! (p -! sc_p_span_begin sc) *! w_x_dim w in
        let payload := peek (sc_payload sc) i_reg in
        mkScan (sc_insideness sc) (sc_payload sc)
          (fill_payload (Z.to_nat (p - sc_p_span_begin sc)) (sc_buf0 sc)
             i_pay i_pay_end (w_x_dim w) payload)
          (sc_buf1 sc) (sc_p_span_begin sc)
      else
        let fill_mask0 := peek (w_fill0 w) (8 *! i_reg +! Z.land x 0x7) in
        let fill_mask1 := peek (w_fill1 w) (8 *! i_reg +! Z.land x 0x7) in
        let y0 := sc_p_span_begin sc -! w_p_first w in
        let y1 := p -! 1 -! w_p_first w in
        let '(buf0, buf1) :=
          fill_or_column_mask_unchecked (sc_buf0 sc) (sc_buf1 sc) x y0 y1
            (w_x_dim w) fill_mask0 fill_mask1 in
        mkScan (sc_insideness sc) (sc_payload sc) buf0 buf1
          (sc_p_span_begin sc)
  end.

(** [arr[i] += d] and [arr[i] = v] on the per-region arrays. *)
Definition bump (a : list Z) (i d : Z) : list Z := poke a i (peek a i +! d).

(** The contribution an RL makes to the insideness of its regions. *)
Definition rl_delta_inside (flags : Z) : Z :=
  let is_past_exit := truthy (Z.land flags RL_FLAG_BIT_IS_PAST_EXIT) in
  let at_endpoint :=
    truthy (Z.land flags RL_FLAG_BIT_SCANLINE_HAS_ENDPOINT) in
  let delta_inside := if at_endpoint then 1 else 2 in
  if is_past_exit then 0 -! delta_inside else delta_inside.

(** "Apply this rl's effect on insideness and payload tracking, if rl is in
    any of the layers being drawn". *)
Definition rl_apply_effect (w : window) (rl_in_s : RL) (sc : scan) : scan :=
  let flags := I_RL_FLAGS rl_in_s in
  if truthy (Z.land (Z.shiftr flags RL_FLAG_SHIFT_MASK_LAYER) (w_mask_layer w))
  then
    let is_past_exit := truthy (Z.land flags RL_FLAG_BIT_IS_PAST_EXIT) in
    let delta_inside := rl_delta_inside flags in
    let region_0_1 := I_RL_REGION_0_1 rl_in_s in
    let ins := bump (sc_insideness sc) (Z.shiftr region_0_1 16) delta_inside in
    let ins := bump ins (Z.land region_0_1 0xffff) delta_inside in
    let pay :=
      if w_buffer_is_payload w && negb is_past_exit then
        let payload_0_1 := I_RL_PAYLOAD_0_1 rl_in_s in
        let pay := poke (sc_payload sc) (Z.shiftr region_0_1 16)
                     (Z.shiftr payload_0_1 16) in
        poke pay (Z.land region_0_1 0xffff) (Z.land payload_0_1 0xffff)
      else sc_payload sc in
    mkScan ins pay (sc_buf0 sc) (sc_buf1 sc) (sc_p_span_begin sc)
  else sc.

(** The body of [while i_rl_in_s < i_rl_s_end], without the increment of
    the RL itself. *)
Definition scan_rl (w : window) (s : Z) (rl_in_s : RL) (sc : scan) : scan :=
  let p := Z.land (I_RL_SP rl_in_s) 0xffff in
  let sc :=
    if sc_p_span_begin sc <? p then
      let clamped_span := w_p_past_last w <=? p in
      let p := if clamped_span then w_p_past_last w else p in
      let sc := flush_span w sc s p in
      mkScan (sc_insideness sc) (sc_payload sc) (sc_buf0 sc) (sc_buf1 sc)
        (if clamped_span then 0x7fffffff else p)
    else sc in
  rl_apply_effect w rl_in_s sc.

(** [while i_rl_in_s < i_rl_s_end]; [n] is [i_rl_s_end - i_rl_in_s]. *)
Fixpoint scan_run (n : nat) (w : window) (s : Z) (i_rl_in_s : nat)
    (arr : list RL) (sc : scan) : list RL * scan :=
  match n with
  | O => (arr, sc)
  | S n' =>
      let rl_in_s := rl_get arr i_rl_in_s in
      let sc := scan_rl w s rl_in_s sc in
      let arr := <[i_rl_in_s := rl_increment_s rl_in_s]> arr in
      scan_run n' w s (S i_rl_in_s) arr sc
  end.

(** [while i_rl_s_end < num_rl: ... if s_end != s: break; i_rl_s_end += 1];
    [n] is [num_rl - i_rl_s_end]. *)
Fixpoint scan_extend (n : nat) (arr : list RL) (i_rl_s_end : nat) (s : Z)
  : nat :=
  match n with
  | O => i_rl_s_end
  | S n' =>
      if Z.shiftr (I_RL_SP (rl_get arr i_rl_s_end)) 16 =? s
      then scan_extend n' arr (S i_rl_s_end) s
      else i_rl_s_end
  end.

(** [while i_rl_s_begin < i_rl_s_end: ... if s_begin == s: break;
    i_rl_s_begin += 1]; [n] is [i_rl_s_end - i_rl_s_begin]. *)
Fixpoint scan_skip (n : nat) (arr : list RL) (i_rl_s_begin : nat) (s : Z)
  : nat :=
  match n with
  | O => i_rl_s_begin
  | S n' =>
      if Z.shiftr (I_RL_SP (rl_get arr i_rl_s_begin)) 16 =? s
      then i_rl_s_begin
      else scan_skip n' arr (S i_rl_s_begin) s
  end.

(** "Find first occupied scanline past left bound of buffer, and first rl
    in that scanline"; [n] is [num_rl - i_rl_s_begin]. *)
Fixpoint scan_first (n : nat) (arr : list RL) (i_rl_s_begin : nat)
    (s s_first : Z) : nat * Z :=
  match n with
  | O => (i_rl_s_begin, s)
  | S n' =>
      let s := Z.shiftr (I_RL_SP (rl_get arr i_rl_s_begin)) 16 in
      if s_first <=? s then (i_rl_s_begin, s)
      else scan_first n' arr (S i_rl_s_begin) s s_first
  end.

(** [for i in range(num_rl): rl_seek_s_to(rl, s_first)] *)
Fixpoint seek_all (n : nat) (i : nat) (arr : list RL) (s_first : Z)
  : list RL :=
  match n with
  | O => arr
  | S n' =>
      seek_all n' (S i) (<[i := rl_seek_s_to (rl_get arr i) s_first]> arr)
        s_first
  end.

(** [for i in range(RL_NUM_REGIONS + 1): arr_region_insideness[i] = 0] *)
Definition reset_insideness (insideness : list Z) : list Z :=
  foldl (fun a i => poke a i 0) insideness [0; 1; 2; 3; 4; 5; 6; 7; 8].

(** The main loop; each turn handles one occupied scanline. The fuel
    bounds the number of turns: every turn moves [s] up, and the loop ends
    once [s] is past [s_last]. *)
Fixpoint raster_loop (fuel : nat) (w : window) (num_rl : nat)
    (arr : list RL) (sc : scan) (s : Z) (i_rl_s_begin i_rl_s_end : nat)
  : list RL * scan :=
  match fuel with
  | O => (arr, sc)
  | S fuel' =>
      if (i_rl_s_begin <? num_rl)%nat then
        if w_s_last w <? s then (arr, sc) else
        let i_rl_s_end :=
          if (i_rl_s_end =? i_rl_s_begin)%nat
          then scan_extend (num_rl - i_rl_s_end) arr i_rl_s_end s
          else i_rl_s_end in
        let sc := mkScan (reset_insideness (sc_insideness sc)) (sc_payload sc)
                    (sc_buf0 sc) (sc_buf1 sc) (w_p_first w) in
        let '(arr, sc) :=
          scan_run (i_rl_s_end - i_rl_s_begin) w s i_rl_s_begin arr sc in
        let s := s +! 1 in
        let i_rl_s_end :=
          scan_extend (num_rl - i_rl_s_end) arr i_rl_s_end s in
        let arr := _sort_range_ptr_rl_insertion arr i_rl_s_begin i_rl_s_end in
        let i_rl_s_begin :=
          scan_skip (i_rl_s_end - i_rl_s_begin) arr i_rl_s_begin s in
        let s :=
          if (i_rl_s_begin =? i_rl_s_end)%nat && (i_rl_s_begin <? num_rl)%nat
          then Z.shiftr (I_RL_SP (rl_get arr i_rl_s_begin)) 16
          else s in
        raster_loop fuel' w num_rl arr sc s i_rl_s_begin i_rl_s_end
      else (arr, sc)
  end.

(** [rasterize_to_buffer]. The profiling calls [utils.timestamp_add] of the
    display case are left out. *)
Definition rasterize_to_buffer (sr : ScanlineRasterizer) (buf0 buf1 : list Z)
    (buffer_type mask_layer x_first y_first x_dim y_dim : Z)
  : ScanlineRasterizer * list Z * list Z :=
  let n := Z.to_nat (num_rl sr) in
  let s_first := x_first +! RL_SP_BIAS in
  let s_last := s_first +! x_dim -! 1 in
  let p_first := y_first +! RL_SP_BIAS in
  let p_past_last := p_first +! y_dim in
  let w := mkWindow (buffer_type =? SR_BUFFER_TYPE_PAYLOAD) mask_layer
             s_first s_last p_first p_past_last x_dim
             (arr_region_fill0 sr) (arr_region_fill1 sr) in
  let arr := seek_all n 0 (arr_ptr_rl_sorted sr) s_first in
  let arr := _sort_range_ptr_rl_insertion arr 0 n in
  let '(i_rl_s_begin, s) := scan_first n arr 0 s_first s_first in
  let sc := mkScan (arr_region_insideness sr) (arr_region_payload sr)
              buf0 buf1 p_first in
  let '(arr, sc) :=
    raster_loop (S (Z.to_nat x_dim)) w n arr sc s i_rl_s_begin i_rl_s_begin in
  (mkSR (num_rl sr) arr (sc_insideness sc) (sc_payload sc)
        (arr_region_fill0 sr) (arr_region_fill1 sr),
   sc_buf0 sc, sc_buf1 sc).

(** ** The payload buffer ([rasterizer.py]) *)

Record PayloadBuffer : Type := mkPB {
  pb_buffer : list Z;
  pb_width : Z;
  pb_height : Z
}.

Definition pb_init : PayloadBuffer := mkPB (replicate 1024 0) 1 1.

Definition set_dimensions (width height : Z) : M PayloadBuffer unit :=
  pb <- get ;;
  if PB_MAX_PIXELS <? width * height then
    raise (RuntimeError ("setting too-large payload buffer "
                         ++ str_of_int width ++ ", " ++ str_of_int height))
  else put (mkPB (pb_buffer pb) width height).

(** [for i in range(size): buf[i] = payload]; [n] is [size - i]. *)
Fixpoint fill_cells (n : nat) (i : Z) (buf : list Z) (payload : Z) : list Z :=
  match n with
  | O => buf
  | S n' => fill_cells n' (i + 1) (poke buf i (store16 payload)) payload
  end.

Definition pb_fill (payload : Z) : M PayloadBuffer unit :=
  pb <- get ;;
  let size := pb_width pb *! pb_height pb in
  put (mkPB (fill_cells (Z.to_nat size) 0 (pb_buffer pb) payload)
         (pb_width pb) (pb_height pb)).
(** ** Wrapped degrees ([scene.py]) *)

Definition wd_init (angle_degrees : Z) : Z := i32 angle_degrees mod 360.

(** The floating-point helpers of [scene.py], which an integer embedding
    cannot compute: [sin_wd_f10] and [cos_wd_f10] are
    [int(math.sin(wd * COEFF_DEGREES_TO_RADIANS) * 1024)] and its cosine
    twin, [sqrt_int x] is [int(math.sqrt(x))], and [atan2_degrees y x] is
    the [int(math.atan2(y, x) * COEFF_RADIANS_TO_DEGREES + 0.5)] of
    [_set_velocity_vector_f10]. *)
Class FloatMath : Type := {
  sin_wd_f10 : Z -> Z;
  cos_wd_f10 : Z -> Z;
  sqrt_int : Z -> Z;
  atan2_degrees : Z -> Z -> Z
}.

Definition velocity_hits_normal_wd (v_angle_wd normal_wd : Z) : bool :=
  let diff := v_angle_wd -! normal_wd in
  let diff := if diff <? 0 then 0 -! diff else diff in
  (90 <? diff) && (diff <? 270).

Definition reflect_velocity_about_normal_wd (v_angle_wd normal_wd : Z) : Z :=
  ((normal_wd <<! 1) -! v_angle_wd -! 180) mod 360.

Definition get_endpoint_normal_wd (normal0_wd normal1_wd : Z) : Z :=
  let zero_to_one_wd := (normal1_wd -! normal0_wd) mod 360 in
  if zero_to_one_wd <? 180
  then (normal0_wd +! Z.shiftr zero_to_one_wd 1) mod 360
  else (normal0_wd +! Z.shiftr zero_to_one_wd 1 +! 180) mod 360.

(** ** Chunk data ([bake_chunk_data.py], [scene.py]) *)

Definition MAX_NUM_CHUNKS : Z := 192.
Definition I_CHUNK_IF_LOOP_MASK_TRIGGER_LAYER : Z := 0.
Definition I_CHUNK_LOOP_REGION_FILL : Z := 1.
Definition I_CHUNK_LOOP_NUM_EDGES : Z := 2.
Definition I_CHUNK_LOOP_LAST_LOOP : Z := 3.
Definition I_CHUNK_EDGE_X_B : Z := 1.
Definition I_CHUNK_EDGE_Y_B : Z := 2.
Definition I_CHUNK_EDGE_REGION_LINE : Z := 3.
Definition I_CHUNK_NUM_FIELDS : Z := 4.

Definition MGS_REGION_WALL : Z := 0.
Definition MGS_REGION_SLOPE_RIGHT : Z := 1.
Definition MGS_REGION_SLOPE_DOWN : Z := 2.
Definition MGS_REGION_SLOPE_LEFT : Z := 3.
Definition MGS_REGION_SLOPE_UP : Z := 4.
Definition MGS_REGION_SANDTRAP : Z := 5.
Definition MGS_REGION_WATER : Z := 6.
Definition MGS_REGION_FAIRWAY : Z := 7.
Definition MGS_REGION_EMPTY : Z := 8.
Definition MGS_PAYLOAD_BIT_NON_WALL : Z := Z.shiftl 1 11.
Definition MGS_PAYLOAD_MASK_LOW : Z := MGS_PAYLOAD_BIT_NON_WALL - 1.
Definition MGS_PAYLOAD_SHIFT_MASK_TRIGGER : Z := 12.

(** The chunk array is an [array('h')] of [4 * MAX_NUM_CHUNKS] signed
    16-bit fields. The game class and the baking class share the array,
    the count and the two queries; [i_acd_last_loop] is the append cursor
    of the baking class, the normals and the bounding box are the derived
    data of the game class. *)
Record ChunkData : Type := mkCD {
  arr_chunk_data : list Z;
  num_chunks : Z;
  i_acd_last_loop : Z;
  arr_chunk_normal_wd : list Z;
  xw_lo : Z;
  yw_lo : Z;
  xw_hi : Z;
  yw_hi : Z
}.

Definition cd_with_arr (cd : ChunkData) (arr : list Z) : ChunkData :=
  mkCD arr (num_chunks cd) (i_acd_last_loop cd) (arr_chunk_normal_wd cd)
       (xw_lo cd) (yw_lo cd) (xw_hi cd) (yw_hi cd).
Definition cd_with_num_chunks (cd : ChunkData) (n : Z) : ChunkData :=
  mkCD (arr_chunk_data cd) n (i_acd_last_loop cd) (arr_chunk_normal_wd cd)
       (xw_lo cd) (yw_lo cd) (xw_hi cd) (yw_hi cd).
Definition cd_with_last_loop (cd : ChunkData) (i : Z) : ChunkData :=
  mkCD (arr_chunk_data cd) (num_chunks cd) i (arr_chunk_normal_wd cd)
       (xw_lo cd) (yw_lo cd) (xw_hi cd) (yw_hi cd).

(** Python's [a[i]] on an [array]. *)
Definition acd_load (i : Z) : M ChunkData Z :=
  cd <- get ;;
  match py_index (Z.of_nat (length (arr_chunk_data cd))) i with
  | Some n => ret (default 0 (arr_chunk_data cd !! n))
  | None => raise IndexError
  end.

(** Python's [a[i] = v] on an [array('h')]: the index is checked first,
    then the value has to fit 16 bits. *)
Definition acd_store (i v : Z) : M ChunkData unit :=
  cd <- get ;;
  match py_index (Z.of_nat (length (arr_chunk_data cd))) i with
  | Some n =>
      if (v <? -32768) || (32767 <? v) then raise OverflowError
      else put (cd_with_arr cd (<[n := v]> (arr_chunk_data cd)))
  | None => raise IndexError
  end.

Definition cd_set_num_chunks (n : Z) : M ChunkData unit :=
  cd <- get ;; put (cd_with_num_chunks cd n).

Definition cd_set_i_acd_last_loop (i : Z) : M ChunkData unit :=
  cd <- get ;; put (cd_with_last_loop cd i).

Definition _get_i_acd_next_chunk : M ChunkData Z :=
  cd <- get ;;
  if MAX_NUM_CHUNKS <=? num_chunks cd then
    raise (RuntimeError "too many chunks")
  else
    (* a second terminating empty loop, pointing to the same loop *)
    let i_acd_loop := Z.shiftl (num_chunks cd) 2 in
    cd_set_num_chunks (num_chunks cd + 1) ;;;
    acd_store (i_acd_loop + I_CHUNK_IF_LOOP_MASK_TRIGGER_LAYER) 1 ;;;
    acd_store (i_acd_loop + I_CHUNK_LOOP_REGION_FILL) RL_REGION_UNUSED ;;;
    acd_store (i_acd_loop + I_CHUNK_LOOP_NUM_EDGES) 0 ;;;
    acd_store (i_acd_loop + I_CHUNK_LOOP_LAST_LOOP)
      (Z.shiftr (i_acd_last_loop cd) 2) ;;;
    ret (i_acd_loop - I_CHUNK_NUM_FIELDS).

Definition clear_geometry : M ChunkData unit :=
  cd_set_num_chunks 0 ;;;
  _get_i_acd_next_chunk ;;;
  ret tt.

Definition add_loop (region_fill mask_layer mask_trigger : Z)
  : M ChunkData unit :=
  if (mask_layer <=? 0) || (mask_trigger <? 0) || (0xf <? mask_layer)
     || (0xf <? mask_trigger)
  then raise (RuntimeError "bad layer/trigger masks")
  else
    i_acd_loop <- _get_i_acd_next_chunk ;;
    acd_store (i_acd_loop + I_CHUNK_IF_LOOP_MASK_TRIGGER_LAYER)
      (Z.lor (Z.shiftl mask_trigger 8) mask_layer) ;;;
    acd_store (i_acd_loop + I_CHUNK_LOOP_REGION_FILL) region_fill ;;;
    cd_set_i_acd_last_loop i_acd_loop.

Definition loop_add_edge (x y region_line offset_x offset_y : Z)
  : M ChunkData unit :=
  i_acd_edge <- _get_i_acd_next_chunk ;;
  cd <- get ;;
  n <- acd_load (i_acd_last_loop cd + I_CHUNK_LOOP_NUM_EDGES) ;;
  acd_store (i_acd_last_loop cd + I_CHUNK_LOOP_NUM_EDGES) (n + 1) ;;;
  acd_store (i_acd_edge + I_CHUNK_IF_LOOP_MASK_TRIGGER_LAYER) 0 ;;;
  acd_store (i_acd_edge + I_CHUNK_EDGE_X_B) (x + offset_x) ;;;
  acd_store (i_acd_edge + I_CHUNK_EDGE_Y_B) (y + offset_y) ;;;
  acd_store (i_acd_edge + I_CHUNK_EDGE_REGION_LINE) region_line.

Definition chunk_is_loop (i_chunk : Z) : M ChunkData bool :=
  cd <- get ;;
  if num_chunks cd <=? i_chunk then
    raise (RuntimeError "chunk index out of range")
  else
    v <- acd_load (Z.shiftl i_chunk 2 + I_CHUNK_IF_LOOP_MASK_TRIGGER_LAYER) ;;
    ret (truthy v).

(** [(v << 16) >> 16] on a Python integer. *)
Definition shl_shr_16 (v : Z) : Z := Z.shiftr (Z.shiftl v 16) 16.

Definition chunk_edge_get_endpoints (i_chunk : Z)
  : M ChunkData (Z * Z * Z * Z) :=
  cd <- get ;;
  (* confirm i_chunk is in-range and an edge *)
  if num_chunks cd <=? i_chunk then
    raise (RuntimeError "chunk index out of range")
  else
    let i_acd_chunk := Z.shiftl i_chunk 2 in
    kind <- acd_load (i_acd_chunk + I_CHUNK_IF_LOOP_MASK_TRIGGER_LAYER) ;;
    if truthy kind then raise (RuntimeError "chunk is not an edge") else
    (* begin vertex *)
    x_b <- acd_load (i_acd_chunk + I_CHUNK_EDGE_X_B) ;;
    y_b <- acd_load (i_acd_chunk + I_CHUNK_EDGE_Y_B) ;;
    (* the endpoint's edge chunk, looping back if needed *)
    let i_acd_chunk := i_acd_chunk + I_CHUNK_NUM_FIELDS in
    next <- acd_load (i_acd_chunk + I_CHUNK_IF_LOOP_MASK_TRIGGER_LAYER) ;;
    i_acd_chunk <-
      (if truthy next then
         last <- acd_load (i_acd_chunk + I_CHUNK_LOOP_LAST_LOOP) ;;
         ret (Z.shiftl (last + 1) 2)
       else ret i_acd_chunk) ;;
    (* end vertex *)
    x_e <- acd_load (i_acd_chunk + I_CHUNK_EDGE_X_B) ;;
    y_e <- acd_load (i_acd_chunk + I_CHUNK_EDGE_Y_B) ;;
    ret (shl_shr_16 x_b, shl_shr_16 y_b, shl_shr_16 x_e, shl_shr_16 y_e).

(** [ChunkData.__init__] of the baking class. *)
Definition cd_new : outcome ChunkData unit :=
  clear_geometry (mkCD (replicate 768 0) 0 0 (replicate 192 0) 0 0 0 0) [].
(** ** The transformed rasterizer ([scene.py]) *)

(** [chunk_data] is a reference the object does not own; nothing below
    writes through it, so the record keeps the chunk data it refers to. *)
Record TransformedRasterizer : Type := mkTR {
  rasterizer : ScanlineRasterizer;
  update_rasterizer_geometry : bool;
  chunk_data : ChunkData;
  scale_f10 : Z;
  inv_scale_f10 : Z;
  angle_wd : Z;
  cos_f10 : Z;
  sin_f10 : Z;
  translate_screen_x : Z;
  translate_screen_y : Z;
  xw_last_draw_f10 : Z;
  yw_last_draw_f10 : Z;
  xs_last_draw : Z;
  ys_last_draw : Z;
  xw_next_draw_f10 : Z;
  yw_next_draw_f10 : Z;
  delta_x_accum : Z;
  delta_y_accum : Z
}.

Definition tr_with_rasterizer (t : TransformedRasterizer)
    (sr : ScanlineRasterizer) : TransformedRasterizer :=
  mkTR sr (update_rasterizer_geometry t) (chunk_data t) (scale_f10 t)
    (inv_scale_f10 t) (angle_wd t) (cos_f10 t) (sin_f10 t)
    (translate_screen_x t) (translate_screen_y t) (xw_last_draw_f10 t)
    (yw_last_draw_f10 t) (xs_last_draw t) (ys_last_draw t)
    (xw_next_draw_f10 t) (yw_next_draw_f10 t) (delta_x_accum t)
    (delta_y_accum t).
Definition tr_with_update (t : TransformedRasterizer) (b : bool)
  : TransformedRasterizer :=
  mkTR (rasterizer t) b (chunk_data t) (scale_f10 t)
    (inv_scale_f10 t) (angle_wd t) (cos_f10 t) (sin_f10 t)
    (translate_screen_x t) (translate_screen_y t) (xw_last_draw_f10 t)
    (yw_last_draw_f10 t) (xs_last_draw t) (ys_last_draw t)
    (xw_next_draw_f10 t) (yw_next_draw_f10 t) (delta_x_accum t)
    (delta_y_accum t).
Definition tr_with_scale (t : TransformedRasterizer) (scale : Z)
  : TransformedRasterizer :=
  mkTR (rasterizer t) (update_rasterizer_geometry t) (chunk_data t) scale
    (inv_scale_f10 t) (angle_wd t) (cos_f10 t) (sin_f10 t)
    (translate_screen_x t) (translate_screen_y t) (xw_last_draw_f10 t)
    (yw_last_draw_f10 t) (xs_last_draw t) (ys_last_draw t)
    (xw_next_draw_f10 t) (yw_next_draw_f10 t) (delta_x_accum t)
    (delta_y_accum t).
Definition tr_with_inv_scale (t : TransformedRasterizer) (inv_scale : Z)
  : TransformedRasterizer :=
  mkTR (rasterizer t) (update_rasterizer_geometry t) (chunk_data t)
    (scale_f10 t) inv_scale (angle_wd t) (cos_f10 t) (sin_f10 t)
    (translate_screen_x t) (translate_screen_y t) (xw_last_draw_f10 t)
    (yw_last_draw_f10 t) (xs_last_draw t) (ys_last_draw t)
    (xw_next_draw_f10 t) (yw_next_draw_f10 t) (delta_x_accum t)
    (delta_y_accum t).
Definition tr_with_angle (t : TransformedRasterizer) (angle c s : Z)
  : TransformedRasterizer :=
  mkTR (rasterizer t) (update_rasterizer_geometry t) (chunk_data t)
    (scale_f10 t) (inv_scale_f10 t) angle c s
    (translate_screen_x t) (translate_screen_y t) (xw_last_draw_f10 t)
    (yw_last_draw_f10 t) (xs_last_draw t) (ys_last_draw t)
    (xw_next_draw_f10 t) (yw_next_draw_f10 t) (delta_x_accum t)
    (delta_y_accum t).
Definition tr_with_translate (t : TransformedRasterizer) (x y : Z)
  : TransformedRasterizer :=
  mkTR (rasterizer t) (update_rasterizer_geometry t) (chunk_data t)
    (scale_f10 t) (inv_scale_f10 t) (angle_wd t) (cos_f10 t) (sin_f10 t)
    x y (xw_last_draw_f10 t)
    (yw_last_draw_f10 t) (xs_last_draw t) (ys_last_draw t)
    (xw_next_draw_f10 t) (yw_next_draw_f10 t) (delta_x_accum t)
    (delta_y_accum t).
Definition tr_with_next_draw (t : TransformedRasterizer) (xw yw : Z)
  : TransformedRasterizer :=
  mkTR (rasterizer t) (update_rasterizer_geometry t) (chunk_data t)
    (scale_f10 t) (inv_scale_f10 t) (angle_wd t) (cos_f10 t) (sin_f10 t)
    (translate_screen_x t) (translate_screen_y t) (xw_last_draw_f10 t)
    (yw_last_draw_f10 t) (xs_last_draw t) (ys_last_draw t)
    xw yw (delta_x_accum t) (delta_y_accum t).

(** [__init__], over the two module-level fill arrays. *)
Definition tr_init (fill0 fill1 : list Z) (cd : ChunkData)
  : TransformedRasterizer :=
  mkTR (sr_init fill0 fill1) true cd (Z.shiftl 1 10) (Z.shiftl 1 10) 0
    (Z.shiftl 1 10) 0 0 0 0 0 0 0 0 0 0 0.

Definition world_to_screen_f10 (t : TransformedRasterizer)
    (x_world_f10 y_world_f10 : Z) : Z * Z :=
  let scale_f10 := i32 (scale_f10 t) in
  let cos_f10 := i32 (cos_f10 t) in
  let sin_f10 := i32 (sin_f10 t) in
  (* scale -> f10 *)
  let x_f10 := Z.shiftr (i32 x_world_f10 *! scale_f10 +! 0x200) 10 in
  let y_f10 := Z.shiftr (i32 y_world_f10 *! scale_f10 +! 0x200) 10 in
  (* rotate -> f20 *)
  let x_f20 := x_f10 *! cos_f10 -! y_f10 *! sin_f10 in
  let y_f20 := x_f10 *! sin_f10 +! y_f10 *! cos_f10 in
  (* translate -> f10 *)
  (Z.shiftr (x_f20 +! 0x200) 10 +! (i32 (translate_screen_x t) <<! 10),
   Z.shiftr (y_f20 +! 0x200) 10 +! (i32 (translate_screen_y t) <<! 10)).

Definition set_scale_f10 (scale : Z) : M TransformedRasterizer unit :=
  t <- get ;;
  put (tr_with_scale (tr_with_update t true) scale) ;;;
  if scale =? 0 then raise ZeroDivisionError
  else
    t <- get ;;
    put (tr_with_inv_scale t (0x100000 / scale)).

Definition set_translate_screen (x y : Z) : M TransformedRasterizer unit :=
  (* does not force an update of the rasterizer geometry *)
  t <- get ;; put (tr_with_translate t x y).

Definition add_to_translate_screen (delta_x delta_y : Z)
  : M TransformedRasterizer unit :=
  (* does not force an update of the rasterizer geometry *)
  t <- get ;;
  put (tr_with_translate t (translate_screen_x t + delta_x)
         (translate_screen_y t + delta_y)).

Definition set_translate_map_world_to_screen_f10 (xw_f10 yw_f10 xs_f10
    ys_f10 : Z) : M TransformedRasterizer unit :=
  (* does not force an update of the rasterizer geometry *)
  t <- get ;;
  put (tr_with_next_draw t xw_f10 yw_f10) ;;;
  t <- get ;;
  let '(xs_actual_f10, ys_actual_f10) := world_to_screen_f10 t xw_f10 yw_f10 in
  let xs_actual := Z.shiftr (xs_actual_f10 + 0x200) 10 in
  let ys_actual := Z.shiftr (ys_actual_f10 + 0x200) 10 in
  let xs_desired := Z.shiftr (xs_f10 + 0x200) 10 in
  let ys_desired := Z.shiftr (ys_f10 + 0x200) 10 in
  put (tr_with_translate t
         (translate_screen_x t + (xs_desired - xs_actual))
         (translate_screen_y t + (ys_desired - ys_actual))).

(** A read through [ptr16] of an [array('h')]: the 16 bits, unsigned. *)
Definition load16 (a : list Z) (i : Z) : Z := Z.land (peek a i) 0xffff.

(** The vertex transform [_set_rasterizer_geometry] spells out twice: sign
    extension of the two loaded coordinates, scale, rotation, rounding. *)
Definition transform_vertex (scale_f10 cos_f10 sin_f10 x y : Z) : Z * Z :=
  let maybe_translate_screen_x := 0 in
  let maybe_translate_screen_y := 0 in
  let x := Z.shiftr (x <<! 16) 16 in
  let y := Z.shiftr (y <<! 16) 16 in
  (* scale -> f10 *)
  let x := x *! scale_f10 in
  let y := y *! scale_f10 in
  (* rotate -> f20 *)
  let x_b := x *! cos_f10 -! y *! sin_f10 in
  let y_b := x *! sin_f10 +! y *! cos_f10 in
  (* back to int and translate if needed *)
  (Z.shiftr (x_b +! 0x80000) 20 +! maybe_translate_screen_x,
   Z.shiftr (y_b +! 0x80000) 20 +! maybe_translate_screen_y).
Definition set_angle_wd `{FloatMath} (angle_degrees : Z)
  : M TransformedRasterizer unit :=
  t <- get ;;
  let angle := wd_init angle_degrees in
  put (tr_with_angle (tr_with_update t true) angle (cos_wd_f10 angle)
         (sin_wd_f10 angle)).

(** The inner loop of [_set_rasterizer_geometry]: one rasterizer edge
    ending at each edge chunk of the loop. *)
Fixpoint add_loop_edges (fuel : nat) (arr : list Z) (scale_f10 cos_f10
    sin_f10 i_acd_edge i_acd_loop x_b y_b region_line region_fill
    payload_line payload_fill mask_layer : Z) : M ScanlineRasterizer unit :=
  match fuel with
  | O => ret tt
  | S fuel' =>
      if i_acd_edge <? i_acd_loop then
        let '(x_e, y_e) :=
          transform_vertex scale_f10 cos_f10 sin_f10
            (load16 arr (i_acd_edge +! I_CHUNK_EDGE_X_B))
            (load16 arr (i_acd_edge +! I_CHUNK_EDGE_Y_B)) in
        add_edge_line_fill x_b y_b x_e y_e region_line region_fill
          payload_line payload_fill mask_layer ;;;
        add_loop_edges fuel' arr scale_f10 cos_f10 sin_f10
          (i_acd_edge +! I_CHUNK_NUM_FIELDS) i_acd_loop x_e y_e
          (load16 arr (i_acd_edge +! I_CHUNK_EDGE_REGION_LINE)) region_fill
          (Z.shiftr i_acd_edge 2) payload_fill mask_layer
      else ret tt
  end.

(** The outer loop of [_set_rasterizer_geometry], over the loop headers. *)
Fixpoint add_loops (fuel : nat) (arr : list Z) (scale_f10 cos_f10 sin_f10
    i_acd_loop i_acd_end : Z) : M ScanlineRasterizer unit :=
  match fuel with
  | O => ret tt
  | S fuel' =>
      if i_acd_loop <? i_acd_end then
        (* loop parameters; skip past if empty *)
        let mask_trigger_layer :=
          load16 arr (i_acd_loop +! I_CHUNK_IF_LOOP_MASK_TRIGGER_LAYER) in
        let mask_trigger := Z.shiftr mask_trigger_layer 8 in
        let mask_layer := Z.land mask_trigger_layer 0xff in
        let region_fill := load16 arr (i_acd_loop +! I_CHUNK_LOOP_REGION_FILL) in
        let payload_fill :=
          Z.lor (Z.lor region_fill MGS_PAYLOAD_BIT_NON_WALL)
                (mask_trigger <<! MGS_PAYLOAD_SHIFT_MASK_TRIGGER) in
        let num_edges_loop :=
          load16 arr (i_acd_loop +! I_CHUNK_LOOP_NUM_EDGES) in
        if num_edges_loop =? 0 then
          add_loops fuel' arr scale_f10 cos_f10 sin_f10
            (i_acd_loop +! I_CHUNK_NUM_FIELDS) i_acd_end
        else
          (* last edge's parameters, its start vertex transformed *)
          let i_acd_edge_last :=
            i_acd_loop +! I_CHUNK_NUM_FIELDS *! num_edges_loop in
          let '(x_b, y_b) :=
            transform_vertex scale_f10 cos_f10 sin_f10
              (load16 arr (i_acd_edge_last +! I_CHUNK_EDGE_X_B))
              (load16 arr (i_acd_edge_last +! I_CHUNK_EDGE_Y_B)) in
          let region_line :=
            load16 arr (i_acd_edge_last +! I_CHUNK_EDGE_REGION_LINE) in
          let payload_line := Z.shiftr i_acd_edge_last 2 in
          (* an edge ending at each edge in the loop *)
          let i_acd_edge := i_acd_loop +! I_CHUNK_NUM_FIELDS in
          let i_acd_loop := i_acd_edge_last +! I_CHUNK_NUM_FIELDS in
          add_loop_edges (Z.to_nat num_edges_loop) arr scale_f10 cos_f10
            sin_f10 i_acd_edge i_acd_loop x_b y_b region_line region_fill
            payload_line payload_fill mask_layer ;;;
          add_loops fuel' arr scale_f10 cos_f10 sin_f10 i_acd_loop i_acd_end
      else ret tt
  end.

(** [_set_rasterizer_geometry]: clears the rasterizer and fills it with
    all scene geometry under the current scale and rotation, the
    screen-space translation left out. Every pass of the outer loop moves
    past a chunk, so [num_chunks] passes are enough. *)
Definition _set_rasterizer_geometry : M TransformedRasterizer unit :=
  t <- get ;;
  focus rasterizer tr_with_rasterizer
    (clear_edges ;;;
     let i_acd_end := I_CHUNK_NUM_FIELDS *! i32 (num_chunks (chunk_data t)) in
     add_loops (Z.to_nat (num_chunks (chunk_data t)))
       (arr_chunk_data (chunk_data t)) (i32 (scale_f10 t)) (i32 (cos_f10 t))
       (i32 (sin_f10 t)) 0 i_acd_end).

Definition _maybe_update_rasterizer_geometry : M TransformedRasterizer unit :=
  t <- get ;;
  if update_rasterizer_geometry t then
    _set_rasterizer_geometry ;;;
    t <- get ;;
    put (tr_with_update t false)
  else ret tt.

(** [rasterize_payload] works on the transformed rasterizer and on the
    payload buffer it is handed. *)
Definition rasterize_payload (mask_layer : Z)
  : M (TransformedRasterizer * PayloadBuffer) unit :=
  focus fst (fun s t => (t, snd s)) _maybe_update_rasterizer_geometry ;;;
  focus snd (fun s pb => (fst s, pb))
    (pb_fill (Z.lor MGS_REGION_EMPTY MGS_PAYLOAD_BIT_NON_WALL)) ;;;
  s <- get ;;
  let '(t, pb) := s in
  let '(sr, buf, _) :=
    rasterize_to_buffer (rasterizer t) (pb_buffer pb) (pb_buffer pb)
      SR_BUFFER_TYPE_PAYLOAD mask_layer (- translate_screen_x t)
      (- translate_screen_y t) (pb_width pb) (pb_height pb) in
  put (tr_with_rasterizer t sr, mkPB buf (pb_width pb) (pb_height pb)).
(** ** The ball ([scene.py]) *)

Definition BALL_DIAMETER : Z := 5.
Definition BALL_RADIUS_FLOOR : Z := 2.
Definition BALL_HOLE_DIAMETER : Z := 9.
Definition BALL_HOLE_RADIUS_FLOOR : Z := 4.
Definition BALL_HOLE_RADIUS_SQ_F20 : Z := 21233664.
Definition BALL_HOLE_SLOW_F20 : Z := 10240.
Definition BALL_HOLE_ANG_DEFLECT : Z := 60.
Definition BALL_HOLE_MAX_SPEED_ENTER_F10 : Z := 110.
Definition BALL_COEFF_GRASS_F20 : Z := 15.
Definition BALL_COEFF_SAND_F20 : Z := 100.
Definition BALL_SUBTR_WALL_F20 : Z := 24000.
Definition BALL_COEFF_SLOPE_F20 : Z := 128.
Definition BALL_COEFF_A : Z := 3.
Definition BALL_DELTA_W_STOPPED_F10 : Z := 1024.
Definition BALL_MS_BEFORE_STOPPED : Z := 500.
Definition BALL_MS_BEFORE_SINK : Z := 100.

Record BallState : Type := mkBall {
  xw_f10 : Z;
  yw_f10 : Z;
  v_angle_wd : Z;
  v_w_per_ms_f20 : Z;
  maybe_i_chunk_contact0 : Z;
  maybe_i_chunk_contact1 : Z;
  mask_layer : Z;
  water_ms : Z;
  in_water : bool;
  xw_last_shot_f10 : Z;
  yw_last_shot_f10 : Z;
  xw_hole_f10 : Z;
  yw_hole_f10 : Z;
  on_sand : bool;
  in_hole : bool;
  ignore_hole_line : bool;
  is_stopped : bool;
  ms_below_stop_threshold : Z;
  xw_exp_avg_f10 : Z;
  yw_exp_avg_f10 : Z
}.

(** [BallState.__init__] *)
Definition ball_init : BallState :=
  mkBall 0 0 0 0 (-1) (-1) 0xf 0 false 0 0 0 0 false false false false 0 0 0.

Definition set_mask_layer (b : BallState) (mask_layer' : Z) : BallState :=
  mkBall (xw_f10 b) (yw_f10 b) (v_angle_wd b) (v_w_per_ms_f20 b)
    (maybe_i_chunk_contact0 b) (maybe_i_chunk_contact1 b) mask_layer'
    (water_ms b) (in_water b) (xw_last_shot_f10 b) (yw_last_shot_f10 b)
    (xw_hole_f10 b) (yw_hole_f10 b) (on_sand b) (in_hole b)
    (ignore_hole_line b) (is_stopped b) (ms_below_stop_threshold b)
    (xw_exp_avg_f10 b) (yw_exp_avg_f10 b).

Definition _set_on_sand (b : BallState) (on_sand' : bool) : BallState :=
  mkBall (xw_f10 b) (yw_f10 b) (v_angle_wd b) (v_w_per_ms_f20 b)
    (maybe_i_chunk_contact0 b) (maybe_i_chunk_contact1 b) (mask_layer b)
    (water_ms b) (in_water b) (xw_last_shot_f10 b) (yw_last_shot_f10 b)
    (xw_hole_f10 b) (yw_hole_f10 b) on_sand' (in_hole b)
    (ignore_hole_line b) (is_stopped b) (ms_below_stop_threshold b)
    (xw_exp_avg_f10 b) (yw_exp_avg_f10 b).

Definition _set_water_status (b : BallState) (water_ms' : Z) : BallState :=
  let sunk := BALL_MS_BEFORE_SINK <? water_ms' in
  mkBall (xw_f10 b) (yw_f10 b) (v_angle_wd b) (v_w_per_ms_f20 b)
    (maybe_i_chunk_contact0 b) (maybe_i_chunk_contact1 b) (mask_layer b)
    water_ms' (if sunk then true else in_water b)
    (xw_last_shot_f10 b) (yw_last_shot_f10 b)
    (xw_hole_f10 b) (yw_hole_f10 b) (on_sand b) (in_hole b)
    (ignore_hole_line b) (if sunk then true else is_stopped b)
    (ms_below_stop_threshold b) (xw_exp_avg_f10 b) (yw_exp_avg_f10 b).

(** The four fields of the done-moving tracking. *)
Definition set_stopped_tracking (b : BallState) (is_stopped' : bool)
    (ms xw_exp_avg yw_exp_avg : Z) : BallState :=
  mkBall (xw_f10 b) (yw_f10 b) (v_angle_wd b) (v_w_per_ms_f20 b)
    (maybe_i_chunk_contact0 b) (maybe_i_chunk_contact1 b) (mask_layer b)
    (water_ms b) (in_water b) (xw_last_shot_f10 b) (yw_last_shot_f10 b)
    (xw_hole_f10 b) (yw_hole_f10 b) (on_sand b) (in_hole b)
    (ignore_hole_line b) is_stopped' ms xw_exp_avg yw_exp_avg.

Definition _reset_is_stopped (b : BallState) : BallState :=
  (* the average is biased away from the ball to prolong the animation *)
  set_stopped_tracking b false 0 (xw_f10 b + 4096) (yw_f10 b + 4096).

Definition _set_location_f10 (b : BallState) (xw yw : Z) : BallState :=
  mkBall xw yw (v_angle_wd b) (v_w_per_ms_f20 b)
    (maybe_i_chunk_contact0 b) (maybe_i_chunk_contact1 b) (mask_layer b)
    (water_ms b) (in_water b) (xw_last_shot_f10 b) (yw_last_shot_f10 b)
    (xw_hole_f10 b) (yw_hole_f10 b) (on_sand b) (in_hole b)
    (ignore_hole_line b) (is_stopped b) (ms_below_stop_threshold b)
    (xw_exp_avg_f10 b) (yw_exp_avg_f10 b).

Definition _set_hole_status (b : BallState) (in_hole' ignore_hole_line' : bool)
  : BallState :=
  mkBall (xw_f10 b) (yw_f10 b) (v_angle_wd b) (v_w_per_ms_f20 b)
    (maybe_i_chunk_contact0 b) (maybe_i_chunk_contact1 b) (mask_layer b)
    (water_ms b) (in_water b) (xw_last_shot_f10 b) (yw_last_shot_f10 b)
    (xw_hole_f10 b) (yw_hole_f10 b) (on_sand b) in_hole'
    ignore_hole_line' (is_stopped b) (ms_below_stop_threshold b)
    (xw_exp_avg_f10 b) (yw_exp_avg_f10 b).

Definition _set_velocity_wd_f20 (b : BallState) (angle_wd' w_per_ms_f20 : Z)
  : BallState :=
  mkBall (xw_f10 b) (yw_f10 b) (wd_init angle_wd') w_per_ms_f20
    (maybe_i_chunk_contact0 b) (maybe_i_chunk_contact1 b) (mask_layer b)
    (water_ms b) (in_water b) (xw_last_shot_f10 b) (yw_last_shot_f10 b)
    (xw_hole_f10 b) (yw_hole_f10 b) (on_sand b) (in_hole b)
    (ignore_hole_line b) (is_stopped b) (ms_below_stop_threshold b)
    (xw_exp_avg_f10 b) (yw_exp_avg_f10 b).

Definition _set_velocity_vector_f10 `{FloatMath} (b : BallState)
    (xw_per_ms_f10 yw_per_ms_f10 : Z) : BallState :=
  if (xw_per_ms_f10 =? 0) && (yw_per_ms_f10 =? 0) then
    (* old orientation preserved, speed zeroed *)
    _set_velocity_wd_f20 b (v_angle_wd b) 0
  else
    let angle_degrees := atan2_degrees yw_per_ms_f10 xw_per_ms_f10 in
    let angle_wd := angle_degrees mod 360 in
    let norm_squared_f20 :=
      xw_per_ms_f10 * xw_per_ms_f10 + yw_per_ms_f10 * yw_per_ms_f10 in
    let w_per_ms_f20 := Z.shiftl (sqrt_int norm_squared_f20) 10 in
    _set_velocity_wd_f20 b angle_wd w_per_ms_f20.

Definition _set_maybe_i_chunk_contact (b : BallState) (contact0 contact1 : Z)
  : BallState :=
  mkBall (xw_f10 b) (yw_f10 b) (v_angle_wd b) (v_w_per_ms_f20 b)
    contact0 contact1 (mask_layer b)
    (water_ms b) (in_water b) (xw_last_shot_f10 b) (yw_last_shot_f10 b)
    (xw_hole_f10 b) (yw_hole_f10 b) (on_sand b) (in_hole b)
    (ignore_hole_line b) (is_stopped b) (ms_below_stop_threshold b)
    (xw_exp_avg_f10 b) (yw_exp_avg_f10 b).
(** The second half of [_maybe_advance_to_hole_interaction]: the ball is
    too fast to roll in and is newly close to the hole, so its crossing of
    the hole line decides. [b] is the ball as the first half left it. *)
Definition hole_line_interaction `{FloatMath} (delta_ms xw_f10 yw_f10
    xw_hole_f10 yw_hole_f10 v_angle_wd v_w_per_ms_f20 hole_radius_f10
    w_range_f10 : Z) (in_hole : bool) : M BallState bool :=
  (* signed distance to the hole line intersection *)
  let vx_unit_f10 := i32 (cos_wd_f10 v_angle_wd) in
  let vy_unit_f10 := i32 (sin_wd_f10 v_angle_wd) in
  let dist_signed_w_to_intersect_f10 :=
    Z.shiftr ((xw_hole_f10 -! xw_f10) *! vx_unit_f10
              +! (yw_hole_f10 -! yw_f10) *! vy_unit_f10 +! 0x200) 10 in
  (* stop if the intersection is behind us or too far for the timestep *)
  if (dist_signed_w_to_intersect_f10 <? 0)
     || (w_range_f10 <? dist_signed_w_to_intersect_f10)
  then ret false else
  (* ball position at the intersection *)
  let xw_f10 :=
    xw_f10 +! Z.shiftr (dist_signed_w_to_intersect_f10 *! vx_unit_f10
                        +! 0x200) 10 in
  let yw_f10 :=
    yw_f10 +! Z.shiftr (dist_signed_w_to_intersect_f10 *! vy_unit_f10
                        +! 0x200) 10 in
  (* stop if the intersection position is too far from the hole *)
  let abs_delta_xw_to_hole_f10 := xw_hole_f10 -! xw_f10 in
  let abs_delta_xw_to_hole_f10 :=
    if abs_delta_xw_to_hole_f10 <? 0 then 0 -! abs_delta_xw_to_hole_f10
    else abs_delta_xw_to_hole_f10 in
  let abs_delta_yw_to_hole_f10 := yw_hole_f10 -! yw_f10 in
  let abs_delta_yw_to_hole_f10 :=
    if abs_delta_yw_to_hole_f10 <? 0 then 0 -! abs_delta_yw_to_hole_f10
    else abs_delta_yw_to_hole_f10 in
  if (hole_radius_f10 <? abs_delta_xw_to_hole_f10)
     || (hole_radius_f10 <? abs_delta_yw_to_hole_f10)
  then ret false else
  let dist_w_sq_to_hole_f20 :=
    abs_delta_xw_to_hole_f10 *! abs_delta_xw_to_hole_f10
    +! abs_delta_yw_to_hole_f10 *! abs_delta_yw_to_hole_f10 in
  if BALL_HOLE_RADIUS_SQ_F20 <? dist_w_sq_to_hole_f20 then ret false else
  (* the helper owns this timestep: advance to the intersection and
     update the velocity per friction *)
  modify (fun b => _set_location_f10 b xw_f10 yw_f10) ;;;
  modify (fun b => _set_maybe_i_chunk_contact b (-1) (-1)) ;;;
  let ignore_hole_line := true in
  modify (fun b => _set_hole_status b in_hole ignore_hole_line) ;;;
  if w_range_f10 =? 0 then raise ZeroDivisionError else
  let ms_sand := (dist_signed_w_to_intersect_f10 *! delta_ms) / w_range_f10 in
  let v_w_per_ms_f20 := v_w_per_ms_f20 -! BALL_COEFF_SAND_F20 *! ms_sand in
  let v_w_per_ms_f20 := if v_w_per_ms_f20 <? 0 then 0 else v_w_per_ms_f20 in
  modify (fun b => _set_velocity_wd_f20 b v_angle_wd v_w_per_ms_f20) ;;;
  (* deflect or enter, as a function of distance and speed *)
  let frac_max_entry_speed_f10 :=
    v_w_per_ms_f20 / BALL_HOLE_MAX_SPEED_ENTER_F10 in
  let dist_w_to_hole_f10 := i32 (sqrt_int dist_w_sq_to_hole_f20) in
  let frac_towards_center_f10 :=
    1024 -! (dist_w_to_hole_f10 <<! 1) / BALL_HOLE_DIAMETER in
  if frac_max_entry_speed_f10 <? frac_towards_center_f10 then
    (* the ball enters the hole *)
    let in_hole := true in
    modify (fun b => _set_hole_status b in_hole ignore_hole_line) ;;;
    modify _reset_is_stopped ;;;
    ret true
  else
  (* the ball skips over the hole; how much to deflect, if at all *)
  let frac_deflection_f10 :=
    1024 -! (frac_max_entry_speed_f10 <<! 1) +! frac_towards_center_f10 in
  if frac_deflection_f10 <? 0 then ret true else
  let delta_ang_deflect :=
    Z.shiftr (frac_deflection_f10 *! BALL_HOLE_ANG_DEFLECT +! 0x200) 10 in
  let dot := vy_unit_f10 *! (xw_f10 -! xw_hole_f10)
             -! vx_unit_f10 *! (yw_f10 -! yw_hole_f10) in
  let v_angle_wd :=
    if 0 <? dot then i32 (wd_init (v_angle_wd +! delta_ang_deflect))
    else i32 (wd_init (v_angle_wd -! delta_ang_deflect)) in
  modify (fun b => _set_velocity_wd_f20 b v_angle_wd v_w_per_ms_f20) ;;;
  ret true.

(** [_maybe_advance_to_hole_interaction]; returns whether it has handled
    the timestep. *)
Definition _maybe_advance_to_hole_interaction `{FloatMath} (delta_ms : Z)
  : M BallState bool :=
  b <- get ;;
  let delta_ms := i32 delta_ms in
  let xw_f10 := i32 (xw_f10 b) in
  let yw_f10 := i32 (yw_f10 b) in
  let xw_hole_f10 := i32 (xw_hole_f10 b) in
  let yw_hole_f10 := i32 (yw_hole_f10 b) in
  let v_angle_wd := i32 (v_angle_wd b) in
  let v_w_per_ms_f20 := i32 (v_w_per_ms_f20 b) in
  let in_hole := in_hole b in
  let ignore_hole_line := ignore_hole_line b in
  (* early out if already in the hole: animate towards its centre *)
  if in_hole then
    let a_f10 := BALL_COEFF_A *! delta_ms in
    let xw_f10 :=
      Z.shiftr (a_f10 *! xw_hole_f10 +! (1024 -! a_f10) *! xw_f10 +! 0x200)
        10 in
    let yw_f10 :=
      Z.shiftr (a_f10 *! yw_hole_f10 +! (1024 -! a_f10) *! yw_f10 +! 0x200)
        10 in
    modify (fun b => _set_location_f10 b xw_f10 yw_f10) ;;;
    ret true
  else
  (* per-axis distances to the hole *)
  let abs_delta_xw_to_hole_f10 := xw_hole_f10 -! xw_f10 in
  let abs_delta_xw_to_hole_f10 :=
    if abs_delta_xw_to_hole_f10 <? 0 then 0 -! abs_delta_xw_to_hole_f10
    else abs_delta_xw_to_hole_f10 in
  let abs_delta_yw_to_hole_f10 := yw_hole_f10 -! yw_f10 in
  let abs_delta_yw_to_hole_f10 :=
    if abs_delta_yw_to_hole_f10 <? 0 then 0 -! abs_delta_yw_to_hole_f10
    else abs_delta_yw_to_hole_f10 in
  (* effect of the distance of the ball's start to the hole *)
  let hole_radius_f10 := BALL_HOLE_DIAMETER <<! 9 in
  let w_range_f10 := Z.shiftr (v_w_per_ms_f20 *! delta_ms +! 0x200) 10 in
  let continue_ (ignore_hole_line : bool) : M BallState bool :=
    if ignore_hole_line || (v_w_per_ms_f20 <? BALL_HOLE_SLOW_F20)
    then ret false
    else hole_line_interaction delta_ms xw_f10 yw_f10 xw_hole_f10 yw_hole_f10
           v_angle_wd v_w_per_ms_f20 hole_radius_f10 w_range_f10 in_hole in
  if (hole_radius_f10 <? abs_delta_xw_to_hole_f10)
     || (hole_radius_f10 <? abs_delta_yw_to_hole_f10)
  then
    (* not starting near the hole: the hole line counts again *)
    let ignore_hole_line := false in
    modify (fun b => _set_hole_status b in_hole ignore_hole_line) ;;;
    if (hole_radius_f10 <? abs_delta_xw_to_hole_f10 -! w_range_f10)
       || (hole_radius_f10 <? abs_delta_yw_to_hole_f10 -! w_range_f10)
    then ret false
    else continue_ ignore_hole_line
  else if v_w_per_ms_f20 <? BALL_HOLE_SLOW_F20 then
    (* close to the hole and slow: roll in if past the lip *)
    let dist_w_sq_to_hole_f20 :=
      abs_delta_xw_to_hole_f10 *! abs_delta_xw_to_hole_f10
      +! abs_delta_yw_to_hole_f10 *! abs_delta_yw_to_hole_f10 in
    if dist_w_sq_to_hole_f20 <? BALL_HOLE_RADIUS_SQ_F20 then
      let in_hole := true in
      modify (fun b => _set_hole_status b in_hole ignore_hole_line) ;;;
      modify _reset_is_stopped ;;;
      ret true
    else continue_ ignore_hole_line
  else continue_ ignore_hole_line.
(** *** The collision scan of [_advance_to_collision_axis_aligned] *)

(** The locals that track contact with regions. *)
Record contact : Type := mkContact {
  count_grass : Z;
  count_sand : Z;
  count_water : Z;
  touch_grass : bool;
  touch_sand : bool;
  count_water_row : Z;
  signed_count_slope_x : Z;
  signed_count_slope_y : Z;
  signed_incr_slope_x : Z;
  signed_incr_slope_y : Z;
  ct_mask_layer : Z
}.

(** The locals that track colliding edges and how far the scan goes. *)
Record collide : Type := mkCollide {
  m_i_chunk_scan_noncollide : Z;
  m_i_chunk_scan_collide0 : Z;
  m_i_chunk_scan_collide1 : Z;
  i_row_end_scan : Z;
  w_to_step : Z;
  w_to_step_f10 : Z
}.

Definition ct_touch (c : contact) (grass sand : bool) (water_row incr_x
    incr_y : Z) : contact :=
  mkContact (count_grass c) (count_sand c) (count_water c) grass sand
    water_row (signed_count_slope_x c) (signed_count_slope_y c) incr_x incr_y
    (ct_mask_layer c).

Definition ct_with_mask_layer (c : contact) (m : Z) : contact :=
  mkContact (count_grass c) (count_sand c) (count_water c) (touch_grass c)
    (touch_sand c) (count_water_row c) (signed_count_slope_x c)
    (signed_count_slope_y c) (signed_incr_slope_x c) (signed_incr_slope_y c)
    m.

(** A cell whose payload has the non-wall bit: contact with a region. *)
Definition scan_cell_region (c : contact) (maybe_i_chunk : Z) : contact :=
  let region := Z.land maybe_i_chunk MGS_PAYLOAD_MASK_LOW in
  let c :=
    if region =? MGS_REGION_FAIRWAY then
      ct_touch c true (touch_sand c) (count_water_row c)
        (signed_incr_slope_x c) (signed_incr_slope_y c)
    else if region =? MGS_REGION_WATER then
      ct_touch c (touch_grass c) (touch_sand c) (count_water_row c +! 1)
        (signed_incr_slope_x c) (signed_incr_slope_y c)
    else if region =? MGS_REGION_SANDTRAP then
      ct_touch c (touch_grass c) true (count_water_row c)
        (signed_incr_slope_x c) (signed_incr_slope_y c)
    else if region =? MGS_REGION_SLOPE_UP then
      ct_touch c true (touch_sand c) (count_water_row c)
        (signed_incr_slope_x c) (-1)
    else if region =? MGS_REGION_SLOPE_DOWN then
      ct_touch c true (touch_sand c) (count_water_row c)
        (signed_incr_slope_x c) 1
    else if region =? MGS_REGION_SLOPE_LEFT then
      ct_touch c true (touch_sand c) (count_water_row c)
        (-1) (signed_incr_slope_y c)
    else if region =? MGS_REGION_SLOPE_RIGHT then
      ct_touch c true (touch_sand c) (count_water_row c)
        1 (signed_incr_slope_y c)
    else c in
  (* the layer mask follows a trigger (last wins) *)
  let mask_trigger := Z.shiftr maybe_i_chunk MGS_PAYLOAD_SHIFT_MASK_TRIGGER in
  if truthy mask_trigger then ct_with_mask_layer c mask_trigger else c.

(** A cell that holds the chunk index of an edge. *)
Definition scan_cell_edge (arr_chunk_normal_wd : list Z) (v_angle_wd i_row
    : Z) (k : collide) (maybe_i_chunk : Z) : collide :=
  let normal_wd := load16 arr_chunk_normal_wd maybe_i_chunk in
  if velocity_hits_normal_wd v_angle_wd normal_wd then
    if m_i_chunk_scan_collide0 k <? 0 then
      (* first observed collision: remember it, set the step and the end
         of the scan *)
      if i_row <=? BALL_DIAMETER then
        mkCollide (m_i_chunk_scan_noncollide k) maybe_i_chunk
          (m_i_chunk_scan_collide1 k)
          (BALL_DIAMETER +! BALL_RADIUS_FLOOR) 0 0
      else
        let w_to_step := i_row -! BALL_DIAMETER in
        mkCollide (m_i_chunk_scan_noncollide k) maybe_i_chunk
          (m_i_chunk_scan_collide1 k)
          (i_row +! BALL_RADIUS_FLOOR +! 1) w_to_step (w_to_step <<! 10)
    else if negb (maybe_i_chunk =? m_i_chunk_scan_collide0 k)
            && (m_i_chunk_scan_collide1 k <? 0) then
      (* second unique observed collision *)
      mkCollide (m_i_chunk_scan_noncollide k) (m_i_chunk_scan_collide0 k)
        maybe_i_chunk (i_row_end_scan k) (w_to_step k) (w_to_step_f10 k)
    else k
  else
    (* a contacted edge that is no collision, if there was none yet *)
    if m_i_chunk_scan_noncollide k <? 0 then
      mkCollide maybe_i_chunk (m_i_chunk_scan_collide0 k)
        (m_i_chunk_scan_collide1 k) (i_row_end_scan k) (w_to_step k)
        (w_to_step_f10 k)
    else k.

Definition scan_cell (pb arr_chunk_normal_wd : list Z) (v_angle_wd i_row
    i_payload_row_start : Z) (ck : contact * collide) (i_off : Z)
  : contact * collide :=
  let maybe_i_chunk := load16 pb (i_payload_row_start +! i_off) in
  if truthy (Z.land maybe_i_chunk MGS_PAYLOAD_BIT_NON_WALL) then
    (scan_cell_region (fst ck) maybe_i_chunk, snd ck)
  else
    (fst ck,
     scan_cell_edge arr_chunk_normal_wd v_angle_wd i_row (snd ck)
       maybe_i_chunk).

(** The counts at the end of a row the ball's ending footprint includes or
    is past. *)
Definition ct_end_row (c : contact) : contact :=
  mkContact
    (if touch_grass c then count_grass c +! 1 else count_grass c)
    (if touch_sand c then count_sand c +! 1 else count_sand c)
    (if BALL_RADIUS_FLOOR <? count_water_row c then count_water c +! 1
     else count_water c)
    false false 0
    (signed_count_slope_x c +! signed_incr_slope_x c)
    (signed_count_slope_y c +! signed_incr_slope_y c)
    0 0 (ct_mask_layer c).

(** [while i_row < i_row_end_scan: ...] *)
Fixpoint scan_rows (fuel : nat) (pb arr_chunk_normal_wd : list Z)
    (v_angle_wd i_row i_payload_row_start : Z) (c : contact) (k : collide)
  : contact * collide :=
  match fuel with
  | O => (c, k)
  | S fuel' =>
      if i_row <? i_row_end_scan k then
        let '(c, k) :=
          fold_left
            (scan_cell pb arr_chunk_normal_wd v_angle_wd i_row
               i_payload_row_start)
            (seqZ 0 BALL_DIAMETER) (c, k) in
        let c :=
          if (BALL_DIAMETER - 1 <=? i_row)
             && (i_row -! BALL_DIAMETER <? w_to_step k)
          then ct_end_row c else c in
        scan_rows fuel' pb arr_chunk_normal_wd v_angle_wd (i_row +! 1)
          (i_payload_row_start +! BALL_DIAMETER) c k
      else (c, k)
  end.
(** *** One timestep of the ball *)

(** What [advance] works on: the ball, and the collision rasterizer and
    the payload buffer it is handed. *)
Record AdvanceState : Type := mkAdvance {
  ball : BallState;
  rasterizer_collision : TransformedRasterizer;
  payload_buffer : PayloadBuffer
}.

Definition on_ball {A : Type} (m : M BallState A) : M AdvanceState A :=
  focus ball
    (fun s b => mkAdvance b (rasterizer_collision s) (payload_buffer s)) m.
Definition on_rasterizer_collision {A : Type} (m : M TransformedRasterizer A)
  : M AdvanceState A :=
  focus rasterizer_collision
    (fun s t => mkAdvance (ball s) t (payload_buffer s)) m.
Definition on_payload_buffer {A : Type} (m : M PayloadBuffer A)
  : M AdvanceState A :=
  focus payload_buffer
    (fun s pb => mkAdvance (ball s) (rasterizer_collision s) pb) m.
Definition on_rasterizer_and_buffer {A : Type}
    (m : M (TransformedRasterizer * PayloadBuffer) A) : M AdvanceState A :=
  focus (fun s => (rasterizer_collision s, payload_buffer s))
    (fun s tp => mkAdvance (ball s) (fst tp) (snd tp)) m.

(** The end of [_advance_to_collision_axis_aligned], after the scan: the
    contacts, the position, friction, slopes, sand and water. *)
Definition apply_scan `{FloatMath} (delta_ms delta_w xw_f10 yw_f10
    v_angle_wd v_w_per_ms_f20 : Z) (c : contact) (k : collide)
  : M BallState unit :=
  (* up to two edges, favoring those that oppose the velocity *)
  let maybe_i_chunk_contact0 := m_i_chunk_scan_collide0 k in
  let maybe_i_chunk_contact1 := m_i_chunk_scan_collide1 k in
  let maybe_i_chunk_contact1 :=
    if (0 <=? maybe_i_chunk_contact0) && (maybe_i_chunk_contact1 <? 0)
    then m_i_chunk_scan_noncollide k else maybe_i_chunk_contact1 in
  modify (fun b => _set_maybe_i_chunk_contact b maybe_i_chunk_contact0
                     maybe_i_chunk_contact1) ;;;
  (if 0 <? w_to_step_f10 k then
     let xw_f10 :=
       xw_f10 +! Z.shiftr (i32 (cos_wd_f10 v_angle_wd) *! w_to_step_f10 k
                           +! 0x200) 10 in
     let yw_f10 :=
       yw_f10 +! Z.shiftr (i32 (sin_wd_f10 v_angle_wd) *! w_to_step_f10 k
                           +! 0x200) 10 in
     modify (fun b => _set_location_f10 b xw_f10 yw_f10)
   else ret tt) ;;;
  (* per-region counts to milliseconds of contact; friction *)
  let denom := delta_w +! 1 in
  if denom =? 0 then raise ZeroDivisionError else
  let ms_grass := (delta_ms *! count_grass c) / denom in
  let ms_sand := (delta_ms *! count_sand c) / denom in
  let v_w_per_ms_f20 := v_w_per_ms_f20 -! BALL_COEFF_GRASS_F20 *! ms_grass in
  let v_w_per_ms_f20 := v_w_per_ms_f20 -! BALL_COEFF_SAND_F20 *! ms_sand in
  let v_w_per_ms_f20 := if v_w_per_ms_f20 <? 0 then 0 else v_w_per_ms_f20 in
  modify (fun b => _set_velocity_wd_f20 b v_angle_wd v_w_per_ms_f20) ;;;
  (* after friction, the effect of any slope contact *)
  modify (fun b => set_mask_layer b (ct_mask_layer c)) ;;;
  (if negb (signed_count_slope_x c =? 0) || negb (signed_count_slope_y c =? 0)
   then
     let w_per_ms_f10 := Z.shiftr (v_w_per_ms_f20 +! 0x200) 10 in
     let xw_per_ms_f10 :=
       Z.shiftr (i32 (cos_wd_f10 v_angle_wd) *! w_per_ms_f10 +! 0x200) 10 in
     let yw_per_ms_f10 :=
       Z.shiftr (i32 (sin_wd_f10 v_angle_wd) *! w_per_ms_f10 +! 0x200) 10 in
     let signed_ms_slope_x := (delta_ms *! signed_count_slope_x c) / denom in
     let signed_ms_slope_y := (delta_ms *! signed_count_slope_y c) / denom in
     let xw_per_ms_f10 :=
       xw_per_ms_f10
       +! Z.shiftr (signed_ms_slope_x *! BALL_COEFF_SLOPE_F20 +! 0x200) 10 in
     let yw_per_ms_f10 :=
       yw_per_ms_f10
       +! Z.shiftr (signed_ms_slope_y *! BALL_COEFF_SLOPE_F20 +! 0x200) 10 in
     modify (fun b => _set_velocity_vector_f10 b xw_per_ms_f10 yw_per_ms_f10)
   else ret tt) ;;;
  modify (fun b => _set_on_sand b (0 <? count_sand c)) ;;;
  (* water: in_water and is_stopped are the helper's *)
  if count_water c =? denom then
    modify (fun b => _set_water_status b (i32 (water_ms b) +! delta_ms))
  else
    let water_ms := (delta_ms *! count_water c) / denom in
    modify (fun b => _set_water_status b water_ms).

(** [_advance_to_collision_axis_aligned]. The scan visits at most
    [BALL_DIAMETER + delta_w + BALL_RADIUS_FLOOR] rows, or
    [BALL_DIAMETER + BALL_RADIUS_FLOOR] when that is more. *)
Definition _advance_to_collision_axis_aligned `{FloatMath} (delta_ms : Z)
    (arr_chunk_normal_wd : list Z) : M AdvanceState unit :=
  s <- get ;;
  let delta_ms := i32 delta_ms in
  let mask_layer := i32 (mask_layer (ball s)) in
  let xw_f10 := i32 (xw_f10 (ball s)) in
  let yw_f10 := i32 (yw_f10 (ball s)) in
  let v_angle_wd := i32 (v_angle_wd (ball s)) in
  let v_w_per_ms_f20 := i32 (v_w_per_ms_f20 (ball s)) in
  (* world distance traveled in delta_ms at the current velocity *)
  let delta_w_f10 := Z.shiftr (v_w_per_ms_f20 *! delta_ms +! 0x200) 10 in
  let delta_w := Z.shiftr (delta_w_f10 +! 0x200) 10 in
  (* payload buffer size for the axis-aligned rasterization *)
  let payload_dim_y := delta_w +! 1 +! 3 *! BALL_RADIUS_FLOOR in
  on_payload_buffer (set_dimensions BALL_DIAMETER payload_dim_y) ;;;
  (* movement direction aligned to +y, ball centred in the top rows *)
  on_rasterizer_collision (set_scale_f10 1024) ;;;
  on_rasterizer_collision (set_angle_wd (wd_init (90 -! v_angle_wd))) ;;;
  on_rasterizer_collision
    (set_translate_map_world_to_screen_f10 xw_f10 yw_f10
       (BALL_RADIUS_FLOOR <<! 10) (BALL_RADIUS_FLOOR <<! 10)) ;;;
  (* collision data for the ball's current layers *)
  on_rasterizer_and_buffer (rasterize_payload mask_layer) ;;;
  s <- get ;;
  let pb := pb_buffer (payload_buffer s) in
  let '(c, k) :=
    scan_rows (Z.to_nat (Z.max delta_w 0 + BALL_DIAMETER + BALL_RADIUS_FLOOR))
      pb arr_chunk_normal_wd v_angle_wd 0 0
      (mkContact 0 0 0 false false 0 0 0 0 0 mask_layer)
      (mkCollide (-1) (-1) (-1) (BALL_DIAMETER +! delta_w) delta_w
         delta_w_f10) in
  on_ball (apply_scan delta_ms delta_w xw_f10 yw_f10 v_angle_wd
             v_w_per_ms_f20 c k).

Definition _maybe_resolve_collision (arr_chunk_normal_wd : list Z)
    (b : BallState) : BallState :=
  (* which of the up to two contact edges count as collisions *)
  let v_angle_wd := i32 (v_angle_wd b) in
  let v_w_per_ms_f20 := i32 (v_w_per_ms_f20 b) in
  let maybe_i_chunk_contact0 := i32 (maybe_i_chunk_contact0 b) in
  let maybe_i_chunk_contact1 := i32 (maybe_i_chunk_contact1 b) in
  let normal0_wd :=
    if 0 <=? maybe_i_chunk_contact0
    then load16 arr_chunk_normal_wd maybe_i_chunk_contact0 else 0 in
  let is_collision0 :=
    (0 <=? maybe_i_chunk_contact0)
    && velocity_hits_normal_wd v_angle_wd normal0_wd in
  let normal1_wd :=
    if 0 <=? maybe_i_chunk_contact1
    then load16 arr_chunk_normal_wd maybe_i_chunk_contact1 else 0 in
  let is_collision1 :=
    (0 <=? maybe_i_chunk_contact1)
    && velocity_hits_normal_wd v_angle_wd normal1_wd in
  (* reduce speed for any collision *)
  let v_w_per_ms_f20 :=
    if is_collision0 || is_collision1 then
      let v := v_w_per_ms_f20 -! BALL_SUBTR_WALL_F20 in
      if v <? 0 then 0 else v
    else v_w_per_ms_f20 in
  (* by cases for the reflection *)
  if is_collision0 && is_collision1 then
    (* about the endpoint normal of the two edges *)
    let v_angle_wd :=
      i32 (reflect_velocity_about_normal_wd v_angle_wd
             (get_endpoint_normal_wd normal0_wd normal1_wd)) in
    _set_velocity_wd_f20 b v_angle_wd v_w_per_ms_f20
  else if is_collision0 then
    let v_angle_wd :=
      i32 (reflect_velocity_about_normal_wd v_angle_wd normal0_wd) in
    _set_velocity_wd_f20 b v_angle_wd v_w_per_ms_f20
  else if is_collision1 then
    let v_angle_wd :=
      i32 (reflect_velocity_about_normal_wd v_angle_wd normal1_wd) in
    _set_velocity_wd_f20 b v_angle_wd v_w_per_ms_f20
  else b.

Definition _update_stopped_tracking (delta_ms : Z) (b : BallState)
  : BallState :=
  let xw_f10 := xw_f10 b in
  let yw_f10 := yw_f10 b in
  (* exponential average of the ball position, weighted by the timestep *)
  let a_f10 := BALL_COEFF_A * delta_ms in
  let xw_exp_avg_f10 :=
    Z.shiftr (a_f10 * xw_f10 + (1024 - a_f10) * xw_exp_avg_f10 b + 0x200)
      10 in
  let yw_exp_avg_f10 :=
    Z.shiftr (a_f10 * yw_f10 + (1024 - a_f10) * yw_exp_avg_f10 b + 0x200)
      10 in
  (* is the average far from the ball position *)
  let abs_diff_xw_f10 := xw_f10 - xw_exp_avg_f10 in
  let abs_diff_xw_f10 :=
    if abs_diff_xw_f10 <? 0 then - abs_diff_xw_f10 else abs_diff_xw_f10 in
  let abs_diff_yw_f10 := yw_f10 - yw_exp_avg_f10 in
  let abs_diff_yw_f10 :=
    if abs_diff_yw_f10 <? 0 then - abs_diff_yw_f10 else abs_diff_yw_f10 in
  if (abs_diff_xw_f10 <? BALL_DELTA_W_STOPPED_F10)
     && (abs_diff_yw_f10 <? BALL_DELTA_W_STOPPED_F10)
  then
    (* near the average: count, and mark stopped after long enough *)
    let ms := ms_below_stop_threshold b + delta_ms in
    set_stopped_tracking b
      (if BALL_MS_BEFORE_STOPPED <? ms then true else is_stopped b)
      ms xw_exp_avg_f10 yw_exp_avg_f10
  else
    set_stopped_tracking b (is_stopped b) 0 xw_exp_avg_f10 yw_exp_avg_f10.

(** [advance]: one timestep of [delta_ms]. *)
Definition advance `{FloatMath} (delta_ms : Z) (arr_chunk_normal_wd : list Z)
  : M AdvanceState unit :=
  s <- get ;;
  (* nothing if stopped *)
  if is_stopped (ball s) then ret tt else
  (* a hole interaction if close to it *)
  handled_by_hole <- on_ball (_maybe_advance_to_hole_interaction delta_ms) ;;
  (if negb handled_by_hole then
     (* the rasterized scene, and any resulting collision *)
     _advance_to_collision_axis_aligned delta_ms arr_chunk_normal_wd ;;;
     on_ball (modify (_maybe_resolve_collision arr_chunk_normal_wd))
   else ret tt) ;;;
  (* stopped-ness *)
  on_ball (modify (_update_stopped_tracking delta_ms)).
(** *** The last shot, and resets ([scene.py]) *)

Definition update_last_shot (b : BallState) : BallState :=
  mkBall (xw_f10 b) (yw_f10 b) (v_angle_wd b) (v_w_per_ms_f20 b)
    (maybe_i_chunk_contact0 b) (maybe_i_chunk_contact1 b) (mask_layer b)
    (water_ms b) (in_water b) (xw_f10 b) (yw_f10 b)
    (xw_hole_f10 b) (yw_hole_f10 b) (on_sand b) (in_hole b)
    (ignore_hole_line b) (is_stopped b) (ms_below_stop_threshold b)
    (xw_exp_avg_f10 b) (yw_exp_avg_f10 b).

Definition _reset_ball (b : BallState) : BallState :=
  mkBall (xw_f10 b) (yw_f10 b) (v_angle_wd b) (v_w_per_ms_f20 b)
    (-1) (-1) (mask_layer b)
    0 false (xw_f10 b) (yw_f10 b)
    (xw_hole_f10 b) (yw_hole_f10 b) (on_sand b) false
    false false 0
    (xw_f10 b) (yw_f10 b).

Definition move_to_last_shot (b : BallState) : BallState :=
  _reset_ball (_set_location_f10 b (xw_last_shot_f10 b) (yw_last_shot_f10 b)).

Definition reset_location_f10 (b : BallState) (xw yw : Z) : BallState :=
  _reset_ball (_set_on_sand (_set_location_f10 b xw yw) false).

Definition set_location_hole_f10 (b : BallState) (xw_hole yw_hole : Z)
  : BallState :=
  _set_hole_status
    (mkBall (xw_f10 b) (yw_f10 b) (v_angle_wd b) (v_w_per_ms_f20 b)
       (maybe_i_chunk_contact0 b) (maybe_i_chunk_contact1 b) (mask_layer b)
       (water_ms b) (in_water b) (xw_last_shot_f10 b) (yw_last_shot_f10 b)
       xw_hole yw_hole (on_sand b) (in_hole b)
       (ignore_hole_line b) (is_stopped b) (ms_below_stop_threshold b)
       (xw_exp_avg_f10 b) (yw_exp_avg_f10 b))
    false false.

Definition reset_velocity_wd_f20 (b : BallState) (angle_wd' w_per_ms_f20 : Z)
  : BallState :=
  _reset_ball (_set_velocity_wd_f20 b angle_wd' w_per_ms_f20).

(** [l[i]] on a Python list. *)
Definition list_item (l : list Z) (i : Z) : M ChunkData Z :=
  match py_index (Z.of_nat (length l)) i with
  | Some n => ret (default 0 (l !! n))
  | None => raise IndexError
  end.

(** [loop_add_edge_batch]: [range(0, len(list_x_y), 2)] has
    [(len + 1) / 2] indices. *)
Definition loop_add_edge_batch (list_x_y : list Z)
    (region_line offset_x offset_y : Z) : M ChunkData unit :=
  let len := Z.of_nat (length list_x_y) in
  if negb (len mod 2 =? 0) then raise (RuntimeError "odd-length list_x_y")
  else
    foldr
      (fun i rest =>
         x <- list_item list_x_y i ;;
         y <- list_item list_x_y (i + 1) ;;
         loop_add_edge x y region_line offset_x offset_y ;;;
         rest)
      (ret tt)
      (map (fun k : nat => 2 * Z.of_nat k)
         (seq 0 (Z.to_nat ((len + 1) / 2)))).

(** *** Fill patterns ([scene.py]) *)

(** A read through a [ptr8]. *)
Definition load8 (a : list Z) (i : Z) : Z := Z.land (peek a i) 0xff.

(** [copy_fill_bytes_shift]. The two pointers lead into different byte
    arrays: [src] and [dst] are those arrays from the pointers on, and the
    result is what [dst] has become. *)
Definition copy_fill_bytes_shift (src dst : list Z) (delta_x delta_y : Z)
  : list Z :=
  let delta_x := Z.land (i32 delta_x) 0x7 in
  let delta_y := Z.land (i32 delta_y) 0x7 in
  (* copy src fill to dst, performing x shift *)
  let dst :=
    foldl
      (fun dst i_src =>
         poke dst (Z.land (i_src +! delta_x) 0x7) (store8 (load8 src i_src)))
      dst (map Z.of_nat (seq 0 8)) in
  (* apply y shift to each fill byte of dst *)
  foldl
    (fun dst i_dst =>
       let shifted := load8 dst i_dst <<! delta_y in
       poke dst i_dst
         (store8 (Z.land (Z.lor shifted (Z.shiftr shifted 8)) 0xff)))
    dst (map Z.of_nat (seq 0 8)).

(** [TransformedRasterizer.screen_to_world_f10] *)
Definition screen_to_world_f10 (t : TransformedRasterizer)
    (x_screen_f10 y_screen_f10 : Z) : Z * Z :=
  let inv_scale_f10 := i32 (inv_scale_f10 t) in
  let cos_f10 := i32 (cos_f10 t) in
  let sin_f10 := i32 (sin_f10 t) in
  (* translate -> f10 *)
  let x_f10 := i32 x_screen_f10 -! (i32 (translate_screen_x t) <<! 10) in
  let y_f10 := i32 y_screen_f10 -! (i32 (translate_screen_y t) <<! 10) in
  (* rotate -> f20 *)
  let x_f20 := y_f10 *! sin_f10 +! x_f10 *! cos_f10 in
  let y_f20 := y_f10 *! cos_f10 -! x_f10 *! sin_f10 in
  (* scale -> f10 *)
  (Z.shiftr (Z.shiftr (x_f20 +! 0x200) 10 *! inv_scale_f10 +! 0x200) 10,
   Z.shiftr (Z.shiftr (y_f20 +! 0x200) 10 *! inv_scale_f10 +! 0x200) 10).

(** *** Derived chunk data ([scene.py]) *)

(** The floating-point part of [normal_inward_wd]:
    [int(math.atan2(y, x) * COEFF_RADIANS_TO_DEGREES)]. *)
Class FloatNormal : Type := {
  atan2_trunc_degrees : Z -> Z -> Z
}.

Definition normal_inward_wd `{FloatNormal} (x_b y_b x_e y_e : Z) : Z :=
  wd_init (atan2_trunc_degrees (y_e - y_b) (x_e - x_b) - 90).

Definition cd_with_normals (cd : ChunkData) (normals : list Z) : ChunkData :=
  mkCD (arr_chunk_data cd) (num_chunks cd) (i_acd_last_loop cd) normals
       (xw_lo cd) (yw_lo cd) (xw_hi cd) (yw_hi cd).
Definition cd_with_box (cd : ChunkData) (box : Z * Z * Z * Z) : ChunkData :=
  let '(x_lo, y_lo, x_hi, y_hi) := box in
  mkCD (arr_chunk_data cd) (num_chunks cd) (i_acd_last_loop cd)
       (arr_chunk_normal_wd cd) x_lo y_lo x_hi y_hi.

(** [self.arr_chunk_normal_wd[i] = v], on an [array('h')]. *)
Definition normal_store (i v : Z) : M ChunkData unit :=
  cd <- get ;;
  match py_index (Z.of_nat (length (arr_chunk_normal_wd cd))) i with
  | Some n =>
      if (v <? -32768) || (32767 <? v) then raise OverflowError
      else put (cd_with_normals cd (<[n := v]> (arr_chunk_normal_wd cd)))
  | None => raise IndexError
  end.

(** The [for i_chunk in range(self.num_chunks)] of [_update_derived], over
    the chunk indices left and the bounding box so far, as
    [(xw_lo, yw_lo, xw_hi, yw_hi)]. *)
Fixpoint update_derived_loop `{FloatNormal} (chunks : list Z)
    (box : Z * Z * Z * Z) : M ChunkData (Z * Z * Z * Z) :=
  match chunks with
  | [] => ret box
  | i_chunk :: rest =>
      is_loop <- chunk_is_loop i_chunk ;;
      if is_loop then update_derived_loop rest box else
      endpoints <- chunk_edge_get_endpoints i_chunk ;;
      let '(xw_b, yw_b, xw_e, yw_e) := endpoints in
      let '(x_lo, y_lo, x_hi, y_hi) := box in
      let x_lo := Z.min x_lo xw_b in
      let x_hi := Z.max x_hi xw_b in
      let y_lo := Z.min y_lo yw_b in
      let y_hi := Z.max y_hi yw_b in
      normal_store i_chunk (normal_inward_wd xw_b yw_b xw_e yw_e) ;;;
      update_derived_loop rest (x_lo, y_lo, x_hi, y_hi)
  end.

Definition _update_derived `{FloatNormal} : M ChunkData unit :=
  cd <- get ;;
  (* edge normals, AABB *)
  let xw_lo := Z.shiftl 1 20 in
  let yw_lo := Z.shiftl 1 20 in
  let xw_hi := - xw_lo in
  let yw_hi := - yw_lo in
  box <- update_derived_loop
           (map Z.of_nat (seq 0 (Z.to_nat (num_chunks cd))))
           (xw_lo, yw_lo, xw_hi, yw_hi) ;;
  cd <- get ;;
  put (cd_with_box cd box).
(** ** Walking one edge, and the reference it is compared with *)

(** The scanline and the position an RL is at. *)
Definition rl_s (rl : RL) : Z := Z.shiftr (I_RL_SP rl) 16.
Definition rl_p (rl : RL) : Z := Z.land (I_RL_SP rl) 0xffff.

(** The (scanline, position) pairs visited by [rl_init] followed by
    [rl_increment_s] once per scanline after the first, from [s_b] through
    [s_e]. *)
Fixpoint rl_walk_from (n : nat) (rl : RL) : list (Z * Z) :=
  (rl_s rl, rl_p rl) ::
  match n with
  | O => []
  | S n' => rl_walk_from n' (rl_increment_s rl)
  end.

(** One edge as [add_edge_line_fill] hands it to [rl_init]. *)
Record line : Type := mkLine {
  ln_s_b : Z; ln_p_b : Z; ln_s_e : Z; ln_p_e : Z;
  ln_region0 : Z; ln_region1 : Z; ln_payload0 : Z; ln_payload1 : Z;
  ln_mask_layer : Z
}.

Definition rl_of_line (L : line) (is_past_exit : bool) : RL :=
  rl_init (ln_s_b L) (ln_p_b L) (ln_s_e L) (ln_p_e L) (ln_region0 L)
    (ln_region1 L) (ln_payload0 L) (ln_payload1 L) (ln_mask_layer L)
    is_past_exit.

Definition rl_walk (L : line) (is_past_exit : bool) : list (Z * Z) :=
  rl_walk_from (Z.to_nat (ln_s_e L - ln_s_b L)) (rl_of_line L is_past_exit).

(** The pixels an enter walk and a past-exit walk of one edge cover: on the
    scanline both are at, the positions from the enter position up to, but
    without, the past-exit position. *)
Definition rl_covers (enter past_exit : list (Z * Z)) (s p : Z) : Prop :=
  exists (i : nat) (lo hi : Z),
    enter !! i = Some (s, lo) /\ past_exit !! i = Some (s, hi) /\ lo <= p < hi.

(** ** Bresenham walks to compare with

    The integer error-term line walk over all octants, started at
    [(s_b, p_b)], with the scanline in the place of x. One error variable
    decides both axes: twice the error is compared with the two deltas.
    The published loops treat the two comparisons alike, both strict or
    both inclusive; where the ideal line passes exactly between two pixels
    that choice decides the pixel.

    [bresenham] is the walk with the ties the code has: the scanline
    advances when twice the error is strictly above [- d_p], the position
    advances when it is at most [d_s]. It is neither of the published
    loops. *)
Fixpoint bresenham_loop (fuel : nat) (d_s d_p step_p s_e p_e s p err : Z)
  : list (Z * Z) :=
  (s, p) ::
  match fuel with
  | O => []
  | S fuel' =>
      if (s =? s_e) && (p =? p_e) then [] else
      let e2 := 2 * err in
      let '(err, s) := if - d_p <? e2 then (err - d_p, s + 1) else (err, s) in
      let '(err, p) := if e2 <=? d_s then (err + d_s, p + step_p) else (err, p) in
      bresenham_loop fuel' d_s d_p step_p s_e p_e s p err
  end.

Definition bresenham (s_b p_b s_e p_e : Z) : list (Z * Z) :=
  let d_s := s_e - s_b in
  let d_p := Z.abs (p_e - p_b) in
  let step_p := if p_b <? p_e then 1 else -1 in
  bresenham_loop (Z.to_nat (d_s + d_p)) d_s d_p step_p s_e p_e s_b p_b
    (d_s - d_p).

(** The published loop with both comparisons strict:
    [loop: plot(x0, y0); if x0 = x1 and y0 = y1 then exit;
     e2 := 2 * err;
     if e2 > -dy then err := err - dy; x0 := x0 + sx;
     if e2 < dx then err := err + dx; y0 := y0 + sy],
    with [dx = |x1 - x0|], [dy = |y1 - y0|] and [err = dx - dy] at the
    start. *)
Fixpoint bresenham_strict_loop (fuel : nat) (d_s d_p step_p s_e p_e s p
    err : Z) : list (Z * Z) :=
  (s, p) ::
  match fuel with
  | O => []
  | S fuel' =>
      if (s =? s_e) && (p =? p_e) then [] else
      let e2 := 2 * err in
      let '(err, s) := if - d_p <? e2 then (err - d_p, s + 1) else (err, s) in
      let '(err, p) := if e2 <? d_s then (err + d_s, p + step_p) else (err, p) in
      bresenham_strict_loop fuel' d_s d_p step_p s_e p_e s p err
  end.

Definition bresenham_strict (s_b p_b s_e p_e : Z) : list (Z * Z) :=
  let d_s := s_e - s_b in
  let d_p := Z.abs (p_e - p_b) in
  let step_p := if p_b <? p_e then 1 else -1 in
  bresenham_strict_loop (Z.to_nat (d_s + d_p)) d_s d_p step_p s_e p_e s_b p_b
    (d_s - d_p).

(** The published loop with both comparisons inclusive:
    [loop: plot(x0, y0); e2 := 2 * error;
     if e2 >= dy then (if x0 = x1 then exit;
                       error := error + dy; x0 := x0 + sx);
     if e2 <= dx then (if y0 = y1 then exit;
                       error := error + dx; y0 := y0 + sy)],
    with [dx = |x1 - x0|], [dy = - |y1 - y0|] and [error = dx + dy] at
    the start. *)
Fixpoint bresenham_inclusive_loop (fuel : nat) (d_s d_p step_p s_e p_e s p
    err : Z) : list (Z * Z) :=
  (s, p) ::
  match fuel with
  | O => []
  | S fuel' =>
      let e2 := 2 * err in
      if (- d_p <=? e2) && (s =? s_e) then [] else
      let '(err, s) := if - d_p <=? e2 then (err - d_p, s + 1) else (err, s) in
      if (e2 <=? d_s) && (p =? p_e) then [] else
      let '(err, p) := if e2 <=? d_s then (err + d_s, p + step_p) else (err, p) in
      bresenham_inclusive_loop fuel' d_s d_p step_p s_e p_e s p err
  end.

Definition bresenham_inclusive (s_b p_b s_e p_e : Z) : list (Z * Z) :=
  let d_s := s_e - s_b in
  let d_p := Z.abs (p_e - p_b) in
  let step_p := if p_b <? p_e then 1 else -1 in
  bresenham_inclusive_loop (Z.to_nat (d_s + d_p)) d_s d_p step_p s_e p_e
    s_b p_b (d_s - d_p).

(** Three edges: one steep and one shallow whose ideal line passes
    exactly between two pixels, and one whose position delta, [0x4000], no
    longer fits the packed field of twice its value. *)
Definition c1_tie_steep : line :=
  mkLine 0x4000 0x4000 0x4001 0x4002 7 8 0 0 1.
Definition c1_tie_shallow : line :=
  mkLine 0x4000 0x4000 0x4002 0x4001 7 8 0 0 1.
Definition c1_too_long : line :=
  mkLine 0x4000 0x2000 0x4002 0x6000 7 8 0 0 1.
(** ** Closed form of a rasterized line

    What the fields of an RL hold after [k] scanline steps, written without
    iteration. [ln_cnt] is the number of position steps made after [j] units
    of the error increment, [ln_a] the value of the accumulator then. *)

Definition ln_cnt (d_s d_p : Z) (steep : bool) (j : Z) : Z :=
  if steep
  then (if j <=? 0 then 0 else ((2 * j - 1) * d_p) / (2 * d_s) + 1)
  else (d_s + 2 * d_p * j) / (2 * d_s).

Definition ln_a (d_s d_p : Z) (steep : bool) (j : Z) : Z :=
  (if steep then d_p else d_s) + 2 * d_p * j - 2 * d_s * ln_cnt d_s d_p steep j.

Definition ln_d_s (L : line) : Z := ln_s_e L - ln_s_b L.
Definition ln_d_p (L : line) : Z := Z.abs (ln_p_e L - ln_p_b L).
Definition ln_positive (L : line) : bool := ln_p_b L <=? ln_p_e L.
Definition ln_flat (L : line) : bool := ln_d_s L =? 0.
Definition ln_steep (L : line) : bool := ln_d_s L <? ln_d_p L.
Definition ln_correct (L : line) (is_past_exit : bool) : bool :=
  negb (ln_flat L) && ln_steep L && eqb (ln_positive L) is_past_exit.

Definition ln_idx (L : line) (is_past_exit : bool) (k : Z) : Z :=
  if ln_correct L is_past_exit then k + 1 else k.

Definition ln_p0 (L : line) (is_past_exit : bool) : Z :=
  if ln_flat L then
    (if is_past_exit then Z.max (ln_p_b L) (ln_p_e L) + 1
     else Z.min (ln_p_b L) (ln_p_e L))
  else if ln_steep L then
    (if ln_positive L then ln_p_b L else ln_p_b L + 1)
  else (if is_past_exit then ln_p_b L + 1 else ln_p_b L).

Definition ln_p_end (L : line) (is_past_exit : bool) : Z :=
  if ln_flat L then ln_p_e L
  else if ln_correct L is_past_exit then
    (if ln_positive L then ln_p_e L + 1 else ln_p_e L)
  else RL_P_E_DONT_CORRECT.

(** The position the accumulated steps give, before any endpoint
    correction. *)
Definition ln_naive (L : line) (ex : bool) (j : Z) : Z :=
  let c := ln_cnt (ln_d_s L) (ln_d_p L) (ln_steep L) j in
  if ln_positive L then ln_p0 L ex + c else ln_p0 L ex - c.

Definition ln_pos_at (L : line) (is_past_exit : bool) (k : Z) : Z :=
  if ln_flat L then ln_p0 L is_past_exit
  else if ln_correct L is_past_exit && (k =? ln_d_s L)
  then ln_p_end L is_past_exit
  else
    let c := ln_cnt (ln_d_s L) (ln_d_p L) (ln_steep L)
               (ln_idx L is_past_exit k) in
    if ln_positive L then ln_p0 L is_past_exit + c
    else ln_p0 L is_past_exit - c.

Definition ln_a_at (L : line) (is_past_exit : bool) (k : Z) : Z :=
  if ln_flat L then 0
  else ln_a (ln_d_s L) (ln_d_p L) (ln_steep L) (ln_idx L is_past_exit k).

Definition ln_flags0 (L : line) (is_past_exit : bool) : Z :=
  rl_pack_flags (ln_positive L) is_past_exit
    (ln_flat L || negb (ln_steep L)) (ln_correct L is_past_exit)
    (ln_mask_layer L).

Definition ln_flags_at (L : line) (is_past_exit : bool) (k : Z) : Z :=
  if (k =? 0) || (k =? ln_d_s L) then ln_flags0 L is_past_exit
  else Z.land (ln_flags0 L is_past_exit) 0x1fe.

Definition rl_at (L : line) (is_past_exit : bool) (k : Z) : RL :=
  mkRL ((ln_s_b L + k) * 0x10000 + ln_pos_at L is_past_exit k)
       (ln_s_b L * 0x10000 + ln_pos_at L is_past_exit 0)
       (ln_s_e L * 0x10000 + ln_p_end L is_past_exit)
       (ln_a_at L is_past_exit k)
       (ln_flags_at L is_past_exit k)
       (if ln_flat L then 0 else (2 * ln_d_p L) * 0x10000 + 2 * ln_d_s L)
       (Z.lor (ln_region0 L <<! 16) (ln_region1 L))
       (Z.lor (ln_payload0 L <<! 16) (ln_payload1 L)).

(** The coordinates the packed fields of an RL can hold without touching a
    sign bit: scanlines below [0x8000], positions within [0x2000] of the
    bias [RL_SP_BIAS], a layer mask of four bits. *)
Definition line_ok (L : line) : Prop :=
  0 <= ln_s_b L <= ln_s_e L /\ ln_s_e L < 0x8000 /\
  0x2000 <= ln_p_b L < 0x6000 /\ 0x2000 <= ln_p_e L < 0x6000 /\
  0 <= ln_mask_layer L <= 0xf.
(** The pixels of the segment in closed form: [k] scanlines and [j]
    positions away from the begin point, within half a unit of the ideal
    line measured along the major axis, the upper half included. *)
Definition on_line (d_s d_p k j : Z) : Prop :=
  0 <= k <= d_s /\ 0 <= j <= d_p /\
  - Z.max 1 (Z.max d_s d_p) < 2 * (j * d_s - k * d_p)
    <= Z.max 1 (Z.max d_s d_p).
(** ** Concrete inputs

    The edges and objects the statements below are instantiated at. *)

(** A steep edge of a wall (region 0) around fairway (region 7). *)
Definition c1_line : line := mkLine 0x4003 0x4002 0x4005 0x4009 0 7 1 2055 1.

(** A rasterizer whose pool is full, and an empty one. *)
Definition sr_empty : ScanlineRasterizer := sr_init [] [].
Definition sr_full : ScanlineRasterizer := sr_set_num_rl sr_empty SR_MAX_NUM_RL.

(** ** Well-formed rasterizers

    The RL count is within the pool, and the pool has its 512 slots. *)
Definition sr_wf (sr : ScanlineRasterizer) : Prop :=
  0 <= num_rl sr <= SR_MAX_NUM_RL /\
  length (arr_ptr_rl_sorted sr) = Z.to_nat SR_MAX_NUM_RL.

(** A step that returns and keeps the rasterizer well-formed. *)
Definition keeps_wf (m : M ScanlineRasterizer unit) : Prop :=
  forall sr c, sr_wf sr ->
    exists sr' c', m sr c = Returns tt sr' c' /\ sr_wf sr'.

(** The RL of one variant of an edge: [rl_init] on the endpoints in
    scanline order, as [add_edge_line_fill] passes them. *)
Definition edge_rl (x_b y_b x_e y_e region_line region_fill payload_line
    payload_fill mask : Z) (is_past_exit : bool) : RL :=
  let s_b := x_b +! RL_SP_BIAS in
  let p_b := y_b +! RL_SP_BIAS in
  let s_e := x_e +! RL_SP_BIAS in
  let p_e := y_e +! RL_SP_BIAS in
  if s_b <? s_e
  then rl_init s_b p_b s_e p_e region_line region_fill payload_line
         payload_fill mask is_past_exit
  else rl_init s_e p_e s_b p_b region_line region_fill payload_line
         payload_fill mask is_past_exit.

(** The RL of one variant of an edge after [k] calls of [rl_increment_s],
    which is how the scan takes it from scanline to scanline. *)
Definition rl_after (L : line) (ex : bool) (k : nat) : RL :=
  Nat.iter k rl_increment_s (rl_of_line L ex).


(** Two filled squares without outlines that overlap: fairway over
    [0 .. 4] and a sand trap over [2 .. 6], rasterized as payloads into an
    8 by 8 buffer. *)
Definition state_of {S A : Type} (o : outcome S A) : S :=
  match o with Returns _ s _ => s | Raises _ s _ => s end.





(** The ball with another velocity, all else as it was. *)
Definition ball_with_velocity (b : BallState) (angle speed : Z) : BallState :=
  mkBall (xw_f10 b) (yw_f10 b) angle speed
    (maybe_i_chunk_contact0 b) (maybe_i_chunk_contact1 b) (mask_layer b)
    (water_ms b) (in_water b) (xw_last_shot_f10 b) (yw_last_shot_f10 b)
    (xw_hole_f10 b) (yw_hole_f10 b) (on_sand b) (in_hole b)
    (ignore_hole_line b) (is_stopped b) (ms_below_stop_threshold b)
    (xw_exp_avg_f10 b) (yw_exp_avg_f10 b).

(** A ball moving at angle 0 that touches edge chunk 3, a wall whose
    normal is at 180 degrees. *)
Definition c5_ball : BallState :=
  mkBall 0 0 0 30000 3 (-1) 0xf 0 false 0 0 0 0 false false false false 0 0 0.
Definition c5_normals : list Z := [0; 0; 0; 180].

(** Floating-point helpers to instantiate the statements at: in the four
    axis directions and on perfect squares they have the values double
    precision gives the expressions of the source, elsewhere they are
    rough. [COEFF_RADIANS_TO_DEGREES] is a little below 180 / pi, so the
    quarter turn clockwise comes to -89.99..., which the added half and
    [int] take to -89. *)
#[local] Instance float_math_axes : FloatMath := {
  sin_wd_f10 wd :=
    if wd =? 90 then 1024 else if wd =? 270 then -1024 else 0;
  cos_wd_f10 wd :=
    if wd =? 0 then 1024 else if wd =? 180 then -1024 else 0;
  sqrt_int x := Z.sqrt x;
  atan2_degrees y x :=
    if y =? 0 then (if x <? 0 then 180 else 0)
    else if 0 <? y then 90 else -89
}.

(** A slow ball two world units from the centre of the hole. *)
Definition c7_ball : BallState :=
  mkBall 10240 20480 45 5000 (-1) (-1) 0xf 0 false 0 0 12288 21504 false
    false false false 0 10240 20480.

Definition c7_state : AdvanceState :=
  mkAdvance c7_ball (tr_init [] [] (state_of cd_new)) pb_init.

(** Chunk data with one loop, a walled fairway of 3 by 2, as the baking
    class builds it, and a transformed rasterizer over it. *)
Definition c8_chunks : ChunkData :=
  state_of ((add_loop MGS_REGION_FAIRWAY 1 0 ;;;
             loop_add_edge 0 0 MGS_REGION_WALL 0 0 ;;;
             loop_add_edge 0 2 MGS_REGION_WALL 0 0 ;;;
             loop_add_edge 3 2 MGS_REGION_WALL 0 0 ;;;
             loop_add_edge 3 0 MGS_REGION_WALL 0 0) (state_of cd_new) []).

Definition c8_tr : TransformedRasterizer := tr_init [] [] c8_chunks.

(** The parts of a transformed rasterizer that decide what geometry the
    scanline rasterizer holds and whether it is to be submitted again. *)
Definition same_geometry (t t' : TransformedRasterizer) : Prop :=
  update_rasterizer_geometry t' = update_rasterizer_geometry t /\
  rasterizer t' = rasterizer t /\
  chunk_data t' = chunk_data t /\
  scale_f10 t' = scale_f10 t /\
  angle_wd t' = angle_wd t /\ cos_f10 t' = cos_f10 t /\ sin_f10 t' = sin_f10 t.

(** Chunk data that holds its maximum of chunks. *)
Definition c9_full : ChunkData :=
  cd_with_num_chunks (state_of cd_new) MAX_NUM_CHUNKS.

(** A fast ball far from the hole: one world unit per millisecond. *)
Definition c10_ball : BallState :=
  mkBall 0 0 0 1048576 (-1) (-1) 0xf 0 false 0 0 1024000 1024000 false
    false false false 0 0 0.

Definition c10_state : AdvanceState :=
  mkAdvance c10_ball (tr_init [] [] (state_of cd_new)) pb_init.

(** The message of the [RuntimeError] of [set_dimensions]. *)
Definition too_large (width height : Z) : exn :=
  RuntimeError ("setting too-large payload buffer "
                ++ str_of_int width ++ ", " ++ str_of_int height).

(** The rows [_advance_to_collision_axis_aligned] asks for: the world
    distance travelled in [delta_ms] at the ball's speed, rounded, and
    [1 + 3 * BALL_RADIUS_FLOOR] more. *)
Definition payload_dim_y (b : BallState) (delta_ms : Z) : Z :=
  let delta_w_f10 :=
    Z.shiftr (i32 (v_w_per_ms_f20 b) *! i32 delta_ms +! 0x200) 10 in
  let delta_w := Z.shiftr (delta_w_f10 +! 0x200) 10 in
  delta_w +! 1 +! 3 *! BALL_RADIUS_FLOOR.
(** ** Notions for the further properties *)

(** The pointers [lo .. hi - 1] are in the order of the packed (s, p) of
    their RL. *)
Definition sorted_range (arr : list RL) (lo hi : nat) : Prop :=
  forall i j, (lo <= i)%nat -> (i <= j)%nat -> (j < hi)%nat ->
    I_RL_SP (rl_get arr i) <= I_RL_SP (rl_get arr j).

(** Three RL out of order, for the sort. *)
Definition x3_rls : list RL :=
  [mkRL 3 0 0 0 0 0 0 0; mkRL 1 0 0 0 0 0 0 0; mkRL 2 0 0 0 0 0 0 0].

(** A transformed rasterizer over chunk data without geometry, after a
    first draw has submitted it. *)
Definition x6_tr : TransformedRasterizer :=
  state_of (_maybe_update_rasterizer_geometry
              (tr_init [] [] (state_of cd_new)) []).

(** The scaled and rotated point, before the translation is added. *)
Definition rotate_scale_f10 (t : TransformedRasterizer) (xw yw : Z) : Z * Z :=
  world_to_screen_f10 (tr_with_translate t 0 0) xw yw.

(** A ball that is in the hole, a little off its centre. *)
Definition x11_ball : BallState :=
  mkBall 1000 2000 0 0 (-1) (-1) 0xf 0 false 0 0 3000 1000 false true false
    false 0 1000 2000.

(** Calls of [advance] one after the other, one per frame, each with its
    own timestep; a frame that raises ends the run. *)
Definition advance_frames `{FloatMath} (frames : list Z)
    (arr_chunk_normal_wd : list Z) : M AdvanceState unit :=
  foldr (fun delta_ms rest => advance delta_ms arr_chunk_normal_wd ;;; rest)
    (ret tt) frames.

(** What no timestep changes of a ball: where the hole is, where the last
    shot was taken, and that the angle of the velocity is a wrapped
    degree. *)
Definition ball_kept (b b' : BallState) : Prop :=
  xw_hole_f10 b' = xw_hole_f10 b /\ yw_hole_f10 b' = yw_hole_f10 b /\
  xw_last_shot_f10 b' = xw_last_shot_f10 b /\
  yw_last_shot_f10 b' = yw_last_shot_f10 b /\
  (0 <= v_angle_wd b < 360 -> 0 <= v_angle_wd b' < 360).

Definition keeps_ball {A : Type} (m : M BallState A) : Prop :=
  forall b c, ball_kept b (state_of (m b c)).

Definition keeps_ball_of {A : Type} (m : M AdvanceState A) : Prop :=
  forall s c, ball_kept (ball s) (ball (state_of (m s c))).

(** A field of the chunk array. *)
Definition fld (cd : ChunkData) (i : Z) : Z :=
  default 0 (arr_chunk_data cd !! Z.to_nat i).

(** The vertices a flat list of coordinates holds. *)
Fixpoint vertices (xy : list Z) : list (Z * Z) :=
  match xy with
  | x :: y :: rest => (x, y) :: vertices rest
  | _ => []
  end.

(** What an [array('h')] holds. *)
Definition fits_h (v : Z) : Prop := -32768 <= v <= 32767.

(** A chunk array the baking methods have left behind: the last chunk is
    the terminating loop of no edges. *)
Definition cd_terminated (cd : ChunkData) : Prop :=
  length (arr_chunk_data cd) = 768%nat /\
  1 <= num_chunks cd <= 192 /\
  0 <= i_acd_last_loop cd < 768 /\
  fld cd (4 * (num_chunks cd - 1) + I_CHUNK_LOOP_NUM_EDGES) = 0.

(** A fresh chunk array, cleared. *)
Definition x14_cd : ChunkData :=
  state_of (clear_geometry
              (mkCD (replicate 768 0) 0 0 (replicate 192 0) 0 0 0 0) []).

(** The chunk array while a loop is being added: the loop's header is chunk
    [n - 1], the edges added so far start at the vertices [vs] (moved by the
    offsets) and are the chunks from [n] on, and the terminating loop after
    them points back to the header once there is an edge. *)
Definition loop_open (cd : ChunkData) (n : Z) (vs : list (Z * Z))
    (offset_x offset_y : Z) : Prop :=
  let j := Z.of_nat (length vs) in
  length (arr_chunk_data cd) = 768%nat /\
  num_chunks cd = n + 1 + j /\
  i_acd_last_loop cd = 4 * (n - 1) /\
  fld cd (4 * (n - 1)) <> 0 /\
  fld cd (4 * (n - 1) + 2) = j /\
  (forall (i : nat) (x y : Z), vs !! i = Some (x, y) ->
     fld cd (4 * (n + Z.of_nat i)) = 0 /\
     fld cd (4 * (n + Z.of_nat i) + 1) = x + offset_x /\
     fld cd (4 * (n + Z.of_nat i) + 2) = y + offset_y) /\
  fld cd (4 * (n + j)) = 1 /\
  fld cd (4 * (n + j) + 2) = 0 /\
  (0 < j -> fld cd (4 * (n + j) + 3) = n - 1).

(** The pixel of column [x] and row [y] of a display buffer [width]
    columns wide: eight rows to a byte, the lowest bit uppermost. *)
Definition pixel (buf : list Z) (width x y : Z) : bool :=
  Z.testbit (peek buf (x + width * Z.shiftr y 3)) (Z.land y 7).

(** The rotation is by a quarter turn, or none: the cosine and the sine
    are 1024 times a unit vector along an axis. *)
Definition quarter_turn (t : TransformedRasterizer) : Prop :=
  (cos_f10 t = 1024 /\ sin_f10 t = 0) \/ (cos_f10 t = 0 /\ sin_f10 t = 1024) \/
  (cos_f10 t = -1024 /\ sin_f10 t = 0) \/ (cos_f10 t = 0 /\ sin_f10 t = -1024).

(** Two chunk data with the same chunks. *)
Definition same_chunks (cd1 cd2 : ChunkData) : Prop :=
  arr_chunk_data cd1 = arr_chunk_data cd2 /\ num_chunks cd1 = num_chunks cd2.

(** A point lies in a bounding box [(x_lo, y_lo, x_hi, y_hi)]. *)
Definition in_box (box : Z * Z * Z * Z) (x y : Z) : Prop :=
  let '(x_lo, y_lo, x_hi, y_hi) := box in
  x_lo <= x <= x_hi /\ y_lo <= y <= y_hi.

(** The second box contains the first. *)
Definition box_grows (box box' : Z * Z * Z * Z) : Prop :=
  let '(x_lo, y_lo, x_hi, y_hi) := box in
  let '(x_lo', y_lo', x_hi', y_hi') := box' in
  x_lo' <= x_lo /\ y_lo' <= y_lo /\ x_hi <= x_hi' /\ y_hi <= y_hi'.

(** Helpers to instantiate the statements at: in the four axis directions
    they have the values double precision gives the expression of the
    source, where [COEFF_RADIANS_TO_DEGREES] is a little below 180 / pi and
    [int] truncates 89.99... to 89 and 179.99... to 179; elsewhere they
    are rough. *)
#[local] Instance float_normal_axes : FloatNormal := {
  atan2_trunc_degrees y x :=
    if y =? 0 then (if x <? 0 then 179 else 0)
    else if 0 <? y then 89 else -89
}.

(** One loop of three edges, as the baking class builds it, with the
    derived data of the game class still to compute. *)
Definition x18_cd : ChunkData :=
  state_of ((add_loop MGS_REGION_FAIRWAY 1 0 ;;;
             loop_add_edge_batch [0; 0; 3; 0; 3; 2] MGS_REGION_WALL 10 20)
              x14_cd []).

(** The stopped-ness tracking of one frame after the other. *)
Definition track_frames (frames : list Z) (b : BallState) : BallState :=
  foldl (fun b delta_ms => _update_stopped_tracking delta_ms b) b frames.

(** A ball within a world unit of its running average, with a little time
    near it on the clock. *)
Definition x19_ball : BallState :=
  mkBall 10240 20480 0 0 (-1) (-1) 0xf 0 false 0 0 0 0 false false false
    false 40 10000 20900.
(** ** The scene as polygons *)

(** A loop of the scene as its chunks hold it: the two masks and the fill
    region of the header chunk, and the vertex and the line region of each
    edge chunk after it. *)
Record polygon : Type := mkPolygon {
  pg_mask_trigger : Z;
  pg_mask_layer : Z;
  pg_region_fill : Z;
  pg_edges : list (Z * Z * Z)
}.

(** A vertex of a polygon with the chunk that holds it and the region of
    the line that begins there. *)
Record corner : Type := mkCorner {
  cn_chunk : Z;
  cn_x : Z;
  cn_y : Z;
  cn_region_line : Z
}.

(** The number of chunks a list of polygons takes up. *)
Definition chunks_of (ps : list polygon) : Z :=
  foldr (fun pg n => 1 + Z.of_nat (length (pg_edges pg)) + n) 0 ps.

(** The chunk array holds the polygons [ps] from chunk [i] on. *)
Fixpoint polygons_at (arr : list Z) (i : Z) (ps : list polygon) : Prop :=
  match ps with
  | [] => True
  | pg :: ps' =>
      let m := Z.of_nat (length (pg_edges pg)) in
      0 <= pg_mask_trigger pg < 0x80 /\ 0 <= pg_mask_layer pg < 0x100 /\
      0 <= pg_region_fill pg < 0x8000 /\ m < 0x8000 /\
      peek arr (4 * i + I_CHUNK_IF_LOOP_MASK_TRIGGER_LAYER) =
        Z.lor (Z.shiftl (pg_mask_trigger pg) 8) (pg_mask_layer pg) /\
      peek arr (4 * i + I_CHUNK_LOOP_REGION_FILL) = pg_region_fill pg /\
      peek arr (4 * i + I_CHUNK_LOOP_NUM_EDGES) = m /\
      (forall (j : nat) (x y r : Z), pg_edges pg !! j = Some (x, y, r) ->
         -0x8000 <= x < 0x8000 /\ -0x8000 <= y < 0x8000 /\
         0 <= r < 0x8000 /\
         peek arr (4 * (i + 1 + Z.of_nat j) + I_CHUNK_EDGE_X_B) = x /\
         peek arr (4 * (i + 1 + Z.of_nat j) + I_CHUNK_EDGE_Y_B) = y /\
         peek arr (4 * (i + 1 + Z.of_nat j) + I_CHUNK_EDGE_REGION_LINE)
           = r) /\
      polygons_at arr (i + 1 + m) ps'
  end.

(** The chunk data is that of the polygons [ps], the empty loops
    included. *)
Definition scene_of (cd : ChunkData) (ps : list polygon) : Prop :=
  num_chunks cd = chunks_of ps /\ num_chunks cd <= MAX_NUM_CHUNKS /\
  polygons_at (arr_chunk_data cd) 0 ps.

(** The corners of the polygon whose header is chunk [i]. *)
Definition corners (i : Z) (pg : polygon) : list corner :=
  imap (fun j '(x, y, r) => mkCorner (i + 1 + Z.of_nat j) x y r)
    (pg_edges pg).

(** The sides of a closed path: from [prev] to the first corner, and from
    each corner to the next. *)
Fixpoint path_sides (prev : corner) (cs : list corner)
  : list (corner * corner) :=
  match cs with
  | [] => []
  | c :: cs' => (prev, c) :: path_sides c cs'
  end.

(** The sides of a polygon: the one from the last corner to the first
    comes first. *)
Definition polygon_sides (i : Z) (pg : polygon) : list (corner * corner) :=
  match last (corners i pg) with
  | Some l => path_sides l (corners i pg)
  | None => []
  end.

(** What the fill of a polygon carries as its payload. *)
Definition polygon_payload_fill (pg : polygon) : Z :=
  Z.lor (Z.lor (pg_region_fill pg) MGS_PAYLOAD_BIT_NON_WALL)
    (Z.shiftl (pg_mask_trigger pg) MGS_PAYLOAD_SHIFT_MASK_TRIGGER).

(** One side of a polygon, both ends under the transform, as an edge of the
    scanline rasterizer: the line region is that of the corner the side
    begins at, the line payload is the chunk of that corner. *)
Definition submit_side (scale cos sin : Z) (pg : polygon)
    (side : corner * corner) : M ScanlineRasterizer unit :=
  let '(b, e) := side in
  let '(x_b, y_b) := transform_vertex scale cos sin (cn_x b) (cn_y b) in
  let '(x_e, y_e) := transform_vertex scale cos sin (cn_x e) (cn_y e) in
  add_edge_line_fill x_b y_b x_e y_e (cn_region_line b) (pg_region_fill pg)
    (cn_chunk b) (polygon_payload_fill pg) (pg_mask_layer pg).

Fixpoint submit_sides (scale cos sin : Z) (pg : polygon)
    (sides : list (corner * corner)) : M ScanlineRasterizer unit :=
  match sides with
  | [] => ret tt
  | side :: sides' =>
      submit_side scale cos sin pg side ;;;
      submit_sides scale cos sin pg sides'
  end.

(** Every side of every polygon, the polygons in the order of their
    chunks, the first header being chunk [i]. *)
Fixpoint submit_polygons (scale cos sin i : Z) (ps : list polygon)
  : M ScanlineRasterizer unit :=
  match ps with
  | [] => ret tt
  | pg :: ps' =>
      submit_sides scale cos sin pg (polygon_sides i pg) ;;;
      submit_polygons scale cos sin
        (i + 1 + Z.of_nat (length (pg_edges pg))) ps'
  end.

(** The scanline rasterizer is emptied and handed every side of the scene
    under the given scale and rotation, and the flag is cleared. *)
Definition resubmit (scale cos sin : Z) (ps : list polygon)
  : M TransformedRasterizer unit :=
  focus rasterizer tr_with_rasterizer
    (clear_edges ;;;
     submit_polygons (i32 scale) (i32 cos) (i32 sin) 0 ps) ;;;
  modify (fun t => tr_with_update t false).

(** The polygon the chunks of [c8_chunks] hold, and the terminating loop
    of no edges after it. *)
Definition c8_polygons : list polygon :=
  [mkPolygon 0 1 MGS_REGION_FAIRWAY
     [(0, 0, MGS_REGION_WALL); (0, 2, MGS_REGION_WALL);
      (3, 2, MGS_REGION_WALL); (3, 0, MGS_REGION_WALL)];
   mkPolygon 0 1 RL_REGION_UNUSED []].

(** [c8_tr] after a first draw: the geometry is submitted at the scale it
    was built with and the flag is down. *)
Definition c8_drawn : TransformedRasterizer :=
  state_of (_maybe_update_rasterizer_geometry c8_tr []).
(** ** Machine words and packed fields *)

Lemma i32_small z : -0x80000000 <= z < 0x80000000 -> i32 z = z.
Proof. intros H. unfold i32. rewrite Z.mod_small by lia. lia. Qed.

Lemma pack_add hi lo :
  0 <= lo < 0x10000 -> Z.lor (Z.shiftl hi 16) lo = hi * 0x10000 + lo.
Proof.
  intros H. rewrite Z.shiftl_mul_pow2 by lia. change (2 ^ 16) with 0x10000.
  rewrite <- Z.lxor_lor, <- Z.add_nocarry_lxor; auto.
  all: apply Z.bits_inj'; intros n Hn; rewrite Z.land_spec, Z.bits_0.
  all: destruct (Z.ltb_spec n 16).
  all: try (replace (hi * 65536) with (Z.shiftl hi 16)
              by (rewrite Z.shiftl_mul_pow2; lia);
            rewrite Z.shiftl_spec_low by lia; reflexivity).
  all: rewrite (Z.bits_above_log2 lo n); [apply andb_false_r| lia |].
  all: destruct (Z.eq_dec lo 0) as [->|]; [simpl; lia|].
  all: apply Z.log2_lt_pow2; try lia.
  all: apply Z.lt_le_trans with (2 ^ 16); try lia; apply Z.pow_le_mono_r; lia.
Qed.

Lemma unpack_hi hi lo :
  0 <= lo < 0x10000 -> Z.shiftr (hi * 0x10000 + lo) 16 = hi.
Proof.
  intros H. rewrite Z.shiftr_div_pow2 by lia. change (2^16) with 0x10000.
  rewrite Z.add_comm, Z.div_add by lia. rewrite Z.div_small by lia. lia.
Qed.

Lemma unpack_lo hi lo :
  0 <= lo < 0x10000 -> Z.land (hi * 0x10000 + lo) 0xffff = lo.
Proof.
  intros H. change 0xffff with (Z.ones 16). rewrite Z.land_ones by lia.
  change (2^16) with 0x10000. rewrite Z.add_comm, Z.mod_add by lia.
  apply Z.mod_small; lia.
Qed.

Lemma same_s_spec s p s' p' :
  0 <= s -> 0 <= s' -> 0 <= p < 0x10000 -> 0 <= p' < 0x10000 ->
  (Z.lxor (s * 0x10000 + p) (s' * 0x10000 + p') <? 0x10000) = (s =? s').
Proof.
  intros Hs Hs' Hp Hp'.
  set (x := Z.lxor (s * 0x10000 + p) (s' * 0x10000 + p')).
  assert (Hx : x / 0x10000 = Z.lxor s s').
  { change 0x10000 with (2 ^ 16) at 1. rewrite <- Z.shiftr_div_pow2 by lia.
    unfold x. rewrite Z.shiftr_lxor, !unpack_hi by lia. reflexivity. }
  assert (Hnn : 0 <= x) by (apply Z.lxor_nonneg; lia).
  pose proof (Z.div_mod x 0x10000 ltac:(lia)) as Hdm.
  pose proof (Z.mod_pos_bound x 0x10000 ltac:(lia)) as Hmb.
  destruct (Z.eqb_spec s s') as [->|Hne].
  - rewrite Z.lxor_nilpotent in Hx. apply Z.ltb_lt. lia.
  - apply Z.ltb_ge.
    assert (Z.lxor s s' <> 0) by (rewrite Z.lxor_eq_0_iff; exact Hne).
    assert (0 <= Z.lxor s s') by (apply Z.lxor_nonneg; lia). lia.
Qed.

(** The flag word: what each test of a bit reads, and what setting and
    clearing the endpoint bit make of it. *)
Lemma rl_pack_flags_spec (b1 b2 b3 b4 : bool) (m : Z) :
  0 <= m <= 0xf ->
  let f := rl_pack_flags b1 b2 b3 b4 m in
  let g := Z.land f 0x1fe in
  (truthy (Z.land f 0x2) = b1 /\ truthy (Z.land g 0x2) = b1) /\
  (truthy (Z.land f 0x4) = b2 /\ truthy (Z.land g 0x4) = b2) /\
  (truthy (Z.land f 0x8) = b3 /\ truthy (Z.land g 0x8) = b3) /\
  (truthy (Z.land f 0x10) = b4 /\ truthy (Z.land g 0x10) = b4) /\
  (truthy (Z.land f 0x1) = true /\ truthy (Z.land g 0x1) = false) /\
  (Z.lor f 0x1 = f /\ Z.lor g 0x1 = f) /\
  (Z.land g 0x1fe = g) /\
  (Z.shiftr f 5 = m /\ Z.shiftr g 5 = m).
Proof.
  intros Hm.
  assert (m = 0 \/ m = 1 \/ m = 2 \/ m = 3 \/ m = 4 \/ m = 5 \/ m = 6 \/
          m = 7 \/ m = 8 \/ m = 9 \/ m = 10 \/ m = 11 \/ m = 12 \/ m = 13 \/
          m = 14 \/ m = 15) as Hcases by lia.
  destruct b1, b2, b3, b4;
    repeat (destruct Hcases as [-> | Hcases]); try subst m;
    vm_compute; repeat split; reflexivity.
Qed.
(** ** Step counts and the accumulator *)

Lemma ln_a_steep_range d_s d_p j :
  0 < d_s -> d_s < d_p -> 0 <= j ->
  0 <= ln_a d_s d_p true j < 2 * d_p + Z.b2z (j =? 0).
Proof.
  intros Hs Hp Hj. unfold ln_a, ln_cnt.
  destruct (Z.leb_spec j 0).
  - replace j with 0 by lia. simpl. lia.
  - replace (j =? 0) with false by (symmetry; apply Z.eqb_neq; lia).
    simpl Z.b2z.
    pose proof (Z.div_mod ((2 * j - 1) * d_p) (2 * d_s) ltac:(lia)).
    pose proof (Z.mod_pos_bound ((2 * j - 1) * d_p) (2 * d_s) ltac:(lia)).
    nia.
Qed.

Lemma ln_a_shallow_range d_s d_p j :
  0 < d_s -> 0 <= ln_a d_s d_p false j < 2 * d_s.
Proof.
  intros Hs. unfold ln_a, ln_cnt.
  pose proof (Z.div_mod (d_s + 2 * d_p * j) (2 * d_s) ltac:(lia)).
  pose proof (Z.mod_pos_bound (d_s + 2 * d_p * j) (2 * d_s) ltac:(lia)).
  lia.
Qed.

Lemma ln_cnt_steep_advance d_s d_p j n :
  0 < d_s -> 0 <= j -> 1 <= n ->
  ln_cnt d_s d_p true (j + n) =
    ln_cnt d_s d_p true j +
    ((ln_a d_s d_p true j + n * (2 * d_p) - 2 * d_p) / (2 * d_s) + 1).
Proof.
  intros Hs Hj Hn. unfold ln_a.
  replace (d_p + 2 * d_p * j - 2 * d_s * ln_cnt d_s d_p true j
           + n * (2 * d_p) - 2 * d_p)
    with ((2 * (j + n) - 1) * d_p + (- ln_cnt d_s d_p true j) * (2 * d_s))
    by ring.
  rewrite Z.div_add by lia.
  unfold ln_cnt at 1. destruct (Z.leb_spec (j + n) 0); lia.
Qed.

Lemma ln_cnt_shallow_advance d_s d_p j n :
  0 < d_s -> 0 <= d_p -> 0 <= n ->
  ln_cnt d_s d_p false (j + n) =
    ln_cnt d_s d_p false j +
    (if 2 * d_s <=? ln_a d_s d_p false j + n * (2 * d_p)
     then (ln_a d_s d_p false j + n * (2 * d_p) - 2 * d_s) / (2 * d_s) + 1
     else 0).
Proof.
  intros Hs Hp Hn.
  pose proof (ln_a_shallow_range d_s d_p j Hs) as Ha. revert Ha. unfold ln_a.
  set (c := ln_cnt d_s d_p false j). intros Ha.
  destruct (Z.leb_spec (2 * d_s)
              (d_s + 2 * d_p * j - 2 * d_s * c + n * (2 * d_p))).
  - replace (d_s + 2 * d_p * j - 2 * d_s * c + n * (2 * d_p) - 2 * d_s)
      with ((d_s + 2 * d_p * (j + n)) + (- c - 1) * (2 * d_s)) by ring.
    rewrite Z.div_add by lia. unfold ln_cnt. lia.
  - unfold ln_cnt at 1.
    replace (d_s + 2 * d_p * (j + n))
      with ((d_s + 2 * d_p * j - 2 * d_s * c + n * (2 * d_p)) + c * (2 * d_s))
      by ring.
    rewrite Z.div_add by lia. rewrite Z.div_small; [lia|]. nia.
Qed.

Lemma ln_cnt_nonneg d_s d_p steep j :
  0 < d_s -> 0 <= d_p -> 0 <= j -> 0 <= ln_cnt d_s d_p steep j.
Proof.
  intros. unfold ln_cnt. destruct steep.
  - destruct (Z.leb_spec j 0); [lia|].
    assert (0 <= (2 * j - 1) * d_p / (2 * d_s)) by (apply Z.div_pos; nia). lia.
  - apply Z.div_pos; nia.
Qed.

(** The accumulator after [n] more scanlines, as the source computes it
    from the accumulator before. *)
Lemma ln_a_advance d_s d_p steep j n :
  ln_a d_s d_p steep (j + n) =
    ln_a d_s d_p steep j + n * (2 * d_p)
    - (ln_cnt d_s d_p steep (j + n) - ln_cnt d_s d_p steep j) * (2 * d_s).
Proof. unfold ln_a. ring. Qed.

Lemma ln_cnt_upper d_s d_p steep j :
  0 < d_s -> 0 <= d_p -> 0 <= j <= d_s + 1 -> (steep = false -> d_p <= d_s) ->
  ln_cnt d_s d_p steep j <= d_p + d_p / (2 * d_s) + 1.
Proof.
  intros Hs Hp Hj Hsh.
  assert (Hq : 0 <= d_p / (2 * d_s)) by (apply Z.div_pos; lia).
  unfold ln_cnt. destruct steep.
  - destruct (Z.leb_spec j 0); [lia|].
    assert (Hle : (2 * j - 1) * d_p / (2 * d_s)
                  <= (d_p + d_p * (2 * d_s)) / (2 * d_s)).
    { apply Z.div_le_mono; nia. }
    rewrite Z.div_add in Hle by lia. lia.
  - specialize (Hsh eq_refl).
    assert (Hle : (d_s + 2 * d_p * j) / (2 * d_s)
                  <= ((2 * d_s - 1) + (d_p + 1) * (2 * d_s)) / (2 * d_s)).
    { apply Z.div_le_mono; [lia|].
      assert (d_p * j <= d_p * (d_s + 1))
        by (apply Z.mul_le_mono_nonneg_l; lia).
      lia. }
    rewrite Z.div_add in Hle by lia.
    rewrite (Z.div_small (2 * d_s - 1)) in Hle by lia. lia.
Qed.
(** ** The closed form is what the code computes *)

Ltac wrap_off :=
  repeat match goal with
         | |- context [i32 ?z] => rewrite (i32_small z) by lia
         end.

Lemma line_ok_deltas L :
  line_ok L ->
  0 <= ln_d_s L < 0x8000 /\ 0 <= ln_d_p L < 0x4000 /\
  (ln_positive L = true -> ln_p_e L = ln_p_b L + ln_d_p L) /\
  (ln_positive L = false -> ln_p_e L = ln_p_b L - ln_d_p L /\ 0 < ln_d_p L).
Proof.
  unfold line_ok, ln_d_s, ln_d_p, ln_positive. intros (Hs & Hse & Hpb & Hpe & _).
  split; [lia|]. split; [lia|]. split.
  - intros H%Z.leb_le. lia.
  - intros H%Z.leb_gt. lia.
Qed.

Lemma ln_cnt_one d_s d_p : ln_cnt d_s d_p true 1 = d_p / (2 * d_s) + 1.
Proof.
  unfold ln_cnt. change (1 <=? 0) with false. cbv iota.
  replace ((2 * 1 - 1) * d_p) with d_p by lia. reflexivity.
Qed.

Lemma ln_cnt_zero d_s d_p steep : 0 < d_s -> ln_cnt d_s d_p steep 0 = 0.
Proof.
  intros H. unfold ln_cnt. destruct steep; simpl; [reflexivity|].
  rewrite Z.mul_0_r, Z.add_0_r. apply Z.div_small. lia.
Qed.

Lemma rl_init_at L ex : line_ok L -> rl_of_line L ex = rl_at L ex 0.
Proof.
  intros Hok. pose proof (line_ok_deltas L Hok) as (Hds & Hdp & Hpos & Hneg).
  destruct Hok as (Hs & Hse & Hpb & Hpe & Hm).
  unfold rl_of_line, rl_init, rl_init_case, rl_at.
  unfold ln_flags_at, ln_flags0, ln_a_at, ln_pos_at, ln_p_end, ln_p0, ln_idx,
    ln_correct, ln_flat, ln_steep.
  unfold ln_d_s, ln_d_p, ln_positive in *.
  destruct L as [s_b p_b s_e p_e r0 r1 pl0 pl1 m]. cbn [ln_s_b ln_p_b ln_s_e
    ln_p_e ln_region0 ln_region1 ln_payload0 ln_payload1 ln_mask_layer] in *.
  rewrite (i32_small (s_e - s_b)), (i32_small (p_e - p_b)) by lia.
  rewrite (i32_small (Z.shiftl s_b 16)), (i32_small (Z.shiftl s_e 16))
    by (rewrite Z.shiftl_mul_pow2 by lia; lia).
  replace (0 =? 0) with true by reflexivity. rewrite orb_true_l.
  assert (Hlt : (p_e - p_b <? 0) = negb (p_b <=? p_e)).
  { destruct (Z.ltb_spec (p_e - p_b) 0), (Z.leb_spec p_b p_e); simpl; lia. }
  rewrite Hlt. rewrite negb_involutive.
  set (d_s := s_e - s_b) in *. set (d_p := Z.abs (p_e - p_b)) in *.
  assert (Hdpe : (if negb (p_b <=? p_e) then 0 -! (p_e - p_b) else p_e - p_b) = d_p).
  { destruct (Z.leb_spec p_b p_e); simpl; wrap_off; unfold d_p; lia. }
  rewrite Hdpe.
  destruct (Z.eqb_spec d_s 0) as [Hflat|Hflat]; cbn [negb andb orb c_p c_a
    c_a_s c_a_p c_a_m_is_a_p c_correct_endpoints c_p_e].
  - (* parallel to the scanline *)
    assert (Hmax : (if p_b <? p_e then p_e else p_b) = Z.max p_b p_e)
      by (destruct (Z.ltb_spec p_b p_e); lia).
    assert (Hmin : (if p_e <? p_b then p_e else p_b) = Z.min p_b p_e)
      by (destruct (Z.ltb_spec p_e p_b); lia).
    rewrite Hmax, Hmin.
    change (0 <<! 16) with 0. change (Z.lor 0 0) with 0.
    rewrite Z.add_0_r.
    destruct ex; cbn [c_p c_a c_a_s c_a_p c_a_m_is_a_p c_correct_endpoints
      c_p_e]; wrap_off; rewrite !pack_add by lia; reflexivity.
  - assert (Hq : 0 <= d_p / (2 * d_s) <= d_p).
    { split; [apply Z.div_pos; lia|].
      apply Z.div_le_upper_bound; nia. }
    assert (Hqm : 2 * d_s * (d_p / (2 * d_s)) <= d_p)
      by (apply Z.mul_div_le; lia).
    assert (Hsh : Z.shiftl (2 * d_p) 16 = 2 * d_p * 0x10000)
      by (rewrite Z.shiftl_mul_pow2 by lia; reflexivity).
    destruct (Z.ltb_spec d_s d_p) as [Hsteep|Hshallow];
      cbn [negb andb orb c_p c_a c_a_s c_a_p c_a_m_is_a_p c_correct_endpoints
             c_p_e].
    + (* steep *)
      replace (0 =? d_s) with false by (symmetry; apply Z.eqb_neq; lia).
      rewrite andb_false_r.
      destruct (Z.leb_spec p_b p_e) as [Hp|Hp], ex;
        cbn [negb andb orb eqb c_p c_a c_a_s c_a_p c_a_m_is_a_p
               c_correct_endpoints c_p_e];
        try rewrite ln_cnt_zero by lia;
        try (unfold ln_a; rewrite ln_cnt_one);
        try (unfold ln_a; rewrite ln_cnt_zero by lia);
        try rewrite ln_cnt_one;
        wrap_off;
        try rewrite (i32_small ((d_p / (2 * d_s) + 1) * (2 * d_s))) by nia;
        wrap_off; rewrite ?(i32_small (Z.shiftl (2 * d_p) 16)) by (rewrite Hsh; lia);
        rewrite ?pack_add by (unfold RL_P_E_DONT_CORRECT; lia);
        f_equal; try lia.
    + (* shallow *)
      rewrite ln_cnt_zero by lia. unfold ln_a. rewrite ln_cnt_zero by lia.
      destruct (Z.leb_spec p_b p_e) as [Hp|Hp], ex;
        cbn [negb andb orb eqb c_p c_a c_a_s c_a_p c_a_m_is_a_p
               c_correct_endpoints c_p_e];
        wrap_off; rewrite ?(i32_small (Z.shiftl (2 * d_p) 16)) by (rewrite Hsh; lia);
        rewrite ?pack_add by (unfold RL_P_E_DONT_CORRECT; lia);
        f_equal; try lia.
Qed.

(** [rl_step_p] on unpacked values: [num] position steps are due. *)
Lemma rl_step_p_spec s p spb spe a fl asap r pl a_m a_p (positive : bool) num :
  0 < a_p < 0x10000 -> 0 <= a_m < 0x10000 -> 0 <= a < 0x40020000 ->
  truthy (Z.land fl RL_FLAG_BIT_DELTA_P_IS_POSITIVE) = positive ->
  num = (if a_m <=? a then (a - a_m) / a_p + 1 else 0) ->
  0 <= num <= 0x6001 ->
  0 <= s < 0x8000 -> 0 <= p < 0x10000 ->
  0 <= (if positive then p + num else p - num) < 0x10000 ->
  rl_step_p (mkRL (s * 0x10000 + p) spb spe a fl asap r pl) a_m a_p =
  mkRL (s * 0x10000 + (if positive then p + num else p - num))
       spb spe (a - num * a_p) fl asap r pl.
Proof.
  intros Hap Ham Ha Hfl Hnum Hn Hs Hp Hp'.
  unfold rl_step_p. cbn [I_RL_A I_RL_SP].
  destruct (Z.leb_spec a_m a) as [Hge|Hlt].
  - assert (Hq : 0 <= (a - a_m) / a_p) by (apply Z.div_pos; lia).
    assert (Hqm : a_p * ((a - a_m) / a_p) <= a - a_m)
      by (apply Z.mul_div_le; lia).
    rewrite (i32_small (a - a_m)) by lia.
    rewrite (i32_small ((a - a_m) / a_p + 1)) by lia.
    rewrite <- Hnum.
    rewrite (i32_small (num * a_p)) by nia.
    rewrite (i32_small (a - num * a_p)) by nia.
    unfold rl_flag, set_A, set_SP. cbn [I_RL_A I_RL_SP I_RL_FLAGS I_RL_SP_B
      I_RL_SP_E I_RL_A_S_A_P I_RL_REGION_0_1 I_RL_PAYLOAD_0_1].
    rewrite Hfl. destruct positive; rewrite i32_small by lia; f_equal; lia.
  - subst num. destruct positive; f_equal; lia.
Qed.

(** [rl_mark_endpoint] on a flag word that is one of the two the closed
    form knows. *)
Lemma rl_mark_endpoint_spec L ex sp spb spe a k asap r pl (at_e : bool) :
  0 <= ln_mask_layer L <= 0xf ->
  rl_mark_endpoint (mkRL sp spb spe a (ln_flags_at L ex k) asap r pl) at_e =
  mkRL (if at_e && ln_correct L ex then spe else sp) spb spe a
       (if at_e then ln_flags0 L ex else Z.land (ln_flags0 L ex) 0x1fe)
       asap r pl.
Proof.
  intros Hm. unfold rl_mark_endpoint, rl_flag, set_FLAGS, set_SP.
  cbn [I_RL_A I_RL_SP I_RL_FLAGS I_RL_SP_B I_RL_SP_E I_RL_A_S_A_P
       I_RL_REGION_0_1 I_RL_PAYLOAD_0_1].
  unfold ln_flags_at, ln_flags0.
  pose proof (rl_pack_flags_spec (ln_positive L) ex
                (ln_flat L || negb (ln_steep L)) (ln_correct L ex)
                (ln_mask_layer L) Hm) as Hf.
  cbv zeta in Hf.
  destruct Hf as (_ & _ & _ & (H4 & H4') & _ & (Ho & Ho') & Hl & _).
  unfold RL_FLAG_BIT_SCANLINE_HAS_ENDPOINT, RL_FLAG_BIT_CORRECT_ENDPOINTS,
    RL_FLAG_ALL_BITS.
  change (Z.lxor 0x1ff 0x1) with 0x1fe.
  destruct at_e; destruct ((k =? 0) || (k =? ln_d_s L)); cbn [andb].
  - rewrite Ho, H4. destruct (ln_correct L ex); reflexivity.
  - rewrite Ho', H4. destruct (ln_correct L ex); reflexivity.
  - reflexivity.
  - rewrite Hl. reflexivity.
Qed.


Lemma ln_naive_range L ex j :
  line_ok L -> ln_flat L = false -> 0 <= j <= ln_d_s L + 1 ->
  0 <= ln_naive L ex j < 0x10000.
Proof.
  intros Hok Hflat Hj.
  pose proof (line_ok_deltas L Hok) as (Hds & Hdp & Hpos & Hneg).
  destruct Hok as (Hs & Hse & Hpb & Hpe & Hm).
  assert (Hflat' : ln_d_s L <> 0)
    by (unfold ln_flat in Hflat; apply Z.eqb_neq in Hflat; exact Hflat).
  assert (Hsteep : ln_steep L = false -> ln_d_p L <= ln_d_s L).
  { unfold ln_steep. intros H%Z.ltb_ge. lia. }
  pose proof (ln_cnt_upper (ln_d_s L) (ln_d_p L) (ln_steep L) j
                ltac:(lia) ltac:(lia) Hj Hsteep) as Hup.
  pose proof (ln_cnt_nonneg (ln_d_s L) (ln_d_p L) (ln_steep L) j
                ltac:(lia) ltac:(lia) ltac:(lia)) as Hlo.
  assert (Hq : 0 <= ln_d_p L / (2 * ln_d_s L) <= 0x1fff).
  { split; [apply Z.div_pos; lia|].
    apply Z.lt_succ_r. apply Z.div_lt_upper_bound; lia. }
  unfold ln_naive, ln_p0. rewrite Hflat.
  destruct (ln_positive L) eqn:Epos.
  - specialize (Hpos eq_refl). destruct (ln_steep L), ex; lia.
  - destruct (Hneg eq_refl) as [Hpe' Hdp'].
    destruct (ln_steep L) eqn:Est.
    + lia.
    + specialize (Hsteep eq_refl).
      assert (ln_d_p L / (2 * ln_d_s L) = 0) by (apply Z.div_small; lia).
      destruct ex; lia.
Qed.

Lemma ln_idx_range L ex k :
  0 <= k -> k <= ln_d_s L -> 0 <= ln_idx L ex k <= ln_d_s L + 1.
Proof. unfold ln_idx. destruct (ln_correct L ex); lia. Qed.

Lemma ln_a_at_range L ex k :
  line_ok L -> ln_flat L = false -> 0 <= k <= ln_d_s L ->
  0 <= ln_a_at L ex k < 0x10000 /\
  (ln_steep L = true -> 0 <= ln_a_at L ex k < 2 * ln_d_p L + 1).
Proof.
  intros Hok Hflat Hk.
  pose proof (line_ok_deltas L Hok) as (Hds & Hdp & _).
  unfold ln_a_at. rewrite Hflat.
  assert (Hflat' : ln_d_s L <> 0)
    by (unfold ln_flat in Hflat; apply Z.eqb_neq in Hflat; exact Hflat).
  pose proof (ln_idx_range L ex k ltac:(lia) ltac:(lia)) as Hi.
  destruct (ln_steep L) eqn:Est.
  - unfold ln_steep in Est. apply Z.ltb_lt in Est.
    pose proof (ln_a_steep_range (ln_d_s L) (ln_d_p L) (ln_idx L ex k)
                  ltac:(lia) Est ltac:(lia)) as Ha.
    assert (Z.b2z (ln_idx L ex k =? 0) <= 1)
      by (destruct (ln_idx L ex k =? 0); simpl; lia).
    split; [|intros _]; lia.
  - pose proof (ln_a_shallow_range (ln_d_s L) (ln_d_p L) (ln_idx L ex k)
                  ltac:(lia)) as Ha.
    split; [lia | discriminate].
Qed.

Lemma rl_step_p_at L ex k n :
  line_ok L -> ln_flat L = false -> 0 <= k -> 1 <= n -> k + n <= ln_d_s L ->
  rl_step_p
    (mkRL ((ln_s_b L + k + n) * 0x10000 + ln_pos_at L ex k)
          (ln_s_b L * 0x10000 + ln_pos_at L ex 0)
          (ln_s_e L * 0x10000 + ln_p_end L ex)
          (ln_a_at L ex k + n * (2 * ln_d_p L))
          (ln_flags_at L ex k)
          ((2 * ln_d_p L) * 0x10000 + 2 * ln_d_s L)
          (Z.lor (ln_region0 L <<! 16) (ln_region1 L))
          (Z.lor (ln_payload0 L <<! 16) (ln_payload1 L)))
    (if ln_steep L then 2 * ln_d_p L else 2 * ln_d_s L)
    (2 * ln_d_s L)
  = mkRL ((ln_s_b L + k + n) * 0x10000
          + ln_naive L ex (ln_idx L ex (k + n)))
         (ln_s_b L * 0x10000 + ln_pos_at L ex 0)
         (ln_s_e L * 0x10000 + ln_p_end L ex)
         (ln_a_at L ex (k + n))
         (ln_flags_at L ex k)
         ((2 * ln_d_p L) * 0x10000 + 2 * ln_d_s L)
         (Z.lor (ln_region0 L <<! 16) (ln_region1 L))
         (Z.lor (ln_payload0 L <<! 16) (ln_payload1 L)).
Proof.
  intros Hok Hflat Hk Hn Hkn.
  pose proof (line_ok_deltas L Hok) as (Hds & Hdp & Hpos & Hneg).
  pose proof (ln_a_at_range L ex k Hok Hflat ltac:(lia)) as [Ha Has].
  pose proof (ln_idx_range L ex k ltac:(lia) ltac:(lia)) as Hi.
  pose proof (ln_naive_range L ex (ln_idx L ex k) Hok Hflat Hi) as Hnv.
  assert (Hi' : 0 <= ln_idx L ex k + n <= ln_d_s L + 1)
    by (unfold ln_idx in *; destruct (ln_correct L ex); lia).
  pose proof (ln_naive_range L ex (ln_idx L ex k + n) Hok Hflat Hi') as Hnv'.
  assert (Hidx : ln_idx L ex (k + n) = ln_idx L ex k + n)
    by (unfold ln_idx; destruct (ln_correct L ex); lia).
  assert (Hflat' : ln_d_s L <> 0)
    by (unfold ln_flat in Hflat; apply Z.eqb_neq in Hflat; exact Hflat).
  assert (Hposk : ln_pos_at L ex k = ln_naive L ex (ln_idx L ex k)).
  { unfold ln_pos_at, ln_naive. rewrite Hflat.
    replace (k =? ln_d_s L) with false by (symmetry; apply Z.eqb_neq; lia).
    rewrite andb_false_r. reflexivity. }
  assert (Hnb : 2 * ln_d_p L <= n * (2 * ln_d_p L) <= 0x7fff * 0x7ffe).
  { assert (0 <= (n - 1) * ln_d_p L) by (apply Z.mul_nonneg_nonneg; lia).
    assert (n * ln_d_p L <= 0x7fff * ln_d_p L)
      by (apply Z.mul_le_mono_nonneg_r; lia).
    lia. }
  rewrite Hidx.
  set (j := ln_idx L ex k) in *.
  set (c := ln_cnt (ln_d_s L) (ln_d_p L) (ln_steep L) j).
  set (c' := ln_cnt (ln_d_s L) (ln_d_p L) (ln_steep L) (j + n)).
  assert (Hnum : c' - c =
            (if (if ln_steep L then 2 * ln_d_p L else 2 * ln_d_s L)
                  <=? ln_a_at L ex k + n * (2 * ln_d_p L)
             then (ln_a_at L ex k + n * (2 * ln_d_p L)
                   - (if ln_steep L then 2 * ln_d_p L else 2 * ln_d_s L))
                  / (2 * ln_d_s L) + 1
             else 0)).
  { unfold c, c', ln_a_at. rewrite Hflat. fold j.
    destruct (ln_steep L) eqn:Est; cbv iota.
    - specialize (Has eq_refl).
      rewrite (ln_cnt_steep_advance (ln_d_s L) (ln_d_p L) j n) by lia.
      unfold ln_a_at in Has. rewrite Hflat, ?Est in Has. fold j in Has.
      destruct (Z.leb_spec (2 * ln_d_p L)
                  (ln_a (ln_d_s L) (ln_d_p L) true j + n * (2 * ln_d_p L)));
        [ring | lia].
    - rewrite (ln_cnt_shallow_advance (ln_d_s L) (ln_d_p L) j n) by lia.
      lia. }
  assert (Hc : 0 <= c' - c <= 0x6001).
  { assert (Hsteep : ln_steep L = false -> ln_d_p L <= ln_d_s L).
    { unfold ln_steep. intros H%Z.ltb_ge. lia. }
    pose proof (ln_cnt_upper (ln_d_s L) (ln_d_p L) (ln_steep L) (j + n)
                  ltac:(lia) ltac:(lia) Hi' Hsteep) as Hup.
    pose proof (ln_cnt_nonneg (ln_d_s L) (ln_d_p L) (ln_steep L) j
                  ltac:(lia) ltac:(lia) ltac:(lia)) as Hlo.
    assert (Hq : ln_d_p L / (2 * ln_d_s L) <= 0x1fff).
    { apply Z.lt_succ_r. apply Z.div_lt_upper_bound; lia. }
    fold c in Hlo. fold c' in Hup. split; [|lia].
    rewrite Hnum.
    destruct (_ <=? _) eqn:E; [|lia]. apply Z.leb_le in E.
    assert (0 <= (ln_a_at L ex k + n * (2 * ln_d_p L)
                  - (if ln_steep L then 2 * ln_d_p L else 2 * ln_d_s L))
                 / (2 * ln_d_s L)) by (apply Z.div_pos; lia).
    lia. }
  pose proof (rl_pack_flags_spec (ln_positive L) ex
                (ln_flat L || negb (ln_steep L)) (ln_correct L ex)
                (ln_mask_layer L) ltac:(destruct Hok as (_&_&_&_&?); lia)) as Hf.
  cbv zeta in Hf. destruct Hf as ((H1 & H1') & _).
  assert (Hfl : truthy (Z.land (ln_flags_at L ex k)
                               RL_FLAG_BIT_DELTA_P_IS_POSITIVE)
                = ln_positive L).
  { unfold ln_flags_at, ln_flags0.
    destruct ((k =? 0) || (k =? ln_d_s L)); assumption. }
  assert (Hnaive' : (if ln_positive L then ln_pos_at L ex k + (c' - c)
                     else ln_pos_at L ex k - (c' - c))
                    = ln_naive L ex (j + n)).
  { rewrite Hposk. unfold ln_naive. fold c c'.
    destruct (ln_positive L); lia. }
  assert (Ha' : ln_a_at L ex (k + n)
                = ln_a_at L ex k + n * (2 * ln_d_p L)
                  - (c' - c) * (2 * ln_d_s L)).
  { unfold ln_a_at. rewrite Hflat, Hidx. apply ln_a_advance. }
  destruct Hok as (Hs & Hse & Hpb & Hpe & Hm).
  rewrite (rl_step_p_spec (ln_s_b L + k + n) (ln_pos_at L ex k) _ _ _ _ _ _ _
             _ _ (ln_positive L) (c' - c));
    try assumption; try lia.
  2: { destruct (ln_steep L); lia. }
  2: { unfold ln_d_s in *. lia. }
  rewrite Hnaive', Ha'. reflexivity.
Qed.

Lemma ln_pos_at_range L ex k :
  line_ok L -> 0 <= k <= ln_d_s L -> 0 <= ln_pos_at L ex k < 0x10000.
Proof.
  intros Hok Hk. unfold ln_pos_at.
  destruct (ln_flat L) eqn:Hflat.
  - destruct Hok as (Hs & Hse & Hpb & Hpe & Hm).
    unfold ln_p0. rewrite Hflat. destruct ex; lia.
  - destruct (ln_correct L ex && (k =? ln_d_s L)) eqn:E.
    + destruct Hok as (Hs & Hse & Hpb & Hpe & Hm).
      unfold ln_p_end. rewrite Hflat.
      destruct (ln_correct L ex), (ln_positive L);
        unfold RL_P_E_DONT_CORRECT; lia.
    + apply (ln_naive_range L ex (ln_idx L ex k) Hok Hflat).
      apply ln_idx_range; lia.
Qed.

Lemma ln_p_end_range L ex :
  line_ok L -> 0 <= ln_p_end L ex < 0x10000.
Proof.
  intros (Hs & Hse & Hpb & Hpe & Hm). unfold ln_p_end.
  destruct (ln_flat L), (ln_correct L ex), (ln_positive L);
    unfold RL_P_E_DONT_CORRECT; lia.
Qed.

Lemma rl_advance_spec L ex k n (at_e : bool) :
  line_ok L -> ln_flat L = false -> 0 <= k -> 1 <= n -> k + n <= ln_d_s L ->
  at_e = (k + n =? ln_d_s L) ->
  rl_mark_endpoint
    (rl_step_p
       (mkRL ((ln_s_b L + k + n) * 0x10000 + ln_pos_at L ex k)
             (ln_s_b L * 0x10000 + ln_pos_at L ex 0)
             (ln_s_e L * 0x10000 + ln_p_end L ex)
             (ln_a_at L ex k + n * (2 * ln_d_p L))
             (ln_flags_at L ex k)
             ((2 * ln_d_p L) * 0x10000 + 2 * ln_d_s L)
             (Z.lor (ln_region0 L <<! 16) (ln_region1 L))
             (Z.lor (ln_payload0 L <<! 16) (ln_payload1 L)))
       (if ln_steep L then 2 * ln_d_p L else 2 * ln_d_s L)
       (2 * ln_d_s L))
    at_e
  = rl_at L ex (k + n).
Proof.
  intros Hok Hflat Hk Hn Hkn Hat.
  rewrite rl_step_p_at by assumption.
  rewrite rl_mark_endpoint_spec by (destruct Hok as (_&_&_&_&?); lia).
  unfold rl_at. rewrite Hflat.
  assert (Hpos' : ln_pos_at L ex (k + n)
                  = if at_e && ln_correct L ex then ln_p_end L ex
                    else ln_naive L ex (ln_idx L ex (k + n))).
  { unfold ln_pos_at, ln_naive. rewrite Hflat, <- Hat, andb_comm.
    destruct (at_e && ln_correct L ex); reflexivity. }
  assert (Hfl' : ln_flags_at L ex (k + n)
                 = if at_e then ln_flags0 L ex
                   else Z.land (ln_flags0 L ex) 0x1fe).
  { unfold ln_flags_at. rewrite <- Hat.
    replace (k + n =? 0) with false by (symmetry; apply Z.eqb_neq; lia).
    reflexivity. }
  rewrite Hpos', Hfl'.
  rewrite <- (Z.add_assoc (ln_s_b L) k n).
  destruct at_e eqn:Eat; cbn [andb].
  - symmetry in Hat. apply Z.eqb_eq in Hat.
    destruct (ln_correct L ex); [|reflexivity].
    unfold ln_d_s in Hat.
    replace (ln_s_b L + (k + n)) with (ln_s_e L) by lia. reflexivity.
  - reflexivity.
Qed.

(** One scanline step of the code is one step of the closed form. *)
Lemma rl_increment_at L ex k :
  line_ok L -> 0 <= k <= ln_d_s L ->
  rl_increment_s (rl_at L ex k) = rl_at L ex (Z.min (k + 1) (ln_d_s L)).
Proof.
  intros Hok Hk.
  pose proof (line_ok_deltas L Hok) as (Hds & Hdp & _).
  pose proof (ln_pos_at_range L ex k Hok Hk) as Hp.
  pose proof (ln_p_end_range L ex Hok) as Hpe.
  assert (Hsb : 0 <= ln_s_b L /\ ln_s_b L + ln_d_s L = ln_s_e L
                /\ ln_s_e L < 0x8000)
    by (destruct Hok as (?&?&_); unfold ln_d_s; lia).
  unfold rl_increment_s, rl_at_s_e.
  unfold rl_at at 1 2. cbn [I_RL_SP I_RL_SP_E].
  rewrite same_s_spec by lia.
  destruct (Z.eqb_spec (ln_s_b L + k) (ln_s_e L)) as [Hend|Hnend].
  - replace (Z.min (k + 1) (ln_d_s L)) with k by lia. reflexivity.
  - assert (Hflat : ln_flat L = false)
      by (unfold ln_flat; apply Z.eqb_neq; lia).
    replace (Z.min (k + 1) (ln_d_s L)) with (k + 1) by lia.
    unfold rl_at. rewrite Hflat.
    cbn [I_RL_SP I_RL_SP_E I_RL_A I_RL_A_S_A_P I_RL_FLAGS].
    rewrite unpack_hi, unpack_lo by lia.
    unfold rl_flag. cbn [I_RL_FLAGS].
    pose proof (rl_pack_flags_spec (ln_positive L) ex
                  (ln_flat L || negb (ln_steep L)) (ln_correct L ex)
                  (ln_mask_layer L)
                  ltac:(destruct Hok as (_&_&_&_&?); lia)) as Hf.
    cbv zeta in Hf. destruct Hf as (_ & _ & (H3 & H3') & _).
    assert (Hfl : truthy (Z.land (ln_flags_at L ex k) RL_FLAG_BIT_A_M_IS_A_P)
                  = negb (ln_steep L)).
    { unfold ln_flags_at, ln_flags0. rewrite Hflat in *.
      destruct ((k =? 0) || (k =? ln_d_s L)); assumption. }
    rewrite Hfl.
    pose proof (ln_a_at_range L ex k Hok Hflat ltac:(lia)) as [Ha _].
    unfold set_A, set_SP.
    cbn [I_RL_SP I_RL_SP_B I_RL_SP_E I_RL_A I_RL_A_S_A_P I_RL_FLAGS
         I_RL_REGION_0_1 I_RL_PAYLOAD_0_1].
    rewrite (i32_small (ln_a_at L ex k + 2 * ln_d_p L)) by lia.
    rewrite (i32_small ((ln_s_b L + k) * 65536 + ln_pos_at L ex k + 65536))
      by lia.
    replace ((ln_s_b L + k) * 65536 + ln_pos_at L ex k + 65536)
      with ((ln_s_b L + k + 1) * 65536 + ln_pos_at L ex k) by ring.
    replace (ln_a_at L ex k + 2 * ln_d_p L)
      with (ln_a_at L ex k + 1 * (2 * ln_d_p L)) by ring.
    replace (if negb (ln_steep L) then 2 * ln_d_s L else 2 * ln_d_p L)
      with (if ln_steep L then 2 * ln_d_p L else 2 * ln_d_s L)
      by (destruct (ln_steep L); reflexivity).
    assert (Hat : (Z.lxor
                     (I_RL_SP
                        (rl_step_p
                           (mkRL ((ln_s_b L + k + 1) * 65536
                                  + ln_pos_at L ex k)
                              (ln_s_b L * 65536 + ln_pos_at L ex 0)
                              (ln_s_e L * 65536 + ln_p_end L ex)
                              (ln_a_at L ex k + 1 * (2 * ln_d_p L))
                              (ln_flags_at L ex k)
                              (2 * ln_d_p L * 65536 + 2 * ln_d_s L)
                              (Z.lor (ln_region0 L <<! 16) (ln_region1 L))
                              (Z.lor (ln_payload0 L <<! 16)
                                 (ln_payload1 L)))
                           (if ln_steep L then 2 * ln_d_p L
                            else 2 * ln_d_s L)
                           (2 * ln_d_s L)))
                     (I_RL_SP_E
                        (rl_step_p
                           (mkRL ((ln_s_b L + k + 1) * 65536
                                  + ln_pos_at L ex k)
                              (ln_s_b L * 65536 + ln_pos_at L ex 0)
                              (ln_s_e L * 65536 + ln_p_end L ex)
                              (ln_a_at L ex k + 1 * (2 * ln_d_p L))
                              (ln_flags_at L ex k)
                              (2 * ln_d_p L * 65536 + 2 * ln_d_s L)
                              (Z.lor (ln_region0 L <<! 16) (ln_region1 L))
                              (Z.lor (ln_payload0 L <<! 16)
                                 (ln_payload1 L)))
                           (if ln_steep L then 2 * ln_d_p L
                            else 2 * ln_d_s L)
                           (2 * ln_d_s L)))
                   <? 65536) = (k + 1 =? ln_d_s L)).
    { rewrite rl_step_p_at by (assumption || lia).
      cbn [I_RL_SP I_RL_SP_E].
      pose proof (ln_naive_range L ex (ln_idx L ex (k + 1)) Hok Hflat
                    ltac:(apply ln_idx_range; lia)).
      rewrite same_s_spec by lia.
      destruct (Z.eqb_spec (ln_s_b L + k + 1) (ln_s_e L)),
               (Z.eqb_spec (k + 1) (ln_d_s L)); lia. }
    rewrite Hat.
    rewrite (rl_advance_spec L ex k 1) by (assumption || lia || reflexivity).
    unfold rl_at. rewrite Hflat. reflexivity.
Qed.

Lemma ln_flags_at_reads L ex k :
  0 <= ln_mask_layer L <= 0xf ->
  truthy (Z.land (ln_flags_at L ex k) RL_FLAG_BIT_DELTA_P_IS_POSITIVE)
    = ln_positive L /\
  truthy (Z.land (ln_flags_at L ex k) RL_FLAG_BIT_IS_PAST_EXIT) = ex /\
  truthy (Z.land (ln_flags_at L ex k) RL_FLAG_BIT_A_M_IS_A_P)
    = (ln_flat L || negb (ln_steep L)) /\
  truthy (Z.land (ln_flags_at L ex k) RL_FLAG_BIT_CORRECT_ENDPOINTS)
    = ln_correct L ex /\
  truthy (Z.land (ln_flags_at L ex k) RL_FLAG_BIT_SCANLINE_HAS_ENDPOINT)
    = ((k =? 0) || (k =? ln_d_s L)) /\
  Z.lor (ln_flags_at L ex k) RL_FLAG_BIT_SCANLINE_HAS_ENDPOINT
    = ln_flags0 L ex /\
  Z.shiftr (ln_flags_at L ex k) RL_FLAG_SHIFT_MASK_LAYER = ln_mask_layer L.
Proof.
  intros Hm.
  pose proof (rl_pack_flags_spec (ln_positive L) ex
                (ln_flat L || negb (ln_steep L)) (ln_correct L ex)
                (ln_mask_layer L) Hm) as Hf.
  cbv zeta in Hf.
  destruct Hf as ((H1 & H1') & (H2 & H2') & (H3 & H3') & (H4 & H4')
                  & (H0 & H0') & (Ho & Ho') & _ & (Hs & Hs')).
  unfold ln_flags_at, ln_flags0.
  destruct ((k =? 0) || (k =? ln_d_s L)); repeat split; assumption.
Qed.

Lemma rl_at_fields L ex k :
  I_RL_SP (rl_at L ex k) = (ln_s_b L + k) * 0x10000 + ln_pos_at L ex k /\
  I_RL_SP_B (rl_at L ex k) = ln_s_b L * 0x10000 + ln_pos_at L ex 0 /\
  I_RL_SP_E (rl_at L ex k) = ln_s_e L * 0x10000 + ln_p_end L ex /\
  I_RL_A (rl_at L ex k) = ln_a_at L ex k /\
  I_RL_FLAGS (rl_at L ex k) = ln_flags_at L ex k /\
  I_RL_A_S_A_P (rl_at L ex k)
    = (if ln_flat L then 0 else (2 * ln_d_p L) * 0x10000 + 2 * ln_d_s L) /\
  I_RL_REGION_0_1 (rl_at L ex k)
    = Z.lor (ln_region0 L <<! 16) (ln_region1 L) /\
  I_RL_PAYLOAD_0_1 (rl_at L ex k)
    = Z.lor (ln_payload0 L <<! 16) (ln_payload1 L).
Proof. repeat split. Qed.

Lemma rl_reset_at L ex k :
  line_ok L -> ln_flat L = false ->
  rl_reset (rl_at L ex k)
    (if ln_steep L then 2 * ln_d_p L else 2 * ln_d_s L)
    (2 * ln_d_p L) (2 * ln_d_s L)
  = rl_at L ex 0.
Proof.
  intros Hok Hflat.
  pose proof (line_ok_deltas L Hok) as (Hds & Hdp & _).
  assert (Hm : 0 <= ln_mask_layer L <= 0xf)
    by (destruct Hok as (_&_&_&_&?); lia).
  assert (Hflat' : ln_d_s L <> 0)
    by (unfold ln_flat in Hflat; apply Z.eqb_neq in Hflat; exact Hflat).
  pose proof (ln_flags_at_reads L ex k Hm) as (_ & _ & _ & _ & _ & Hfo & _).
  pose proof (ln_flags_at_reads L ex 0 Hm) as (_ & _ & _ & Hc0 & _).
  assert (Hfl0 : ln_flags_at L ex 0 = ln_flags0 L ex) by reflexivity.
  unfold rl_reset, set_SP, set_FLAGS, set_A, rl_flag.
  cbn [I_RL_SP I_RL_SP_B I_RL_SP_E I_RL_A I_RL_A_S_A_P I_RL_FLAGS
       I_RL_REGION_0_1 I_RL_PAYLOAD_0_1].
  destruct (rl_at_fields L ex k)
    as (HSP & HSPB & HSPE & HA & HF & HASAP & HR & HP).
  rewrite ?HSP, ?HSPB, ?HSPE, ?HA, ?HF, ?HASAP, ?HR, ?HP.
  rewrite Hfo, <- Hfl0, Hc0.
  assert (Ham : Z.shiftr (if ln_steep L then 2 * ln_d_p L else 2 * ln_d_s L) 1
                = if ln_steep L then ln_d_p L else ln_d_s L).
  { rewrite Z.shiftr_div_pow2 by lia. change (2 ^ 1) with 2.
    destruct (ln_steep L); rewrite Z.mul_comm, Z.div_mul; lia. }
  rewrite Ham.
  unfold rl_at. cbn [I_RL_SP I_RL_SP_B I_RL_SP_E I_RL_A I_RL_A_S_A_P
    I_RL_FLAGS I_RL_REGION_0_1 I_RL_PAYLOAD_0_1].
  rewrite Hflat, Z.add_0_r.
  unfold ln_a_at, ln_idx. rewrite Hflat.
  destruct (ln_correct L ex) eqn:Ecorr.
  - assert (Est : ln_steep L = true).
    { unfold ln_correct in Ecorr. destruct (ln_steep L); [reflexivity|].
      rewrite andb_false_r in Ecorr. discriminate. }
    rewrite Est.
    assert (Hq : 0 <= ln_d_p L / (2 * ln_d_s L) <= ln_d_p L).
    { split; [apply Z.div_pos; lia|].
      apply Z.div_le_upper_bound; nia. }
    assert (Hqm : 2 * ln_d_s L * (ln_d_p L / (2 * ln_d_s L)) <= ln_d_p L)
      by (apply Z.mul_div_le; lia).
    rewrite (i32_small (ln_d_p L / (2 * ln_d_s L) + 1)) by lia.
    rewrite (i32_small ((ln_d_p L / (2 * ln_d_s L) + 1) * (2 * ln_d_s L)))
      by nia.
    rewrite (i32_small (2 * ln_d_p L - _)) by nia.
    rewrite (i32_small (ln_d_p L + _)) by nia.
    f_equal. unfold ln_a. replace (0 + 1) with 1 by lia.
    rewrite ln_cnt_one. ring.
  - f_equal. unfold ln_a. rewrite ln_cnt_zero by lia.
    destruct (ln_steep L); ring.
Qed.

Lemma rl_advance_at L ex k s :
  line_ok L -> ln_flat L = false -> 0 <= k <= ln_d_s L ->
  ln_s_b L <= s <= ln_s_e L ->
  rl_advance (rl_at L ex k) s (ln_s_e L)
    (if ln_steep L then 2 * ln_d_p L else 2 * ln_d_s L)
    (2 * ln_d_p L) (2 * ln_d_s L)
  = rl_at L ex (Z.max k (s - ln_s_b L)).
Proof.
  intros Hok Hflat Hk Hs.
  pose proof (line_ok_deltas L Hok) as (Hds & Hdp & _).
  pose proof (ln_pos_at_range L ex k Hok Hk) as Hpk.
  assert (Hsb : 0 <= ln_s_b L /\ ln_s_b L + ln_d_s L = ln_s_e L
                /\ ln_s_e L < 0x8000)
    by (destruct Hok as (?&?&_); unfold ln_d_s; lia).
  unfold rl_advance.
  destruct (rl_at_fields L ex k)
    as (HSP & HSPB & HSPE & HA & HF & HASAP & HR & HP).
  rewrite HSP. rewrite unpack_hi by lia.
  destruct (Z.ltb_spec (ln_s_b L + k) s) as [Hlt|Hge].
  - set (n := s - (ln_s_b L + k)).
    assert (Hn : 1 <= n /\ k + n <= ln_d_s L) by (unfold n; lia).
    rewrite (i32_small n) by lia.
    pose proof (ln_a_at_range L ex k Hok Hflat ltac:(lia)) as [Ha _].
    assert (Hnb : 0 <= n * (2 * ln_d_p L) <= 0x7fff * 0x7ffe).
    { assert (0 <= n * ln_d_p L) by (apply Z.mul_nonneg_nonneg; lia).
      assert (n * ln_d_p L <= 0x7fff * ln_d_p L)
        by (apply Z.mul_le_mono_nonneg_r; lia).
      lia. }
    unfold set_A, set_SP.
    cbn [I_RL_SP I_RL_SP_B I_RL_SP_E I_RL_A I_RL_A_S_A_P I_RL_FLAGS
         I_RL_REGION_0_1 I_RL_PAYLOAD_0_1].
    rewrite ?HSP, ?HSPB, ?HSPE, ?HA, ?HF, ?HASAP, ?HR, ?HP.
    rewrite Hflat.
    rewrite (i32_small (n * (2 * ln_d_p L))) by lia.
    rewrite (i32_small (ln_a_at L ex k + n * (2 * ln_d_p L))) by lia.
    assert (Hshl : Z.shiftl n 16 = n * 0x10000)
      by (rewrite Z.shiftl_mul_pow2 by lia; reflexivity).
    rewrite Hshl.
    rewrite (i32_small (n * 65536)) by lia.
    rewrite (i32_small ((ln_s_b L + k) * 65536 + ln_pos_at L ex k
                        + n * 65536)) by lia.
    replace ((ln_s_b L + k) * 65536 + ln_pos_at L ex k + n * 65536)
      with ((ln_s_b L + k + n) * 65536 + ln_pos_at L ex k) by ring.
    rewrite (rl_advance_spec L ex k n) by
      (try assumption; try lia;
       unfold n; destruct (Z.eqb_spec s (ln_s_e L)),
         (Z.eqb_spec (k + (s - (ln_s_b L + k))) (ln_d_s L)); lia).
    f_equal. unfold n. lia.
  - f_equal. lia.
Qed.

(** Seeking lands on the closed form of the scanline sought, clamped to the
    first scanline of the edge; past the last scanline it does nothing. *)
Lemma rl_seek_at L ex k s :
  line_ok L -> 0 <= k <= ln_d_s L ->
  rl_seek_s_to (rl_at L ex k) s =
  if ln_s_e L <? s then rl_at L ex k
  else rl_at L ex (Z.max s (ln_s_b L) - ln_s_b L).
Proof.
  intros Hok Hk.
  pose proof (line_ok_deltas L Hok) as (Hds & Hdp & _).
  pose proof (ln_pos_at_range L ex k Hok Hk) as Hp.
  pose proof (ln_pos_at_range L ex 0 Hok ltac:(lia)) as Hp0.
  pose proof (ln_p_end_range L ex Hok) as Hpe.
  assert (Hm : 0 <= ln_mask_layer L <= 0xf)
    by (destruct Hok as (_&_&_&_&?); lia).
  assert (Hsb : 0 <= ln_s_b L /\ ln_s_b L + ln_d_s L = ln_s_e L
                /\ ln_s_e L < 0x8000)
    by (destruct Hok as (?&?&_); unfold ln_d_s; lia).
  pose proof (ln_flags_at_reads L ex k Hm) as (_ & _ & Hf3 & _).
  destruct (rl_at_fields L ex k)
    as (HSP & HSPB & HSPE & HA & HF & HASAP & HR & HP).
  unfold rl_seek_s_to, rl_flag.
  rewrite HSP, HSPB, HSPE, HF, HASAP, Hf3.
  rewrite !unpack_hi by lia.
  destruct (Z.ltb_spec (ln_s_e L) s) as [Hpast|Hin]; [reflexivity|].
  assert (Hclamp : (if s <? ln_s_b L then ln_s_b L else s)
                   = Z.max s (ln_s_b L))
    by (destruct (Z.ltb_spec s (ln_s_b L)); lia).
  rewrite Hclamp. set (s' := Z.max s (ln_s_b L)).
  assert (Hs' : ln_s_b L <= s' <= ln_s_e L) by (unfold s'; lia).
  destruct (ln_flat L) eqn:Hflat.
  { (* a single scanline: nothing to seek *)
    assert (ln_d_s L = 0) by (unfold ln_flat in Hflat; lia).
    replace (s' <? ln_s_b L + k) with false by (symmetry; apply Z.ltb_ge; lia).
    unfold rl_advance. rewrite HSP, unpack_hi by lia.
    replace (ln_s_b L + k <? s') with false
      by (symmetry; apply Z.ltb_ge; lia).
    f_equal. lia. }
  rewrite unpack_hi, unpack_lo by lia. cbn [orb].
  replace (if negb (ln_steep L) then 2 * ln_d_s L else 2 * ln_d_p L)
    with (if ln_steep L then 2 * ln_d_p L else 2 * ln_d_s L)
    by (destruct (ln_steep L); reflexivity).
  destruct (Z.ltb_spec s' (ln_s_b L + k)) as [Hback|Hfwd].
  - rewrite rl_reset_at by assumption.
    rewrite rl_advance_at by (assumption || lia). f_equal. lia.
  - rewrite rl_advance_at by (assumption || lia). f_equal. lia.
Qed.

(** ** The reference walk in closed form *)

Lemma on_line_end d_s d_p : 0 <= d_s -> 0 <= d_p -> on_line d_s d_p d_s d_p.
Proof. intros. unfold on_line. repeat split; lia. Qed.

Lemma on_line_start d_s d_p : 0 <= d_s -> 0 <= d_p -> on_line d_s d_p 0 0.
Proof. intros. unfold on_line. repeat split; lia. Qed.

Ltac steps_facts :=
  repeat match goal with
         | H : true = (_ <? _) |- _ => symmetry in H; apply Z.ltb_lt in H
         | H : false = (_ <? _) |- _ => symmetry in H; apply Z.ltb_ge in H
         | H : true = (_ <=? _) |- _ => symmetry in H; apply Z.leb_le in H
         | H : false = (_ <=? _) |- _ => symmetry in H; apply Z.leb_gt in H
         end.

Lemma bresenham_loop_mem fuel : forall d_s d_p sg s_b p_b k j s p,
  0 <= d_s -> 0 <= d_p -> sg = 1 \/ sg = -1 ->
  on_line d_s d_p k j ->
  (d_s - k) + (d_p - j) <= Z.of_nat fuel ->
  In (s, p)
     (bresenham_loop fuel d_s d_p sg (s_b + d_s) (p_b + sg * d_p)
        (s_b + k) (p_b + sg * j) (d_s - d_p + (j * d_s - k * d_p)))
  <-> on_line d_s d_p (s - s_b) (sg * (p - p_b))
      /\ k <= s - s_b /\ j <= sg * (p - p_b).
Proof.
  induction fuel as [|fuel IH]; intros d_s d_p sg s_b p_b k j s p
    Hds Hdp Hsg Hon Hfuel.
  - (* no fuel left: the walk is at the end point *)
    destruct Hon as (Hk & Hj & He).
    assert (k = d_s /\ j = d_p) as [-> ->] by lia.
    cbn [bresenham_loop In]. unfold on_line. split.
    + intros [Heq|[]]. inversion Heq; subst.
      replace (s_b + d_s - s_b) with d_s by lia.
      replace (sg * (p_b + sg * d_p - p_b)) with d_p by (destruct Hsg; subst; lia).
      repeat split; lia.
    + intros ((Hk' & Hj' & _) & Hk2 & Hj2). left.
      f_equal; [lia | destruct Hsg; subst; lia].
  - cbn [bresenham_loop In].
    destruct Hon as (Hk & Hj & He).
    set (e := j * d_s - k * d_p) in *.
    destruct ((s_b + k =? s_b + d_s) && (p_b + sg * j =? p_b + sg * d_p))
      eqn:Eend.
    + (* at the end point *)
      apply andb_true_iff in Eend as [E1%Z.eqb_eq E2%Z.eqb_eq].
      assert (k = d_s) by lia. assert (j = d_p) by (destruct Hsg; subst; lia).
      subst k j. unfold on_line. split.
      * intros [Heq|[]]. inversion Heq; subst.
        replace (s_b + d_s - s_b) with d_s by lia.
        replace (sg * (p_b + sg * d_p - p_b)) with d_p
          by (destruct Hsg; subst; lia).
        fold e. repeat split; lia.
      * intros ((Hk' & Hj' & _) & Hk2 & Hj2). left.
        f_equal; [lia | destruct Hsg; subst; lia].
    + (* one more step *)
      assert (Hnend : k < d_s \/ j < d_p).
      { apply andb_false_iff in Eend as [E%Z.eqb_neq|E%Z.eqb_neq].
        - left. lia.
        - right. destruct Hsg; subst; lia. }
      assert (Hmax : Z.max 1 (Z.max d_s d_p) = Z.max d_s d_p) by lia.
      rewrite Hmax in He.
      (* facts at the borders *)
      assert (Hkb : k = d_s -> e <= - d_s /\ 0 < d_p).
      { intros ->. assert (j < d_p) by lia.
        assert (e = - ((d_p - j) * d_s)) by (unfold e; ring).
        assert (d_s * 1 <= (d_p - j) * d_s) by nia. lia. }
      assert (Hjb : j = d_p -> d_p <= e /\ 0 < d_s).
      { intros ->. assert (k < d_s) by lia.
        assert (e = (d_s - k) * d_p) by (unfold e; ring).
        assert (d_p * 1 <= (d_s - k) * d_p) by nia. lia. }
      remember (- d_p <? 2 * (d_s - d_p + e)) as ss eqn:Ess.
      remember (2 * (d_s - d_p + e) <=? d_s) as sp eqn:Esp.
      set (k2 := if ss then k + 1 else k).
      set (j2 := if sp then j + 1 else j).
      assert (Hstate :
        (let '(err, s0) := if ss then (d_s - d_p + e - d_p, s_b + k + 1)
                           else (d_s - d_p + e, s_b + k) in
         let '(err0, p0) := if sp then (err + d_s, p_b + sg * j + sg)
                            else (err, p_b + sg * j) in
         bresenham_loop fuel d_s d_p sg (s_b + d_s) (p_b + sg * d_p)
           s0 p0 err0)
        = bresenham_loop fuel d_s d_p sg (s_b + d_s) (p_b + sg * d_p)
            (s_b + k2) (p_b + sg * j2)
            (d_s - d_p + (j2 * d_s - k2 * d_p))).
      { unfold k2, j2, e. destruct ss, sp; f_equal; ring. }
      rewrite Hstate. clear Hstate.
      assert (He2 : j2 * d_s - k2 * d_p
                    = e + (if sp then d_s else 0) - (if ss then d_p else 0)).
      { unfold k2, j2, e. destruct ss, sp; ring. }
      assert (Hon2 : on_line d_s d_p k2 j2).
      { unfold on_line. rewrite Hmax, He2. unfold k2, j2.
        destruct ss, sp; steps_facts; repeat split; try lia.
        all: try (destruct (Z.eq_dec k d_s) as [Hx|Hx];
                  [destruct (Hkb Hx); lia | lia]).
        all: try (destruct (Z.eq_dec j d_p) as [Hx|Hx];
                  [destruct (Hjb Hx); lia | lia]). }
      rewrite IH; try assumption.
      2: { unfold k2, j2. destruct ss, sp; steps_facts; lia. }
      unfold on_line. rewrite Hmax. fold e.
      set (k' := s - s_b). set (j' := sg * (p - p_b)).
      assert (Hpt : (s_b + k, p_b + sg * j) = (s, p) <-> k' = k /\ j' = j).
      { unfold k', j'. split.
        - intros Heq. inversion Heq; subst. destruct Hsg; subst; lia.
        - intros [H1 H2]. f_equal; [lia | destruct Hsg; subst; lia]. }
      rewrite Hpt. clear Hpt.
      split.
      * intros [[-> ->] | (Hon' & Hk2 & Hj2)].
        -- fold e. repeat split; lia.
        -- unfold k2 in Hk2. unfold j2 in Hj2.
           split; [exact Hon'|]. destruct ss, sp; lia.
      * intros ((Hk' & Hj' & He') & Hkk & Hjj).
        destruct (Z.eq_dec k' k) as [Ek|Ek];
          [destruct (Z.eq_dec j' j) as [Ej|Ej]; [left; auto|]|];
          right; (split; [repeat split; lia|]).
        -- (* same scanline, further along the position *)
           rewrite Ek in *.
           assert (Hd : e + d_s <= j' * d_s - k * d_p).
           { assert (1 * d_s <= (j' - j) * d_s)
               by (apply Z.mul_le_mono_nonneg_r; lia).
             unfold e. lia. }
           unfold k2, j2. destruct ss, sp; steps_facts; lia.
        -- (* a later scanline *)
           assert (Hk1 : k + 1 <= k') by lia.
           destruct (Z.eq_dec j' j) as [Ej|Ej].
           ++ assert (Hd : j' * d_s - k' * d_p <= e - d_p).
              { assert (1 * d_p <= (k' - k) * d_p)
                  by (apply Z.mul_le_mono_nonneg_r; lia).
                unfold e. rewrite Ej. lia. }
              unfold k2, j2. destruct ss, sp; steps_facts; lia.
           ++ unfold k2, j2. destruct ss, sp; lia.
Qed.

(** ** The span of an enter and a past-exit RL is the segment *)

Lemma on_line_shallow d_s d_p k j :
  0 < d_s -> 0 <= d_p <= d_s -> 0 <= k <= d_s ->
  j = ln_cnt d_s d_p false k <-> on_line d_s d_p k j.
Proof.
  intros Hs Hp Hk. unfold ln_cnt, on_line.
  replace (Z.max 1 (Z.max d_s d_p)) with d_s by lia.
  pose proof (Z.div_mod (d_s + 2 * d_p * k) (2 * d_s) ltac:(lia)) as Hdm.
  pose proof (Z.mod_pos_bound (d_s + 2 * d_p * k) (2 * d_s) ltac:(lia)) as Hmb.
  set (q := (d_s + 2 * d_p * k) / (2 * d_s)) in *.
  set (r := (d_s + 2 * d_p * k) mod (2 * d_s)) in *.
  assert (Hkp : 0 <= k * d_p <= d_s * d_p).
  { split; [apply Z.mul_nonneg_nonneg; lia|].
    apply Z.mul_le_mono_nonneg_r; lia. }
  split.
  - intros ->. repeat split; try lia; nia.
  - intros (_ & Hj & He). nia.
Qed.

Lemma on_line_steep d_s d_p k j :
  0 < d_s -> d_s < d_p -> 0 <= k <= d_s ->
  (ln_cnt d_s d_p true k <= j /\
   j < (if k <? d_s then ln_cnt d_s d_p true (k + 1) else d_p + 1))
  <-> on_line d_s d_p k j.
Proof.
  intros Hs Hp Hk. unfold on_line.
  replace (Z.max 1 (Z.max d_s d_p)) with d_p by lia.
  assert (Hlo : ln_cnt d_s d_p true k <= j
                <-> 0 <= j /\ - d_p < 2 * (j * d_s - k * d_p)).
  { unfold ln_cnt. destruct (Z.leb_spec k 0).
    - replace k with 0 by lia. nia.
    - pose proof (Z.div_mod ((2 * k - 1) * d_p) (2 * d_s) ltac:(lia)) as Hdm.
      pose proof (Z.mod_pos_bound ((2 * k - 1) * d_p) (2 * d_s) ltac:(lia))
        as Hmb.
      set (q := ((2 * k - 1) * d_p) / (2 * d_s)) in *.
      set (r := ((2 * k - 1) * d_p) mod (2 * d_s)) in *.
      assert (0 <= q) by (apply Z.div_pos; nia).
      split; [intros Hj | intros [Hj He]]; [split|]; nia. }
  assert (Hhi : j < (if k <? d_s then ln_cnt d_s d_p true (k + 1)
                     else d_p + 1)
                <-> j <= d_p /\ 2 * (j * d_s - k * d_p) <= d_p).
  { destruct (Z.ltb_spec k d_s).
    - unfold ln_cnt.
      replace (k + 1 <=? 0) with false by (symmetry; apply Z.leb_gt; lia).
      replace (2 * (k + 1) - 1) with (2 * k + 1) by ring.
      pose proof (Z.div_mod ((2 * k + 1) * d_p) (2 * d_s) ltac:(lia)) as Hdm.
      pose proof (Z.mod_pos_bound ((2 * k + 1) * d_p) (2 * d_s) ltac:(lia))
        as Hmb.
      set (q := ((2 * k + 1) * d_p) / (2 * d_s)) in *.
      set (r := ((2 * k + 1) * d_p) mod (2 * d_s)) in *.
      assert (Hkp : (2 * k + 1) * d_p <= (2 * d_s - 1) * d_p)
        by (apply Z.mul_le_mono_nonneg_r; lia).
      split; [intros Hj | intros [Hj He]]; [split|]; nia.
    - assert (k = d_s) by lia. subst k. split; [intros Hj|intros [Hj _]].
      + split; [lia|]. assert (j * d_s <= d_p * d_s)
          by (apply Z.mul_le_mono_nonneg_r; lia). lia.
      + lia. }
  rewrite Hlo, Hhi. split.
  - intros ((H1 & H2) & (H3 & H4)). repeat split; lia.
  - intros (_ & (H1 & H2) & (H3 & H4)). repeat split; lia.
Qed.

(** On scanline [k] of the edge, the positions from the enter RL up to the
    past-exit RL are the pixels of the closed-form segment. *)
Lemma ln_span_on_line L k p :
  line_ok L -> 0 <= k <= ln_d_s L ->
  ln_pos_at L false k <= p < ln_pos_at L true k
  <-> on_line (ln_d_s L) (ln_d_p L) k
        ((if ln_p_b L <? ln_p_e L then 1 else -1) * (p - ln_p_b L)).
Proof.
  intros Hok Hk.
  pose proof (line_ok_deltas L Hok) as (Hds & Hdp & Hpos & Hneg).
  unfold ln_pos_at, ln_p_end, ln_p0, ln_idx, ln_correct.
  destruct (ln_flat L) eqn:Hflat.
  - (* a single scanline *)
    assert (ln_d_s L = 0) by (unfold ln_flat in Hflat; lia).
    assert (k = 0) by lia. subst k. unfold on_line.
    destruct (Z.ltb_spec (ln_p_b L) (ln_p_e L)) as [Hlt|Hge].
    + assert (Hp' : ln_positive L = true) by (unfold ln_positive; lia).
      specialize (Hpos Hp'). lia.
    + destruct (ln_positive L) eqn:Ep.
      * specialize (Hpos eq_refl).
        assert (ln_d_p L = 0) by lia. lia.
      * destruct (Hneg eq_refl). lia.
  - assert (Hflat' : 0 < ln_d_s L)
      by (unfold ln_flat in Hflat; apply Z.eqb_neq in Hflat; lia).
    cbn [negb andb].
    destruct (ln_steep L) eqn:Est; cbn [andb].
    + (* steep *)
      assert (Hst : ln_d_s L < ln_d_p L) by (unfold ln_steep in Est; lia).
      rewrite <- (on_line_steep (ln_d_s L) (ln_d_p L) k) by lia.
      destruct (ln_positive L) eqn:Ep; cbn [eqb].
      * specialize (Hpos eq_refl).
        replace (ln_p_b L <? ln_p_e L) with true
          by (symmetry; apply Z.ltb_lt; lia).
        destruct (Z.eqb_spec k (ln_d_s L)) as [->|Hne].
        -- rewrite Z.ltb_irrefl. cbn [andb]. lia.
        -- replace (k <? ln_d_s L) with true
             by (symmetry; apply Z.ltb_lt; lia).
           rewrite ?andb_false_r. cbn [andb]. lia.
      * destruct (Hneg eq_refl) as [Hpe Hdp'].
        replace (ln_p_b L <? ln_p_e L) with false
          by (symmetry; apply Z.ltb_ge; lia).
        destruct (Z.eqb_spec k (ln_d_s L)) as [->|Hne].
        -- rewrite Z.ltb_irrefl. cbn [andb]. lia.
        -- replace (k <? ln_d_s L) with true
             by (symmetry; apply Z.ltb_lt; lia).
           rewrite ?andb_false_r. cbn [andb]. lia.
    + (* shallow *)
      assert (Hsh : ln_d_p L <= ln_d_s L) by (unfold ln_steep in Est; lia).
      rewrite <- (on_line_shallow (ln_d_s L) (ln_d_p L) k) by lia.
      assert (Hc0 : ln_d_p L = 0 -> ln_cnt (ln_d_s L) (ln_d_p L) false k = 0).
      { intros E. unfold ln_cnt. rewrite E. apply Z.div_small. lia. }
      destruct (Z.ltb_spec (ln_p_b L) (ln_p_e L)) as [Hlt|Hge].
      * assert (Hp' : ln_positive L = true) by (unfold ln_positive; lia).
        rewrite Hp'. lia.
      * destruct (ln_positive L) eqn:Ep.
        -- specialize (Hpos eq_refl).
           assert (E0 : ln_d_p L = 0) by lia. specialize (Hc0 E0). lia.
        -- lia.
Qed.

(** ** The walk of the code, scanline by scanline *)

Lemma rl_at_s_p L ex k :
  line_ok L -> 0 <= k <= ln_d_s L ->
  rl_s (rl_at L ex k) = ln_s_b L + k /\
  rl_p (rl_at L ex k) = ln_pos_at L ex k.
Proof.
  intros Hok Hk. pose proof (ln_pos_at_range L ex k Hok Hk).
  unfold rl_s, rl_p, rl_at. cbn [I_RL_SP].
  rewrite unpack_hi, unpack_lo by lia. split; reflexivity.
Qed.

Lemma rl_walk_from_lookup L ex (n : nat) : forall (k : Z) (i : nat),
  line_ok L -> 0 <= k -> k + Z.of_nat n <= ln_d_s L ->
  rl_walk_from n (rl_at L ex k) !! i =
  if (i <=? n)%nat
  then Some (ln_s_b L + (k + Z.of_nat i), ln_pos_at L ex (k + Z.of_nat i))
  else None.
Proof.
  induction n as [|n IH]; intros k i Hok Hk Hkn.
  - destruct (rl_at_s_p L ex k Hok ltac:(lia)) as [Hs Hp].
    cbn [rl_walk_from]. rewrite Hs, Hp.
    destruct i as [|i]; cbn.
    + rewrite Z.add_0_r. reflexivity.
    + reflexivity.
  - destruct (rl_at_s_p L ex k Hok ltac:(lia)) as [Hs Hp].
    cbn [rl_walk_from]. rewrite Hs, Hp.
    rewrite rl_increment_at by (assumption || lia).
    replace (Z.min (k + 1) (ln_d_s L)) with (k + 1) by lia.
    destruct i as [|i].
    + cbn. rewrite Z.add_0_r. reflexivity.
    + cbn [lookup list_lookup]. change ((_ :: ?l) !! S i) with (l !! i).
      rewrite IH by (assumption || lia).
      change (S i <=? S n)%nat with (i <=? n)%nat.
      destruct (i <=? n)%nat; [|reflexivity].
      replace (k + Z.of_nat (S i)) with (k + 1 + Z.of_nat i) by lia.
      reflexivity.
Qed.

Lemma rl_walk_lookup L ex (i : nat) :
  line_ok L ->
  rl_walk L ex !! i =
  if (i <=? Z.to_nat (ln_d_s L))%nat
  then Some (ln_s_b L + Z.of_nat i, ln_pos_at L ex (Z.of_nat i))
  else None.
Proof.
  intros Hok. pose proof (line_ok_deltas L Hok) as (Hds & _).
  unfold rl_walk. rewrite rl_init_at by assumption.
  fold (ln_d_s L).
  rewrite rl_walk_from_lookup by (assumption || lia).
  reflexivity.
Qed.

Lemma bresenham_on_line L s p :
  line_ok L ->
  In (s, p) (bresenham (ln_s_b L) (ln_p_b L) (ln_s_e L) (ln_p_e L))
  <-> on_line (ln_d_s L) (ln_d_p L) (s - ln_s_b L)
        ((if ln_p_b L <? ln_p_e L then 1 else -1) * (p - ln_p_b L)).
Proof.
  intros Hok. pose proof (line_ok_deltas L Hok) as (Hds & Hdp & Hpos & Hneg).
  unfold bresenham. fold (ln_d_s L) (ln_d_p L).
  set (sg := if ln_p_b L <? ln_p_e L then 1 else -1).
  assert (Hsg : sg = 1 \/ sg = -1)
    by (unfold sg; destruct (ln_p_b L <? ln_p_e L); auto).
  assert (Hpe : ln_p_e L = ln_p_b L + sg * ln_d_p L).
  { unfold sg, ln_d_p. destruct (Z.ltb_spec (ln_p_b L) (ln_p_e L)); lia. }
  assert (Hse : ln_s_e L = ln_s_b L + ln_d_s L) by (unfold ln_d_s; lia).
  assert (Hfuel : ln_d_s L - 0 + (ln_d_p L - 0)
                  <= Z.of_nat (Z.to_nat (ln_d_s L + ln_d_p L)))
    by (rewrite Z2Nat.id; lia).
  assert (H0s : 0 <= ln_d_s L) by lia.
  assert (H0p : 0 <= ln_d_p L) by lia.
  pose proof (bresenham_loop_mem (Z.to_nat (ln_d_s L + ln_d_p L))
                (ln_d_s L) (ln_d_p L) sg (ln_s_b L) (ln_p_b L) 0 0 s p
                H0s H0p Hsg (on_line_start _ _ H0s H0p) Hfuel) as Hmem.
  rewrite <- Hse, <- Hpe in Hmem.
  replace (ln_s_b L + 0) with (ln_s_b L) in Hmem by lia.
  replace (ln_p_b L + sg * 0) with (ln_p_b L) in Hmem by lia.
  replace (ln_d_s L - ln_d_p L + (0 * ln_d_s L - 0 * ln_d_p L))
    with (ln_d_s L - ln_d_p L) in Hmem by lia.
  rewrite Hmem. unfold on_line. split; [intros [H _]; exact H|].
  intros H. split; [exact H|]. lia.
Qed.
(** ** The pool of rasterized lines *)

Lemma sr_eta (sr : ScanlineRasterizer) : sr_set_num_rl sr (num_rl sr) = sr.
Proof. destruct sr; reflexivity. Qed.

Lemma allocate_rl_full (sr : ScanlineRasterizer) (c : list string) :
  sr_wf sr -> num_rl sr = SR_MAX_NUM_RL ->
  _allocate_rl sr c = Returns 511%nat sr (c ++ ["allocating too many rl"%string]).
Proof.
  intros [_ Hlen] Hn. unfold _allocate_rl, bind, get, set_num_rl, put, print, ret.
  rewrite Hn, Hlen. cbn.
  rewrite <- (sr_eta sr) at 2. rewrite Hn. reflexivity.
Qed.

Lemma allocate_rl_room (sr : ScanlineRasterizer) (c : list string) :
  sr_wf sr -> num_rl sr < SR_MAX_NUM_RL ->
  _allocate_rl sr c =
    Returns (Z.to_nat (num_rl sr)) (sr_set_num_rl sr (num_rl sr + 1)) c.
Proof.
  intros [Hn Hlen] Hlt. unfold _allocate_rl, bind, get, set_num_rl, put, print, ret.
  unfold SR_MAX_NUM_RL in *.
  destruct (Z.eqb_spec (num_rl sr) 512) as [E|_]; [lia|].
  rewrite Hlen. unfold py_index.
  destruct (Z.leb_spec 0 (num_rl sr)); [|lia].
  destruct (Z.ltb_spec (num_rl sr) (Z.of_nat (Z.to_nat 512))); [|lia].
  cbn [andb]. rewrite i32_small by lia. reflexivity.
Qed.

Lemma allocate_rl_wf (sr : ScanlineRasterizer) (c : list string) :
  sr_wf sr ->
  exists slot sr' c',
    _allocate_rl sr c = Returns slot sr' c' /\ sr_wf sr' /\
    arr_ptr_rl_sorted sr' = arr_ptr_rl_sorted sr.
Proof.
  intros Hwf. destruct (Z.eq_dec (num_rl sr) SR_MAX_NUM_RL) as [E|E].
  - eexists _, _, _. rewrite allocate_rl_full by assumption. eauto.
  - pose proof Hwf as [Hn Hlen].
    eexists _, _, _. rewrite allocate_rl_room by (assumption || lia).
    split; [reflexivity|]. split; [|reflexivity].
    split; [cbn; lia | exact Hlen].
Qed.

Lemma store_rl_wf (slot : nat) (rl : RL) (sr : ScanlineRasterizer)
    (c : list string) :
  sr_wf sr ->
  exists sr', store_rl slot rl sr c = Returns tt sr' c /\ sr_wf sr' /\
              num_rl sr' = num_rl sr.
Proof.
  intros [Hn Hlen]. eexists. split; [reflexivity|]. split; [|reflexivity].
  split; [exact Hn|]. cbn. rewrite length_insert. exact Hlen.
Qed.

Lemma keeps_wf_ret : keeps_wf (ret tt).
Proof. intros sr c H. exists sr, c. auto. Qed.

Lemma keeps_wf_seq (m k : M ScanlineRasterizer unit) :
  keeps_wf m -> keeps_wf k -> keeps_wf (m ;;; k).
Proof.
  intros Hm Hk sr c H. destruct (Hm sr c H) as (sr1 & c1 & E1 & H1).
  destruct (Hk sr1 c1 H1) as (sr2 & c2 & E2 & H2).
  exists sr2, c2. unfold bind. rewrite E1. auto.
Qed.

Lemma keeps_wf_allocate_store (rl : RL) :
  keeps_wf (slot <- _allocate_rl ;; store_rl slot rl).
Proof.
  intros sr c Hwf.
  destruct (allocate_rl_wf sr c Hwf) as (slot & sr1 & c1 & E & Hwf1 & _).
  destruct (store_rl_wf slot rl sr1 c1 Hwf1) as (sr2 & E2 & Hwf2 & _).
  exists sr2, c1. unfold bind at 1. rewrite E. rewrite E2. auto.
Qed.

Lemma add_edge_line_fill_wf (x_b y_b x_e y_e region_line region_fill
    payload_line payload_fill mask_layer : Z) :
  keeps_wf (add_edge_line_fill x_b y_b x_e y_e region_line region_fill
              payload_line payload_fill mask_layer).
Proof.
  unfold add_edge_line_fill.
  destruct (x_b +! RL_SP_BIAS <? x_e +! RL_SP_BIAS);
  destruct (x_e +! RL_SP_BIAS =? x_b +! RL_SP_BIAS);
  destruct (negb (region_line =? RL_REGION_UNUSED)); cbn [orb negb];
  repeat first [ apply keeps_wf_seq | apply keeps_wf_allocate_store
               | apply keeps_wf_ret ].
Qed.

Lemma allocate_store_room (rl : RL) (sr : ScanlineRasterizer)
    (c : list string) :
  sr_wf sr -> num_rl sr < SR_MAX_NUM_RL ->
  (slot <- _allocate_rl ;; store_rl slot rl) sr c =
  Returns tt
    (sr_set_rl (sr_set_num_rl sr (num_rl sr + 1))
       (<[Z.to_nat (num_rl sr) := rl]> (arr_ptr_rl_sorted sr))) c.
Proof.
  intros Hwf Hn. unfold bind. rewrite allocate_rl_room by assumption.
  reflexivity.
Qed.

Lemma sr_wf_succ (sr : ScanlineRasterizer) rls :
  sr_wf sr -> num_rl sr < SR_MAX_NUM_RL -> length rls = length (arr_ptr_rl_sorted sr) ->
  sr_wf (sr_set_rl (sr_set_num_rl sr (num_rl sr + 1)) rls).
Proof.
  intros [Hn Hl] Hlt Hlen. split; cbn; [lia | congruence].
Qed.
(** ** Insideness *)

Lemma rl_after_at L ex k :
  line_ok L ->
  rl_after L ex k = rl_at L ex (Z.min (Z.of_nat k) (ln_d_s L)).
Proof.
  intros Hok. pose proof (line_ok_deltas L Hok) as (Hds & _).
  induction k as [|k IH].
  - cbn. rewrite Z.min_l by lia. apply rl_init_at; assumption.
  - unfold rl_after in *. rewrite Nat.iter_succ, IH.
    rewrite rl_increment_at by (assumption || lia).
    f_equal. lia.
Qed.


(** ** Flushing a span *)


Lemma peek_poke_same (a : list Z) (i v : Z) :
  0 <= i < Z.of_nat (length a) -> peek (poke a i v) i = v.
Proof.
  intros H. unfold peek, poke. destruct (Z.ltb_spec i 0); [lia|].
  rewrite list_lookup_insert_eq by lia. reflexivity.
Qed.

Lemma peek_poke_other (a : list Z) (i j v : Z) :
  i <> j -> peek (poke a i v) j = peek a j.
Proof.
  intros H. unfold peek, poke.
  destruct (Z.ltb_spec i 0), (Z.ltb_spec j 0); try reflexivity.
  rewrite list_lookup_insert_ne by lia. reflexivity.
Qed.

Lemma length_poke (a : list Z) (i v : Z) : length (poke a i v) = length a.
Proof. unfold poke. destruct (i <? 0); [reflexivity | apply length_insert]. Qed.

Lemma fill_payload_length fuel buf i e x_dim v :
  length (fill_payload fuel buf i e x_dim v) = length buf.
Proof.
  revert buf i. induction fuel as [|n IH]; intros buf i; cbn [fill_payload].
  - reflexivity.
  - destruct (i <? e); [|reflexivity]. rewrite IH. apply length_poke.
Qed.





(** ** Wrapped degrees and the ball *)

Lemma load16_range (a : list Z) (i : Z) : 0 <= load16 a i < 0x10000.
Proof.
  unfold load16. change 0xffff with (Z.ones 16). rewrite Z.land_ones by lia.
  apply Z.mod_pos_bound. lia.
Qed.

Lemma get_endpoint_normal_wd_range n0 n1 :
  0 <= get_endpoint_normal_wd n0 n1 < 360.
Proof.
  unfold get_endpoint_normal_wd.
  destruct (_ <? 180); apply Z.mod_pos_bound; lia.
Qed.

Lemma reflect_velocity_spec v n :
  0 <= v < 360 -> 0 <= n < 0x10000 ->
  reflect_velocity_about_normal_wd v n = (2 * n - v - 180) mod 360.
Proof.
  intros Hv Hn. unfold reflect_velocity_about_normal_wd.
  rewrite Z.shiftl_mul_pow2 by lia. change (2 ^ 1) with 2.
  rewrite (i32_small (n * 2)) by lia.
  rewrite (i32_small (n * 2 - v)) by lia.
  rewrite (i32_small (n * 2 - v - 180)) by lia.
  f_equal. lia.
Qed.

Lemma set_velocity_reflected (b : BallState) (a speed : Z) :
  _set_velocity_wd_f20 b (i32 (a mod 360)) speed
  = ball_with_velocity b (a mod 360) speed.
Proof.
  unfold _set_velocity_wd_f20, ball_with_velocity, wd_init.
  pose proof (Z.mod_pos_bound a 360 ltac:(lia)) as H.
  rewrite !(i32_small (a mod 360)) by lia.
  rewrite Z.mod_mod by lia. reflexivity.
Qed.
(** ** Chunk data *)

Lemma acd_load_cases (i : Z) (cd : ChunkData) (c : list string) :
  (exists v, acd_load i cd c = Returns v cd c) \/
  acd_load i cd c = Raises IndexError cd c.
Proof.
  unfold acd_load, bind, get.
  destruct (py_index _ i); [left; eexists; reflexivity | right; reflexivity].
Qed.

Lemma get_i_acd_next_chunk_full (cd : ChunkData) (c : list string) :
  MAX_NUM_CHUNKS <= num_chunks cd ->
  _get_i_acd_next_chunk cd c = Raises (RuntimeError "too many chunks") cd c.
Proof.
  intros H. unfold _get_i_acd_next_chunk, bind, get.
  destruct (Z.leb_spec MAX_NUM_CHUNKS (num_chunks cd)); [reflexivity | lia].
Qed.

Lemma chunk_is_loop_state (i : Z) (cd : ChunkData) (c : list string) :
  state_of (chunk_is_loop i cd c) = cd.
Proof.
  unfold chunk_is_loop, bind at 1, get.
  destruct (num_chunks cd <=? i); [reflexivity|].
  unfold bind.
  destruct (acd_load_cases (Z.shiftl i 2 + I_CHUNK_IF_LOOP_MASK_TRIGGER_LAYER)
              cd c) as [[v ->]| ->]; reflexivity.
Qed.

Ltac load_step cd c :=
  match goal with
  | |- context [acd_load ?i cd c] =>
      destruct (acd_load_cases i cd c) as [[? ->]| ->]; [|reflexivity]
  end.

Lemma chunk_edge_get_endpoints_state (i : Z) (cd : ChunkData)
    (c : list string) :
  state_of (chunk_edge_get_endpoints i cd c) = cd.
Proof.
  unfold chunk_edge_get_endpoints, bind at 1, get.
  destruct (num_chunks cd <=? i); [reflexivity|].
  unfold bind at 1. load_step cd c.
  destruct (truthy _); [reflexivity|].
  unfold bind at 1. load_step cd c.
  unfold bind at 1. load_step cd c.
  unfold bind at 1. load_step cd c.
  unfold bind at 1.
  destruct (truthy _).
  - unfold bind at 1. load_step cd c. unfold ret at 1.
    unfold bind at 1. load_step cd c.
    unfold bind at 1. load_step cd c. reflexivity.
  - unfold ret at 1.
    unfold bind at 1. load_step cd c.
    unfold bind at 1. load_step cd c. reflexivity.
Qed.
(** ** The payload buffer and the collision step *)

Lemma set_dimensions_raises (width height : Z) (pb : PayloadBuffer)
    (c : list string) :
  PB_MAX_PIXELS < width * height ->
  set_dimensions width height pb c = Raises (too_large width height) pb c.
Proof.
  intros H. unfold set_dimensions, bind, get.
  destruct (Z.ltb_spec PB_MAX_PIXELS (width * height)); [reflexivity | lia].
Qed.

Lemma set_dimensions_returns (width height : Z) (pb : PayloadBuffer)
    (c : list string) :
  width * height <= PB_MAX_PIXELS ->
  set_dimensions width height pb c =
  Returns tt (mkPB (pb_buffer pb) width height) c.
Proof.
  intros H. unfold set_dimensions, bind, get.
  destruct (Z.ltb_spec PB_MAX_PIXELS (width * height)); [lia | reflexivity].
Qed.

Lemma advance_state_eta (s : AdvanceState) :
  mkAdvance (ball s) (rasterizer_collision s) (payload_buffer s) = s.
Proof. destruct s; reflexivity. Qed.

Lemma collision_step_raises `{FloatMath} (delta_ms : Z) (normals : list Z)
    (s : AdvanceState) (c : list string) :
  PB_MAX_PIXELS < BALL_DIAMETER * payload_dim_y (ball s) delta_ms ->
  _advance_to_collision_axis_aligned delta_ms normals s c =
  Raises (too_large BALL_DIAMETER (payload_dim_y (ball s) delta_ms)) s c.
Proof.
  intros Hbig. unfold _advance_to_collision_axis_aligned.
  unfold bind at 1, get. cbv zeta.
  unfold bind at 1, on_payload_buffer at 1, focus.
  fold (payload_dim_y (ball s) delta_ms).
  rewrite set_dimensions_raises by assumption.
  rewrite advance_state_eta. reflexivity.
Qed.
(** ** The insertion sort *)

Lemma rl_get_swap_l arr p :
  (S p < length arr)%nat -> rl_get (rl_swap arr p (S p)) p = rl_get arr (S p).
Proof.
  intros H. unfold rl_swap, rl_get at 1.
  rewrite list_lookup_insert_eq by (rewrite length_insert; lia). reflexivity.
Qed.

Lemma rl_get_swap_r arr p :
  (S p < length arr)%nat -> rl_get (rl_swap arr p (S p)) (S p) = rl_get arr p.
Proof.
  intros H. unfold rl_swap, rl_get at 1.
  rewrite list_lookup_insert_ne by lia.
  rewrite list_lookup_insert_eq by lia. reflexivity.
Qed.

Lemma rl_get_swap_other arr p i :
  i <> p -> i <> S p -> rl_get (rl_swap arr p (S p)) i = rl_get arr i.
Proof.
  intros H1 H2. unfold rl_swap, rl_get at 1.
  rewrite !list_lookup_insert_ne by lia. reflexivity.
Qed.

Lemma length_rl_swap arr i j : length (rl_swap arr i j) = length arr.
Proof. unfold rl_swap. rewrite !length_insert. reflexivity. Qed.

Lemma rl_swap_perm arr p :
  (S p < length arr)%nat -> rl_swap arr p (S p) ≡ₚ arr.
Proof.
  intros H.
  destruct (lookup_lt_is_Some_2 arr p ltac:(lia)) as [x Hx].
  destruct (lookup_lt_is_Some_2 arr (S p) ltac:(lia)) as [y Hy].
  unfold rl_swap, rl_get. rewrite Hx, Hy. cbn [default].
  assert (E : arr = take p arr ++ x :: y :: drop (S (S p)) arr).
  { rewrite <- (take_drop_middle arr p x Hx) at 1.
    do 2 f_equal. apply drop_S. exact Hy. }
  assert (Hl : length (take p arr) = p) by (rewrite length_take; lia).
  set (l1 := take p arr) in *. set (l2 := drop (S (S p)) arr) in *.
  rewrite E.
  rewrite (insert_app_r_alt l1 _ (S p)) by lia.
  rewrite Hl. replace (S p - p)%nat with 1%nat by lia. cbn [insert list_insert].
  rewrite (insert_app_r_alt l1 _ p) by lia.
  rewrite Hl. replace (p - p)%nat with 0%nat by lia. cbn.
  apply Permutation_app_head. apply perm_swap.
Qed.

Lemma sort_sift_spec (hi lo : nat) (d : nat) : forall (arr : list RL) (sp : Z),
  (lo <= d)%nat -> (d < hi)%nat -> (hi <= length arr)%nat ->
  I_RL_SP (rl_get arr d) = sp ->
  sorted_range arr lo d ->
  sorted_range arr (S d) hi ->
  (forall j, (d < j)%nat -> (j < hi)%nat -> sp < I_RL_SP (rl_get arr j)) ->
  (forall i j, (lo <= i)%nat -> (i < d)%nat -> (d < j)%nat -> (j < hi)%nat ->
     I_RL_SP (rl_get arr i) <= I_RL_SP (rl_get arr j)) ->
  let r := sort_sift arr d lo sp in
  sorted_range r lo hi /\ r ≡ₚ arr /\ length r = length arr /\
  (forall i, (i < lo)%nat \/ (d < i)%nat -> rl_get r i = rl_get arr i).
Proof.
  induction d as [|p IH]; intros arr sp Hlo Hhi Hlen Hsp Hpre Hsuf Hgt Hcross;
    cbn [sort_sift]; cbv zeta.
  - split; [|auto]. intros i j Hi Hij Hj.
    destruct (Nat.eq_dec i 0%nat) as [->|Hi0].
    + destruct (Nat.eq_dec j 0%nat) as [->|Hj0]; [lia|].
      rewrite Hsp. specialize (Hgt j). lia.
    + apply Hsuf; lia.
  - destruct (Nat.ltb_spec lo (S p)) as [Hlt|Hge].
    + destruct (Z.ltb_spec sp (I_RL_SP (rl_get arr p))) as [Hless|Hnot].
      * assert (Hp : (S p < length arr)%nat) by lia.
        specialize (IH (rl_swap arr p (S p)) sp ltac:(lia) ltac:(lia)
                     ltac:(rewrite length_rl_swap; lia)).
        destruct IH as (Hs & Hperm & Hl & Hout).
        -- rewrite rl_get_swap_l by lia. exact Hsp.
        -- intros i j Hi Hij Hj.
           rewrite !rl_get_swap_other by lia. apply Hpre; lia.
        -- intros i j Hi Hij Hj.
           destruct (Nat.eq_dec i (S p)) as [->|Hne].
           ++ rewrite rl_get_swap_r by lia.
              destruct (Nat.eq_dec j (S p)) as [->|Hne'].
              ** rewrite rl_get_swap_r by lia. lia.
              ** rewrite rl_get_swap_other by lia. apply Hcross; lia.
           ++ rewrite !rl_get_swap_other by lia. apply Hsuf; lia.
        -- intros j Hj Hj'.
           destruct (Nat.eq_dec j (S p)) as [->|Hne].
           ++ rewrite rl_get_swap_r by lia. exact Hless.
           ++ rewrite rl_get_swap_other by lia. apply Hgt; lia.
        -- intros i j Hi Hip Hj Hj'.
           rewrite (rl_get_swap_other arr p i) by lia.
           destruct (Nat.eq_dec j (S p)) as [->|Hne].
           ++ rewrite rl_get_swap_r by lia. apply Hpre; lia.
           ++ rewrite rl_get_swap_other by lia. apply Hcross; lia.
        -- split; [exact Hs|]. split.
           { rewrite Hperm. apply rl_swap_perm; lia. }
           split; [rewrite Hl; apply length_rl_swap|].
           intros i Hi. rewrite Hout by lia.
           apply rl_get_swap_other; lia.
      * split; [|auto]. intros i j Hi Hij Hj.
        destruct (Nat.lt_trichotomy j (S p)) as [Hjl|[->|Hjg]].
        -- apply Hpre; lia.
        -- destruct (Nat.eq_dec i (S p)) as [->|Hne]; [lia|].
           rewrite Hsp.
           assert (I_RL_SP (rl_get arr i) <= I_RL_SP (rl_get arr p))
             by (apply Hpre; lia).
           lia.
        -- destruct (Nat.lt_trichotomy i (S p)) as [Hil|[->|Hig]].
           ++ apply Hcross; lia.
           ++ rewrite Hsp. specialize (Hgt j). lia.
           ++ apply Hsuf; lia.
    + split; [|auto]. intros i j Hi Hij Hj.
      destruct (Nat.eq_dec i (S p)) as [->|Hi0].
      * destruct (Nat.eq_dec j (S p)) as [->|Hj0]; [lia|].
        rewrite Hsp. specialize (Hgt j). lia.
      * apply Hsuf; lia.
Qed.

Lemma sort_insert_spec (lo : nat) (n : nat) :
  forall (arr : list RL) (t : nat) (sp_max : Z),
  (lo < t)%nat -> (t + n <= length arr)%nat ->
  sorted_range arr lo t ->
  sp_max = I_RL_SP (rl_get arr (t - 1)) ->
  let r := sort_insert n arr lo t sp_max in
  sorted_range r lo (t + n) /\ r ≡ₚ arr /\ length r = length arr /\
  (forall i, (i < lo)%nat \/ (t + n <= i)%nat -> rl_get r i = rl_get arr i).
Proof.
  induction n as [|n IH]; intros arr t sp_max Ht Hlen Hsorted Hmax;
    cbn [sort_insert]; cbv zeta.
  - rewrite Nat.add_0_r. auto.
  - destruct t as [|p]; [lia|].
    replace (S p - 1)%nat with p in * by lia.
    destruct (Z.ltb_spec (I_RL_SP (rl_get arr (S p))) sp_max) as [Hless|Hnot].
    + pose proof (sort_sift_spec (S (S p)) lo p (rl_swap arr p (S p))
                    (I_RL_SP (rl_get arr (S p)))) as Hsift.
      destruct Hsift as (Hs & Hperm & Hl & Hout).
      * lia.
      * lia.
      * rewrite length_rl_swap. lia.
      * rewrite rl_get_swap_l by lia. reflexivity.
      * intros i j Hi Hij Hj. rewrite !rl_get_swap_other by lia.
        apply Hsorted; lia.
      * intros i j Hi Hij Hj. assert (i = j) by lia. subst. lia.
      * intros j Hj Hj'. assert (j = S p) by lia. subst.
        rewrite rl_get_swap_r by lia. lia.
      * intros i j Hi Hip Hj Hj'. assert (j = S p) by lia. subst.
        rewrite rl_get_swap_r by lia. rewrite rl_get_swap_other by lia.
        apply Hsorted; lia.
      * set (arr2 := sort_sift (rl_swap arr p (S p)) p lo
                       (I_RL_SP (rl_get arr (S p)))) in *.
        specialize (IH arr2 (S (S p)) sp_max).
        destruct IH as (Hs' & Hperm' & Hl' & Hout').
        -- lia.
        -- rewrite Hl, length_rl_swap. lia.
        -- exact Hs.
        -- replace (S (S p) - 1)%nat with (S p) by lia.
           rewrite Hout by lia. rewrite rl_get_swap_r by lia. exact Hmax.
        -- replace (S p + S n)%nat with (S (S p) + n)%nat by lia.
           split; [exact Hs'|]. split.
           { rewrite Hperm', Hperm. apply rl_swap_perm. lia. }
           split; [rewrite Hl', Hl; apply length_rl_swap|].
           intros i Hi. rewrite Hout' by lia. rewrite Hout by lia.
           apply rl_get_swap_other; lia.
    + specialize (IH arr (S (S p)) (I_RL_SP (rl_get arr (S p)))).
      destruct IH as (Hs' & Hperm' & Hl' & Hout').
      * lia.
      * lia.
      * intros i j Hi Hij Hj.
        destruct (Nat.eq_dec j (S p)) as [->|Hne]; [|apply Hsorted; lia].
        destruct (Nat.eq_dec i (S p)) as [->|Hne']; [lia|].
        assert (I_RL_SP (rl_get arr i) <= I_RL_SP (rl_get arr p))
          by (apply Hsorted; lia).
        lia.
      * replace (S (S p) - 1)%nat with (S p) by lia. reflexivity.
      * replace (S p + S n)%nat with (S (S p) + n)%nat by lia.
        split; [exact Hs'|]. split; [exact Hperm'|]. split; [exact Hl'|].
        intros i Hi. apply Hout'. lia.
Qed.
(** ** Filling the payload buffer *)

Lemma fill_cells_spec (n : nat) : forall (i : Z) (buf : list Z) (v j : Z),
  0 <= i ->
  peek (fill_cells n i buf v) j =
  if (i <=? j) && (j <? i + Z.of_nat n) && (j <? Z.of_nat (length buf))
  then store16 v else peek buf j.
Proof.
  induction n as [|n IH]; intros i buf v j Hi; cbn [fill_cells].
  - destruct (Z.leb_spec i j), (Z.ltb_spec j (i + Z.of_nat 0)); cbn [andb];
      try reflexivity; lia.
  - rewrite IH by lia. rewrite length_poke.
    destruct (Z.eq_dec j i) as [->|Hne].
    + destruct (Z.leb_spec (i + 1) i); [lia|]. cbn [andb].
      destruct (Z.leb_spec i i); [|lia].
      destruct (Z.ltb_spec i (i + Z.of_nat (S n))); [|lia]. cbn [andb].
      destruct (Z.ltb_spec i (Z.of_nat (length buf))).
      * apply peek_poke_same. lia.
      * unfold peek, poke. destruct (i <? 0); [reflexivity|].
        rewrite list_insert_ge by lia. reflexivity.
    + rewrite peek_poke_other by lia.
      destruct (Z.leb_spec (i + 1) j), (Z.leb_spec i j),
        (Z.ltb_spec j (i + 1 + Z.of_nat n)),
        (Z.ltb_spec j (i + Z.of_nat (S n))); cbn [andb];
        try reflexivity; lia.
Qed.

Lemma fill_cells_length (n : nat) : forall (i : Z) (buf : list Z) (v : Z),
  length (fill_cells n i buf v) = length buf.
Proof.
  induction n as [|n IH]; intros i buf v; cbn [fill_cells];
    [reflexivity|]. rewrite IH. apply length_poke.
Qed.

Lemma rasterize_to_buffer_no_rl (sr : ScanlineRasterizer) (buf0 buf1 : list Z)
    (buffer_type mask x_first y_first x_dim y_dim : Z) :
  num_rl sr <= 0 ->
  rasterize_to_buffer sr buf0 buf1 buffer_type mask x_first y_first x_dim
    y_dim = (sr, buf0, buf1).
Proof.
  intros Hn. unfold rasterize_to_buffer.
  replace (Z.to_nat (num_rl sr)) with 0%nat by lia.
  cbn. destruct sr; reflexivity.
Qed.

Lemma tr_with_rasterizer_eta (t : TransformedRasterizer) :
  tr_with_rasterizer t (rasterizer t) = t.
Proof. destruct t; reflexivity. Qed.
(** ** Wrapped degrees, again *)

Lemma velocity_hits_spec v n :
  -0x40000000 <= v < 0x40000000 -> -0x40000000 <= n < 0x40000000 ->
  velocity_hits_normal_wd v n = (90 <? Z.abs (v - n)) && (Z.abs (v - n) <? 270).
Proof.
  intros Hv Hn. unfold velocity_hits_normal_wd.
  rewrite (i32_small (v - n)) by lia.
  destruct (Z.ltb_spec (v - n) 0).
  - rewrite i32_small by lia. replace (0 - (v - n)) with (Z.abs (v - n)) by lia.
    reflexivity.
  - replace (Z.abs (v - n)) with (v - n) by lia. reflexivity.
Qed.
(** ** Screen translation *)

Lemma i32_range z : -0x80000000 <= i32 z < 0x80000000.
Proof.
  unfold i32. pose proof (Z.mod_pos_bound (z + 0x80000000) 0x100000000).
  lia.
Qed.

Lemma shiftr_10_range z :
  -0x80000000 <= z < 0x80000000 -> -0x200000 <= Z.shiftr z 10 < 0x200000.
Proof.
  intros H. rewrite Z.shiftr_div_pow2 by lia. change (2 ^ 10) with 1024.
  pose proof (Z.div_mod z 1024 ltac:(lia)).
  pose proof (Z.mod_pos_bound z 1024 ltac:(lia)). lia.
Qed.

Lemma world_to_screen_split (t : TransformedRasterizer) (xw yw : Z) :
  -0x100000 <= translate_screen_x t <= 0x100000 ->
  -0x100000 <= translate_screen_y t <= 0x100000 ->
  let '(rx, ry) := rotate_scale_f10 t xw yw in
  world_to_screen_f10 t xw yw =
    (rx + translate_screen_x t * 1024, ry + translate_screen_y t * 1024) /\
  -0x200000 <= rx < 0x200000 /\ -0x200000 <= ry < 0x200000.
Proof.
  intros Hx Hy. unfold rotate_scale_f10, world_to_screen_f10.
  cbn [scale_f10 cos_f10 sin_f10 translate_screen_x translate_screen_y
       tr_with_translate].
  set (x_f10 := Z.shiftr (i32 xw *! i32 (scale_f10 t) +! 0x200) 10).
  set (y_f10 := Z.shiftr (i32 yw *! i32 (scale_f10 t) +! 0x200) 10).
  set (x_f20 := x_f10 *! i32 (cos_f10 t) -! y_f10 *! i32 (sin_f10 t)).
  set (y_f20 := x_f10 *! i32 (sin_f10 t) +! y_f10 *! i32 (cos_f10 t)).
  pose proof (shiftr_10_range (x_f20 +! 0x200) (i32_range _)) as Hrx.
  pose proof (shiftr_10_range (y_f20 +! 0x200) (i32_range _)) as Hry.
  set (rx := Z.shiftr (x_f20 +! 0x200) 10) in *.
  set (ry := Z.shiftr (y_f20 +! 0x200) 10) in *.
  change (i32 0 <<! 10) with 0.
  rewrite (i32_small (rx + 0)), (i32_small (ry + 0)) by lia.
  rewrite (i32_small (translate_screen_x t)),
    (i32_small (translate_screen_y t)) by lia.
  rewrite !Z.shiftl_mul_pow2 by lia. change (2 ^ 10) with 1024.
  rewrite (i32_small (translate_screen_x t * 1024)),
    (i32_small (translate_screen_y t * 1024)) by lia.
  rewrite (i32_small (rx + translate_screen_x t * 1024)),
    (i32_small (ry + translate_screen_y t * 1024)) by lia.
  replace (rx + 0) with rx by lia. replace (ry + 0) with ry by lia.
  repeat split; lia.
Qed.

Lemma rotate_scale_translate (t : TransformedRasterizer) (x y xw yw : Z) :
  rotate_scale_f10 (tr_with_translate t x y) xw yw = rotate_scale_f10 t xw yw.
Proof. reflexivity. Qed.

Lemma rotate_scale_next_draw (t : TransformedRasterizer) (x y xw yw : Z) :
  rotate_scale_f10 (tr_with_next_draw t x y) xw yw = rotate_scale_f10 t xw yw.
Proof. reflexivity. Qed.

Lemma shiftr_10_add z k :
  Z.shiftr (z + k * 1024 + 0x200) 10 = Z.shiftr (z + 0x200) 10 + k.
Proof.
  rewrite !Z.shiftr_div_pow2 by lia. change (2 ^ 10) with 1024.
  replace (z + k * 1024 + 512) with (z + 512 + k * 1024) by lia.
  apply Z.div_add. lia.
Qed.
(** ** The hole *)

Lemma toward_spec (a h x : Z) :
  0 <= a <= 1024 -> -0x100000 <= h <= 0x100000 -> -0x100000 <= x <= 0x100000 ->
  let x' := Z.shiftr (a *! h +! (1024 -! a) *! x +! 0x200) 10 in
  Z.min x h <= x' <= Z.max x h.
Proof.
  intros Ha Hh Hx. cbv zeta.
  rewrite (i32_small (1024 - a)) by lia.
  rewrite (i32_small (a * h)) by nia.
  rewrite (i32_small ((1024 - a) * x)) by nia.
  rewrite (i32_small (a * h + (1024 - a) * x)) by nia.
  rewrite (i32_small (a * h + (1024 - a) * x + 512)) by nia.
  rewrite Z.shiftr_div_pow2 by lia. change (2 ^ 10) with 1024.
  pose proof (Z.div_mod (a * h + (1024 - a) * x + 512) 1024 ltac:(lia)) as Hq.
  pose proof (Z.mod_pos_bound (a * h + (1024 - a) * x + 512) 1024 ltac:(lia))
    as Hr.
  set (q := (a * h + (1024 - a) * x + 512) / 1024) in *.
  set (r := (a * h + (1024 - a) * x + 512) mod 1024) in *.
  destruct (Z.le_ge_cases x h).
  - rewrite Z.min_l, Z.max_r by lia. nia.
  - rewrite Z.min_r, Z.max_l by lia. nia.
Qed.
(** ** What a timestep keeps of the ball *)

Lemma ball_kept_refl b : ball_kept b b.
Proof. unfold ball_kept. tauto. Qed.

Lemma ball_kept_trans b1 b2 b3 :
  ball_kept b1 b2 -> ball_kept b2 b3 -> ball_kept b1 b3.
Proof.
  unfold ball_kept. intros (A1 & A2 & A3 & A4 & A5) (B1 & B2 & B3 & B4 & B5).
  repeat split; try congruence; apply B5, A5; assumption.
Qed.

Lemma wd_init_range a : 0 <= wd_init a < 360.
Proof. unfold wd_init. apply Z.mod_pos_bound. lia. Qed.

Lemma keeps_ball_ret {A} (a : A) : keeps_ball (ret a).
Proof. intros b c. apply ball_kept_refl. Qed.

Lemma keeps_ball_raise {A} (e : exn) : keeps_ball (raise (A := A) e).
Proof. intros b c. apply ball_kept_refl. Qed.

Lemma keeps_ball_get : keeps_ball get.
Proof. intros b c. apply ball_kept_refl. Qed.

Lemma keeps_ball_bind {A B} (m : M BallState A) (k : A -> M BallState B) :
  keeps_ball m -> (forall a, keeps_ball (k a)) -> keeps_ball (bind m k).
Proof.
  intros Hm Hk b c. unfold bind. specialize (Hm b c).
  destruct (m b c) as [a b1 c1|e b1 c1]; cbn [state_of] in *.
  - eapply ball_kept_trans; [exact Hm | apply Hk].
  - exact Hm.
Qed.

Lemma keeps_ball_modify (f : BallState -> BallState) :
  (forall b, ball_kept b (f b)) -> keeps_ball (modify f).
Proof. intros Hf b c. apply Hf. Qed.

Lemma kept_set_location b x y : ball_kept b (_set_location_f10 b x y).
Proof. unfold ball_kept. cbn. tauto. Qed.
Lemma kept_set_contact b x y : ball_kept b (_set_maybe_i_chunk_contact b x y).
Proof. unfold ball_kept. cbn. tauto. Qed.
Lemma kept_set_hole_status b x y : ball_kept b (_set_hole_status b x y).
Proof. unfold ball_kept. cbn. tauto. Qed.
Lemma kept_set_velocity b a v : ball_kept b (_set_velocity_wd_f20 b a v).
Proof.
  unfold ball_kept. cbn. do 4 (split; [reflexivity|]).
  intros _. apply wd_init_range.
Qed.
Lemma kept_reset_is_stopped b : ball_kept b (_reset_is_stopped b).
Proof. unfold ball_kept. cbn. tauto. Qed.
Lemma kept_set_mask_layer b m : ball_kept b (set_mask_layer b m).
Proof. unfold ball_kept. cbn. tauto. Qed.
Lemma kept_set_on_sand b m : ball_kept b (_set_on_sand b m).
Proof. unfold ball_kept. cbn. tauto. Qed.
Lemma kept_set_water_status b m : ball_kept b (_set_water_status b m).
Proof. unfold ball_kept. cbn. tauto. Qed.
Lemma kept_set_velocity_vector `{FloatMath} b x y :
  ball_kept b (_set_velocity_vector_f10 b x y).
Proof.
  unfold _set_velocity_vector_f10.
  destruct (_ && _); apply kept_set_velocity.
Qed.
Lemma kept_set_stopped_tracking b s m x y :
  ball_kept b (set_stopped_tracking b s m x y).
Proof. unfold ball_kept. cbn. tauto. Qed.

Create HintDb kept.
#[local] Hint Resolve ball_kept_refl kept_set_location kept_set_contact
  kept_set_hole_status kept_set_velocity kept_reset_is_stopped
  kept_set_mask_layer kept_set_on_sand kept_set_water_status
  kept_set_velocity_vector kept_set_stopped_tracking : kept.

Ltac kept_unfolded :=
  unfold ball_kept; cbn;
  do 4 (split; [reflexivity|]);
  first [ tauto | intros _; apply wd_init_range ].

Lemma keeps_ball_if {A} (x : bool) (m1 m2 : M BallState A) :
  keeps_ball m1 -> keeps_ball m2 -> keeps_ball (if x then m1 else m2).
Proof. destruct x; auto. Qed.

Ltac keeps_ball_step :=
  match goal with
  | |- keeps_ball (ret _) => apply keeps_ball_ret
  | |- keeps_ball (raise _) => apply keeps_ball_raise
  | |- keeps_ball get => apply keeps_ball_get
  | |- keeps_ball (modify _) =>
      apply keeps_ball_modify; intros;
      first [ solve [auto with kept] | kept_unfolded ]
  | |- keeps_ball (bind _ _) => apply keeps_ball_bind; [|intros]
  | |- keeps_ball (if _ then _ else _) => apply keeps_ball_if
  end.

Lemma hole_line_interaction_keeps `{FloatMath} (delta_ms xw yw xh yh va vw hr
    wr : Z) (ih : bool) :
  keeps_ball (hole_line_interaction delta_ms xw yw xh yh va vw hr wr ih).
Proof.
  unfold hole_line_interaction. cbv zeta. repeat keeps_ball_step.
Qed.

Lemma hole_interaction_keeps `{FloatMath} (delta_ms : Z) :
  keeps_ball (_maybe_advance_to_hole_interaction delta_ms).
Proof.
  unfold _maybe_advance_to_hole_interaction.
  apply keeps_ball_bind; [apply keeps_ball_get|]. intros b.
  lazy zeta.
  repeat first
    [ keeps_ball_step
    | match goal with
      | |- keeps_ball (hole_line_interaction _ _ _ _ _ _ _ _ _ _) =>
          apply hole_line_interaction_keeps
      end ].
Qed.

Lemma apply_scan_keeps `{FloatMath} (delta_ms delta_w xw yw va vw : Z)
    (ct : contact) (k : collide) :
  keeps_ball (apply_scan delta_ms delta_w xw yw va vw ct k).
Proof.
  unfold apply_scan. cbv zeta. repeat keeps_ball_step.
Qed.

Lemma kept_resolve_collision (n : list Z) b :
  ball_kept b (_maybe_resolve_collision n b).
Proof.
  unfold _maybe_resolve_collision. cbv zeta.
  repeat match goal with
  | |- ball_kept _ (if ?x then _ else _) => destruct x
  end; auto with kept.
Qed.

Lemma kept_update_stopped (delta_ms : Z) b :
  ball_kept b (_update_stopped_tracking delta_ms b).
Proof.
  unfold _update_stopped_tracking. cbv zeta.
  match goal with
  | |- ball_kept _ (if ?x then _ else _) => destruct x
  end; auto with kept.
Qed.

Lemma keeps_of_ret {A} (a : A) : keeps_ball_of (ret a).
Proof. intros s c. apply ball_kept_refl. Qed.

Lemma keeps_of_get : keeps_ball_of get.
Proof. intros s c. apply ball_kept_refl. Qed.

Lemma keeps_of_bind {A B} (m : M AdvanceState A) (k : A -> M AdvanceState B) :
  keeps_ball_of m -> (forall a, keeps_ball_of (k a)) ->
  keeps_ball_of (bind m k).
Proof.
  intros Hm Hk s c. unfold bind. specialize (Hm s c).
  destruct (m s c) as [a s1 c1|e s1 c1]; cbn [state_of] in *.
  - eapply ball_kept_trans; [exact Hm | apply Hk].
  - exact Hm.
Qed.

Lemma keeps_of_if {A} (x : bool) (m1 m2 : M AdvanceState A) :
  keeps_ball_of m1 -> keeps_ball_of m2 -> keeps_ball_of (if x then m1 else m2).
Proof. destruct x; auto. Qed.

Lemma keeps_of_on_ball {A} (m : M BallState A) :
  keeps_ball m -> keeps_ball_of (on_ball m).
Proof.
  intros Hm s c. unfold on_ball, focus. specialize (Hm (ball s) c).
  destruct (m (ball s) c); exact Hm.
Qed.

Lemma keeps_of_on_rasterizer_collision {A} (m : M TransformedRasterizer A) :
  keeps_ball_of (on_rasterizer_collision m).
Proof.
  intros s c. unfold on_rasterizer_collision, focus.
  destruct (m _ c); apply ball_kept_refl.
Qed.

Lemma keeps_of_on_payload_buffer {A} (m : M PayloadBuffer A) :
  keeps_ball_of (on_payload_buffer m).
Proof.
  intros s c. unfold on_payload_buffer, focus.
  destruct (m _ c); apply ball_kept_refl.
Qed.

Lemma keeps_of_on_rasterizer_and_buffer {A}
    (m : M (TransformedRasterizer * PayloadBuffer) A) :
  keeps_ball_of (on_rasterizer_and_buffer m).
Proof.
  intros s c. unfold on_rasterizer_and_buffer, focus.
  destruct (m _ c); apply ball_kept_refl.
Qed.

Ltac keeps_of_step :=
  match goal with
  | |- keeps_ball_of (ret _) => apply keeps_of_ret
  | |- keeps_ball_of get => apply keeps_of_get
  | |- keeps_ball_of (bind _ _) => apply keeps_of_bind; [|intros]
  | |- keeps_ball_of (if _ then _ else _) => apply keeps_of_if
  | |- keeps_ball_of (on_rasterizer_collision _) =>
      apply keeps_of_on_rasterizer_collision
  | |- keeps_ball_of (on_payload_buffer _) => apply keeps_of_on_payload_buffer
  | |- keeps_ball_of (on_rasterizer_and_buffer _) =>
      apply keeps_of_on_rasterizer_and_buffer
  | |- keeps_ball_of (on_ball _) => apply keeps_of_on_ball
  end.

Lemma advance_to_collision_keeps `{FloatMath} (delta_ms : Z) (n : list Z) :
  keeps_ball_of (_advance_to_collision_axis_aligned delta_ms n).
Proof.
  unfold _advance_to_collision_axis_aligned.
  apply keeps_of_bind; [apply keeps_of_get|]. intros s. lazy zeta.
  repeat keeps_of_step.
  destruct (scan_rows _ _ _ _ _ _ _ _) as [ct k].
  keeps_of_step. apply apply_scan_keeps.
Qed.

Lemma advance_keeps `{FloatMath} (delta_ms : Z) (n : list Z) :
  keeps_ball_of (advance delta_ms n).
Proof.
  unfold advance. repeat keeps_of_step.
  - apply hole_interaction_keeps.
  - apply advance_to_collision_keeps.
  - apply keeps_ball_modify, kept_resolve_collision.
  - apply keeps_ball_modify, kept_update_stopped.
Qed.

Lemma advance_frames_keeps `{FloatMath} (frames : list Z) (n : list Z) :
  keeps_ball_of (advance_frames frames n).
Proof.
  induction frames as [|d frames IH]; cbn [advance_frames foldr].
  - apply keeps_of_ret.
  - apply keeps_of_bind; [apply advance_keeps | intros _; exact IH].
Qed.
(** ** Adding a loop to the chunk array *)

Lemma py_index_in (len i : Z) :
  0 <= i < len -> py_index len i = Some (Z.to_nat i).
Proof.
  intros H. unfold py_index.
  destruct (Z.leb_spec 0 i); [|lia]. destruct (Z.ltb_spec i len); [|lia].
  reflexivity.
Qed.

Lemma acd_load_ok (cd : ChunkData) (c : list string) (i : Z) :
  0 <= i < Z.of_nat (length (arr_chunk_data cd)) ->
  acd_load i cd c = Returns (fld cd i) cd c.
Proof.
  intros H. unfold acd_load, bind, get. rewrite py_index_in by exact H.
  reflexivity.
Qed.

Lemma acd_store_ok (cd : ChunkData) (c : list string) (i v : Z) :
  0 <= i < Z.of_nat (length (arr_chunk_data cd)) -> fits_h v ->
  acd_store i v cd c =
  Returns tt (cd_with_arr cd (<[Z.to_nat i := v]> (arr_chunk_data cd))) c.
Proof.
  intros H [Hlo Hhi]. unfold acd_store, bind, get.
  rewrite py_index_in by exact H.
  destruct (Z.ltb_spec v (-32768)); [lia|].
  destruct (Z.ltb_spec 32767 v); [lia|]. reflexivity.
Qed.

Lemma fld_store (cd : ChunkData) (j v i : Z) :
  0 <= j < Z.of_nat (length (arr_chunk_data cd)) -> 0 <= i ->
  fld (cd_with_arr cd (<[Z.to_nat j := v]> (arr_chunk_data cd))) i =
  if i =? j then v else fld cd i.
Proof.
  intros Hj Hi. unfold fld. cbn.
  destruct (Z.eqb_spec i j) as [->|Hne].
  - rewrite list_lookup_insert_eq by lia. reflexivity.
  - rewrite list_lookup_insert_ne by lia. reflexivity.
Qed.

(** What [_get_i_acd_next_chunk] leaves when there is room. *)
Lemma get_i_acd_next_chunk_ok (cd : ChunkData) (c : list string) :
  length (arr_chunk_data cd) = 768%nat ->
  0 <= num_chunks cd < 192 ->
  fits_h (Z.shiftr (i_acd_last_loop cd) 2) ->
  exists cd',
    _get_i_acd_next_chunk cd c = Returns (4 * num_chunks cd - 4) cd' c /\
    length (arr_chunk_data cd') = 768%nat /\
    num_chunks cd' = num_chunks cd + 1 /\
    i_acd_last_loop cd' = i_acd_last_loop cd /\
    (forall i, 0 <= i ->
       fld cd' i =
       if i =? 4 * num_chunks cd + 3 then Z.shiftr (i_acd_last_loop cd) 2
       else if i =? 4 * num_chunks cd + 2 then 0
       else if i =? 4 * num_chunks cd + 1 then 8
       else if i =? 4 * num_chunks cd then 1
       else fld cd i).
Proof.
  intros Hlen Hn Hfit.
  unfold _get_i_acd_next_chunk, bind at 1, get.
  destruct (Z.leb_spec MAX_NUM_CHUNKS (num_chunks cd));
    [unfold MAX_NUM_CHUNKS in *; lia|].
  rewrite Z.shiftl_mul_pow2 by lia. change (2 ^ 2) with 4.
  unfold I_CHUNK_IF_LOOP_MASK_TRIGGER_LAYER, I_CHUNK_LOOP_REGION_FILL,
    I_CHUNK_LOOP_NUM_EDGES, I_CHUNK_LOOP_LAST_LOOP, I_CHUNK_NUM_FIELDS,
    RL_REGION_UNUSED, RL_NUM_REGIONS.
  unfold bind at 1, cd_set_num_chunks at 1, bind at 1, get, put.
  set (cd0 := cd_with_num_chunks cd (num_chunks cd + 1)).
  assert (L0 : length (arr_chunk_data cd0) = 768%nat) by exact Hlen.
  unfold bind at 1. rewrite acd_store_ok by (unfold fits_h; lia).
  set (cd1 := cd_with_arr cd0 _).
  assert (L1 : length (arr_chunk_data cd1) = 768%nat)
    by (subst cd1; cbn; rewrite length_insert; exact L0).
  unfold bind at 1. rewrite acd_store_ok by (unfold fits_h; lia).
  set (cd2 := cd_with_arr cd1 _).
  assert (L2 : length (arr_chunk_data cd2) = 768%nat)
    by (subst cd2; cbn; rewrite length_insert; exact L1).
  unfold bind at 1. rewrite acd_store_ok by (unfold fits_h; lia).
  set (cd3 := cd_with_arr cd2 _).
  assert (L3 : length (arr_chunk_data cd3) = 768%nat)
    by (subst cd3; cbn; rewrite length_insert; exact L2).
  unfold bind at 1. rewrite acd_store_ok by (exact Hfit || lia).
  set (cd4 := cd_with_arr cd3 _).
  exists cd4. split; [unfold ret; f_equal; lia|].
  split; [subst cd4; cbn; rewrite length_insert; exact L3|].
  split; [reflexivity|]. split; [reflexivity|].
  intros i Hi. subst cd4.
  rewrite fld_store by lia.
  replace (num_chunks cd * 4 + 3) with (4 * num_chunks cd + 3) by lia.
  destruct (Z.eqb_spec i (4 * num_chunks cd + 3)); [reflexivity|].
  subst cd3. rewrite fld_store by lia.
  replace (num_chunks cd * 4 + 2) with (4 * num_chunks cd + 2) by lia.
  destruct (Z.eqb_spec i (4 * num_chunks cd + 2)); [reflexivity|].
  subst cd2. rewrite fld_store by lia.
  replace (num_chunks cd * 4 + 1) with (4 * num_chunks cd + 1) by lia.
  destruct (Z.eqb_spec i (4 * num_chunks cd + 1)); [reflexivity|].
  subst cd1. rewrite fld_store by lia.
  replace (num_chunks cd * 4 + 0) with (4 * num_chunks cd) by lia.
  destruct (Z.eqb_spec i (4 * num_chunks cd)); reflexivity.
Qed.

Lemma acd_store_spec (cd : ChunkData) (c : list string) (i v : Z) :
  0 <= i < Z.of_nat (length (arr_chunk_data cd)) -> fits_h v ->
  exists cd',
    acd_store i v cd c = Returns tt cd' c /\
    length (arr_chunk_data cd') = length (arr_chunk_data cd) /\
    num_chunks cd' = num_chunks cd /\
    i_acd_last_loop cd' = i_acd_last_loop cd /\
    (forall k, 0 <= k -> fld cd' k = if k =? i then v else fld cd k).
Proof.
  intros Hi Hv. eexists. split; [apply acd_store_ok; assumption|].
  split; [cbn; apply length_insert|]. split; [reflexivity|].
  split; [reflexivity|]. intros k Hk. apply fld_store; assumption.
Qed.

Ltac store_step H :=
  match goal with
  | |- context [acd_store ?i ?v ?cd ?c] =>
      let cd' := fresh "cd" in
      let E := fresh "E" in
      let Hl := fresh "Hl" in
      let Hn := fresh "Hn" in
      let Hll := fresh "Hll" in
      destruct (acd_store_spec cd c i v) as (cd' & E & Hl & Hn & Hll & H);
      [ | | rewrite E; clear E ]
  end.

Lemma shiftr_2_chunk (n : Z) : Z.shiftr (4 * (n - 1)) 2 = n - 1.
Proof.
  rewrite Z.shiftr_div_pow2 by lia. change (2 ^ 2) with 4.
  rewrite Z.mul_comm. apply Z.div_mul. lia.
Qed.

Lemma lor_masks (mask_trigger mask_layer : Z) :
  1 <= mask_layer <= 15 -> 0 <= mask_trigger <= 15 ->
  fits_h (Z.lor (Z.shiftl mask_trigger 8) mask_layer) /\
  Z.lor (Z.shiftl mask_trigger 8) mask_layer <> 0.
Proof.
  intros Hl Ht.
  assert (Hs : Z.shiftl mask_trigger 8 = mask_trigger * 256)
    by (rewrite Z.shiftl_mul_pow2 by lia; reflexivity).
  pose proof (Z.add_lor_land (Z.shiftl mask_trigger 8) mask_layer) as Hadd.
  assert (0 <= Z.land (Z.shiftl mask_trigger 8) mask_layer)
    by (apply Z.land_nonneg; lia).
  assert (0 <= Z.lor (Z.shiftl mask_trigger 8) mask_layer)
    by (apply Z.lor_nonneg; lia).
  split; [unfold fits_h; lia|].
  intros Hz. apply Z.lor_eq_0_iff in Hz. lia.
Qed.

Lemma add_loop_opens (cd : ChunkData) (c : list string)
    (region_fill mask_layer mask_trigger offset_x offset_y : Z) :
  cd_terminated cd -> num_chunks cd <= 191 ->
  1 <= mask_layer <= 15 -> 0 <= mask_trigger <= 15 -> fits_h region_fill ->
  exists cd',
    add_loop region_fill mask_layer mask_trigger cd c = Returns tt cd' c /\
    loop_open cd' (num_chunks cd) [] offset_x offset_y /\
    fld cd' (4 * (num_chunks cd - 1) + 1) = region_fill /\
    (forall i, 0 <= i < 4 * (num_chunks cd - 1) -> fld cd' i = fld cd i).
Proof.
  intros (Hlen & Hn & Hlast & Hcount) Hroom Hl Ht Hrf.
  unfold I_CHUNK_LOOP_NUM_EDGES in Hcount.
  destruct (lor_masks mask_trigger mask_layer Hl Ht) as [Hfit Hne].
  unfold add_loop.
  destruct (Z.leb_spec mask_layer 0); [lia|].
  destruct (Z.ltb_spec mask_trigger 0); [lia|].
  destruct (Z.ltb_spec 15 mask_layer); [lia|].
  destruct (Z.ltb_spec 15 mask_trigger); [lia|].
  cbn [orb]. unfold bind at 1.
  destruct (get_i_acd_next_chunk_ok cd c Hlen ltac:(lia)) as
    (cd1 & E1 & L1 & N1 & A1 & F1).
  { rewrite Z.shiftr_div_pow2 by lia. change (2 ^ 2) with 4.
    unfold fits_h.
    pose proof (Z.div_mod (i_acd_last_loop cd) 4 ltac:(lia)).
    pose proof (Z.mod_pos_bound (i_acd_last_loop cd) 4 ltac:(lia)). lia. }
  rewrite E1.
  unfold I_CHUNK_IF_LOOP_MASK_TRIGGER_LAYER, I_CHUNK_LOOP_REGION_FILL.
  unfold bind at 1. store_step F2; [lia | exact Hfit |].
  unfold bind at 1. store_step F3; [lia | exact Hrf |].
  unfold cd_set_i_acd_last_loop, bind, get, put.
  eexists. split; [reflexivity|].
  set (n := num_chunks cd) in *.
  assert (G : forall k, 0 <= k ->
            fld (cd_with_last_loop cd2 (4 * n - 4)) k = fld cd2 k)
    by reflexivity.
  split.
  - unfold loop_open. cbn [length Z.of_nat].
    split; [cbn; lia|]. split; [cbn; lia|]. split; [cbn; lia|].
    rewrite !G, !F3, !F2, !F1 by lia.
    split.
    { destruct (Z.eqb_spec (4 * (n - 1)) (4 * n - 4 + 1)); [lia|].
      destruct (Z.eqb_spec (4 * (n - 1)) (4 * n - 4 + 0)); [exact Hne|lia]. }
    split.
    { repeat match goal with
             | |- context [Z.eqb ?a ?b] => destruct (Z.eqb_spec a b); try lia
             end. }
    split; [intros i x y Hi; rewrite lookup_nil in Hi; discriminate|].
    split; [|split; [|lia]].
    all: repeat match goal with
           | |- context [Z.eqb ?a ?b] => destruct (Z.eqb_spec a b); try lia
           end.
  - split.
    + rewrite G, F3 by lia.
      destruct (Z.eqb_spec (4 * (n - 1) + 1) (4 * n - 4 + 1)); [reflexivity|lia].
    + intros i Hi. rewrite G, F3, F2, F1 by lia.
      repeat match goal with
             | |- context [Z.eqb ?a ?b] => destruct (Z.eqb_spec a b); try lia
             end.
Qed.

Ltac eqb_cases :=
  repeat match goal with
         | |- context [Z.eqb ?a ?b] => destruct (Z.eqb_spec a b); try lia
         end.

Lemma loop_add_edge_extends (cd : ChunkData) (c : list string)
    (n : Z) (vs : list (Z * Z)) (x y region_line offset_x offset_y : Z) :
  loop_open cd n vs offset_x offset_y ->
  1 <= n -> n + 1 + Z.of_nat (length vs) <= 191 ->
  fits_h (x + offset_x) -> fits_h (y + offset_y) -> fits_h region_line ->
  exists cd',
    loop_add_edge x y region_line offset_x offset_y cd c = Returns tt cd' c /\
    loop_open cd' n (vs ++ [(x, y)]) offset_x offset_y /\
    fld cd' (4 * (n - 1) + 1) = fld cd (4 * (n - 1) + 1) /\
    (forall i, 0 <= i < 4 * (n - 1) -> fld cd' i = fld cd i).
Proof.
  intros (Hlen & Hnum & Hlast & Hhead & Hcount & Hedges & Hterm & Hzero
          & Hback)
    Hn Hroom Hx Hy Hrl.
  set (j := Z.of_nat (length vs)) in *.
  unfold loop_add_edge, bind at 1.
  destruct (get_i_acd_next_chunk_ok cd c Hlen ltac:(lia)) as
    (cd1 & E1 & L1 & N1 & A1 & F1).
  { rewrite Hlast, shiftr_2_chunk. unfold fits_h. lia. }
  rewrite E1. rewrite Hlast, shiftr_2_chunk in F1. rewrite Hnum in F1.
  unfold bind at 1, get.
  unfold I_CHUNK_LOOP_NUM_EDGES, I_CHUNK_IF_LOOP_MASK_TRIGGER_LAYER,
    I_CHUNK_EDGE_X_B, I_CHUNK_EDGE_Y_B, I_CHUNK_EDGE_REGION_LINE.
  rewrite A1, Hlast, Hnum.
  unfold bind at 1. rewrite acd_load_ok by lia.
  assert (C1 : fld cd1 (4 * (n - 1) + 2) = j).
  { rewrite F1 by lia. eqb_cases. }
  rewrite C1.
  unfold bind at 1. store_step F2; [lia | unfold fits_h; lia |].
  unfold bind at 1. store_step F3; [lia | unfold fits_h; lia |].
  unfold bind at 1. store_step F4; [lia | exact Hx |].
  unfold bind at 1. store_step F5; [lia | exact Hy |].
  store_step F6; [lia | exact Hrl |].
  exists cd5. split; [reflexivity|].
  assert (F : forall k, 0 <= k ->
            fld cd5 k =
            if k =? 4 * (n + 1 + j) - 4 + 3 then region_line
            else if k =? 4 * (n + 1 + j) - 4 + 2 then y + offset_y
            else if k =? 4 * (n + 1 + j) - 4 + 1 then x + offset_x
            else if k =? 4 * (n + 1 + j) - 4 + 0 then 0
            else if k =? 4 * (n - 1) + 2 then j + 1
            else if k =? 4 * (n + 1 + j) + 3 then n - 1
            else if k =? 4 * (n + 1 + j) + 2 then 0
            else if k =? 4 * (n + 1 + j) + 1 then 8
            else if k =? 4 * (n + 1 + j) then 1
            else fld cd k).
  { intros k Hk. rewrite F6, F5, F4, F3, F2, F1 by lia. reflexivity. }
  clear F1 F2 F3 F4 F5 F6.
  split.
  - unfold loop_open. rewrite length_app. cbn [length].
    replace (Z.of_nat (length vs + 1)) with (j + 1) by lia.
    split; [lia|]. split; [lia|]. split; [lia|].
    split; [rewrite F by lia; eqb_cases; exact Hhead|].
    split; [rewrite F by lia; eqb_cases|].
    split.
    { intros i x' y' Hi.
      destruct (Nat.lt_ge_cases i (length vs)) as [Hlt|Hge].
      - rewrite lookup_app_l in Hi by exact Hlt.
        destruct (Hedges i x' y' Hi) as (G0 & G1 & G2).
        rewrite !F by lia. repeat split; eqb_cases; assumption.
      - rewrite lookup_app_r in Hi by exact Hge.
        destruct (i - length vs)%nat as [|d] eqn:Hd; [|destruct d; discriminate].
        injection Hi as <- <-.
        assert (Z.of_nat i = j) by lia.
        rewrite !F by lia. repeat split; eqb_cases. }
    split; [rewrite F by lia; eqb_cases|].
    split; [rewrite F by lia; eqb_cases|].
    intros _. rewrite F by lia. eqb_cases.
  - split.
    + rewrite F by lia. eqb_cases.
    + intros i Hi. rewrite F by lia. eqb_cases.
Qed.

Lemma vertices_lookup : forall (k : nat) (xy : list Z) (x y : Z),
  vertices xy !! k = Some (x, y) ->
  xy !! (2 * k)%nat = Some x /\ xy !! (2 * k + 1)%nat = Some y.
Proof.
  induction k as [|k IH]; intros [|x0 [|y0 r]] x y H; cbn in H;
    try discriminate.
  - injection H as <- <-. split; reflexivity.
  - replace (2 * S k)%nat with (S (S (2 * k))) by lia.
    replace (S (S (2 * k)) + 1)%nat with (S (S (2 * k + 1))) by lia.
    cbn. apply IH. exact H.
Qed.

Lemma vertices_length_le (n : nat) : forall xy : list Z,
  (length xy <= n)%nat -> length (vertices xy) = Nat.div2 (length xy).
Proof.
  induction n as [|n IH]; intros [|x [|y r]] H; cbn in *; try reflexivity;
    try lia.
  f_equal. apply IH. lia.
Qed.

Lemma batch_count (xy : list Z) :
  Z.of_nat (length xy) mod 2 = 0 ->
  Z.to_nat ((Z.of_nat (length xy) + 1) / 2) = length (vertices xy).
Proof.
  intros Hev. rewrite (vertices_length_le (length xy)) by lia.
  rewrite Nat.div2_div.
  pose proof (Z.div_mod (Z.of_nat (length xy)) 2 ltac:(lia)) as D.
  rewrite Hev in D.
  set (q := Z.of_nat (length xy) / 2) in *.
  assert (Hq : (Z.of_nat (length xy) + 1) / 2 = q).
  { symmetry. apply (Z.div_unique _ 2 q 1); lia. }
  rewrite Hq.
  apply Nat2Z.inj. rewrite Nat2Z.inj_div. fold q. cbn.
  assert (0 <= q) by lia. lia.
Qed.

Lemma list_item_ok (l : list Z) (i : nat) (v : Z) (cd : ChunkData)
    (c : list string) :
  l !! i = Some v -> list_item l (Z.of_nat i) cd c = Returns v cd c.
Proof.
  intros H. unfold list_item.
  pose proof (lookup_lt_Some _ _ _ H) as Hlt.
  rewrite py_index_in by lia. rewrite Nat2Z.id, H. reflexivity.
Qed.

Lemma batch_fold (xy : list Z) (region_line offset_x offset_y n : Z) :
  1 <= n -> fits_h region_line ->
  Forall (fun p => fits_h (p.1 + offset_x) /\ fits_h (p.2 + offset_y))
    (vertices xy) ->
  forall (cnt a : nat) (cd : ChunkData) (c : list string),
  loop_open cd n (take a (vertices xy)) offset_x offset_y ->
  (a + cnt <= length (vertices xy))%nat ->
  n + Z.of_nat (a + cnt) <= 191 ->
  exists cd',
    foldr
      (fun i rest =>
         x <- list_item xy i ;;
         y <- list_item xy (i + 1) ;;
         loop_add_edge x y region_line offset_x offset_y ;;;
         rest)
      (ret tt) (map (fun k : nat => 2 * Z.of_nat k) (seq a cnt)) cd c =
    Returns tt cd' c /\
    loop_open cd' n (take (a + cnt) (vertices xy)) offset_x offset_y /\
    fld cd' (4 * (n - 1) + 1) = fld cd (4 * (n - 1) + 1) /\
    (forall i, 0 <= i < 4 * (n - 1) -> fld cd' i = fld cd i).
Proof.
  intros Hn Hrl Hfit. induction cnt as [|cnt IH]; intros a cd c Hopen Hlen Hroom.
  - exists cd. rewrite Nat.add_0_r. cbn. auto.
  - cbn [seq map foldr].
    destruct (lookup_lt_is_Some_2 (vertices xy) a ltac:(lia)) as [[x y] Hv].
    destruct (vertices_lookup _ _ _ _ Hv) as [Hx Hy].
    pose proof (proj1 (Forall_lookup _ _) Hfit a (x, y) Hv) as [Fx Fy].
    cbn in Fx, Fy.
    unfold bind at 1.
    replace (2 * Z.of_nat a) with (Z.of_nat (2 * a)) by lia.
    rewrite (list_item_ok xy _ x) by exact Hx.
    unfold bind at 1.
    replace (Z.of_nat (2 * a) + 1) with (Z.of_nat (2 * a + 1)) by lia.
    rewrite (list_item_ok xy _ y) by exact Hy.
    assert (La : length (take a (vertices xy)) = a)
      by (rewrite length_take; lia).
    destruct (loop_add_edge_extends cd c n (take a (vertices xy)) x y
                region_line offset_x offset_y Hopen Hn ltac:(lia) Fx Fy Hrl)
      as (cd1 & E1 & O1 & R1 & K1).
    unfold bind at 1. rewrite E1.
    rewrite <- (take_S_r _ _ _ Hv) in O1.
    destruct (IH (S a) cd1 c O1 ltac:(lia) ltac:(lia))
      as (cd2 & E2 & O2 & R2 & K2).
    exists cd2. split; [exact E2|].
    split; [replace (a + S cnt)%nat with (S a + cnt)%nat by lia; exact O2|].
    split; [congruence|].
    intros i Hi. rewrite K2, K1 by lia. reflexivity.
Qed.

Lemma shl_shr_16_id (v : Z) : shl_shr_16 v = v.
Proof.
  unfold shl_shr_16. rewrite Z.shiftr_shiftl_l by lia. apply Z.shiftl_0_r.
Qed.

Lemma shiftl_2_chunk (i : Z) : Z.shiftl i 2 = 4 * i.
Proof. rewrite Z.shiftl_mul_pow2 by lia. change (2 ^ 2) with 4. lia. Qed.

Lemma open_chunk_is_loop (cd : ChunkData) (c : list string) (n : Z)
    (vs : list (Z * Z)) (offset_x offset_y : Z) :
  loop_open cd n vs offset_x offset_y -> 1 <= n ->
  n + Z.of_nat (length vs) <= 191 ->
  chunk_is_loop (n - 1) cd c = Returns true cd c.
Proof.
  intros (Hlen & Hnum & Hlast & Hhead & _) Hn Hroom.
  unfold chunk_is_loop, bind at 1, get.
  destruct (Z.leb_spec (num_chunks cd) (n - 1)); [lia|].
  rewrite shiftl_2_chunk. unfold I_CHUNK_IF_LOOP_MASK_TRIGGER_LAYER.
  unfold bind. rewrite acd_load_ok by lia.
  rewrite Z.add_0_r. unfold ret, truthy.
  destruct (Z.eqb_spec (fld cd (4 * (n - 1))) 0); [contradiction|reflexivity].
Qed.

Lemma open_edge_endpoints (cd : ChunkData) (c : list string) (n : Z)
    (vs : list (Z * Z)) (offset_x offset_y : Z) (k : nat)
    (x y x' y' : Z) :
  loop_open cd n vs offset_x offset_y -> 1 <= n ->
  n + Z.of_nat (length vs) <= 191 ->
  vs !! k = Some (x, y) ->
  vs !! ((k + 1) mod length vs)%nat = Some (x', y') ->
  chunk_edge_get_endpoints (n + Z.of_nat k) cd c =
  Returns (x + offset_x, y + offset_y, x' + offset_x, y' + offset_y) cd c.
Proof.
  intros (Hlen & Hnum & Hlast & Hhead & Hcount & Hedges & Hterm & Hzero
          & Hback) Hn Hroom Hk Hk'.
  pose proof (lookup_lt_Some _ _ _ Hk) as Hlt.
  destruct (Hedges k x y Hk) as (G0 & G1 & G2).
  unfold chunk_edge_get_endpoints, bind at 1, get.
  destruct (Z.leb_spec (num_chunks cd) (n + Z.of_nat k)); [lia|].
  rewrite shiftl_2_chunk.
  unfold I_CHUNK_IF_LOOP_MASK_TRIGGER_LAYER, I_CHUNK_EDGE_X_B,
    I_CHUNK_EDGE_Y_B, I_CHUNK_NUM_FIELDS, I_CHUNK_LOOP_LAST_LOOP.
  unfold bind at 1. rewrite acd_load_ok by lia.
  rewrite Z.add_0_r, G0. cbn [truthy Z.eqb negb].
  unfold bind at 1. rewrite acd_load_ok by lia. rewrite G1.
  unfold bind at 1. rewrite acd_load_ok by lia. rewrite G2.
  unfold bind at 1. rewrite acd_load_ok by lia.
  destruct (Nat.eq_dec (k + 1)%nat (length vs)) as [Hend|Hmid].
  - (* the last edge: the next chunk is the terminating loop *)
    rewrite Hend, Nat.Div0.mod_same in Hk'.
    destruct (Hedges 0%nat x' y' Hk') as (_ & G1' & G2').
    replace (4 * (n + Z.of_nat k) + 4 + 0)
      with (4 * (n + Z.of_nat (length vs))) by lia.
    rewrite Hterm. cbn [truthy Z.eqb negb].
    unfold bind at 1, bind at 1.
    replace (4 * (n + Z.of_nat k) + 4 + 3)
      with (4 * (n + Z.of_nat (length vs)) + 3) by lia.
    rewrite acd_load_ok by lia. rewrite Hback by lia.
    unfold ret at 1. rewrite shiftl_2_chunk.
    replace (4 * (n - 1 + 1)) with (4 * (n + Z.of_nat 0)) by lia.
    unfold bind at 1. rewrite acd_load_ok by lia. rewrite G1'.
    unfold bind at 1. rewrite acd_load_ok by lia. rewrite G2'.
    unfold ret. rewrite !shl_shr_16_id. reflexivity.
  - rewrite Nat.mod_small in Hk' by lia.
    destruct (Hedges (k + 1)%nat x' y' Hk') as (G0' & G1' & G2').
    replace (4 * (n + Z.of_nat k) + 4)
      with (4 * (n + Z.of_nat (k + 1))) by lia.
    rewrite Z.add_0_r, G0'. cbn [truthy Z.eqb negb].
    unfold bind at 1. unfold ret at 1.
    unfold bind at 1. rewrite acd_load_ok by lia. rewrite G1'.
    unfold bind at 1. rewrite acd_load_ok by lia. rewrite G2'.
    unfold ret. rewrite !shl_shr_16_id. reflexivity.
Qed.
(** ** Shifting a fill pattern *)

Lemma land7_i32 (d : Z) : Z.land (i32 d) 7 = d mod 8.
Proof.
  change 7 with (Z.ones 3). rewrite Z.land_ones by lia. change (2 ^ 3) with 8.
  unfold i32.
  pose proof (Z.div_mod (d + 0x80000000) 0x100000000 ltac:(lia)) as D.
  set (q := (d + 0x80000000) / 0x100000000) in *.
  replace ((d + 0x80000000) mod 0x100000000 - 0x80000000)
    with (d + (- (536870912 * q)) * 8) by lia.
  apply Z.mod_add. lia.
Qed.

(** The x loop, over any bytes written. *)
Lemma shift_x_loop (g : Z -> Z) (dst : list Z) (delta_x i : Z) :
  (8 <= length dst)%nat -> 0 <= delta_x < 8 -> 0 <= i < 8 ->
  let r :=
    foldl (fun dst i_src => poke dst (Z.land (i_src +! delta_x) 0x7) (g i_src))
      dst (map Z.of_nat (seq 0 8)) in
  peek r ((i + delta_x) mod 8) = g i /\
  length r = length dst /\
  (forall j, 8 <= j -> peek r j = peek dst j).
Proof.
  intros Hlen Hdx Hi.
  destruct dst as [|d0 [|d1 [|d2 [|d3 [|d4 [|d5 [|d6 [|d7 rest]]]]]]]];
    cbn in Hlen; try lia.
  assert (Hc : delta_x = 0 \/ delta_x = 1 \/ delta_x = 2 \/ delta_x = 3 \/
               delta_x = 4 \/ delta_x = 5 \/ delta_x = 6 \/ delta_x = 7) by lia.
  assert (Hj : forall j, 8 <= j ->
            forall a0 a1 a2 a3 a4 a5 a6 a7 b0 b1 b2 b3 b4 b5 b6 b7 : Z,
            peek (a0 :: a1 :: a2 :: a3 :: a4 :: a5 :: a6 :: a7 :: rest) j =
            peek (b0 :: b1 :: b2 :: b3 :: b4 :: b5 :: b6 :: b7 :: rest) j).
  { intros j Hj8 *. unfold peek. destruct (Z.ltb_spec j 0); [lia|].
    replace (Z.to_nat j) with (8 + Z.to_nat (j - 8))%nat by lia.
    reflexivity. }
  assert (Hic : i = 0 \/ i = 1 \/ i = 2 \/ i = 3 \/
                i = 4 \/ i = 5 \/ i = 6 \/ i = 7) by lia.
  cbv zeta.
  destruct Hc as [->|[->|[->|[->|[->|[->|[->| ->]]]]]]];
    (split; [|split; [reflexivity | intros j Hj8; apply Hj; exact Hj8]]);
    destruct Hic as [->|[->|[->|[->|[->|[->|[->| ->]]]]]]]; reflexivity.
Qed.

(** The y loop, over any change of a byte. *)
Lemma shift_y_loop (h : Z -> Z) (dst : list Z) (i : Z) :
  (8 <= length dst)%nat -> 0 <= i < 8 ->
  let r :=
    foldl (fun dst i_dst => poke dst i_dst (h (load8 dst i_dst)))
      dst (map Z.of_nat (seq 0 8)) in
  peek r i = h (load8 dst i) /\
  length r = length dst /\
  (forall j, 8 <= j -> peek r j = peek dst j).
Proof.
  intros Hlen Hi.
  destruct dst as [|d0 [|d1 [|d2 [|d3 [|d4 [|d5 [|d6 [|d7 rest]]]]]]]];
    cbn in Hlen; try lia.
  assert (Hic : i = 0 \/ i = 1 \/ i = 2 \/ i = 3 \/
                i = 4 \/ i = 5 \/ i = 6 \/ i = 7) by lia.
  cbv zeta. split; [|split].
  - destruct Hic as [->|[->|[->|[->|[->|[->|[->| ->]]]]]]]; reflexivity.
  - reflexivity.
  - intros j Hj8. unfold peek. destruct (Z.ltb_spec j 0); [lia|].
    replace (Z.to_nat j) with (8 + Z.to_nat (j - 8))%nat by lia.
    reflexivity.
Qed.

Lemma testbit_255 (p : Z) : 0 <= p < 8 -> Z.testbit 255 p = true.
Proof. intros H. change 255 with (Z.ones 8). apply Z.ones_spec_low. lia. Qed.

Lemma testbit_255_high (p : Z) : 8 <= p -> Z.testbit 255 p = false.
Proof. intros H. change 255 with (Z.ones 8). apply Z.ones_spec_high. lia. Qed.

(** A byte rotated left by [delta_y] bits. *)
Lemma rotate_byte_bit (v delta_y b : Z) :
  0 <= delta_y < 8 -> 0 <= b < 8 ->
  let u := Z.land (store8 (Z.land v 0xff)) 0xff in
  let shifted := u <<! delta_y in
  Z.testbit (store8 (Z.land (Z.lor shifted (Z.shiftr shifted 8)) 0xff))
    ((b + delta_y) mod 8) = Z.testbit v b.
Proof.
  intros Hdy Hb. cbv zeta. unfold store8.
  set (u := Z.land (Z.land (Z.land v 255) 255) 255).
  assert (Hu : 0 <= u < 256).
  { subst u. change 255 with (Z.ones 8). rewrite !Z.land_ones by lia.
    apply Z.mod_pos_bound. lia. }
  assert (Hub : forall k, 0 <= k ->
            Z.testbit u k = Z.testbit v k && Z.testbit 255 k).
  { intros k Hk. subst u. rewrite !Z.land_spec.
    destruct (Z.testbit v k), (Z.testbit 255 k); reflexivity. }
  assert (Hsh : 0 <= Z.shiftl u delta_y < 32768).
  { rewrite Z.shiftl_mul_pow2 by lia.
    assert (0 < 2 ^ delta_y <= 2 ^ 7)
      by (split; [apply Z.pow_pos_nonneg; lia
                 | apply Z.pow_le_mono_r; lia]).
    change (2 ^ 7) with 128 in *. nia. }
  rewrite i32_small by lia.
  set (p := (b + delta_y) mod 8).
  assert (Hp : 0 <= p < 8) by (apply Z.mod_pos_bound; lia).
  rewrite !Z.land_spec, Z.lor_spec, testbit_255 by lia.
  rewrite !andb_true_r.
  rewrite Z.shiftr_spec by lia. rewrite !Z.shiftl_spec by lia.
  destruct (Z.lt_ge_cases (b + delta_y) 8) as [Hlo|Hhi].
  - assert (p = b + delta_y) by (subst p; apply Z.mod_small; lia).
    replace (p - delta_y) with b by lia.
    replace (p + 8 - delta_y) with (b + 8) by lia.
    rewrite !Hub by lia. rewrite testbit_255 by lia.
    rewrite testbit_255_high by lia.
    rewrite andb_true_r, andb_false_r, orb_false_r. reflexivity.
  - assert (p = b + delta_y - 8).
    { subst p. symmetry. apply (Z.mod_unique_pos _ 8 1); lia. }
    replace (p + 8 - delta_y) with b by lia.
    rewrite (Z.testbit_neg_r u (p - delta_y)) by lia.
    rewrite Hub by lia. rewrite testbit_255 by lia.
    rewrite andb_true_r. reflexivity.
Qed.
(** ** Filling a column *)

Lemma index_inj (w x x' b b' : Z) :
  0 <= x < w -> 0 <= x' < w -> x + w * b = x' + w * b' -> x = x' /\ b = b'.
Proof.
  intros Hx Hx' E.
  assert (b = b').
  { destruct (Z.lt_trichotomy b b') as [Hlt|[Heq|Hgt]]; [|exact Heq|].
    - assert (w * (b + 1) <= w * b') by (apply Z.mul_le_mono_nonneg_l; lia).
      lia.
    - assert (w * (b' + 1) <= w * b) by (apply Z.mul_le_mono_nonneg_l; lia).
      lia. }
  subst. lia.
Qed.

Lemma fill_middle_spec (fm0 fm1 width x yb1 : Z) (fuel : nat) :
  forall (buf0 buf1 : list Z) (a : Z),
  0 < width -> 0 <= x < width -> 0 <= a <= yb1 ->
  (Z.to_nat (yb1 - a) <= fuel)%nat ->
  x + width * yb1 < 0x80000000 ->
  x + width * yb1 < Z.of_nat (length buf0) ->
  x + width * yb1 < Z.of_nat (length buf1) ->
  let res := fill_middle fuel buf0 buf1 (x + width * a) (x + width * yb1)
               width fm0 fm1 in
  res.2 = x + width * yb1 /\
  length res.1.1 = length buf0 /\ length res.1.2 = length buf1 /\
  (forall x' b', 0 <= x' < width ->
     peek res.1.1 (x' + width * b') =
     (if (x' =? x) && (a <=? b') && (b' <? yb1) then store8 fm0
      else peek buf0 (x' + width * b')) /\
     peek res.1.2 (x' + width * b') =
     (if (x' =? x) && (a <=? b') && (b' <? yb1) then store8 fm1
      else peek buf1 (x' + width * b'))).
Proof.
  induction fuel as [|fuel IH]; intros buf0 buf1 a Hw Hx Ha Hfuel Hbig Hl0 Hl1;
    cbn [fill_middle]; cbv zeta.
  - assert (a = yb1) by lia. subst a. cbn [fst snd].
    split; [reflexivity|]. split; [reflexivity|]. split; [reflexivity|].
    intros x' b' Hx'.
    destruct (Z.leb_spec yb1 b'), (Z.ltb_spec b' yb1); try lia;
      rewrite ?andb_false_r; cbn [andb]; split; reflexivity.
  - destruct (Z.ltb_spec (x + width * a) (x + width * yb1)) as [Hlt|Hge].
    + assert (Ha' : a < yb1) by nia.
      assert (Hnext : x + width * a +! width = x + width * (a + 1)).
      { rewrite i32_small; [lia|].
        assert (width * (a + 1) <= width * yb1)
          by (apply Z.mul_le_mono_nonneg_l; lia).
        assert (0 <= width * a) by (apply Z.mul_nonneg_nonneg; lia). lia. }
      rewrite Hnext.
      assert (Hin : 0 <= x + width * a).
      { assert (0 <= width * a) by (apply Z.mul_nonneg_nonneg; lia). lia. }
      specialize (IH (poke buf0 (x + width * a) (store8 fm0))
                    (poke buf1 (x + width * a) (store8 fm1)) (a + 1)
                    Hw Hx ltac:(lia) ltac:(lia) Hbig
                    ltac:(rewrite length_poke; exact Hl0)
                    ltac:(rewrite length_poke; exact Hl1)).
      cbv zeta in IH. destruct IH as (Ei & L0 & L1 & P).
      split; [exact Ei|].
      split; [rewrite L0; apply length_poke|].
      split; [rewrite L1; apply length_poke|].
      intros x' b' Hx'. destruct (P x' b' Hx') as [P0 P1].
      rewrite P0, P1. clear P0 P1 P.
      destruct (Z.eqb_spec x' x) as [->|Hne]; cbn [andb].
      * destruct (Z.eq_dec b' a) as [->|Hb].
        -- destruct (Z.leb_spec (a + 1) a); [lia|].
           destruct (Z.leb_spec a a); [|lia].
           destruct (Z.ltb_spec a yb1); [|lia]. cbn [andb].
           rewrite !peek_poke_same by lia. split; reflexivity.
        -- assert (x + width * a <> x + width * b').
           { intros E. apply index_inj in E; lia. }
           rewrite !peek_poke_other by assumption.
           destruct (Z.leb_spec (a + 1) b'), (Z.leb_spec a b'); try lia;
             split; reflexivity.
      * assert (x + width * a <> x' + width * b').
        { intros E. apply index_inj in E; lia. }
        rewrite !peek_poke_other by assumption. split; reflexivity.
    + assert (a = yb1) by nia. subst a. cbn [fst snd].
      split; [reflexivity|]. split; [reflexivity|]. split; [reflexivity|].
      intros x' b' Hx'.
      destruct (Z.leb_spec yb1 b'), (Z.ltb_spec b' yb1); try lia;
        rewrite ?andb_false_r; cbn [andb]; split; reflexivity.
Qed.

Lemma peek_or8 (buf : list Z) (i m j : Z) :
  0 <= i < Z.of_nat (length buf) ->
  peek (or8 buf i m) j =
  if j =? i then store8 (Z.lor (peek buf i) m) else peek buf j.
Proof.
  intros Hi. unfold or8. destruct (Z.eqb_spec j i) as [->|Hne].
  - apply peek_poke_same. exact Hi.
  - apply peek_poke_other. congruence.
Qed.

Lemma length_or8 (buf : list Z) (i m : Z) : length (or8 buf i m) = length buf.
Proof. apply length_poke. Qed.

Lemma or_byte_bit (old mask fm k : Z) :
  0 <= k < 8 ->
  Z.testbit (store8 (Z.lor old (Z.land mask fm))) k =
  Z.testbit old k || (Z.testbit mask k && Z.testbit fm k).
Proof.
  intros Hk. unfold store8.
  rewrite Z.land_spec, Z.lor_spec, Z.land_spec, testbit_255 by lia.
  apply andb_true_r.
Qed.

Lemma store_byte_bit (fm k : Z) :
  0 <= k < 8 -> Z.testbit (store8 fm) k = Z.testbit fm k.
Proof.
  intros Hk. unfold store8. rewrite Z.land_spec, testbit_255 by lia.
  apply andb_true_r.
Qed.

Ltac cases8 v :=
  match goal with
  | H : 0 <= v < 8 |- _ =>
      assert (v = 0 \/ v = 1 \/ v = 2 \/ v = 3 \/
              v = 4 \/ v = 5 \/ v = 6 \/ v = 7) as
        [->|[->|[->|[->|[->|[->|[->| ->]]]]]]] by lia; clear H
  end.

Lemma mask_within (ym0 ym1 k : Z) :
  0 <= ym0 < 8 -> 0 <= ym1 < 8 -> ym0 <= ym1 -> 0 <= k < 8 ->
  Z.testbit (((1 <<! (ym1 -! ym0 +! 1)) -! 1) <<! ym0) k =
  (ym0 <=? k) && (k <=? ym1).
Proof.
  intros H0 H1 Hle Hk. cases8 ym0; cases8 ym1; try lia; cases8 k;
    reflexivity.
Qed.

Lemma mask_first (ym0 k : Z) :
  0 <= ym0 < 8 -> 0 <= k < 8 ->
  Z.testbit (Z.shiftr 0xff ym0 <<! ym0) k = (ym0 <=? k).
Proof. intros H0 Hk. cases8 ym0; cases8 k; reflexivity. Qed.

Lemma mask_last (ym1 k : Z) :
  0 <= ym1 < 8 -> 0 <= k < 8 ->
  Z.testbit ((2 <<! ym1) -! 1) k = (k <=? ym1).
Proof. intros H1 Hk. cases8 ym1; cases8 k; reflexivity. Qed.

Lemma row_split (y : Z) :
  0 <= y ->
  Z.shiftr y 3 = y / 8 /\ Z.land y 7 = y mod 8 /\
  y = 8 * (y / 8) + y mod 8 /\ 0 <= y mod 8 < 8 /\ 0 <= y / 8.
Proof.
  intros Hy. split; [apply Z.shiftr_div_pow2; lia|].
  split; [change 7 with (Z.ones 3); apply Z.land_ones; lia|].
  split; [apply Z.div_mod; lia|].
  split; [apply Z.mod_pos_bound; lia | apply Z.div_pos; lia].
Qed.

Ltac bool_finish :=
  split;
  repeat match goal with
         | |- context [Z.testbit ?a ?b] => destruct (Z.testbit a b)
         end;
  reflexivity.
(** ** Screen to world *)

Lemma shiftr_10_exact (k : Z) : Z.shiftr (k * 1024 + 512) 10 = k.
Proof.
  rewrite Z.shiftr_div_pow2 by lia. change (2 ^ 10) with 1024.
  symmetry. apply (Z.div_unique _ 1024 k 512); lia.
Qed.

Lemma round_times_1024 (a : Z) :
  -0x100000 <= a <= 0x100000 ->
  Z.shiftr (i32 a *! i32 1024 +! 0x200) 10 = a.
Proof.
  intros Ha. rewrite (i32_small a), (i32_small 1024) by lia.
  rewrite (i32_small (a * 1024)) by lia.
  rewrite (i32_small (a * 1024 + 512)) by lia. apply shiftr_10_exact.
Qed.

Lemma quarter_rotate (a b c s : Z) :
  (c = 1024 /\ s = 0) \/ (c = 0 /\ s = 1024) \/
  (c = -1024 /\ s = 0) \/ (c = 0 /\ s = -1024) ->
  -0x100000 <= a <= 0x100000 -> -0x100000 <= b <= 0x100000 ->
  Z.shiftr (a *! i32 c -! b *! i32 s +! 0x200) 10 =
    a * (c / 1024) - b * (s / 1024) /\
  Z.shiftr (a *! i32 s +! b *! i32 c +! 0x200) 10 =
    a * (s / 1024) + b * (c / 1024).
Proof.
  intros Hq Ha Hb.
  destruct Hq as [[-> ->]|[[-> ->]|[[-> ->]|[-> ->]]]];
    change (i32 1024) with 1024; change (i32 0) with 0;
    change (i32 (-1024)) with (-1024);
    change (1024 / 1024) with 1; change (0 / 1024) with 0;
    change (-1024 / 1024) with (-1);
    repeat match goal with
           | |- context [i32 ?z] => rewrite (i32_small z) by lia
           end.
  - replace (a * 1024 - b * 0 + 512) with (a * 1024 + 512) by lia.
    replace (a * 0 + b * 1024 + 512) with (b * 1024 + 512) by lia.
    rewrite !shiftr_10_exact. lia.
  - replace (a * 0 - b * 1024 + 512) with (- b * 1024 + 512) by lia.
    replace (a * 1024 + b * 0 + 512) with (a * 1024 + 512) by lia.
    rewrite !shiftr_10_exact. lia.
  - replace (a * -1024 - b * 0 + 512) with (- a * 1024 + 512) by lia.
    replace (a * 0 + b * -1024 + 512) with (- b * 1024 + 512) by lia.
    rewrite !shiftr_10_exact. lia.
  - replace (a * 0 - b * -1024 + 512) with (b * 1024 + 512) by lia.
    replace (a * -1024 + b * 0 + 512) with (- a * 1024 + 512) by lia.
    rewrite !shiftr_10_exact. lia.
Qed.
(** ** Derived chunk data *)

Lemma acd_load_same (cd1 cd2 : ChunkData) (c : list string) (i : Z) :
  same_chunks cd1 cd2 ->
  (exists v, acd_load i cd1 c = Returns v cd1 c /\
             acd_load i cd2 c = Returns v cd2 c) \/
  (acd_load i cd1 c = Raises IndexError cd1 c /\
   acd_load i cd2 c = Raises IndexError cd2 c).
Proof.
  intros [Ha Hn]. unfold acd_load, bind, get. rewrite <- Ha.
  destruct (py_index _ i); [left; eexists; split; reflexivity|].
  right; split; reflexivity.
Qed.

Ltac load_same cd1 cd2 c Hs :=
  match goal with
  | |- context [acd_load ?i cd1 c] =>
      let v := fresh "v" in
      let E1 := fresh "E" in
      let E2 := fresh "E" in
      destruct (acd_load_same cd1 cd2 c i Hs) as [(v & E1 & E2)|[E1 E2]];
      rewrite E1, E2; clear E1 E2; [|intros; discriminate]
  end.

Lemma chunk_is_loop_same (cd1 cd2 : ChunkData) (c : list string) (i : Z)
    (v : bool) :
  same_chunks cd1 cd2 ->
  chunk_is_loop i cd1 c = Returns v cd1 c ->
  chunk_is_loop i cd2 c = Returns v cd2 c.
Proof.
  intros Hs. pose proof Hs as [Ha Hn]. revert v.
  unfold chunk_is_loop, bind at 1 3, get. rewrite <- Hn.
  destruct (num_chunks cd1 <=? i); [intros; discriminate|].
  unfold bind. load_same cd1 cd2 c Hs.
  unfold ret. intros r E. injection E as <-. reflexivity.
Qed.

Lemma chunk_edge_get_endpoints_same (cd1 cd2 : ChunkData) (c : list string)
    (i : Z) (e : Z * Z * Z * Z) :
  same_chunks cd1 cd2 ->
  chunk_edge_get_endpoints i cd1 c = Returns e cd1 c ->
  chunk_edge_get_endpoints i cd2 c = Returns e cd2 c.
Proof.
  intros Hs. pose proof Hs as [Ha Hn]. revert e.
  unfold chunk_edge_get_endpoints, bind at 1 10, get. rewrite <- Hn.
  destruct (num_chunks cd1 <=? i); [intros; discriminate|].
  unfold bind at 1 9. load_same cd1 cd2 c Hs.
  destruct (truthy _); [intros; discriminate|].
  unfold bind at 1 8. load_same cd1 cd2 c Hs.
  unfold bind at 1 7. load_same cd1 cd2 c Hs.
  unfold bind at 1 6. load_same cd1 cd2 c Hs.
  unfold bind at 1 5.
  destruct (truthy _).
  - unfold bind at 1 4. load_same cd1 cd2 c Hs. unfold ret at 1 3.
    unfold bind at 1 3. load_same cd1 cd2 c Hs.
    unfold bind. load_same cd1 cd2 c Hs.
    unfold ret. intros r E. injection E as <-. reflexivity.
  - unfold ret at 1 3.
    unfold bind at 1 3. load_same cd1 cd2 c Hs.
    unfold bind. load_same cd1 cd2 c Hs.
    unfold ret. intros r E. injection E as <-. reflexivity.
Qed.

Lemma chunk_is_loop_returns (cd : ChunkData) (c : list string) (i : Z) :
  length (arr_chunk_data cd) = 768%nat -> 0 <= i < num_chunks cd ->
  num_chunks cd <= 192 ->
  exists v, chunk_is_loop i cd c = Returns v cd c.
Proof.
  intros Hlen Hi Hn. unfold chunk_is_loop, bind at 1, get.
  destruct (Z.leb_spec (num_chunks cd) i); [lia|].
  rewrite shiftl_2_chunk. unfold I_CHUNK_IF_LOOP_MASK_TRIGGER_LAYER, bind.
  rewrite acd_load_ok by lia. eexists. reflexivity.
Qed.

Lemma chunk_edge_is_edge (cd : ChunkData) (c : list string) (i : Z)
    (e : Z * Z * Z * Z) :
  length (arr_chunk_data cd) = 768%nat -> 0 <= i -> num_chunks cd <= 192 ->
  chunk_edge_get_endpoints i cd c = Returns e cd c ->
  chunk_is_loop i cd c = Returns false cd c.
Proof.
  intros Hlen Hi Hn. unfold chunk_edge_get_endpoints, chunk_is_loop.
  unfold bind at 1 10, get.
  destruct (Z.leb_spec (num_chunks cd) i); [intros; discriminate|].
  rewrite shiftl_2_chunk. unfold I_CHUNK_IF_LOOP_MASK_TRIGGER_LAYER.
  unfold bind at 1 9. rewrite acd_load_ok by lia.
  destruct (truthy _); [intros; discriminate|]. reflexivity.
Qed.

Lemma normal_store_ok (cd : ChunkData) (c : list string) (i v : Z) :
  0 <= i < Z.of_nat (length (arr_chunk_normal_wd cd)) -> 0 <= v < 360 ->
  normal_store i v cd c =
  Returns tt
    (cd_with_normals cd (<[Z.to_nat i := v]> (arr_chunk_normal_wd cd))) c.
Proof.
  intros Hi Hv. unfold normal_store, bind, get.
  rewrite py_index_in by exact Hi.
  destruct (Z.ltb_spec v (-32768)); [lia|].
  destruct (Z.ltb_spec 32767 v); [lia|]. reflexivity.
Qed.

Lemma update_derived_loop_spec `{FloatNormal} (cd0 : ChunkData)
    (c : list string) :
  length (arr_chunk_data cd0) = 768%nat -> num_chunks cd0 <= 192 ->
  (forall i, 0 <= i < num_chunks cd0 ->
     chunk_is_loop i cd0 c = Returns false cd0 c ->
     exists e, chunk_edge_get_endpoints i cd0 c = Returns e cd0 c) ->
  forall (chunks : list Z) (box : Z * Z * Z * Z) (cd : ChunkData),
  same_chunks cd0 cd -> length (arr_chunk_normal_wd cd) = 192%nat ->
  Forall (fun i => 0 <= i < num_chunks cd0) chunks -> NoDup chunks ->
  exists box' cd',
    update_derived_loop chunks box cd c = Returns box' cd' c /\
    same_chunks cd0 cd' /\ length (arr_chunk_normal_wd cd') = 192%nat /\
    box_grows box box' /\
    (forall i, 0 <= i -> ~ In i chunks ->
       arr_chunk_normal_wd cd' !! Z.to_nat i =
       arr_chunk_normal_wd cd !! Z.to_nat i) /\
    (forall i x y xe ye, In i chunks ->
       chunk_edge_get_endpoints i cd0 c = Returns (x, y, xe, ye) cd0 c ->
       in_box box' x y /\
       arr_chunk_normal_wd cd' !! Z.to_nat i =
       Some (normal_inward_wd x y xe ye)).
Proof.
  intros Hlen Hn Hedges.
  induction chunks as [|i rest IH]; intros box cd Hs Hl Hin Hnd.
  - exists box, cd. split; [reflexivity|]. split; [exact Hs|].
    split; [exact Hl|].
    split; [destruct box as [[[? ?] ?] ?]; cbn; lia|].
    split; [reflexivity|]. intros i x y xe ye [].
  - apply Forall_cons in Hin as [Hi Hin]. apply NoDup_cons in Hnd as [Hni Hnd].
    rewrite list_elem_of_In in Hni.
    cbn [update_derived_loop].
    destruct (chunk_is_loop_returns cd0 c i Hlen Hi Hn) as [v Ev].
    unfold bind at 1. rewrite (chunk_is_loop_same cd0 cd c i v Hs Ev).
    destruct v.
    + (* a loop header: skipped *)
      destruct (IH box cd Hs Hl Hin Hnd) as (box' & cd' & E & S & L & G & K & P).
      exists box', cd'. split; [exact E|]. split; [exact S|].
      split; [exact L|]. split; [exact G|].
      split; [intros j Hj Hnj; apply K; [exact Hj|]; intros ?; apply Hnj;
              right; assumption|].
      intros j x y xe ye [<-|Hj] Ej.
      * apply (chunk_edge_is_edge cd0 c i _ Hlen ltac:(lia) Hn) in Ej.
        congruence.
      * apply (P j x y xe ye Hj Ej).
    + (* an edge *)
      destruct (Hedges i Hi Ev) as [[[[xb yb] xe] ye] Ee].
      unfold bind at 1.
      rewrite (chunk_edge_get_endpoints_same cd0 cd c i _ Hs Ee).
      destruct box as [[[x_lo y_lo] x_hi] y_hi].
      assert (Hwd : 0 <= normal_inward_wd xb yb xe ye < 360)
        by (unfold normal_inward_wd, wd_init; apply Z.mod_pos_bound; lia).
      unfold bind at 1. rewrite normal_store_ok by (exact Hwd || lia).
      set (cd1 := cd_with_normals cd _).
      assert (Hs1 : same_chunks cd0 cd1) by exact Hs.
      assert (Hl1 : length (arr_chunk_normal_wd cd1) = 192%nat)
        by (subst cd1; cbn; rewrite length_insert; exact Hl).
      destruct (IH (Z.min x_lo xb, Z.min y_lo yb, Z.max x_hi xb,
                    Z.max y_hi yb) cd1 Hs1 Hl1 Hin Hnd)
        as (box' & cd' & E & S & L & G & K & P).
      exists box', cd'. split; [exact E|]. split; [exact S|].
      split; [exact L|].
      destruct box' as [[[x_lo' y_lo'] x_hi'] y_hi'].
      split; [cbn in G |- *; lia|].
      split.
      * intros j Hj Hnj. rewrite K; [|exact Hj|intros ?; apply Hnj; right;
                                               assumption].
        subst cd1. cbn. apply list_lookup_insert_ne.
        intros Heq. apply Hnj. left. lia.
      * intros j x y xe' ye' [<-|Hj] Ej.
        -- rewrite Ee in Ej. injection Ej as <- <- <- <-.
           split; [cbn in G |- *; lia|].
           rewrite K by (exact Hni || lia).
           subst cd1. cbn. apply list_lookup_insert_eq. lia.
        -- apply (P j x y xe' ye' Hj Ej).
Qed.
(** ** Stopped-ness *)

Lemma exp_avg_closer (a x avg : Z) :
  0 <= a <= 1024 ->
  let avg' := Z.shiftr (a * x + (1024 - a) * avg + 0x200) 10 in
  Z.abs (x - avg') <= Z.abs (x - avg).
Proof.
  intros Ha. cbv zeta.
  rewrite Z.shiftr_div_pow2 by lia. change (2 ^ 10) with 1024.
  set (D := x - avg).
  replace (a * x + (1024 - a) * avg + 512) with (avg * 1024 + (a * D + 512))
    by (subst D; ring).
  rewrite Z.div_add_l by lia.
  pose proof (Z.div_mod (a * D + 512) 1024 ltac:(lia)) as Hq.
  pose proof (Z.mod_pos_bound (a * D + 512) 1024 ltac:(lia)) as Hr.
  set (q := (a * D + 512) / 1024) in *.
  replace (x - (avg + q)) with (D - q) by (subst D; lia).
  destruct (Z.le_gt_cases 0 D) as [Hpos|Hneg].
  - assert (0 <= a * D <= 1024 * D) by nia. lia.
  - assert (1024 * D <= a * D <= 0) by nia. lia.
Qed.

Lemma track_step (delta_ms : Z) (b : BallState) :
  0 <= delta_ms <= 341 ->
  Z.abs (xw_f10 b - xw_exp_avg_f10 b) < 1024 ->
  Z.abs (yw_f10 b - yw_exp_avg_f10 b) < 1024 ->
  let b' := _update_stopped_tracking delta_ms b in
  xw_f10 b' = xw_f10 b /\ yw_f10 b' = yw_f10 b /\
  Z.abs (xw_f10 b - xw_exp_avg_f10 b') < 1024 /\
  Z.abs (yw_f10 b - yw_exp_avg_f10 b') < 1024 /\
  ms_below_stop_threshold b' = ms_below_stop_threshold b + delta_ms /\
  is_stopped b' =
    (500 <? ms_below_stop_threshold b + delta_ms) || is_stopped b.
Proof.
  intros Hd Hx Hy. cbv zeta. unfold _update_stopped_tracking. cbv zeta.
  unfold BALL_COEFF_A, BALL_DELTA_W_STOPPED_F10, BALL_MS_BEFORE_STOPPED.
  pose proof (exp_avg_closer (3 * delta_ms) (xw_f10 b) (xw_exp_avg_f10 b)
                ltac:(lia)) as Cx.
  pose proof (exp_avg_closer (3 * delta_ms) (yw_f10 b) (yw_exp_avg_f10 b)
                ltac:(lia)) as Cy.
  cbv zeta in Cx, Cy.
  set (ax := Z.shiftr (3 * delta_ms * xw_f10 b
                       + (1024 - 3 * delta_ms) * xw_exp_avg_f10 b + 0x200) 10)
    in *.
  set (ay := Z.shiftr (3 * delta_ms * yw_f10 b
                       + (1024 - 3 * delta_ms) * yw_exp_avg_f10 b + 0x200) 10)
    in *.
  assert (Tx : ((if xw_f10 b - ax <? 0 then - (xw_f10 b - ax)
                 else xw_f10 b - ax) <? 1024) = true).
  { destruct (Z.ltb_spec (xw_f10 b - ax) 0); apply Z.ltb_lt; lia. }
  assert (Ty : ((if yw_f10 b - ay <? 0 then - (yw_f10 b - ay)
                 else yw_f10 b - ay) <? 1024) = true).
  { destruct (Z.ltb_spec (yw_f10 b - ay) 0); apply Z.ltb_lt; lia. }
  rewrite Tx, Ty. cbn [andb set_stopped_tracking xw_f10 yw_f10 xw_exp_avg_f10
                       yw_exp_avg_f10 ms_below_stop_threshold is_stopped].
  split; [reflexivity|]. split; [reflexivity|].
  split; [lia|]. split; [lia|]. split; [reflexivity|].
  destruct (500 <? ms_below_stop_threshold b + delta_ms); reflexivity.
Qed.

Lemma track_frames_spec (frames : list Z) : forall b : BallState,
  Forall (fun d => 0 <= d <= 341) frames ->
  Z.abs (xw_f10 b - xw_exp_avg_f10 b) < 1024 ->
  Z.abs (yw_f10 b - yw_exp_avg_f10 b) < 1024 ->
  let b' := track_frames frames b in
  xw_f10 b' = xw_f10 b /\ yw_f10 b' = yw_f10 b /\
  Z.abs (xw_f10 b - xw_exp_avg_f10 b') < 1024 /\
  Z.abs (yw_f10 b - yw_exp_avg_f10 b') < 1024 /\
  ms_below_stop_threshold b' =
    ms_below_stop_threshold b + foldr Z.add 0 frames /\
  (is_stopped b = true -> is_stopped b' = true) /\
  (frames <> [] -> 500 < ms_below_stop_threshold b + foldr Z.add 0 frames ->
   is_stopped b' = true).
Proof.
  induction frames as [|d frames IH]; intros b Hf Hx Hy; cbv zeta.
  - cbn. repeat split; auto; try lia; intros Hne; contradiction.
  - apply Forall_cons in Hf as [Hd Hf].
    destruct (track_step d b Hd Hx Hy) as (Px & Py & Ax & Ay & Ms & St).
    cbv zeta in Px, Py, Ax, Ay, Ms, St.
    set (b1 := _update_stopped_tracking d b) in *.
    specialize (IH b1 Hf).
    rewrite Px, Py in IH. specialize (IH Ax Ay). cbv zeta in IH.
    destruct IH as (Qx & Qy & Bx & By & Ms' & Keep & Stop).
    change (track_frames (d :: frames) b) with (track_frames frames b1).
    cbn [foldr].
    split; [exact Qx|]. split; [exact Qy|]. split; [exact Bx|].
    split; [exact By|]. split; [lia|].
    assert (Hnn : 0 <= foldr Z.add 0 frames).
    { clear -Hf. induction Hf as [|x l Hx _ IHl]; cbn; lia. }
    split.
    + intros Hs. apply Keep. rewrite St, Hs. apply orb_true_r.
    + intros _ Hlong. destruct frames as [|d' frames'].
      * cbn in Hlong |- *. fold b1. rewrite St.
        destruct (Z.ltb_spec 500 (ms_below_stop_threshold b + d)); [|lia].
        reflexivity.
      * apply Stop; [discriminate | lia].
Qed.
(** ** The geometry a draw submits *)

Lemma load16_nonneg (arr : list Z) (i v : Z) :
  peek arr i = v -> 0 <= v < 0x10000 -> load16 arr i = v.
Proof.
  intros <- H. unfold load16. change 0xffff with (Z.ones 16).
  rewrite Z.land_ones by lia. apply Z.mod_small. exact H.
Qed.

Lemma sign_extend_load16 (arr : list Z) (i v : Z) :
  peek arr i = v -> -0x8000 <= v < 0x8000 ->
  Z.shiftr (load16 arr i <<! 16) 16 = Z.shiftr (v <<! 16) 16.
Proof.
  intros <- H. unfold load16. change 0xffff with (Z.ones 16).
  rewrite Z.land_ones by lia. f_equal.
  rewrite !Z.shiftl_mul_pow2 by lia. change (2 ^ 16) with 65536.
  destruct (Z.lt_ge_cases (peek arr i) 0) as [Hn|Hp].
  - replace (peek arr i mod 65536) with (peek arr i + 65536).
    2:{ symmetry. rewrite <- (Z.mod_add _ 1) by lia.
        apply Z.mod_small. lia. }
    unfold i32.
    replace ((peek arr i + 65536) * 65536 + 0x80000000)
      with (peek arr i * 65536 + 0x80000000 + 1 * 0x100000000) by lia.
    rewrite Z.mod_add by lia. reflexivity.
  - rewrite Z.mod_small by lia. reflexivity.
Qed.

Lemma transform_vertex_load16 (arr : list Z) (s c n i j x y : Z) :
  peek arr i = x -> -0x8000 <= x < 0x8000 ->
  peek arr j = y -> -0x8000 <= y < 0x8000 ->
  transform_vertex s c n (load16 arr i) (load16 arr j)
  = transform_vertex s c n x y.
Proof.
  intros Hx Hxr Hy Hyr. unfold transform_vertex.
  rewrite (sign_extend_load16 arr i x Hx Hxr).
  rewrite (sign_extend_load16 arr j y Hy Hyr). reflexivity.
Qed.

Lemma header_masks (mt ml : Z) :
  0 <= mt < 0x80 -> 0 <= ml < 0x100 ->
  0 <= Z.lor (Z.shiftl mt 8) ml < 0x8000 /\
  Z.shiftr (Z.lor (Z.shiftl mt 8) ml) 8 = mt /\
  Z.land (Z.lor (Z.shiftl mt 8) ml) 0xff = ml.
Proof.
  intros Ht Hl.
  assert (Hd : Z.land (Z.shiftl mt 8) ml = 0).
  { apply Z.bits_inj'. intros k Hk. rewrite Z.land_spec, Z.bits_0.
    destruct (Z.lt_ge_cases k 8).
    - rewrite Z.shiftl_spec_low by lia. reflexivity.
    - rewrite (Z.bits_above_log2 ml k); [apply andb_false_r|lia|].
      destruct (Z.eq_dec ml 0) as [->|]; [simpl; lia|].
      apply Z.log2_lt_pow2; [lia|].
      apply Z.lt_le_trans with (2 ^ 8); [simpl; lia|].
      apply Z.pow_le_mono_r; lia. }
  assert (Ha : Z.lor (Z.shiftl mt 8) ml = mt * 256 + ml).
  { rewrite <- Z.lxor_lor, <- Z.add_nocarry_lxor by exact Hd.
    rewrite Z.shiftl_mul_pow2 by lia. reflexivity. }
  rewrite Ha. split; [lia|]. split.
  - rewrite Z.shiftr_div_pow2 by lia. change (2 ^ 8) with 256.
    rewrite Z.div_add_l by lia. rewrite Z.div_small by lia. lia.
  - change 0xff with (Z.ones 8). rewrite Z.land_ones by lia.
    change (2 ^ 8) with 256. rewrite Z.add_comm, Z.mod_add by lia.
    apply Z.mod_small. lia.
Qed.

Lemma add_loop_edges_sides (arr : list Z) (s c n : Z) (pg : polygon)
    (i : Z) (es : list (Z * Z * Z)) :
  forall (k : Z) (prev : corner) (fuel : nat) (x_b y_b : Z)
         (sr : ScanlineRasterizer) (con : list string),
  0 <= i -> 0 <= k -> i + 1 + k + Z.of_nat (length es) <= 0x100000 ->
  (forall (j : nat) (x y r : Z), es !! j = Some (x, y, r) ->
     -0x8000 <= x < 0x8000 /\ -0x8000 <= y < 0x8000 /\ 0 <= r < 0x8000 /\
     peek arr (4 * (i + 1 + k + Z.of_nat j) + I_CHUNK_EDGE_X_B) = x /\
     peek arr (4 * (i + 1 + k + Z.of_nat j) + I_CHUNK_EDGE_Y_B) = y /\
     peek arr (4 * (i + 1 + k + Z.of_nat j) + I_CHUNK_EDGE_REGION_LINE)
       = r) ->
  (length es <= fuel)%nat ->
  transform_vertex s c n (cn_x prev) (cn_y prev) = (x_b, y_b) ->
  add_loop_edges fuel arr s c n (4 * (i + 1 + k))
    (4 * (i + 1 + k + Z.of_nat (length es))) x_b y_b (cn_region_line prev)
    (pg_region_fill pg) (cn_chunk prev) (polygon_payload_fill pg)
    (pg_mask_layer pg) sr con
  = submit_sides s c n pg
      (path_sides prev
         (imap (fun j '(x, y, r) => mkCorner (i + 1 + k + Z.of_nat j) x y r)
            es)) sr con.
Proof.
  induction es as [|[[x y] r] es IH]; intros k prev fuel x_b y_b sr con
    Hi Hk Hlen Hes Hfuel Hprev.
  - simpl. rewrite Z.add_0_r. destruct fuel; [reflexivity|]. simpl.
    rewrite Z.ltb_irrefl. reflexivity.
  - destruct fuel as [|fuel]; [simpl in Hfuel; lia|].
    cbn [length] in Hlen |- *. rewrite Nat2Z.inj_succ in Hlen |- *.
    cbn [add_loop_edges].
    destruct (Z.ltb_spec (4 * (i + 1 + k))
                (4 * (i + 1 + k + Z.succ (Z.of_nat (length es)))));
      [|lia].
    destruct (Hes 0%nat x y r eq_refl) as (Hx & Hy & Hr & Px & Py & Pr).
    rewrite Z.add_0_r in Px, Py, Pr.
    unfold I_CHUNK_EDGE_X_B, I_CHUNK_EDGE_Y_B, I_CHUNK_EDGE_REGION_LINE,
      I_CHUNK_NUM_FIELDS in *.
    rewrite !(i32_small (4 * (i + 1 + k) + _)) by lia.
    rewrite (transform_vertex_load16 arr s c n _ _ x y Px Hx Py Hy).
    rewrite (load16_nonneg arr _ r Pr) by lia.
    cbn [imap path_sides submit_sides]. unfold submit_side.
    rewrite Hprev. cbn [cn_x cn_y].
    destruct (transform_vertex s c n x y) as [x_e y_e] eqn:He.
    unfold bind.
    rewrite Z.add_0_r.
    destruct (add_edge_line_fill x_b y_b x_e y_e (cn_region_line prev)
                (pg_region_fill pg) (cn_chunk prev) (polygon_payload_fill pg)
                (pg_mask_layer pg) sr con) as [[] sr' con'|e sr' con'];
      [|reflexivity].
    replace (Z.shiftr (4 * (i + 1 + k)) 2) with (i + 1 + k).
    2:{ rewrite Z.shiftr_div_pow2 by lia. change (2 ^ 2) with 4.
        rewrite Z.mul_comm, Z.div_mul by lia. reflexivity. }
    replace (4 * (i + 1 + k) + 4) with (4 * (i + 1 + (k + 1))) by lia.
    replace (4 * (i + 1 + k + Z.succ (Z.of_nat (length es))))
      with (4 * (i + 1 + (k + 1) + Z.of_nat (length es))) by lia.
    specialize (IH (k + 1) (mkCorner (i + 1 + k) x y r) fuel x_e y_e sr' con').
    cbn [cn_x cn_y cn_region_line cn_chunk] in IH.
    rewrite IH; try lia; try assumption.
    + f_equal. f_equal. apply imap_ext. intros j [[x' y'] r'] _.
      unfold compose. f_equal. lia.
    + intros j x' y' r' Hj.
      specialize (Hes (S j) x' y' r' Hj).
      replace (i + 1 + (k + 1) + Z.of_nat j)
        with (i + 1 + k + Z.of_nat (S j)) by lia.
      exact Hes.
    + simpl in Hfuel. lia.
Qed.

Lemma last_corners (i : Z) (pg : polygon) (x y r : Z) :
  last (pg_edges pg) = Some (x, y, r) ->
  last (corners i pg)
  = Some (mkCorner (i + Z.of_nat (length (pg_edges pg))) x y r).
Proof.
  unfold corners. intros Hl.
  destruct (pg_edges pg) as [|e es] using rev_ind; [discriminate|].
  rewrite last_snoc in Hl. injection Hl as ->.
  rewrite imap_app. cbn [imap]. rewrite last_snoc.
  rewrite length_app. cbn [length]. f_equal. f_equal. lia.
Qed.

Lemma add_loops_polygons (arr : list Z) (s c n : Z) (ps : list polygon) :
  forall (i : Z) (fuel : nat) (sr : ScanlineRasterizer) (con : list string),
  0 <= i -> i + chunks_of ps <= 0x100000 ->
  polygons_at arr i ps -> (length ps <= fuel)%nat ->
  add_loops fuel arr s c n (4 * i) (4 * (i + chunks_of ps)) sr con
  = submit_polygons s c n i ps sr con.
Proof.
  induction ps as [|pg ps IH]; intros i fuel sr con Hi Hn Hat Hfuel.
  - simpl. rewrite Z.add_0_r. destruct fuel; [reflexivity|]. simpl.
    rewrite Z.ltb_irrefl. reflexivity.
  - destruct fuel as [|fuel]; [simpl in Hfuel; lia|].
    cbn [chunks_of foldr] in Hn |- *. fold (chunks_of ps) in Hn |- *.
    assert (Hc : 0 <= chunks_of ps).
    { clear. induction ps as [|p ps IHp]; simpl; [lia|].
      fold (chunks_of ps). lia. }
    cbn [polygons_at] in Hat. cbv zeta in Hat.
    destruct Hat as (Hmt & Hml & Hrf & Hm & Pm & Pf & Pn & Hes & Hat).
    set (m := Z.of_nat (length (pg_edges pg))) in *.
    cbn [add_loops submit_polygons].
    destruct (Z.ltb_spec (4 * i) (4 * (i + (1 + m + chunks_of ps))));
      [|lia].
    destruct (header_masks _ _ Hmt Hml) as (Hh & Hsh & Hla).
    unfold I_CHUNK_IF_LOOP_MASK_TRIGGER_LAYER, I_CHUNK_LOOP_REGION_FILL,
      I_CHUNK_LOOP_NUM_EDGES, I_CHUNK_NUM_FIELDS in *.
    repeat match goal with
           | |- context [i32 (4 * i + ?z)] =>
               rewrite (i32_small (4 * i + z)) by lia
           end.
    rewrite (load16_nonneg arr _ _ Pm) by lia.
    rewrite (load16_nonneg arr _ _ Pf) by lia.
    rewrite (load16_nonneg arr _ _ Pn) by lia.
    rewrite Hsh, Hla.
    destruct (Z.eqb_spec m 0) as [Hm0|Hm0].
    + assert (He : pg_edges pg = []).
      { destruct (pg_edges pg); [reflexivity|]. subst m. simpl in Hm0. lia. }
      unfold polygon_sides, corners. rewrite He. cbn [imap last submit_sides].
      unfold bind, ret.
      replace (4 * i + 4) with (4 * (i + 1 + m)) by lia.
      replace (4 * (i + (1 + m + chunks_of ps)))
        with (4 * (i + 1 + m + chunks_of ps)) by lia.
      rewrite IH; try lia; try assumption.
      * subst m. rewrite He. reflexivity.
      * simpl in Hfuel. lia.
    + assert (Hmp : 0 < m) by lia.
      rewrite (i32_small (4 * m)) by lia.
      unfold I_CHUNK_EDGE_X_B, I_CHUNK_EDGE_Y_B, I_CHUNK_EDGE_REGION_LINE
        in *.
      repeat match goal with
             | |- context [i32 (4 * i + ?z)] =>
                 rewrite (i32_small (4 * i + z)) by lia
             end.
      repeat match goal with
             | |- context [i32 (4 * i + 4 * m + ?z)] =>
                 rewrite (i32_small (4 * i + 4 * m + z)) by lia
             end.
      destruct (last (pg_edges pg)) as [[[xl yl] rl]|] eqn:Hl.
      2:{ apply last_None in Hl. subst m. rewrite Hl in Hmp. simpl in Hmp.
          lia. }
      assert (Hlk : pg_edges pg !! (length (pg_edges pg) - 1)%nat
                    = Some (xl, yl, rl)).
      { rewrite <- Hl, last_lookup. f_equal. lia. }
      destruct (Hes _ _ _ _ Hlk) as (Hx & Hy & Hr & Px & Py & Pr).
      replace (4 * (i + 1 + Z.of_nat (length (pg_edges pg) - 1)))
        with (4 * i + 4 * m) in Px, Py, Pr by lia.
      rewrite (transform_vertex_load16 arr s c n _ _ xl yl Px Hx Py Hy).
      rewrite (load16_nonneg arr _ rl Pr) by lia.
      unfold polygon_sides. rewrite (last_corners i pg xl yl rl Hl).
      fold m.
      destruct (transform_vertex s c n xl yl) as [x_b y_b] eqn:Hb.
      unfold bind.
      pose proof (add_loop_edges_sides arr s c n pg i (pg_edges pg) 0
                    (mkCorner (i + m) xl yl rl) (Z.to_nat m) x_b y_b sr con)
        as Hin.
      cbn [cn_x cn_y cn_region_line cn_chunk] in Hin. fold m in Hin.
      replace (4 * (i + 1 + 0)) with (4 * i + 4) in Hin by lia.
      replace (4 * (i + 1 + 0 + m)) with (4 * i + 4 * m + 4) in Hin by lia.
      replace (Z.shiftr (4 * i + 4 * m) 2) with (i + m).
      2:{ rewrite Z.shiftr_div_pow2 by lia. change (2 ^ 2) with 4.
          replace (4 * i + 4 * m) with ((i + m) * 4) by lia.
          rewrite Z.div_mul by lia. reflexivity. }
      unfold polygon_payload_fill in Hin.
      unfold MGS_PAYLOAD_SHIFT_MASK_TRIGGER in *.
      rewrite (i32_small (Z.shiftl (pg_mask_trigger pg) 12)).
      2:{ rewrite Z.shiftl_mul_pow2 by lia. change (2 ^ 12) with 4096. lia. }
      rewrite Hin; try lia; try assumption.
      * unfold corners, polygon_payload_fill, MGS_PAYLOAD_SHIFT_MASK_TRIGGER.
        replace (imap (fun j '(x, y, r) =>
                   mkCorner (i + 1 + 0 + Z.of_nat j) x y r) (pg_edges pg))
          with (imap (fun j '(x, y, r) =>
                   mkCorner (i + 1 + Z.of_nat j) x y r) (pg_edges pg)).
        2:{ apply imap_ext. intros j [[x' y'] r'] _. f_equal. lia. }
        match goal with
        | |- match ?a with _ => _ end = match ?b with _ => _ end =>
            change b with a; destruct a as [[] sr' con'|e sr' con']
        end; [|reflexivity].
        replace (4 * (i + (1 + m + chunks_of ps)))
          with (4 * (i + 1 + m + chunks_of ps)) by lia.
        replace (4 * i + 4 * m + 4) with (4 * (i + 1 + m)) by lia.
        apply IH; try lia; try assumption. simpl in Hfuel. lia.
      * intros j x y r Hj. rewrite Z.add_0_r. apply Hes. exact Hj.
Qed.

Lemma set_rasterizer_geometry_resubmits (t : TransformedRasterizer)
    (c : list string) (ps : list polygon) :
  scene_of (chunk_data t) ps ->
  _set_rasterizer_geometry t c =
  focus rasterizer tr_with_rasterizer
    (clear_edges ;;;
     submit_polygons (i32 (scale_f10 t)) (i32 (cos_f10 t)) (i32 (sin_f10 t))
       0 ps) t c.
Proof.
  intros (Hn & Hmax & Hat).
  assert (Hc : 0 <= chunks_of ps).
  { clear. induction ps as [|p ps IHp]; simpl; [lia|].
    fold (chunks_of ps). lia. }
  assert (Hl : (length ps <= Z.to_nat (chunks_of ps))%nat).
  { clear. induction ps as [|p ps IHp]; simpl; [lia|].
    fold (chunks_of ps).
    assert (0 <= chunks_of ps).
    { clear. induction ps as [|p ps IHp]; simpl; [lia|].
      fold (chunks_of ps). lia. }
    lia. }
  unfold MAX_NUM_CHUNKS in Hmax.
  unfold _set_rasterizer_geometry. unfold bind at 1, get. unfold focus.
  unfold clear_edges, get, put. unfold bind.
  unfold I_CHUNK_NUM_FIELDS.
  rewrite (i32_small (num_chunks (chunk_data t))) by lia.
  rewrite (i32_small (4 * _)) by lia.
  rewrite Hn.
  pose proof (add_loops_polygons (arr_chunk_data (chunk_data t))
                (i32 (scale_f10 t)) (i32 (cos_f10 t)) (i32 (sin_f10 t)) ps 0
                (Z.to_nat (chunks_of ps))) as Hadd.
  change (4 * 0) with 0 in Hadd. rewrite Z.add_0_l in Hadd.
  rewrite Hadd; try lia; try assumption. reflexivity.
Qed.

Lemma maybe_update_resubmits (t : TransformedRasterizer) (c : list string)
    (ps : list polygon) :
  scene_of (chunk_data t) ps -> update_rasterizer_geometry t = true ->
  _maybe_update_rasterizer_geometry t c =
  resubmit (scale_f10 t) (cos_f10 t) (sin_f10 t) ps t c.
Proof.
  intros Hsc Hu. unfold _maybe_update_rasterizer_geometry, resubmit.
  unfold bind at 1, get. rewrite Hu. unfold bind at 1 3.
  rewrite (set_rasterizer_geometry_resubmits t c ps Hsc).
  destruct (focus _ _ _ t c); reflexivity.
Qed.

Lemma resubmit_clears_flag (scale cos sin : Z) (ps : list polygon)
    (t t' : TransformedRasterizer) (c c' : list string) :
  resubmit scale cos sin ps t c = Returns tt t' c' ->
  update_rasterizer_geometry t' = false.
Proof.
  unfold resubmit, bind, modify.
  destruct (focus _ _ _ t c); [|discriminate].
  intros E. injection E as <- _. reflexivity.
Qed.


(** C1 as stated fails. On a steep edge whose ideal line passes exactly
    between two pixels, (0, 0) to (1, 2) before the bias, the published
    loop with inclusive comparisons has the pixel (1, 1), which the walk
    of the code does not cover; on the shallow one, (0, 0) to (2, 1), the
    published loop with strict comparisons has the pixel (1, 0), which the
    walk does not cover. And on an edge whose position delta is [0x4000],
    twice of which no longer fits the packed field, the walk covers a
    pixel on the last scanline that no Bresenham walk has. *)
Lemma rl_walk_not_textbook :
  (In (0x4001, 0x4001) (bresenham_inclusive 0x4000 0x4000 0x4001 0x4002) /\
   ~ rl_covers (rl_walk c1_tie_steep false) (rl_walk c1_tie_steep true)
       0x4001 0x4001) /\
  (In (0x4001, 0x4000) (bresenham_strict 0x4000 0x4000 0x4002 0x4001) /\
   ~ rl_covers (rl_walk c1_tie_shallow false) (rl_walk c1_tie_shallow true)
       0x4001 0x4000) /\
  (rl_covers (rl_walk c1_too_long false) (rl_walk c1_too_long true)
     0x4002 0x3001 /\
   ~ In (0x4002, 0x3001) (bresenham 0x4000 0x2000 0x4002 0x6000) /\
   ~ In (0x4002, 0x3001) (bresenham_strict 0x4000 0x2000 0x4002 0x6000) /\
   ~ In (0x4002, 0x3001) (bresenham_inclusive 0x4000 0x2000 0x4002 0x6000)).
Proof.
  split; [|split].
  - split; [vm_compute; tauto|].
    intros (i & lo & hi & Hlo & Hhi & Hp).
    destruct i as [|[|i]]; vm_compute in Hlo, Hhi;
      try discriminate; injection Hlo as <-; injection Hhi as <-; lia.
  - split; [vm_compute; tauto|].
    intros (i & lo & hi & Hlo & Hhi & Hp).
    destruct i as [|[|[|i]]]; vm_compute in Hlo, Hhi;
      try discriminate; injection Hlo as <-; injection Hhi as <-; lia.
  - split.
    { exists 2%nat, 12289, 24577. repeat split; vm_compute; congruence. }
    repeat split; intros Hin; apply list_elem_of_In in Hin;
      revert Hin; refine (proj1 (bool_decide_eq_false _) _);
      vm_compute; reflexivity.
Qed.

(** C1, as the code has it. For every edge whose coordinates fit the
    packed fields (scanlines below [0x8000], positions within [0x2000] of
    the bias, so that the position delta is below [0x4000]), the pixels
    between the (scanline, position) pairs that [rl_init] and repeated
    [rl_increment_s] visit for the enter variant and for the past-exit
    variant, from [s_b] through [s_e], are exactly the pixels of the
    Bresenham walk [bresenham] of the same segment from the same begin
    point, whose ties fall as stated at [bresenham_loop]; both variants
    visit scanline [s_b + i] at step [i]. This covers the steep, the
    shallow and the single-scanline case and both signs of the position
    delta. *)
Theorem rl_walk_is_bresenham (L : line) :
  line_ok L ->
  (forall (ex : bool) (i : nat), (i <= Z.to_nat (ln_s_e L - ln_s_b L))%nat ->
     exists q, rl_walk L ex !! i = Some (ln_s_b L + Z.of_nat i, q)) /\
  (forall s p,
     In (s, p) (bresenham (ln_s_b L) (ln_p_b L) (ln_s_e L) (ln_p_e L))
     <-> rl_covers (rl_walk L false) (rl_walk L true) s p).
Proof.
  intros Hok. pose proof (line_ok_deltas L Hok) as (Hds & _).
  split.
  - intros ex i Hi. rewrite rl_walk_lookup by assumption.
    fold (ln_d_s L) in Hi.
    destruct (Nat.leb_spec i (Z.to_nat (ln_d_s L))); [eauto | lia].
  - intros s p. rewrite bresenham_on_line by assumption.
    unfold rl_covers. split.
    + intros Hon.
      assert (Hk : 0 <= s - ln_s_b L <= ln_d_s L) by (destruct Hon; lia).
      exists (Z.to_nat (s - ln_s_b L)),
             (ln_pos_at L false (s - ln_s_b L)),
             (ln_pos_at L true (s - ln_s_b L)).
      rewrite !rl_walk_lookup by assumption.
      destruct (Nat.leb_spec (Z.to_nat (s - ln_s_b L)) (Z.to_nat (ln_d_s L)));
        [|lia].
      rewrite Z2Nat.id by lia.
      replace (ln_s_b L + (s - ln_s_b L)) with s by lia.
      repeat split; try reflexivity;
        apply (ln_span_on_line L (s - ln_s_b L) p Hok Hk); exact Hon.
    + intros (i & lo & hi & Hlo & Hhi & Hp).
      rewrite rl_walk_lookup in Hlo, Hhi by assumption.
      destruct (Nat.leb_spec i (Z.to_nat (ln_d_s L))); [|discriminate].
      inversion Hlo; subst. inversion Hhi; subst.
      replace (ln_s_b L + Z.of_nat i - ln_s_b L) with (Z.of_nat i) by lia.
      apply (ln_span_on_line L (Z.of_nat i) p Hok); [lia | exact Hp].
Qed.

Lemma rl_walk_is_bresenham_witness :
  line_ok c1_line /\
  (forall s p,
     In (s, p) (bresenham 0x4003 0x4002 0x4005 0x4009)
     <-> rl_covers (rl_walk c1_line false) (rl_walk c1_line true) s p).
Proof.
  assert (H : line_ok c1_line) by (unfold line_ok; cbn; lia).
  split; [exact H|]. exact (proj2 (rl_walk_is_bresenham c1_line H)).
Defined.
(** C6. When the rasterizer already holds its 512 rasterized lines,
    [_allocate_rl] prints its diagnostic, returns the last slot, 511,
    instead of a new one, leaves the count at 512 and raises nothing; an RL
    written through the returned pointer replaces the RL of slot 511. With
    room left it returns slot [num_rl] and counts one more. Hence no edge
    added with [add_edge_line_fill] raises or takes the count out of
    [0 .. 512]. *)
Theorem allocate_rl_saturates (sr : ScanlineRasterizer) (c : list string) :
  sr_wf sr ->
  (num_rl sr = SR_MAX_NUM_RL ->
     _allocate_rl sr c = Returns 511%nat sr (c ++ ["allocating too many rl"%string])
     /\ forall rl,
          (slot <- _allocate_rl ;; store_rl slot rl) sr c =
          Returns tt (sr_set_rl sr (<[511%nat := rl]> (arr_ptr_rl_sorted sr)))
            (c ++ ["allocating too many rl"%string])) /\
  (num_rl sr < SR_MAX_NUM_RL ->
     _allocate_rl sr c =
       Returns (Z.to_nat (num_rl sr)) (sr_set_num_rl sr (num_rl sr + 1)) c) /\
  (forall x_b y_b x_e y_e region_line region_fill payload_line payload_fill
          mask_layer,
     exists sr' c',
       add_edge_line_fill x_b y_b x_e y_e region_line region_fill
         payload_line payload_fill mask_layer sr c = Returns tt sr' c' /\
       0 <= num_rl sr' <= SR_MAX_NUM_RL).
Proof.
  intros Hwf. split; [|split].
  - intros Hn. pose proof (allocate_rl_full sr c Hwf Hn) as E.
    split; [exact E|]. intros rl. unfold bind. rewrite E. reflexivity.
  - intros Hn. apply allocate_rl_room; assumption.
  - intros x_b y_b x_e y_e rline rfill pline pfill mask.
    destruct (add_edge_line_fill_wf x_b y_b x_e y_e rline rfill pline pfill
      mask sr c Hwf)
      as (sr' & c' & E & Hn & _).
    exists sr', c'. auto.
Qed.

Lemma allocate_rl_saturates_witness :
  sr_wf sr_full /\
  _allocate_rl sr_full [] = Returns 511%nat sr_full ["allocating too many rl"%string].
Proof.
  assert (H : sr_wf sr_full) by (split; [unfold sr_full, SR_MAX_NUM_RL; simpl; lia | reflexivity]).
  split; [exact H|].
  exact (proj1 (proj1 (allocate_rl_saturates sr_full [] H) eq_refl)).
Defined.
(** C4 as stated fails in two ways. A fill-only edge from scanline 0 to
    scanline 3 (line region [RL_REGION_UNUSED], fill region fairway), added
    to an empty rasterizer, leaves one RL in it, the past-exit variant. And
    a wall edge added when one of the 512 slots is free leaves one RL more,
    not two: the enter variant goes to the last slot, the past-exit variant
    replaces it there with the diagnostic of a full pool, and the slot
    before is as it was. *)
Lemma add_edge_fill_only_one_rl :
  match
    add_edge_line_fill 0 0 3 2 RL_REGION_UNUSED MGS_REGION_FAIRWAY 0 2055 1
      sr_empty []
  with
  | Returns _ sr' _ =>
      num_rl sr' = 1 /\
      rl_flag (rl_get (arr_ptr_rl_sorted sr') 0) RL_FLAG_BIT_IS_PAST_EXIT
      = true
  | Raises _ _ _ => False
  end /\
  match
    add_edge_line_fill 0 0 3 2 MGS_REGION_WALL MGS_REGION_FAIRWAY 0 2055 1
      (sr_set_num_rl sr_empty 511) []
  with
  | Returns _ sr' c' =>
      num_rl sr' = 512 /\
      c' = ["allocating too many rl"%string] /\
      rl_get (arr_ptr_rl_sorted sr') 510
      = rl_get (arr_ptr_rl_sorted sr_empty) 510 /\
      rl_flag (rl_get (arr_ptr_rl_sorted sr') 511) RL_FLAG_BIT_IS_PAST_EXIT
      = true
  | Raises _ _ _ => False
  end.
Proof. vm_compute. repeat split; reflexivity. Qed.

(** C4, as the code has it. On a rasterizer with at least two of its 512
    slots free, an edge that lies in one scanline, or that has a line
    region, produces exactly two RL, the enter variant in slot [num_rl]
    and the past-exit variant in the next slot. An edge over
    several scanlines whose line region is [RL_REGION_UNUSED] produces
    exactly one RL: the past-exit variant when its scanlines increase, the
    enter variant when they decrease. When there are two, only the one on
    the fill side carries the fill region. *)
Theorem add_edge_line_fill_count (x_b y_b x_e y_e region_line region_fill
    payload_line payload_fill mask : Z) (sr : ScanlineRasterizer)
    (c : list string) :
  sr_wf sr -> num_rl sr + 2 <= SR_MAX_NUM_RL ->
  exists sr',
    add_edge_line_fill x_b y_b x_e y_e region_line region_fill payload_line
      payload_fill mask sr c = Returns tt sr' c /\
    let n := Z.to_nat (num_rl sr) in
    let s_b := x_b +! RL_SP_BIAS in
    let s_e := x_e +! RL_SP_BIAS in
    let enter fill :=
      edge_rl x_b y_b x_e y_e region_line fill payload_line payload_fill mask
        false in
    let past_exit fill :=
      edge_rl x_b y_b x_e y_e region_line fill payload_line payload_fill mask
        true in
    if s_e =? s_b then
      num_rl sr' = num_rl sr + 2 /\
      arr_ptr_rl_sorted sr' =
        <[S n := past_exit region_fill]>
          (<[n := enter region_fill]> (arr_ptr_rl_sorted sr))
    else if negb (region_line =? RL_REGION_UNUSED) then
      num_rl sr' = num_rl sr + 2 /\
      arr_ptr_rl_sorted sr' =
        <[S n := past_exit (if s_b <? s_e then region_fill
                            else RL_REGION_UNUSED)]>
          (<[n := enter (if s_b <? s_e then RL_REGION_UNUSED
                         else region_fill)]> (arr_ptr_rl_sorted sr))
    else
      num_rl sr' = num_rl sr + 1 /\
      arr_ptr_rl_sorted sr' =
        <[n := if s_b <? s_e then past_exit region_fill
               else enter region_fill]> (arr_ptr_rl_sorted sr).
Proof.
  intros Hwf Hn. pose proof Hwf as [Hn0 Hlen].
  unfold add_edge_line_fill, edge_rl.
  assert (Hsym : (x_b +! RL_SP_BIAS =? x_e +! RL_SP_BIAS)
                 = (x_e +! RL_SP_BIAS =? x_b +! RL_SP_BIAS))
    by apply Z.eqb_sym.
  destruct (Z.ltb_spec (x_b +! RL_SP_BIAS) (x_e +! RL_SP_BIAS)) as [Hlt|Hge];
  destruct (Z.eqb_spec (x_e +! RL_SP_BIAS) (x_b +! RL_SP_BIAS)) as [Heq|Hne];
  try lia;
  destruct (negb (region_line =? RL_REGION_UNUSED)); cbn [orb negb andb];
  unfold bind at 1;
  rewrite ?allocate_store_room by (assumption || lia);
  cbn [ret]; cbv beta;
  rewrite ?allocate_store_room by (assumption || lia);
  try (rewrite allocate_store_room;
       [| apply sr_wf_succ; [assumption | lia | apply length_insert ]
        | cbn; lia ]);
  eexists; (split; [reflexivity|]); cbn;
  (split; [lia|]);
  rewrite ?Z2Nat.inj_add, ?Nat.add_1_r by lia; try reflexivity.
Qed.

Lemma add_edge_line_fill_count_witness :
  sr_wf sr_empty /\ num_rl sr_empty + 2 <= SR_MAX_NUM_RL /\
  exists sr',
    add_edge_line_fill 0 0 3 2 MGS_REGION_WALL MGS_REGION_FAIRWAY 0 2055 1
      sr_empty [] = Returns tt sr' [] /\
    num_rl sr' = 2.
Proof.
  assert (Hwf : sr_wf sr_empty) by (split; [unfold sr_empty, SR_MAX_NUM_RL; simpl; lia | reflexivity]).
  assert (Hn : num_rl sr_empty + 2 <= SR_MAX_NUM_RL)
    by (unfold sr_empty, SR_MAX_NUM_RL; simpl; lia).
  split; [exact Hwf|]. split; [exact Hn|].
  destruct (add_edge_line_fill_count 0 0 3 2 MGS_REGION_WALL
              MGS_REGION_FAIRWAY 0 2055 1 sr_empty [] Hwf Hn)
    as (sr' & E & H).
  exists sr'. split; [exact E|]. exact (proj1 H).
Defined.


(** C5. Take a ball with an angle in [0, 360), a speed that is not
    negative, and up to two contact edges, [-1] standing for none. A
    contact opposes the velocity when [velocity_hits_normal_wd] holds of
    its normal. When exactly one contact opposes, [_maybe_resolve_collision]
    sets the angle to [(2 * normal - angle - 180) mod 360] for the normal of
    that contact and the speed to the speed less [BALL_SUBTR_WALL_F20],
    or to 0 if that is negative. When both oppose the same holds with the
    endpoint normal of the two, the penalty being subtracted once. When
    none opposes the ball is unchanged. Nothing but angle and speed ever
    changes. *)
Theorem resolve_collision_reflects (normals : list Z) (b : BallState) :
  0 <= v_angle_wd b < 360 ->
  0 <= v_w_per_ms_f20 b < 0x80000000 ->
  -1 <= maybe_i_chunk_contact0 b < 0x8000 ->
  -1 <= maybe_i_chunk_contact1 b < 0x8000 ->
  let v := v_angle_wd b in
  let n0 := load16 normals (maybe_i_chunk_contact0 b) in
  let n1 := load16 normals (maybe_i_chunk_contact1 b) in
  let opposes0 :=
    (0 <=? maybe_i_chunk_contact0 b) && velocity_hits_normal_wd v n0 in
  let opposes1 :=
    (0 <=? maybe_i_chunk_contact1 b) && velocity_hits_normal_wd v n1 in
  let slowed := Z.max 0 (v_w_per_ms_f20 b - BALL_SUBTR_WALL_F20) in
  _maybe_resolve_collision normals b =
  match opposes0, opposes1 with
  | true, false => ball_with_velocity b ((2 * n0 - v - 180) mod 360) slowed
  | false, true => ball_with_velocity b ((2 * n1 - v - 180) mod 360) slowed
  | true, true =>
      ball_with_velocity b
        ((2 * get_endpoint_normal_wd n0 n1 - v - 180) mod 360) slowed
  | false, false => b
  end.
Proof.
  intros Hv Hw Hc0 Hc1. cbv zeta. unfold _maybe_resolve_collision.
  rewrite (i32_small (v_angle_wd b)) by lia.
  rewrite (i32_small (v_w_per_ms_f20 b)) by lia.
  rewrite (i32_small (maybe_i_chunk_contact0 b)) by lia.
  rewrite (i32_small (maybe_i_chunk_contact1 b)) by lia.
  pose proof (load16_range normals (maybe_i_chunk_contact0 b)) as Hn0.
  pose proof (load16_range normals (maybe_i_chunk_contact1 b)) as Hn1.
  pose proof (get_endpoint_normal_wd_range
                (load16 normals (maybe_i_chunk_contact0 b))
                (load16 normals (maybe_i_chunk_contact1 b))) as He.
  assert (Hslow :
    (if v_w_per_ms_f20 b -! BALL_SUBTR_WALL_F20 <? 0 then 0
     else v_w_per_ms_f20 b -! BALL_SUBTR_WALL_F20)
    = Z.max 0 (v_w_per_ms_f20 b - BALL_SUBTR_WALL_F20)).
  { unfold BALL_SUBTR_WALL_F20. rewrite i32_small by lia.
    destruct (Z.ltb_spec (v_w_per_ms_f20 b - 24000) 0); lia. }
  destruct (0 <=? maybe_i_chunk_contact0 b) eqn:E0;
  destruct (0 <=? maybe_i_chunk_contact1 b) eqn:E1; cbn [andb];
  repeat match goal with
  | |- context [velocity_hits_normal_wd ?a ?b] =>
      destruct (velocity_hits_normal_wd a b) eqn:?
  end; cbn [andb orb]; try reflexivity;
  rewrite ?Hslow, !reflect_velocity_spec by lia;
  apply set_velocity_reflected.
Qed.

Lemma resolve_collision_reflects_witness :
  v_angle_wd (_maybe_resolve_collision c5_normals c5_ball) = 180 /\
  v_w_per_ms_f20 (_maybe_resolve_collision c5_normals c5_ball) = 6000.
Proof.
  rewrite (resolve_collision_reflects c5_normals c5_ball
             ltac:(simpl; lia) ltac:(simpl; lia) ltac:(simpl; lia)
             ltac:(simpl; lia)).
  split; reflexivity.
Defined.
(** C7. Take a ball that is not stopped and not in the hole, whose
    position and hole position are machine words, whose distance to the
    centre of the hole is below the capture radius (in squares:
    [dx * dx + dy * dy < BALL_HOLE_RADIUS_SQ_F20]) and whose speed is below
    [BALL_HOLE_SLOW_F20]. Then one call of [advance] returns, and what it
    has done is: set [in_hole], restart the done-moving tracking, and update
    that tracking for the timestep. The collision rasterizer, the payload
    buffer and the console are as before, so the collision step has not
    run; the ball is in the hole afterwards. This holds whatever the
    floating-point helpers compute. *)
Theorem advance_rolls_into_hole `{FloatMath} (delta_ms : Z)
    (normals : list Z) (s : AdvanceState) (c : list string) :
  let b := ball s in
  is_stopped b = false -> in_hole b = false ->
  -0x80000000 <= xw_f10 b < 0x80000000 ->
  -0x80000000 <= yw_f10 b < 0x80000000 ->
  -0x80000000 <= xw_hole_f10 b < 0x80000000 ->
  -0x80000000 <= yw_hole_f10 b < 0x80000000 ->
  (xw_hole_f10 b - xw_f10 b) * (xw_hole_f10 b - xw_f10 b)
  + (yw_hole_f10 b - yw_f10 b) * (yw_hole_f10 b - yw_f10 b)
    < BALL_HOLE_RADIUS_SQ_F20 ->
  -0x80000000 <= v_w_per_ms_f20 b < BALL_HOLE_SLOW_F20 ->
  exists b',
    advance delta_ms normals s c =
      Returns tt (mkAdvance b' (rasterizer_collision s) (payload_buffer s)) c
    /\ b' = _update_stopped_tracking delta_ms
              (_reset_is_stopped
                 (_set_hole_status b true (ignore_hole_line b)))
    /\ in_hole b' = true.
Proof.
  intros b Hst Hin Hx Hy Hhx Hhy Hd Hv.
  unfold BALL_HOLE_RADIUS_SQ_F20, BALL_HOLE_SLOW_F20 in *.
  set (dx := xw_hole_f10 b - xw_f10 b) in *.
  set (dy := yw_hole_f10 b - yw_f10 b) in *.
  assert (Hdx : -4608 < dx < 4608) by nia.
  assert (Hdy : -4608 < dy < 4608) by nia.
  eexists. split; [|split; [reflexivity|]].
  - unfold advance, bind at 1, get. fold b. rewrite Hst.
    unfold on_ball at 1, focus, bind at 1.
    unfold _maybe_advance_to_hole_interaction, bind at 1, get. fold b.
    rewrite Hin.
    rewrite (i32_small (xw_f10 b)), (i32_small (yw_f10 b)),
      (i32_small (xw_hole_f10 b)), (i32_small (yw_hole_f10 b)),
      (i32_small (v_w_per_ms_f20 b)) by lia.
    fold dx dy. rewrite (i32_small dx), (i32_small dy) by lia.
    assert (Eax : (if dx <? 0 then 0 -! dx else dx) = Z.abs dx).
    { destruct (Z.ltb_spec dx 0); [rewrite i32_small by lia|]; lia. }
    assert (Eay : (if dy <? 0 then 0 -! dy else dy) = Z.abs dy).
    { destruct (Z.ltb_spec dy 0); [rewrite i32_small by lia|]; lia. }
    rewrite Eax, Eay.
    change (BALL_HOLE_DIAMETER <<! 9) with 4608.
    destruct (Z.ltb_spec 4608 (Z.abs dx)); [lia|].
    destruct (Z.ltb_spec 4608 (Z.abs dy)); [lia|].
    cbn [orb]. unfold BALL_HOLE_SLOW_F20.
    destruct (Z.ltb_spec (v_w_per_ms_f20 b) 10240); [|lia].
    rewrite (i32_small (Z.abs dx * Z.abs dx)) by nia.
    rewrite (i32_small (Z.abs dy * Z.abs dy)) by nia.
    rewrite (i32_small (Z.abs dx * Z.abs dx + Z.abs dy * Z.abs dy)) by nia.
    unfold BALL_HOLE_RADIUS_SQ_F20.
    destruct (Z.ltb_spec (Z.abs dx * Z.abs dx + Z.abs dy * Z.abs dy) 21233664);
      [|nia].
    reflexivity.
  - unfold _update_stopped_tracking.
    match goal with |- context [if ?x then _ else _] => destruct x end;
      reflexivity.
Qed.

Lemma advance_rolls_into_hole_witness :
  exists b',
    advance 33 [] c7_state [] =
      Returns tt (mkAdvance b' (rasterizer_collision c7_state)
                    (payload_buffer c7_state)) []
    /\ in_hole b' = true.
Proof.
  destruct (advance_rolls_into_hole 33 [] c7_state [] eq_refl eq_refl
              ltac:(simpl; lia) ltac:(simpl; lia) ltac:(simpl; lia)
              ltac:(simpl; lia) ltac:(vm_compute; reflexivity)
              ltac:(vm_compute; split; [discriminate | reflexivity]))
    as (b' & E & _ & Hin).
  exists b'. split; [exact E | exact Hin].
Defined.
(** C8. [set_scale_f10] and [set_angle_wd] set
    [update_rasterizer_geometry] and leave the scanline rasterizer as it
    is; a scale of 0, which [set_scale_f10] cannot invert, makes it raise
    [ZeroDivisionError] with the flag already set. The three translation
    setters, [set_translate_screen], [add_to_translate_screen] and
    [set_translate_map_world_to_screen_f10], leave the flag, the scanline
    rasterizer with the geometry submitted to it, the chunk data, the scale
    and the rotation unchanged. Over chunk data that holds the polygons
    [ps], [_maybe_update_rasterizer_geometry], which every draw starts
    with, does with the flag set what [resubmit] does: it empties the
    scanline rasterizer, hands it with [add_edge_line_fill] every side of
    every polygon, both ends under [transform_vertex] at the scale and the
    rotation of that moment, and clears the flag. So it does right after
    [set_scale_f10], at the new scale, and right after [set_angle_wd], at
    the cosine and sine of the new angle; and [rasterize_payload] with the
    flag set is [resubmit] followed by the draw of the state it leaves.
    With the flag clear [_maybe_update_rasterizer_geometry] does
    nothing. *)
Theorem transform_dirty_flag `{FloatMath} (t : TransformedRasterizer)
    (c : list string) :
  (forall scale, scale <> 0 ->
     exists t', set_scale_f10 scale t c = Returns tt t' c /\
       update_rasterizer_geometry t' = true /\ scale_f10 t' = scale /\
       rasterizer t' = rasterizer t) /\
  (exists t', set_scale_f10 0 t c = Raises ZeroDivisionError t' c /\
     update_rasterizer_geometry t' = true /\ rasterizer t' = rasterizer t) /\
  (forall angle_degrees,
     exists t', set_angle_wd angle_degrees t c = Returns tt t' c /\
       update_rasterizer_geometry t' = true /\
       angle_wd t' = wd_init angle_degrees /\
       rasterizer t' = rasterizer t) /\
  (forall x y,
     exists t', set_translate_screen x y t c = Returns tt t' c /\
       same_geometry t t') /\
  (forall delta_x delta_y,
     exists t', add_to_translate_screen delta_x delta_y t c = Returns tt t' c /\
       same_geometry t t') /\
  (forall xw yw xs ys,
     exists t',
       set_translate_map_world_to_screen_f10 xw yw xs ys t c
         = Returns tt t' c /\
       same_geometry t t') /\
  (forall ps, scene_of (chunk_data t) ps ->
     (update_rasterizer_geometry t = true ->
      _maybe_update_rasterizer_geometry t c =
      resubmit (scale_f10 t) (cos_f10 t) (sin_f10 t) ps t c) /\
     (forall scale, scale <> 0 ->
        (set_scale_f10 scale ;;; _maybe_update_rasterizer_geometry) t c =
        (set_scale_f10 scale ;;;
         resubmit scale (cos_f10 t) (sin_f10 t) ps) t c) /\
     (forall angle_degrees,
        (set_angle_wd angle_degrees ;;; _maybe_update_rasterizer_geometry)
          t c =
        (set_angle_wd angle_degrees ;;;
         resubmit (scale_f10 t) (cos_wd_f10 (wd_init angle_degrees))
           (sin_wd_f10 (wd_init angle_degrees)) ps) t c) /\
     (forall mask_layer pb, update_rasterizer_geometry t = true ->
        rasterize_payload mask_layer (t, pb) c =
        (focus fst (fun s t' => (t', snd s))
           (resubmit (scale_f10 t) (cos_f10 t) (sin_f10 t) ps) ;;;
         rasterize_payload mask_layer) (t, pb) c)) /\
  (update_rasterizer_geometry t = false ->
     _maybe_update_rasterizer_geometry t c = Returns tt t c).
Proof.
  split; [|split; [|split; [|split; [|split; [|split; [|split]]]]]].
  - intros scale Hs. eexists. unfold set_scale_f10, bind, get, put.
    destruct (Z.eqb_spec scale 0) as [E|_]; [contradiction|].
    split; [reflexivity|]. repeat split.
  - eexists. split; [reflexivity|]. split; reflexivity.
  - intros a. eexists. unfold set_angle_wd, bind, get, put.
    split; [reflexivity|]. repeat split.
  - intros x y. eexists. split; [reflexivity|]. repeat split.
  - intros x y. eexists. split; [reflexivity|]. repeat split.
  - intros xw yw xs ys. unfold set_translate_map_world_to_screen_f10.
    unfold bind at 1, get. unfold bind at 1, put. unfold bind, get.
    destruct (world_to_screen_f10 _ xw yw) as [xa ya].
    eexists. split; [reflexivity|]. repeat split.
  - intros ps Hsc. split; [|split; [|split]].
    + intros Hu. apply maybe_update_resubmits; assumption.
    + intros scale Hs. unfold bind at 1 2.
      unfold set_scale_f10, bind, get, put.
      destruct (Z.eqb_spec scale 0) as [E|_]; [contradiction|].
      exact (maybe_update_resubmits
               (tr_with_inv_scale (tr_with_scale (tr_with_update t true) scale)
                  (0x100000 / scale)) c ps Hsc eq_refl).
    + intros a. unfold bind at 1 2. unfold set_angle_wd, bind, get, put.
      exact (maybe_update_resubmits
               (tr_with_angle (tr_with_update t true) (wd_init a)
                  (cos_wd_f10 (wd_init a)) (sin_wd_f10 (wd_init a)))
               c ps Hsc eq_refl).
    + intros ml pb Hu. unfold rasterize_payload at 1.
      unfold bind at 1 4. unfold focus at 1 3. cbn [fst snd].
      rewrite (maybe_update_resubmits t c ps Hsc Hu).
      destruct (resubmit _ _ _ ps t c) as [[] t1 c1|e t1 c1] eqn:E;
        [|reflexivity].
      pose proof (resubmit_clears_flag _ _ _ _ _ _ _ _ E) as Hf.
      symmetry. unfold rasterize_payload. unfold bind at 1.
      unfold focus at 1. cbn [fst snd].
      replace (_maybe_update_rasterizer_geometry t1 c1)
        with (@Returns TransformedRasterizer unit tt t1 c1);
        [reflexivity|].
      unfold _maybe_update_rasterizer_geometry, bind, get.
      rewrite Hf. reflexivity.
  - intros Hu. unfold _maybe_update_rasterizer_geometry, bind, get.
    rewrite Hu. reflexivity.
Qed.

Lemma transform_dirty_flag_witness :
  update_rasterizer_geometry c8_drawn = false /\
  scene_of (chunk_data c8_drawn) c8_polygons /\
  (set_scale_f10 2048 ;;; _maybe_update_rasterizer_geometry) c8_drawn [] =
  (set_scale_f10 2048 ;;;
   resubmit 2048 (cos_f10 c8_drawn) (sin_f10 c8_drawn) c8_polygons)
    c8_drawn [] /\
  num_rl (rasterizer (state_of
    ((set_scale_f10 2048 ;;;
      resubmit 2048 (cos_f10 c8_drawn) (sin_f10 c8_drawn) c8_polygons)
       c8_drawn []))) = 8 /\
  rasterizer (state_of
    ((set_scale_f10 2048 ;;;
      resubmit 2048 (cos_f10 c8_drawn) (sin_f10 c8_drawn) c8_polygons)
       c8_drawn [])) <> rasterizer c8_drawn.
Proof.
  assert (Hsc : scene_of (chunk_data c8_drawn) c8_polygons).
  { split; [reflexivity|]. split; [vm_compute; discriminate|].
    cbn [c8_polygons polygons_at pg_mask_trigger pg_mask_layer
         pg_region_fill pg_edges length].
    unfold MGS_REGION_FAIRWAY, RL_REGION_UNUSED, RL_NUM_REGIONS.
    do 4 (split; [simpl; lia|]). do 3 (split; [reflexivity|]).
    split.
    { intros j x y r Hj.
      destruct j as [|[|[|[|j']]]]; simpl in Hj; try discriminate;
        injection Hj as <- <- <-; unfold MGS_REGION_WALL;
        do 3 (split; [lia|]); repeat split; reflexivity. }
    do 4 (split; [simpl; lia|]). do 3 (split; [reflexivity|]).
    split; [|exact I]. intros j x y r Hj. discriminate. }
  split; [reflexivity|]. split; [exact Hsc|]. split.
  - exact (proj1 (proj2 (proj1 (proj2 (proj2 (proj2 (proj2 (proj2 (proj2
             (transform_dirty_flag c8_drawn [])))))))
             c8_polygons Hsc)) 2048 ltac:(lia)).
  - split; [reflexivity|]. vm_compute. discriminate.
Defined.
(** C9. Chunk data that already holds [MAX_NUM_CHUNKS] chunks refuses a
    further loop and a further edge: [add_loop] and [loop_add_edge] raise a
    [RuntimeError]. [chunk_is_loop] and [chunk_edge_get_endpoints] raise a
    [RuntimeError] for a chunk index at or beyond [num_chunks], and
    [chunk_edge_get_endpoints] raises one for a chunk that [chunk_is_loop]
    reports as a loop header. In each of these cases the chunk data and the
    console are as before; the two queries leave the chunk data unchanged
    whatever they do. *)
Theorem chunk_data_fails_fast (cd : ChunkData) (c : list string) :
  (MAX_NUM_CHUNKS <= num_chunks cd ->
     (forall region_fill mask_layer mask_trigger,
        add_loop region_fill mask_layer mask_trigger cd c =
        Raises
          (RuntimeError
             (if (mask_layer <=? 0) || (mask_trigger <? 0)
                 || (0xf <? mask_layer) || (0xf <? mask_trigger)
              then "bad layer/trigger masks"%string
              else "too many chunks"%string))
          cd c) /\
     (forall x y region_line offset_x offset_y,
        loop_add_edge x y region_line offset_x offset_y cd c =
        Raises (RuntimeError "too many chunks") cd c)) /\
  (forall i_chunk, num_chunks cd <= i_chunk ->
     chunk_is_loop i_chunk cd c =
       Raises (RuntimeError "chunk index out of range") cd c /\
     chunk_edge_get_endpoints i_chunk cd c =
       Raises (RuntimeError "chunk index out of range") cd c) /\
  (forall i_chunk, chunk_is_loop i_chunk cd c = Returns true cd c ->
     chunk_edge_get_endpoints i_chunk cd c =
       Raises (RuntimeError "chunk is not an edge") cd c) /\
  (forall i_chunk,
     state_of (chunk_is_loop i_chunk cd c) = cd /\
     state_of (chunk_edge_get_endpoints i_chunk cd c) = cd).
Proof.
  split; [|split; [|split]].
  - intros Hfull. split.
    + intros rf ml mt. unfold add_loop.
      destruct ((ml <=? 0) || (mt <? 0) || (0xf <? ml) || (0xf <? mt));
        [reflexivity|].
      unfold bind at 1. rewrite get_i_acd_next_chunk_full by assumption.
      reflexivity.
    + intros x y rl ox oy. unfold loop_add_edge, bind at 1.
      rewrite get_i_acd_next_chunk_full by assumption. reflexivity.
  - intros i Hi. unfold chunk_is_loop, chunk_edge_get_endpoints, bind, get.
    destruct (Z.leb_spec (num_chunks cd) i); [|lia]. split; reflexivity.
  - intros i. unfold chunk_is_loop, chunk_edge_get_endpoints.
    unfold bind at 1 3, get.
    destruct (num_chunks cd <=? i); [discriminate|].
    unfold bind at 1 2.
    destruct (acd_load_cases (Z.shiftl i 2 + I_CHUNK_IF_LOOP_MASK_TRIGGER_LAYER)
                cd c) as [[v ->]| ->]; [|discriminate].
    unfold ret. intros E. inversion E as [Ev]. rewrite Ev. reflexivity.
  - intros i. split;
      [apply chunk_is_loop_state | apply chunk_edge_get_endpoints_state].
Qed.

Lemma chunk_data_fails_fast_witness :
  loop_add_edge 1 2 MGS_REGION_WALL 0 0 c9_full [] =
    Raises (RuntimeError "too many chunks") c9_full [] /\
  chunk_edge_get_endpoints 0 c8_chunks [] =
    Raises (RuntimeError "chunk is not an edge") c8_chunks [].
Proof.
  split.
  - exact (proj2 (proj1 (chunk_data_fails_fast c9_full [])
                    ltac:(vm_compute; discriminate)) 1 2 MGS_REGION_WALL 0 0).
  - exact (proj1 (proj2 (proj2 (chunk_data_fails_fast c8_chunks []))) 0
             ltac:(vm_compute; reflexivity)).
Defined.
(** C10. [set_dimensions] raises its [RuntimeError] when
    [width * height] is above [PB_MAX_PIXELS], leaving the buffer with its
    dimensions as it was, and otherwise returns with the new dimensions:
    so it raises exactly when the product is above 1024. The collision
    step asks for [BALL_DIAMETER] columns by [payload_dim_y] rows before it
    does anything else; when that product is above 1024 it raises the same
    error and leaves ball, rasterizer and payload buffer untouched, and an
    [advance] whose hole interaction has not handled the timestep raises
    with it. *)
Theorem set_dimensions_capacity `{FloatMath} (width height delta_ms : Z)
    (normals : list Z) (s : AdvanceState) (c : list string) :
  let pb := payload_buffer s in
  (PB_MAX_PIXELS < width * height ->
     set_dimensions width height pb c = Raises (too_large width height) pb c)
  /\
  (width * height <= PB_MAX_PIXELS ->
     set_dimensions width height pb c =
     Returns tt (mkPB (pb_buffer pb) width height) c) /\
  (PB_MAX_PIXELS < BALL_DIAMETER * payload_dim_y (ball s) delta_ms ->
     _advance_to_collision_axis_aligned delta_ms normals s c =
     Raises (too_large BALL_DIAMETER (payload_dim_y (ball s) delta_ms)) s c)
  /\
  (forall b1 c1,
     is_stopped (ball s) = false ->
     _maybe_advance_to_hole_interaction delta_ms (ball s) c
       = Returns false b1 c1 ->
     PB_MAX_PIXELS < BALL_DIAMETER * payload_dim_y b1 delta_ms ->
     advance delta_ms normals s c =
     Raises (too_large BALL_DIAMETER (payload_dim_y b1 delta_ms))
       (mkAdvance b1 (rasterizer_collision s) (payload_buffer s)) c1).
Proof.
  cbv zeta. split; [|split; [|split]].
  - apply set_dimensions_raises.
  - apply set_dimensions_returns.
  - apply collision_step_raises.
  - intros b1 c1 Hst Hhole Hbig.
    unfold advance, bind at 1, get. rewrite Hst.
    unfold bind at 1, on_ball at 1, focus. rewrite Hhole.
    cbn [negb]. unfold bind at 1, bind at 1.
    rewrite collision_step_raises by exact Hbig. reflexivity.
Qed.

Lemma set_dimensions_capacity_witness :
  payload_dim_y c10_ball 200 = 207 /\
  advance 200 [] c10_state [] =
    Raises (RuntimeError "setting too-large payload buffer 5, 207")
      c10_state [].
Proof.
  split; [reflexivity|].
  exact (proj2 (proj2 (proj2 (set_dimensions_capacity 1 1 200 [] c10_state
                                [])))
           c10_ball [] eq_refl ltac:(vm_compute; reflexivity)
           ltac:(vm_compute; reflexivity)).
Defined.
(** * Further properties of the code *)

(** X1. Seeking is stepping: from whatever scanline the RL of an edge is
    at, [rl_seek_s_to] to a scanline of the edge leaves it exactly as
    [rl_init] followed by that many [rl_increment_s] does; a scanline
    before the edge gives the state after [rl_init], a scanline past the
    edge changes nothing. *)
Theorem rl_seek_is_stepping (L : line) (ex : bool) (k : nat) (s : Z) :
  line_ok L ->
  rl_seek_s_to (rl_after L ex k) s =
  if ln_s_e L <? s then rl_after L ex k
  else rl_after L ex (Z.to_nat (s - ln_s_b L)).
Proof.
  intros Hok. pose proof (line_ok_deltas L Hok) as (Hds & _).
  rewrite !rl_after_at by assumption.
  rewrite rl_seek_at by (assumption || lia).
  destruct (ln_s_e L <? s) eqn:E; [reflexivity|].
  apply Z.ltb_ge in E. unfold ln_d_s in *. f_equal. lia.
Qed.

Lemma rl_seek_is_stepping_witness :
  rl_seek_s_to (rl_after c1_line true 2) 0x4004 = rl_after c1_line true 1.
Proof.
  exact (rl_seek_is_stepping c1_line true 2 0x4004
           ltac:(unfold line_ok; simpl; lia)).
Defined.

(** X2. Once the RL of an edge is at its last scanline, [rl_increment_s]
    changes nothing, however often it is called. *)
Theorem rl_increment_stops_at_end (L : line) (ex : bool) (k : nat) :
  line_ok L -> (Z.to_nat (ln_s_e L - ln_s_b L) <= k)%nat ->
  rl_increment_s (rl_after L ex k) = rl_after L ex k /\
  rl_s (rl_after L ex k) = ln_s_e L.
Proof.
  intros Hok Hk. pose proof (line_ok_deltas L Hok) as (Hds & _).
  fold (ln_d_s L) in Hk.
  rewrite rl_after_at by assumption.
  rewrite Z.min_r by lia. split.
  - rewrite rl_increment_at by (assumption || lia). f_equal. lia.
  - rewrite (proj1 (rl_at_s_p L ex (ln_d_s L) Hok ltac:(lia))).
    unfold ln_d_s. lia.
Qed.

Lemma rl_increment_stops_at_end_witness :
  rl_increment_s (rl_after c1_line false 5) = rl_after c1_line false 5 /\
  rl_s (rl_after c1_line false 5) = 0x4005.
Proof.
  exact (rl_increment_stops_at_end c1_line false 5
           ltac:(unfold line_ok; simpl; lia) ltac:(simpl; lia)).
Defined.

(** X3. [_sort_range_ptr_rl_insertion] leaves the pointers of the range in
    the order of their packed (s, p), keeps the same RL overall, and does
    not touch the pointers outside the range. *)
Theorem sort_range_sorts (arr : list RL) (i_begin i_end : nat) :
  (i_end <= length arr)%nat ->
  let r := _sort_range_ptr_rl_insertion arr i_begin i_end in
  sorted_range r i_begin i_end /\ r ≡ₚ arr /\
  (forall i, (i < i_begin)%nat \/ (i_end <= i)%nat -> r !! i = arr !! i).
Proof.
  intros Hlen. cbv zeta. unfold _sort_range_ptr_rl_insertion.
  destruct (Nat.leb_spec i_end i_begin) as [Hle|Hlt].
  - split; [|auto]. intros i j Hi Hij Hj. lia.
  - pose proof (sort_insert_spec i_begin (i_end - (i_begin + 1)) arr
                  (i_begin + 1) (I_RL_SP (rl_get arr i_begin))) as H.
    destruct H as (Hs & Hperm & Hl & Hout).
    + lia.
    + lia.
    + intros i j Hi Hij Hj. assert (i = j) by lia. subst. lia.
    + replace (i_begin + 1 - 1)%nat with i_begin by lia. reflexivity.
    + replace (i_begin + 1 + (i_end - (i_begin + 1)))%nat with i_end in *
        by lia.
      split; [exact Hs|]. split; [exact Hperm|].
      intros i Hi. specialize (Hout i Hi). unfold rl_get in Hout.
      set (r := sort_insert _ _ _ _ _) in *.
      destruct (Nat.lt_ge_cases i (length arr)) as [Hin|Hnin].
      * destruct (lookup_lt_is_Some_2 r i ltac:(lia)) as [x Hx].
        destruct (lookup_lt_is_Some_2 arr i ltac:(lia)) as [y Hy].
        rewrite Hx, Hy in *. cbn in Hout. congruence.
      * rewrite !lookup_ge_None_2 by lia. reflexivity.
Qed.

Lemma sort_range_sorts_witness :
  sorted_range (_sort_range_ptr_rl_insertion x3_rls 0 3) 0 3.
Proof.
  exact (proj1 (sort_range_sorts x3_rls 0 3 ltac:(simpl; lia))).
Defined.
(** X4. [PayloadBuffer.fill] stores the low 16 bits of the payload in the
    first [width * height] cells of the buffer and changes no other cell
    and no dimension; it never raises. *)
Theorem payload_fill_cells (payload : Z) (pb : PayloadBuffer)
    (c : list string) :
  exists pb',
    pb_fill payload pb c = Returns tt pb' c /\
    pb_width pb' = pb_width pb /\ pb_height pb' = pb_height pb /\
    length (pb_buffer pb') = length (pb_buffer pb) /\
    forall i,
      peek (pb_buffer pb') i =
      if (0 <=? i) && (i <? pb_width pb *! pb_height pb)
         && (i <? Z.of_nat (length (pb_buffer pb)))
      then Z.land payload 0xffff else peek (pb_buffer pb) i.
Proof.
  eexists. unfold pb_fill, bind, get, put.
  split; [reflexivity|]. cbn [pb_width pb_height pb_buffer].
  split; [reflexivity|]. split; [reflexivity|].
  split; [apply fill_cells_length|].
  intros i. rewrite fill_cells_spec by lia. unfold store16.
  set (size := pb_width pb *! pb_height pb).
  destruct (Z.leb_spec 0 i); cbn [andb]; [|reflexivity].
  destruct (Z.ltb_spec i (0 + Z.of_nat (Z.to_nat size))),
    (Z.ltb_spec i size); cbn [andb]; try reflexivity; lia.
Qed.

(** X5. With no geometry submitted and none to submit,
    [rasterize_payload] leaves every cell of the [width * height] payload
    buffer at the payload of empty, non-wall ground, and leaves the
    transformed rasterizer as it was. *)
Theorem rasterize_payload_no_geometry (mask : Z) (t : TransformedRasterizer)
    (pb : PayloadBuffer) (c : list string) :
  update_rasterizer_geometry t = false ->
  num_rl (rasterizer t) <= 0 ->
  exists pb',
    rasterize_payload mask (t, pb) c = Returns tt (t, pb') c /\
    pb_width pb' = pb_width pb /\ pb_height pb' = pb_height pb /\
    forall i,
      0 <= i < pb_width pb *! pb_height pb ->
      i < Z.of_nat (length (pb_buffer pb)) ->
      peek (pb_buffer pb') i = Z.lor MGS_REGION_EMPTY MGS_PAYLOAD_BIT_NON_WALL.
Proof.
  intros Hu Hn.
  destruct (payload_fill_cells (Z.lor MGS_REGION_EMPTY MGS_PAYLOAD_BIT_NON_WALL)
              pb c) as (pb1 & E1 & Hw & Hh & Hlen & Hcells).
  exists pb1. split.
  - unfold rasterize_payload.
    unfold bind at 1, focus at 1. cbn [fst snd].
    unfold _maybe_update_rasterizer_geometry, bind at 1, get.
    rewrite Hu. unfold ret at 1.
    unfold bind at 1, focus at 1. cbn [fst snd]. rewrite E1.
    unfold bind, get. cbn [fst snd].
    rewrite rasterize_to_buffer_no_rl by assumption.
    rewrite tr_with_rasterizer_eta. destruct pb1; reflexivity.
  - split; [exact Hw|]. split; [exact Hh|].
    intros i Hi Hi'. rewrite Hcells.
    destruct (Z.leb_spec 0 i); [|lia].
    destruct (Z.ltb_spec i (pb_width pb *! pb_height pb)); [|lia].
    destruct (Z.ltb_spec i (Z.of_nat (length (pb_buffer pb)))); [|lia].
    reflexivity.
Qed.

Lemma rasterize_payload_no_geometry_witness :
  exists pb',
    rasterize_payload 1 (x6_tr, pb_init) [] = Returns tt (x6_tr, pb') [] /\
    peek (pb_buffer pb') 0 = 0x808.
Proof.
  destruct (rasterize_payload_no_geometry 1 x6_tr pb_init [] eq_refl
              ltac:(vm_compute; discriminate))
    as (pb' & E & _ & _ & Hcells).
  exists pb'. split; [exact E|].
  exact (Hcells 0 ltac:(vm_compute; split; [discriminate | reflexivity])
           ltac:(vm_compute; reflexivity)).
Defined.
(** X6. For an angle and a normal in [0, 360), the reflected angle is in
    [0, 360) again, reflecting it once more about the same normal gives
    the angle back, and if the velocity hit the normal before the
    reflection it does not hit it after: the ball does not collide with
    the same wall again. *)
Theorem reflect_leaves_wall (v n : Z) :
  0 <= v < 360 -> 0 <= n < 360 ->
  let v' := reflect_velocity_about_normal_wd v n in
  0 <= v' < 360 /\
  reflect_velocity_about_normal_wd v' n = v /\
  (velocity_hits_normal_wd v n = true -> velocity_hits_normal_wd v' n = false).
Proof.
  intros Hv Hn. cbv zeta.
  rewrite (reflect_velocity_spec v n) by lia.
  pose proof (Z.mod_pos_bound (2 * n - v - 180) 360 ltac:(lia)) as Hr.
  pose proof (Z.div_mod (2 * n - v - 180) 360 ltac:(lia)) as Hq.
  set (r := (2 * n - v - 180) mod 360) in *.
  set (q := (2 * n - v - 180) / 360) in *.
  split; [exact Hr|]. split.
  - rewrite reflect_velocity_spec by lia.
    replace (2 * n - r - 180) with (v + q * 360) by lia.
    rewrite Z.mod_add by lia.
    apply Z.mod_small. lia.
  - rewrite !velocity_hits_spec by lia.
    intros H. apply andb_true_iff in H. destruct H as [H1 H2].
    apply Z.ltb_lt in H1, H2. apply andb_false_iff.
    destruct (Z.ltb_spec 90 (Z.abs (r - n))); [right|left; reflexivity].
    apply Z.ltb_ge. lia.
Qed.

Lemma reflect_leaves_wall_witness :
  reflect_velocity_about_normal_wd 0 180 = 180 /\
  velocity_hits_normal_wd 180 180 = false.
Proof.
  pose proof (reflect_leaves_wall 0 180 ltac:(lia) ltac:(lia)) as (_ & _ & H).
  split; [reflexivity|]. exact (H eq_refl).
Defined.

(** X7. The endpoint normal of two normals is an angle in [0, 360), the
    endpoint normal of a normal with itself is that normal, and the order
    of the two normals does not matter unless they are opposite. *)
Theorem endpoint_normal_symmetric (n0 n1 : Z) :
  0 <= n0 < 360 -> 0 <= n1 < 360 ->
  0 <= get_endpoint_normal_wd n0 n1 < 360 /\
  get_endpoint_normal_wd n0 n0 = n0 /\
  ((n1 - n0) mod 360 <> 180 ->
   get_endpoint_normal_wd n0 n1 = get_endpoint_normal_wd n1 n0).
Proof.
  intros H0 H1. split; [apply get_endpoint_normal_wd_range|].
  unfold get_endpoint_normal_wd.
  rewrite !(i32_small (n0 - n0)), !(i32_small (n1 - n0)),
    !(i32_small (n0 - n1)) by lia.
  split.
  - replace (n0 - n0) with 0 by lia.
    change (0 mod 360) with 0. change (0 <? 180) with true. cbv iota.
    change (Z.shiftr 0 1) with 0.
    rewrite i32_small by lia. replace (n0 + 0) with n0 by lia.
    apply Z.mod_small. lia.
  - intros Hopp.
    pose proof (Z.mod_pos_bound (n1 - n0) 360 ltac:(lia)) as Hz.
    pose proof (Z.mod_pos_bound (n0 - n1) 360 ltac:(lia)) as Hz'.
    pose proof (Z.div_mod (n1 - n0) 360 ltac:(lia)) as Hq.
    pose proof (Z.div_mod (n0 - n1) 360 ltac:(lia)) as Hq'.
    set (z := (n1 - n0) mod 360) in *. set (z' := (n0 - n1) mod 360) in *.
    set (q := (n1 - n0) / 360) in *. set (q' := (n0 - n1) / 360) in *.
    rewrite !Z.shiftr_div_pow2 by lia. change (2 ^ 1) with 2.
    pose proof (Z.div_mod z 2 ltac:(lia)) as Hh.
    pose proof (Z.mod_pos_bound z 2 ltac:(lia)) as Hhb.
    pose proof (Z.div_mod z' 2 ltac:(lia)) as Hh'.
    pose proof (Z.mod_pos_bound z' 2 ltac:(lia)) as Hhb'.
    set (h := z / 2) in *. set (h' := z' / 2) in *.
    set (m := z mod 2) in *. set (m' := z' mod 2) in *.
    assert (Hzz : (z = 0 /\ z' = 0) \/ (z' = 360 - z /\ 0 < z)) by lia.
    destruct (Z.ltb_spec z 180), (Z.ltb_spec z' 180);
      rewrite ?(i32_small (n0 + h)), ?(i32_small (n1 + h')),
        ?(i32_small (n0 + h + 180)), ?(i32_small (n1 + h' + 180)) by lia.
    + assert (z = 0) by lia. assert (n0 = n1) by lia. subst n1.
      f_equal; lia.
    + assert (E : n1 + h' + 180 = n0 + h + (q + 1) * 360) by lia.
      rewrite E. rewrite Z.mod_add by lia. reflexivity.
    + assert (E : n0 + h + 180 = n1 + h' + (q' + 1) * 360) by lia.
      rewrite E. rewrite Z.mod_add by lia. reflexivity.
    + lia.
Qed.

Lemma endpoint_normal_symmetric_witness :
  get_endpoint_normal_wd 350 80 = get_endpoint_normal_wd 80 350.
Proof.
  exact (proj2 (proj2 (endpoint_normal_symmetric 350 80 ltac:(lia)
                         ltac:(lia))) ltac:(vm_compute; discriminate)).
Defined.
(** X8. After [set_translate_map_world_to_screen_f10], the world point
    handed to it maps to the pixel of the screen point handed to it: both
    round to the same integer coordinates. The translation and the screen
    point have to stay well inside a machine word. *)
Theorem translate_map_hits_target (xw yw xs ys : Z)
    (t : TransformedRasterizer) (c : list string) :
  -0x100000 <= translate_screen_x t <= 0x100000 ->
  -0x100000 <= translate_screen_y t <= 0x100000 ->
  -0x20000000 <= xs < 0x20000000 ->
  -0x20000000 <= ys < 0x20000000 ->
  exists t',
    set_translate_map_world_to_screen_f10 xw yw xs ys t c = Returns tt t' c /\
    Z.shiftr ((world_to_screen_f10 t' xw yw).1 + 0x200) 10
      = Z.shiftr (xs + 0x200) 10 /\
    Z.shiftr ((world_to_screen_f10 t' xw yw).2 + 0x200) 10
      = Z.shiftr (ys + 0x200) 10.
Proof.
  intros Htx Hty Hxs Hys.
  pose proof (world_to_screen_split (tr_with_next_draw t xw yw) xw yw Htx Hty)
    as Hsplit.
  rewrite rotate_scale_next_draw in Hsplit.
  destruct (rotate_scale_f10 t xw yw) as [rx ry] eqn:Er.
  destruct Hsplit as (Ew & Hrx & Hry).
  cbn [translate_screen_x translate_screen_y tr_with_next_draw] in Ew.
  unfold set_translate_map_world_to_screen_f10.
  unfold bind at 1, get. unfold bind at 1, put. unfold bind, get.
  rewrite Ew. cbn [translate_screen_x translate_screen_y tr_with_next_draw].
  rewrite !shiftr_10_add.
  eexists. split; [reflexivity|].
  set (tx' := translate_screen_x t
              + (Z.shiftr (xs + 0x200) 10
                 - (Z.shiftr (rx + 0x200) 10 + translate_screen_x t))).
  set (ty' := translate_screen_y t
              + (Z.shiftr (ys + 0x200) 10
                 - (Z.shiftr (ry + 0x200) 10 + translate_screen_y t))).
  assert (Hdx : -0x80000 <= Z.shiftr (xs + 0x200) 10 <= 0x80000).
  { rewrite Z.shiftr_div_pow2 by lia. change (2 ^ 10) with 1024.
    pose proof (Z.div_mod (xs + 512) 1024 ltac:(lia)).
    pose proof (Z.mod_pos_bound (xs + 512) 1024 ltac:(lia)). lia. }
  assert (Hdy : -0x80000 <= Z.shiftr (ys + 0x200) 10 <= 0x80000).
  { rewrite Z.shiftr_div_pow2 by lia. change (2 ^ 10) with 1024.
    pose proof (Z.div_mod (ys + 512) 1024 ltac:(lia)).
    pose proof (Z.mod_pos_bound (ys + 512) 1024 ltac:(lia)). lia. }
  assert (Hax : -0x1000 <= Z.shiftr (rx + 0x200) 10 <= 0x1000).
  { rewrite Z.shiftr_div_pow2 by lia. change (2 ^ 10) with 1024.
    pose proof (Z.div_mod (rx + 512) 1024 ltac:(lia)).
    pose proof (Z.mod_pos_bound (rx + 512) 1024 ltac:(lia)). lia. }
  assert (Hay : -0x1000 <= Z.shiftr (ry + 0x200) 10 <= 0x1000).
  { rewrite Z.shiftr_div_pow2 by lia. change (2 ^ 10) with 1024.
    pose proof (Z.div_mod (ry + 512) 1024 ltac:(lia)).
    pose proof (Z.mod_pos_bound (ry + 512) 1024 ltac:(lia)). lia. }
  pose proof (world_to_screen_split
                (tr_with_translate (tr_with_next_draw t xw yw) tx' ty') xw yw)
    as Hsplit'.
  rewrite rotate_scale_translate, rotate_scale_next_draw, Er in Hsplit'.
  cbn [translate_screen_x translate_screen_y tr_with_translate] in Hsplit'.
  destruct Hsplit' as (Ew' & _); [subst tx'; lia | subst ty'; lia |].
  rewrite Ew'. cbn [fst snd]. rewrite !shiftr_10_add.
  subst tx' ty'. split; lia.
Qed.

Lemma translate_map_hits_target_witness :
  exists t',
    set_translate_map_world_to_screen_f10 3072 2048 5120 7168 c8_tr []
      = Returns tt t' [] /\
    Z.shiftr ((world_to_screen_f10 t' 3072 2048).1 + 0x200) 10 = 5.
Proof.
  destruct (translate_map_hits_target 3072 2048 5120 7168 c8_tr []
              ltac:(simpl; lia) ltac:(simpl; lia) ltac:(lia) ltac:(lia))
    as (t' & E & Hx & _).
  exists t'. split; [exact E | exact Hx].
Defined.

(** X9. [add_to_translate_screen] moves the screen image of every world
    point by exactly the given number of pixels, which is why a changed
    translation needs no new geometry. *)
Theorem add_to_translate_shifts (delta_x delta_y xw yw : Z)
    (t : TransformedRasterizer) (c : list string) :
  -0x100000 <= translate_screen_x t <= 0x100000 ->
  -0x100000 <= translate_screen_y t <= 0x100000 ->
  -0x100000 <= translate_screen_x t + delta_x <= 0x100000 ->
  -0x100000 <= translate_screen_y t + delta_y <= 0x100000 ->
  exists t',
    add_to_translate_screen delta_x delta_y t c = Returns tt t' c /\
    world_to_screen_f10 t' xw yw =
      ((world_to_screen_f10 t xw yw).1 + delta_x * 1024,
       (world_to_screen_f10 t xw yw).2 + delta_y * 1024).
Proof.
  intros Htx Hty Htx' Hty'.
  unfold add_to_translate_screen, bind, get, put.
  eexists. split; [reflexivity|].
  pose proof (world_to_screen_split t xw yw Htx Hty) as H1.
  pose proof (world_to_screen_split
                (tr_with_translate t (translate_screen_x t + delta_x)
                   (translate_screen_y t + delta_y)) xw yw) as H2.
  rewrite rotate_scale_translate in H2.
  cbn [translate_screen_x translate_screen_y tr_with_translate] in H2.
  destruct (rotate_scale_f10 t xw yw) as [rx ry].
  destruct H1 as (-> & _). destruct H2 as (-> & _); [lia | lia |].
  cbn [fst snd]. f_equal; lia.
Qed.

Lemma add_to_translate_shifts_witness :
  exists t',
    add_to_translate_screen 3 (-2) c8_tr [] = Returns tt t' [] /\
    world_to_screen_f10 t' 1024 1024 = (1024 + 3 * 1024, 1024 + -2 * 1024).
Proof.
  destruct (add_to_translate_shifts 3 (-2) 1024 1024 c8_tr []
              ltac:(simpl; lia) ltac:(simpl; lia) ltac:(simpl; lia)
              ltac:(simpl; lia))
    as (t' & E & H).
  exists t'. split; [exact E | exact H].
Defined.
(** X10. When [_maybe_advance_to_hole_interaction] declines the
    timestep, it has printed nothing and changed nothing of the ball but,
    at most, cleared [ignore_hole_line]: position, velocity and contacts
    are those the collision step is to work on. This holds whatever the
    floating-point helpers compute. *)
Theorem hole_declines_changes_nothing `{FloatMath} (delta_ms : Z)
    (b b' : BallState) (c c' : list string) :
  _maybe_advance_to_hole_interaction delta_ms b c = Returns false b' c' ->
  c' = c /\
  (b' = b \/ b' = _set_hole_status b (in_hole b) false).
Proof.
  unfold _maybe_advance_to_hole_interaction, hole_line_interaction.
  unfold bind, get, modify, ret, raise. cbv zeta.
  repeat match goal with
  | |- context [if ?x then _ else _] => destruct x
  end;
  intros E; try discriminate E; inversion E; subst; auto.
Qed.

Lemma hole_declines_changes_nothing_witness :
  _maybe_advance_to_hole_interaction 200 c10_ball [] =
    Returns false c10_ball [] /\
  (c10_ball = c10_ball \/
   c10_ball = _set_hole_status c10_ball (in_hole c10_ball) false).
Proof.
  assert (E : _maybe_advance_to_hole_interaction 200 c10_ball [] =
              Returns false c10_ball []) by (vm_compute; reflexivity).
  split; [exact E|].
  exact (proj2 (hole_declines_changes_nothing 200 c10_ball c10_ball [] [] E)).
Defined.

(** X11. A ball that is in the hole is moved by
    [_maybe_advance_to_hole_interaction] to a point between where it was
    and the centre of the hole, in each coordinate, never past the centre
    and never away from it, and nothing else of it changes; the timestep
    counts as handled. The timestep has to be at most 341 ms, so that
    [BALL_COEFF_A * delta_ms] is at most 1024. *)
Theorem in_hole_rolls_to_centre `{FloatMath} (delta_ms : Z) (b : BallState)
    (c : list string) :
  in_hole b = true ->
  0 <= delta_ms -> BALL_COEFF_A * delta_ms <= 1024 ->
  -0x100000 <= xw_f10 b <= 0x100000 -> -0x100000 <= yw_f10 b <= 0x100000 ->
  -0x100000 <= xw_hole_f10 b <= 0x100000 ->
  -0x100000 <= yw_hole_f10 b <= 0x100000 ->
  exists xw' yw',
    _maybe_advance_to_hole_interaction delta_ms b c =
      Returns true (_set_location_f10 b xw' yw') c /\
    Z.min (xw_f10 b) (xw_hole_f10 b) <= xw' <= Z.max (xw_f10 b) (xw_hole_f10 b)
    /\
    Z.min (yw_f10 b) (yw_hole_f10 b) <= yw' <= Z.max (yw_f10 b) (yw_hole_f10 b).
Proof.
  unfold BALL_COEFF_A. intros Hin Hd Ha Hx Hy Hhx Hhy.
  unfold _maybe_advance_to_hole_interaction, bind, get, modify, ret.
  rewrite Hin. cbv zeta.
  rewrite (i32_small delta_ms), (i32_small (xw_f10 b)),
    (i32_small (yw_f10 b)), (i32_small (xw_hole_f10 b)),
    (i32_small (yw_hole_f10 b)) by lia.
  unfold BALL_COEFF_A. rewrite (i32_small (3 * delta_ms)) by lia.
  eexists _, _. split; [reflexivity|].
  split; apply toward_spec; lia.
Qed.

Lemma in_hole_rolls_to_centre_witness :
  exists xw' yw',
    _maybe_advance_to_hole_interaction 33 x11_ball [] =
      Returns true (_set_location_f10 x11_ball xw' yw') [] /\
    1000 <= xw' <= 3000 /\ 1000 <= yw' <= 2000.
Proof.
  destruct (in_hole_rolls_to_centre 33 x11_ball [] eq_refl ltac:(lia)
              ltac:(vm_compute; discriminate) ltac:(simpl; lia)
              ltac:(simpl; lia) ltac:(simpl; lia) ltac:(simpl; lia))
    as (xw' & yw' & E & Hx & Hy).
  exists xw', yw'. split; [exact E|]. split; [exact Hx | exact Hy].
Defined.
(** X12. However many timesteps [advance] runs, with whatever timesteps,
    collision geometry and floating-point helpers, and whether or not one
    of them raises, the ball keeps the position of the hole and the
    position of its last shot, and an angle of velocity that was a wrapped
    degree is one afterwards. *)
Theorem frames_keep_hole_and_last_shot `{FloatMath} (frames : list Z)
    (arr_chunk_normal_wd : list Z) (s : AdvanceState) (c : list string) :
  ball_kept (ball s)
    (ball (state_of (advance_frames frames arr_chunk_normal_wd s c))).
Proof. apply advance_frames_keeps. Qed.

(** X13. [update_last_shot], any run of timesteps, then
    [move_to_last_shot]: the ball is back where the shot was taken, the
    hole is where it was, and the ball is neither stopped, in the water nor
    in the hole, with no water time and no contact edges. *)
Theorem move_to_last_shot_round_trip `{FloatMath} (frames : list Z)
    (arr_chunk_normal_wd : list Z) (s : AdvanceState) (c : list string) :
  let shot :=
    mkAdvance (update_last_shot (ball s)) (rasterizer_collision s)
      (payload_buffer s) in
  let b' :=
    move_to_last_shot
      (ball (state_of (advance_frames frames arr_chunk_normal_wd shot c))) in
  xw_f10 b' = xw_f10 (ball s) /\ yw_f10 b' = yw_f10 (ball s) /\
  xw_hole_f10 b' = xw_hole_f10 (ball s) /\
  yw_hole_f10 b' = yw_hole_f10 (ball s) /\
  is_stopped b' = false /\ in_water b' = false /\ in_hole b' = false /\
  water_ms b' = 0 /\
  maybe_i_chunk_contact0 b' = -1 /\ maybe_i_chunk_contact1 b' = -1.
Proof.
  cbv zeta.
  destruct (advance_frames_keeps frames arr_chunk_normal_wd
              (mkAdvance (update_last_shot (ball s)) (rasterizer_collision s)
                 (payload_buffer s)) c) as (Hx & Hy & Hlx & Hly & _).
  cbn in Hx, Hy, Hlx, Hly. cbn. auto 12.
Qed.
(** X14. On a chunk array that ends in its terminating empty loop, with
    room for the new chunks and values that fit the 16-bit fields,
    [add_loop] followed by [loop_add_edge_batch] returns and leaves such an
    array again: the chunk that was the terminating loop is the header of
    the new loop, with its fill region and its number of edges; the chunks
    before it are as they were; and [chunk_edge_get_endpoints] gives, for
    each edge of the batch, its vertex and the next vertex of the list,
    both moved by the offsets, the last edge ending at the first vertex. *)
Theorem loop_edges_round_trip (cd : ChunkData) (c : list string)
    (list_x_y : list Z)
    (region_fill mask_layer mask_trigger region_line offset_x offset_y : Z) :
  let n := num_chunks cd in
  let vs := vertices list_x_y in
  cd_terminated cd ->
  Z.of_nat (length list_x_y) mod 2 = 0 ->
  n + Z.of_nat (length vs) <= 191 ->
  1 <= mask_layer <= 15 -> 0 <= mask_trigger <= 15 ->
  fits_h region_fill -> fits_h region_line ->
  Forall (fun p => fits_h (p.1 + offset_x) /\ fits_h (p.2 + offset_y)) vs ->
  exists cd',
    (add_loop region_fill mask_layer mask_trigger ;;;
     loop_add_edge_batch list_x_y region_line offset_x offset_y) cd c =
    Returns tt cd' c /\
    cd_terminated cd' /\
    num_chunks cd' = n + 1 + Z.of_nat (length vs) /\
    chunk_is_loop (n - 1) cd' c = Returns true cd' c /\
    fld cd' (4 * (n - 1) + I_CHUNK_LOOP_REGION_FILL) = region_fill /\
    fld cd' (4 * (n - 1) + I_CHUNK_LOOP_NUM_EDGES) = Z.of_nat (length vs) /\
    (forall i, 0 <= i < 4 * (n - 1) -> fld cd' i = fld cd i) /\
    (forall (k : nat) (x y x' y' : Z),
       vs !! k = Some (x, y) ->
       vs !! ((k + 1) mod length vs)%nat = Some (x', y') ->
       chunk_edge_get_endpoints (n + Z.of_nat k) cd' c =
       Returns (x + offset_x, y + offset_y, x' + offset_x, y' + offset_y)
         cd' c).
Proof.
  intros n vs Hcd Hev Hroom Hl Ht Hrf Hrl Hfit.
  pose proof Hcd as (Hlen & Hn & Hlast & Hcount).
  destruct (add_loop_opens cd c region_fill mask_layer mask_trigger
              offset_x offset_y Hcd ltac:(fold n; lia) Hl Ht Hrf)
    as (cd1 & E1 & O1 & R1 & K1).
  fold n in O1, R1, K1.
  unfold bind at 1. rewrite E1.
  unfold loop_add_edge_batch. cbv zeta.
  rewrite Hev. cbn [Z.eqb negb].
  rewrite batch_count by exact Hev. fold vs.
  destruct (batch_fold list_x_y region_line offset_x offset_y n
              ltac:(lia) Hrl Hfit (length vs) 0%nat cd1 c O1
              ltac:(fold vs; lia) ltac:(fold vs; lia))
    as (cd2 & E2 & O2 & R2 & K2).
  fold vs in O2. cbn [Nat.add] in O2. rewrite firstn_all in O2.
  exists cd2. split; [exact E2|].
  pose proof O2 as (Hlen2 & Hnum2 & Hlast2 & Hhead2 & Hcount2 & Hedges2
                    & Hterm2 & Hzero2 & Hback2).
  split.
  { unfold cd_terminated, I_CHUNK_LOOP_NUM_EDGES.
    split; [exact Hlen2|]. split; [lia|]. split; [lia|].
    rewrite Hnum2.
    replace (4 * (n + 1 + Z.of_nat (length vs) - 1) + 2)
      with (4 * (n + Z.of_nat (length vs)) + 2) by lia.
    exact Hzero2. }
  split; [exact Hnum2|].
  split; [eapply open_chunk_is_loop; [exact O2 | lia | lia]|].
  split; [unfold I_CHUNK_LOOP_REGION_FILL; congruence|].
  split; [exact Hcount2|].
  split; [intros i Hi; rewrite K2, K1 by lia; reflexivity|].
  intros k x y x' y' Hk Hk'.
  eapply open_edge_endpoints; [exact O2 | lia | lia | exact Hk | exact Hk'].
Qed.

Lemma loop_edges_round_trip_witness :
  exists cd',
    (add_loop MGS_REGION_FAIRWAY 1 0 ;;;
     loop_add_edge_batch [0; 0; 3; 0; 3; 2] MGS_REGION_WALL 10 20) x14_cd [] =
    Returns tt cd' [] /\
    chunk_edge_get_endpoints 3 cd' [] = Returns (13, 22, 10, 20) cd' [].
Proof.
  destruct (loop_edges_round_trip x14_cd [] [0; 0; 3; 0; 3; 2]
              MGS_REGION_FAIRWAY 1 0 MGS_REGION_WALL 10 20)
    as (cd' & E & _ & _ & _ & _ & _ & _ & Q).
  - vm_compute. repeat split; (reflexivity || discriminate).
  - reflexivity.
  - vm_compute. discriminate.
  - lia.
  - lia.
  - vm_compute. split; discriminate.
  - vm_compute. split; discriminate.
  - repeat constructor; vm_compute; discriminate.
  - exists cd'. split; [exact E|].
    apply (Q 2%nat 3 2 0 0); reflexivity.
Defined.
(** X15. [copy_fill_bytes_shift] moves the 8 by 8 pattern with wrapping:
    the pixel of column [i] and row [b] of the source is, in the
    destination, the pixel of column [(i + delta_x) mod 8] and row
    [(b + delta_y) mod 8], for any deltas, negative ones too. The eight
    destination bytes are bytes, and nothing beyond them is written. *)
Theorem copy_fill_shift_moves_pixels (src dst : list Z)
    (delta_x delta_y i b : Z) :
  (8 <= length dst)%nat -> 0 <= i < 8 -> 0 <= b < 8 ->
  let r := copy_fill_bytes_shift src dst delta_x delta_y in
  Z.testbit (peek r ((i + delta_x) mod 8)) ((b + delta_y) mod 8) =
  Z.testbit (peek src i) b /\
  0 <= peek r i < 256 /\
  length r = length dst /\
  (forall j, 8 <= j -> peek r j = peek dst j).
Proof.
  intros Hlen Hi Hb. cbv zeta. unfold copy_fill_bytes_shift. cbv zeta.
  rewrite !land7_i32.
  assert (Hdx : 0 <= delta_x mod 8 < 8) by (apply Z.mod_pos_bound; lia).
  assert (Hdy : 0 <= delta_y mod 8 < 8) by (apply Z.mod_pos_bound; lia).
  set (g := fun i_src : Z => store8 (load8 src i_src)).
  set (h := fun v : Z =>
              store8 (Z.land (Z.lor (v <<! (delta_y mod 8))
                                (Z.shiftr (v <<! (delta_y mod 8)) 8)) 0xff)).
  set (r1 := foldl _ dst _).
  assert (Hx : forall i', 0 <= i' < 8 ->
            peek r1 ((i' + delta_x mod 8) mod 8) = g i' /\
            length r1 = length dst /\
            (forall j, 8 <= j -> peek r1 j = peek dst j)).
  { intros i' Hi'. exact (shift_x_loop g dst (delta_x mod 8) i' Hlen Hdx Hi'). }
  destruct (Hx i Hi) as (Px & Lx & Kx).
  assert (Hlen1 : (8 <= length r1)%nat) by lia.
  set (t := (i + delta_x) mod 8).
  assert (Ht : 0 <= t < 8) by (apply Z.mod_pos_bound; lia).
  assert (Et : (i + delta_x mod 8) mod 8 = t)
    by (subst t; apply Zplus_mod_idemp_r).
  rewrite Et in Px.
  destruct (shift_y_loop h r1 t Hlen1 Ht) as (Py & Ly & Ky).
  destruct (shift_y_loop h r1 i Hlen1 Hi) as (Py' & _ & _).
  cbv zeta in Py, Ly, Ky, Py'.
  match goal with
  | |- context [foldl ?f r1 ?l] =>
      change (foldl f r1 l)
        with (foldl (fun dst0 i_dst => poke dst0 i_dst (h (load8 dst0 i_dst)))
                r1 (map Z.of_nat (seq 0 8)))
  end.
  split.
  - rewrite Py. unfold load8 at 1. rewrite Px. subst g h. cbv beta.
    unfold load8.
    rewrite <- (rotate_byte_bit (peek src i) (delta_y mod 8) b Hdy Hb).
    cbv zeta. rewrite Zplus_mod_idemp_r. reflexivity.
  - split.
    + rewrite Py'. subst h. cbv beta. unfold store8.
      change 255 with (Z.ones 8). rewrite (Z.land_ones _ 8) by lia.
      apply Z.mod_pos_bound. lia.
    + split; [lia|]. intros j Hj. rewrite Ky, Kx by lia. reflexivity.
Qed.

Lemma copy_fill_shift_moves_pixels_witness :
  Z.testbit (peek (copy_fill_bytes_shift [1; 0; 0; 0; 0; 0; 0; 0]
                     (replicate 8 0) 3 10) 3) 2 = true.
Proof.
  pose proof (copy_fill_shift_moves_pixels [1; 0; 0; 0; 0; 0; 0; 0]
                (replicate 8 0) 3 10 0 0) as H.
  cbv zeta in H.
  destruct H as [H _]; [cbn; lia | lia | lia |].
  exact H.
Defined.
(** X16. [fill_or_column_mask_unchecked] on two display buffers of [width]
    columns and [rows] bytes a column, for a column and rows [y0] to [y1]
    inside them: a pixel of the column in those rows is set where the fill
    mask has its row modulo 8 set; it also stays set if it was, except in
    the bytes wholly inside the range, which are overwritten. Every other
    pixel is as it was, and the buffers keep their lengths. *)
Theorem fill_column_pixels (buf0 buf1 : list Z)
    (x y0 y1 width rows fill_mask0 fill_mask1 : Z) :
  0 < width -> 0 <= x < width -> 0 <= y0 <= y1 -> y1 < 8 * rows ->
  Z.of_nat (length buf0) = width * rows ->
  Z.of_nat (length buf1) = width * rows ->
  width * rows < 0x80000000 ->
  let r := fill_or_column_mask_unchecked buf0 buf1 x y0 y1 width fill_mask0
             fill_mask1 in
  length r.1 = length buf0 /\ length r.2 = length buf1 /\
  forall x' y', 0 <= x' < width -> 0 <= y' ->
    let inside := (x' =? x) && (y0 <=? y') && (y' <=? y1) in
    let middle := (y0 / 8 <? y' / 8) && (y' / 8 <? y1 / 8) in
    pixel r.1 width x' y' =
    (if inside
     then Z.testbit fill_mask0 (y' mod 8)
          || (negb middle && pixel buf0 width x' y')
     else pixel buf0 width x' y') /\
    pixel r.2 width x' y' =
    (if inside
     then Z.testbit fill_mask1 (y' mod 8)
          || (negb middle && pixel buf1 width x' y')
     else pixel buf1 width x' y').
Proof.
  intros Hw Hx Hy Hy1 Hl0 Hl1 Hbig.
  destruct (row_split y0 ltac:(lia)) as (S0 & M0 & D0 & R0 & Q0).
  destruct (row_split y1 ltac:(lia)) as (S1 & M1 & D1 & R1 & Q1).
  set (yb0 := y0 / 8) in *. set (yb1 := y1 / 8) in *.
  set (ym0 := y0 mod 8) in *. set (ym1 := y1 mod 8) in *.
  assert (Hb01 : yb0 <= yb1) by lia.
  assert (Hrows : yb1 < rows) by lia.
  assert (Hi1 : 0 <= x + width * yb1 < width * rows).
  { assert (width * (yb1 + 1) <= width * rows)
      by (apply Z.mul_le_mono_nonneg_l; lia).
    assert (0 <= width * yb1) by (apply Z.mul_nonneg_nonneg; lia). lia. }
  assert (Hi0 : 0 <= x + width * yb0 <= x + width * yb1).
  { assert (width * yb0 <= width * yb1)
      by (apply Z.mul_le_mono_nonneg_l; lia).
    assert (0 <= width * yb0) by (apply Z.mul_nonneg_nonneg; lia). lia. }
  cbv zeta. unfold fill_or_column_mask_unchecked. cbv zeta.
  rewrite S0, S1, M0, M1. fold yb0 yb1 ym0 ym1.
  rewrite (i32_small (width * yb0)) by lia.
  rewrite (i32_small (x + width * yb0)) by lia.
  destruct (Z.eqb_spec yb0 yb1) as [Heq|Hne].
  - (* within one byte *)
    cbn [fst snd]. rewrite !length_or8.
    split; [reflexivity|]. split; [reflexivity|].
    intros x' y' Hx' Hy'.
    destruct (row_split y' Hy') as (S' & M' & D' & R' & Q').
    unfold pixel. rewrite S', M'.
    set (b' := y' / 8) in *. set (k := y' mod 8) in *.
    rewrite !peek_or8 by lia.
    destruct (Z.ltb_spec yb0 b') as [Hlo|Hlo];
      destruct (Z.ltb_spec b' yb1) as [Hhi|Hhi]; try lia; cbn [andb negb];
      (destruct (Z.eqb_spec (x' + width * b') (x + width * yb0)) as [E|E];
       [ apply index_inj in E; [|lia|lia]; destruct E as [-> E];
         rewrite !or_byte_bit by lia;
         rewrite (mask_within ym0 ym1 k) by lia;
         rewrite Z.eqb_refl; cbn [andb];
         destruct (Z.leb_spec ym0 k), (Z.leb_spec k ym1),
           (Z.leb_spec y0 y'), (Z.leb_spec y' y1); try lia; cbn [andb];
         rewrite ?E; bool_finish
       | destruct (Z.eqb_spec x' x) as [->|Hxx]; cbn [andb];
         [ destruct (Z.leb_spec y0 y'), (Z.leb_spec y' y1); cbn [andb];
           try (split; reflexivity);
           exfalso; apply E; f_equal; f_equal; lia
         | split; reflexivity ] ]).
  - (* first byte, middle bytes, last byte *)
    rewrite (i32_small (width * yb1)) by lia.
    rewrite (i32_small (x + width * yb1)) by lia.
    assert (Hnext : x + width * yb0 +! width = x + width * (yb0 + 1)).
    { rewrite i32_small; [lia|].
      assert (width * (yb0 + 1) <= width * yb1)
        by (apply Z.mul_le_mono_nonneg_l; lia). lia. }
    rewrite Hnext.
    set (f0 := or8 buf0 _ _). set (f1 := or8 buf1 _ _).
    pose proof (fill_middle_spec fill_mask0 fill_mask1 width x yb1
                  (Z.to_nat (yb1 - yb0)) f0 f1 (yb0 + 1) Hw Hx
                  ltac:(lia) ltac:(lia) ltac:(lia)
                  ltac:(subst f0; rewrite length_or8; lia)
                  ltac:(subst f1; rewrite length_or8; lia)) as Hmid.
    cbv zeta in Hmid.
    destruct (fill_middle _ f0 f1 _ _ _ _ _) as [[m0 m1] i].
    cbn [fst snd] in Hmid. destruct Hmid as (-> & Lm0 & Lm1 & Pm).
    assert (Lz0 : Z.of_nat (length m0) = width * rows)
      by (rewrite Lm0; subst f0; rewrite length_or8; exact Hl0).
    assert (Lz1 : Z.of_nat (length m1) = width * rows)
      by (rewrite Lm1; subst f1; rewrite length_or8; exact Hl1).
    cbn [fst snd]. rewrite !length_or8, Lm0, Lm1.
    subst f0 f1. rewrite !length_or8.
    split; [reflexivity|]. split; [reflexivity|].
    intros x' y' Hx' Hy'.
    destruct (row_split y' Hy') as (S' & M' & D' & R' & Q').
    unfold pixel. rewrite S', M'.
    set (b' := y' / 8) in *. set (k := y' mod 8) in *.
    rewrite !peek_or8 by lia.
    destruct (Pm x' b' Hx') as [P0 P1]. destruct (Pm x yb1 Hx) as [L0 L1].
    rewrite Z.eqb_refl in L0, L1.
    destruct (Z.ltb_spec yb1 yb1) as [?|_]; [lia|].
    rewrite andb_false_r in L0, L1.
    rewrite P0, P1, L0, L1. clear P0 P1 L0 L1 Pm.
    rewrite !peek_or8 by lia.
    destruct (Z.eqb_spec (x + width * yb1) (x + width * yb0)) as [E|_];
      [apply index_inj in E; lia|].
    destruct (Z.eqb_spec x' x) as [->|Hxx]; cbn [andb].
    + destruct (Z.eqb_spec (x + width * b') (x + width * yb1)) as [E|E].
      * (* the last byte *)
        apply index_inj in E; [|lia|lia]. destruct E as [_ E].
        rewrite !or_byte_bit by lia. rewrite (mask_last ym1 k) by lia.
        rewrite E.
        destruct (Z.ltb_spec yb0 yb1); [|lia].
        destruct (Z.ltb_spec yb1 yb1); [lia|]. cbn [andb negb].
        destruct (Z.leb_spec k ym1), (Z.leb_spec y0 y'), (Z.leb_spec y' y1);
          try lia; cbn [andb];
          bool_finish.
      * assert (Hb1 : b' <> yb1) by (intros ->; apply E; reflexivity).
        destruct (Z.leb_spec (yb0 + 1) b') as [Hm|Hm];
          destruct (Z.ltb_spec b' yb1) as [Hm'|Hm']; cbn [andb].
        -- (* a middle byte *)
           rewrite !store_byte_bit by lia.
           destruct (Z.ltb_spec yb0 b'); [|lia]. cbn [andb negb].
           destruct (Z.leb_spec y0 y'), (Z.leb_spec y' y1); try lia.
           cbn [andb]. bool_finish.
        -- (* below the fill *)
           destruct (Z.eqb_spec (x + width * b') (x + width * yb0)) as [E0|_];
             [apply index_inj in E0; lia|].
           destruct (Z.leb_spec y0 y'), (Z.leb_spec y' y1); try lia;
             cbn [andb]; split; reflexivity.
        -- destruct (Z.eqb_spec (x + width * b') (x + width * yb0))
             as [E0|E0].
           ++ (* the first byte *)
              apply index_inj in E0; [|lia|lia]. destruct E0 as [_ E0].
              rewrite !or_byte_bit by lia. rewrite (mask_first ym0 k) by lia.
              rewrite E0.
              destruct (Z.ltb_spec yb0 yb0); [lia|]. cbn [andb negb].
              destruct (Z.leb_spec ym0 k), (Z.leb_spec y0 y'),
                (Z.leb_spec y' y1); try lia; cbn [andb];
                bool_finish.
           ++ (* above the fill *)
              assert (b' <> yb0) by (intros ->; apply E0; reflexivity).
              destruct (Z.leb_spec y0 y'), (Z.leb_spec y' y1); try lia;
                cbn [andb]; split; reflexivity.
        -- lia.
    + cbn [andb].
      destruct (Z.eqb_spec (x' + width * b') (x + width * yb1)) as [E|_];
        [apply index_inj in E; lia|].
      destruct (Z.eqb_spec (x' + width * b') (x + width * yb0)) as [E|_];
        [apply index_inj in E; lia|].
      split; reflexivity.
Qed.

Lemma fill_column_pixels_witness :
  pixel (fill_or_column_mask_unchecked (replicate 12 0) (replicate 12 0)
           1 5 18 4 0xaa 0xff).1 4 1 9 = true /\
  pixel (fill_or_column_mask_unchecked (replicate 12 0) (replicate 12 0)
           1 5 18 4 0xaa 0xff).2 4 1 19 = false.
Proof.
  destruct (fill_column_pixels (replicate 12 0) (replicate 12 0)
              1 5 18 4 3 0xaa 0xff) as (_ & _ & P);
    [lia | lia | lia | lia | reflexivity | reflexivity | lia |].
  split.
  - destruct (P 1 9 ltac:(lia) ltac:(lia)) as [P0 _]. exact P0.
  - destruct (P 1 19 ltac:(lia) ltac:(lia)) as [_ P1]. exact P1.
Defined.
(** X17. At scale 1 and with the rotation a multiple of a quarter turn,
    [screen_to_world_f10] undoes [world_to_screen_f10] exactly, whatever the
    screen translation, for world coordinates and translations of at most
    2^20 in size (so that no 32-bit product wraps). *)
Theorem screen_to_world_inverts (t : TransformedRasterizer) (xw yw : Z) :
  scale_f10 t = 1024 -> inv_scale_f10 t = 1024 -> quarter_turn t ->
  -0x100000 <= translate_screen_x t <= 0x100000 ->
  -0x100000 <= translate_screen_y t <= 0x100000 ->
  -0x100000 <= xw <= 0x100000 -> -0x100000 <= yw <= 0x100000 ->
  let '(xs, ys) := world_to_screen_f10 t xw yw in
  screen_to_world_f10 t xs ys = (xw, yw).
Proof.
  intros Hs Hi Hq Htx Hty Hx Hy.
  unfold world_to_screen_f10, screen_to_world_f10. cbv zeta.
  rewrite Hs, Hi.
  rewrite (round_times_1024 xw Hx), (round_times_1024 yw Hy).
  destruct (quarter_rotate xw yw (cos_f10 t) (sin_f10 t) Hq Hx Hy) as [R1 R2].
  rewrite R1, R2.
  set (p := xw * (cos_f10 t / 1024) - yw * (sin_f10 t / 1024)).
  set (q := xw * (sin_f10 t / 1024) + yw * (cos_f10 t / 1024)).
  assert (Hp : -0x100000 <= p <= 0x100000 /\ -0x100000 <= q <= 0x100000 /\
               q * (sin_f10 t / 1024) + p * (cos_f10 t / 1024) = xw /\
               q * (cos_f10 t / 1024) - p * (sin_f10 t / 1024) = yw).
  { subst p q.
    destruct Hq as [[-> ->]|[[-> ->]|[[-> ->]|[-> ->]]]];
      change (1024 / 1024) with 1; change (0 / 1024) with 0;
      change (-1024 / 1024) with (-1); lia. }
  destruct Hp as (Hp & Hq' & Ex & Ey).
  rewrite (i32_small (translate_screen_x t)),
    (i32_small (translate_screen_y t)) by lia.
  rewrite !Z.shiftl_mul_pow2 by lia. change (2 ^ 10) with 1024.
  rewrite (i32_small (translate_screen_x t * 1024)),
    (i32_small (translate_screen_y t * 1024)) by lia.
  rewrite (i32_small (p + _)), (i32_small (q + _)) by lia.
  rewrite (i32_small (p + _)), (i32_small (q + _)) by lia.
  replace (p + translate_screen_x t * 1024 - translate_screen_x t * 1024)
    with p by lia.
  replace (q + translate_screen_y t * 1024 - translate_screen_y t * 1024)
    with q by lia.
  rewrite (i32_small p), (i32_small q) by lia.
  destruct (quarter_rotate q p (cos_f10 t) (sin_f10 t) Hq Hq' Hp) as [S1 S2].
  rewrite S1, S2, Ex, Ey.
  rewrite <- (i32_small xw) at 1 by lia. rewrite <- (i32_small yw) at 1 by lia.
  rewrite (round_times_1024 xw Hx), (round_times_1024 yw Hy). reflexivity.
Qed.

Lemma screen_to_world_inverts_witness :
  let t := tr_with_translate
             (tr_with_angle (tr_init [] [] (state_of cd_new)) 90 0 1024)
             36 20 in
  world_to_screen_f10 t 5000 (-3000) = (39864, 25480) /\
  screen_to_world_f10 t 39864 25480 = (5000, -3000).
Proof.
  cbv zeta. split; [reflexivity|].
  apply (screen_to_world_inverts
           (tr_with_translate
              (tr_with_angle (tr_init [] [] (state_of cd_new)) 90 0 1024)
              36 20) 5000 (-3000)).
  - reflexivity.
  - reflexivity.
  - right; left; split; reflexivity.
  - cbn; lia.
  - cbn; lia.
  - lia.
  - lia.
Defined.
(** X18. On chunk data of the full size in which every edge chunk has its
    endpoints, [_update_derived] returns and keeps the chunks; afterwards
    the bounding box holds the begin vertex of every edge, and the normal
    stored for an edge is [normal_inward_wd] of its endpoints. *)
Theorem update_derived_box `{FloatNormal} (cd : ChunkData)
    (c : list string) :
  length (arr_chunk_data cd) = 768%nat ->
  length (arr_chunk_normal_wd cd) = 192%nat ->
  0 <= num_chunks cd <= 192 ->
  (forall i, 0 <= i < num_chunks cd ->
     chunk_is_loop i cd c = Returns false cd c ->
     exists e, chunk_edge_get_endpoints i cd c = Returns e cd c) ->
  exists cd',
    _update_derived cd c = Returns tt cd' c /\
    same_chunks cd cd' /\
    forall i x y xe ye,
      chunk_edge_get_endpoints i cd' c = Returns (x, y, xe, ye) cd' c ->
      0 <= i ->
      xw_lo cd' <= x <= xw_hi cd' /\ yw_lo cd' <= y <= yw_hi cd' /\
      arr_chunk_normal_wd cd' !! Z.to_nat i =
      Some (normal_inward_wd x y xe ye).
Proof.
  intros Hlen Hl Hn Hedges.
  unfold _update_derived, bind at 1, get.
  destruct (update_derived_loop_spec cd c Hlen ltac:(lia) Hedges
              (map Z.of_nat (seq 0 (Z.to_nat (num_chunks cd))))
              (Z.shiftl 1 20, Z.shiftl 1 20, - Z.shiftl 1 20, - Z.shiftl 1 20)
              cd ltac:(split; reflexivity) Hl)
    as (box' & cd1 & E & S & L & G & K & P).
  { apply Forall_forall. intros i Hi. apply list_elem_of_In in Hi.
    apply in_map_iff in Hi as (k & <- & Hk). apply in_seq in Hk. lia. }
  { apply NoDup_fmap_2; [intros ? ? ?; lia | apply NoDup_seq]. }
  unfold bind at 1. rewrite E. unfold bind, get, put.
  eexists. split; [reflexivity|].
  destruct box' as [[[x_lo y_lo] x_hi] y_hi].
  assert (S' : same_chunks cd
                 (cd_with_box cd1 (x_lo, y_lo, x_hi, y_hi))) by exact S.
  split; [exact S'|].
  intros i x y xe ye Ei Hi.
  assert (S'' : same_chunks (cd_with_box cd1 (x_lo, y_lo, x_hi, y_hi)) cd)
    by (destruct S' as [? ?]; split; congruence).
  pose proof (chunk_edge_get_endpoints_same _ cd c i _ S'' Ei) as Ei0.
  assert (Hin : In i (map Z.of_nat (seq 0 (Z.to_nat (num_chunks cd))))).
  { apply in_map_iff. exists (Z.to_nat i). split; [lia|]. apply in_seq.
    revert Ei0. unfold chunk_edge_get_endpoints, bind at 1, get.
    destruct (Z.leb_spec (num_chunks cd) i); [intros; discriminate|]. lia. }
  destruct (P i x y xe ye Hin Ei0) as [B N].
  cbn in B |- *. split; [lia|]. split; [lia|]. exact N.
Qed.

Lemma update_derived_box_witness :
  exists cd',
    _update_derived x18_cd [] = Returns tt cd' [] /\
    xw_lo cd' <= 13 <= xw_hi cd' /\ yw_lo cd' <= 22 <= yw_hi cd'.
Proof.
  destruct (update_derived_box x18_cd []) as (cd' & E & S & P).
  - reflexivity.
  - reflexivity.
  - vm_compute. split; discriminate.
  - intros i Hi. change (num_chunks x18_cd) with 5 in Hi.
    assert (i = 0 \/ i = 1 \/ i = 2 \/ i = 3 \/ i = 4) as
      [->|[->|[->|[->| ->]]]] by lia;
      intros L; try (vm_compute in L; discriminate);
      eexists; vm_compute; reflexivity.
  - exists cd'. split; [exact E|].
    destruct (P 3 13 22 10 20) as (Bx & By & _); [|lia|split; assumption].
    apply (chunk_edge_get_endpoints_same x18_cd cd' [] 3 _ S).
    vm_compute. reflexivity.
Defined.
(** X19. A ball that stays where it is, within a world unit of its running
    average in x and in y, is marked stopped by [_update_stopped_tracking]
    once its time near the average passes 500 ms, for frames of at most
    341 ms each; the tracking does not move the ball, and the time near the
    average is the sum of the frames. *)
Theorem resting_ball_stops (frames : list Z) (b : BallState) :
  Forall (fun d => 0 <= d <= 341) frames -> frames <> [] ->
  Z.abs (xw_f10 b - xw_exp_avg_f10 b) < 1024 ->
  Z.abs (yw_f10 b - yw_exp_avg_f10 b) < 1024 ->
  500 < ms_below_stop_threshold b + foldr Z.add 0 frames ->
  let b' := track_frames frames b in
  is_stopped b' = true /\
  xw_f10 b' = xw_f10 b /\ yw_f10 b' = yw_f10 b /\
  ms_below_stop_threshold b' =
    ms_below_stop_threshold b + foldr Z.add 0 frames.
Proof.
  intros Hf Hne Hx Hy Hlong.
  destruct (track_frames_spec frames b Hf Hx Hy)
    as (Px & Py & _ & _ & Ms & _ & Stop).
  cbv zeta in *. auto.
Qed.

Lemma resting_ball_stops_witness :
  is_stopped (track_frames (replicate 15 33) x19_ball) = true.
Proof.
  apply (resting_ball_stops (replicate 15 33) x19_ball).
  - repeat constructor; lia.
  - discriminate.
  - cbn; lia.
  - cbn; lia.
  - cbn; lia.
Defined.
